(** * MTMalloc: a shallow embedding of the small-object allocator

    The development follows [mtmalloc.h] and the headers it includes
    ([mtmalloc_util.h], [mtmalloc_size_classes.h], [mtmalloc_shadow.h],
    [mtmalloc_tags.h], [mtmalloc_config.h]) and the C entry points of
    [mtmalloc.cpp].  Machine integers are [Z] with the wrap-around of their
    width written out; memory is a byte store indexed by address; a [TRAP()],
    a failed [assert] and [__builtin_trap()] are the [None] of an option. *)

From Stdlib Require Import ZArith List Lia Bool.
From Stdlib Require String.
Import ListNotations.
Local Open Scope Z_scope.

(** ** Fixed-width integers *)

Definition u8 (x : Z) : Z := x mod 2 ^ 8.
Definition u32 (x : Z) : Z := x mod 2 ^ 32.
Definition u64 (x : Z) : Z := x mod 2 ^ 64.

(** [(size_t)-1], the failure value of the [FindByte_*] family. *)
Definition kNotFound : Z := 2 ^ 64 - 1.

(** ** mtmalloc_util.h *)

Definition RoundUpTo (size boundary : Z) : Z :=
  Z.land (u64 (size + boundary - 1)) (Z.lnot (u64 (boundary - 1))).

Definition RoundDownTo (x boundary : Z) : Z :=
  Z.land x (Z.lnot (u64 (boundary - 1))).

Definition IsAligned (a alignment : Z) : bool :=
  Z.land a (u64 (alignment - 1)) =? 0.

(** ** mtmalloc_size_classes.h *)

Definition SCArray : list Z :=
  [ 1 * 16; 2 * 16;  3 * 16;  4 * 16;  5 * 16;  6 * 16;  7 * 16;  8 * 16;
    9 * 16; 10 * 16; 11 * 16; 12 * 16; 13 * 16; 14 * 16; 15 * 16; 16 * 16;
    272;    288;     336;     368;     448;     480;     512;     576;
    640;    704;     768;     896;     1024;    1152;    1280;    1408;
    1536;   1792;    2048;    2304;    2688;    2816;    3200;    3456;
    3584;   4096;    4736;    5376;    6144;    6528;    7168;    8192;
    9216;   10240;   12288;   14336;   16384;   20480;   24576;   28672;
    32768;  40960;   49152;   57344;   65536;   73728;   81920;   98304;
    131072;  172032;  262144 ].

Definition kNumSizeClasses : Z := Z.of_nat (length SCArray).
Definition kMaxSizeClass : Z := nth (length SCArray - 1) SCArray 0.

(** ** mtmalloc.h: constants *)

Definition kSuperPageSize : Z := Z.shiftl 1 19.
Definition kAllocatorSpace : Z := 0x600000000000.
Definition kAllocatorSize : Z := 0x10000000000.
Definition kPrimaryMetaSpace : Z := 0x700000000000.
Definition kPrimaryMetaSize : Z := kAllocatorSize / kSuperPageSize.
Definition kSecondRangeMeta : Z := 0x710000000000.
Definition kNumSizeClassRanges : Z := 2.
Definition kSizeAlignmentForSecondRange : Z := 1024.

Definition kMeta (RangeNum : Z) : Z :=
  if RangeNum =? 0 then kPrimaryMetaSpace
  else kPrimaryMetaSpace + kPrimaryMetaSize / 2.

Definition kFirstSuperPage (RangeNum : Z) : Z :=
  if RangeNum =? 0 then kAllocatorSpace
  else kAllocatorSpace + kAllocatorSize / 2.

Definition kSizeOfLocalQuarantine : Z := Z.shiftl 1 20.

(** ** Size-class descriptors *)

(** The bit-field struct [SizeClassDescr]: 1 + 15 + 16 + 32 bits.  Stores
    into a field truncate to its width; [InitAll] below writes them so. *)
Record SizeClassDescr : Type := mkSCD {
  RangeNum : Z;
  NumChunks : Z;
  ChunkSizeDiv16 : Z;
  ChunkSizeMulDiv : Z
}.

Definition ChunkSize (d : SizeClassDescr) : Z := ChunkSizeDiv16 d * 16.

(** A zero-initialised descriptor (a global before [InitAll] ran). *)
Definition SCD0 : SizeClassDescr := mkSCD 0 0 0 0.

Definition SCDescrAt (SCDescr : list SizeClassDescr) (i : Z) : SizeClassDescr :=
  nth (Z.to_nat i) SCDescr SCD0.

(** [SizeToSizeClass]: the returned pair is the class index [SC.v] and the
    descriptor stored through the reference parameter [SCD]. *)
Fixpoint SizeToSizeClass_loop (SCDescr : list SizeClassDescr)
    (fuel : nat) (Idx Size : Z) : option Z :=
  match fuel with
  | O => None
  | S fuel' =>
      if Size <=? ChunkSize (SCDescrAt SCDescr Idx) then Some Idx
      else SizeToSizeClass_loop SCDescr fuel' (u8 (Idx + 1)) Size
  end.

Definition SizeToSizeClass (SCDescr : list SizeClassDescr) (Size : Z)
  : Z * SizeClassDescr :=
  if Size <=? 256 then
    let SC := u8 (u64 (u64 (Size + 15) / 16 - 1)) in
    (SC, SCDescrAt SCDescr SC)
  else
    match SizeToSizeClass_loop SCDescr (Z.to_nat kNumSizeClasses) 0 Size with
    | Some Idx => (Idx, SCDescrAt SCDescr Idx)
    | None => (0, SCDescrAt SCDescr 0)  (* may happen on the first call *)
    end.

Definition SizeClassToSize (SCDescr : list SizeClassDescr) (sc : Z) : Z :=
  ChunkSize (SCDescrAt SCDescr sc).

(** ** Division by the chunk size through a multiplication *)

Definition kDivMulShift : Z := 35.

Definition ComputeMulForDiv (Div Shift : Z) : Z :=
  let Mul := u32 (Z.shiftl 1 Shift / Div) in
  if Z.land Div (u32 (Div - 1)) =? 0 then Mul else u32 (Mul + 1).

(** The loop [for (uint64_t Left = 1; Left <= MaxLeft; Left++)]; [fuel] is
    the number of iterations still to run. *)
Fixpoint IsCorrectDivToMul_loop (fuel : nat) (Left Div Mul Shift : Z) : bool :=
  match fuel with
  | O => true
  | S fuel' =>
      let D1 := u32 (Left / Div) in
      let D2 := u32 (Z.shiftr (u64 (Left * Mul)) Shift) in
      if D1 =? D2 then IsCorrectDivToMul_loop fuel' (Left + 1) Div Mul Shift
      else false
  end.

Definition IsCorrectDivToMul (Div Mul Shift MaxLeft : Z) : bool :=
  IsCorrectDivToMul_loop (Z.to_nat MaxLeft) 1 Div Mul Shift.

Definition DivBySizeViaMul (Left DivMul : Z) : Z :=
  let T := u32 Left in
  u32 (Z.shiftr (u64 (T * u32 DivMul)) kDivMulShift).

Definition kStateArrayAlignment : Z := 32.

Definition SizeOfInlineMeta (NumChunks RangeNum : Z) : Z :=
  if RangeNum =? 1 then 0 else RoundUpTo NumChunks kStateArrayAlignment.

(** The downward search of [ComputeNumChunks]; running out of candidates is
    the [__builtin_trap()] after the loop. *)
Fixpoint ComputeNumChunks_loop (fuel : nat) (NumChunks ChunkSize RangeNum : Z)
  : option Z :=
  match fuel with
  | O => None
  | S fuel' =>
      if SizeOfInlineMeta NumChunks RangeNum + NumChunks * ChunkSize
         <=? kSuperPageSize
      then Some NumChunks
      else ComputeNumChunks_loop fuel' (NumChunks - 1) ChunkSize RangeNum
  end.

Definition ComputeNumChunks (ChunkSize RangeNum : Z) : option Z :=
  let Approx := kSuperPageSize / ChunkSize in
  ComputeNumChunks_loop (Z.to_nat Approx) Approx ChunkSize RangeNum.

(** ** Allocator::InitAll, the size-class part *)

(** [while (!IsCorrectDivToMul(...)) ChunkSize += 1024]: the loop has no
    bound of its own, so the model counts its iterations with [fuel]. *)
Fixpoint FixUpChunkSize (fuel : nat) (ChunkSize : Z) : option Z :=
  match fuel with
  | O => None
  | S fuel' =>
      if IsCorrectDivToMul (u32 ChunkSize)
           (ComputeMulForDiv (u32 ChunkSize) kDivMulShift)
           kDivMulShift kSuperPageSize
      then Some ChunkSize
      else FixUpChunkSize fuel' (u64 (ChunkSize + kSizeAlignmentForSecondRange))
  end.

(** One iteration of the [for] loop of [InitAll]: the descriptor written
    to [SCDescr[i]].  The three [assert]s abort the process. *)
Definition InitSizeClass (fuel : nat) (SCArray_i : Z) : option SizeClassDescr :=
  match FixUpChunkSize fuel SCArray_i with
  | None => None
  | Some ChunkSize =>
      if negb (ChunkSize mod 16 =? 0) then None
      else if negb (ChunkSize / 16 <? Z.shiftl 1 16) then None
      else
        let RangeNum :=
          (if ChunkSize mod kSizeAlignmentForSecondRange =? 0 then 1 else 0) in
        let ChunkSizeDiv16 := (ChunkSize / 16) mod 2 ^ 16 in
        match ComputeNumChunks ChunkSize RangeNum with
        | None => None
        | Some N =>
            let NumChunks := N mod 2 ^ 15 in
            let ChunkSizeMulDiv :=
              u32 (ComputeMulForDiv (u32 ChunkSize) kDivMulShift) in
            if IsCorrectDivToMul (u32 ChunkSize) ChunkSizeMulDiv
                 kDivMulShift kSuperPageSize
            then Some (mkSCD RangeNum NumChunks ChunkSizeDiv16 ChunkSizeMulDiv)
            else None
        end
  end.

Fixpoint InitSizeClasses (fuel : nat) (l : list Z) : option (list SizeClassDescr) :=
  match l with
  | [] => Some []
  | c :: l' =>
      match InitSizeClass fuel c with
      | None => None
      | Some d =>
          match InitSizeClasses fuel l' with
          | None => None
          | Some ds => Some (d :: ds)
          end
      end
  end.

(** The table [SCDescr] after [InitAll]. *)
Definition InitAll_SCDescr (fuel : nat) : option (list SizeClassDescr) :=
  InitSizeClasses fuel SCArray.

(** The descriptor of a chunk size that needs no fix-up, computed without
    the exhaustive reciprocal test. *)
Definition DescrOfChunkSize (ChunkSize : Z) : SizeClassDescr :=
  let RangeNum :=
    (if ChunkSize mod kSizeAlignmentForSecondRange =? 0 then 1 else 0) in
  mkSCD RangeNum
        (match ComputeNumChunks ChunkSize RangeNum with
         | Some N => N mod 2 ^ 15
         | None => 0
         end)
        ((ChunkSize / 16) mod 2 ^ 16)
        (u32 (ComputeMulForDiv (u32 ChunkSize) kDivMulShift)).

Definition SCDescrTable : list SizeClassDescr :=
  Eval vm_compute in map DescrOfChunkSize SCArray.

(** A two-point test that decides the reciprocal property without running
    the loop of [IsCorrectDivToMul]: with [e = Mul * Div - 2^Shift] the
    error of [Left * Mul >> Shift] grows with the quotient and with the
    remainder of [Left], so it is largest at the last full chunk and at
    [MaxLeft] itself. *)
Definition DivToMulCriterion (Div Mul Shift MaxLeft : Z) : bool :=
  let e := Mul * Div - 2 ^ Shift in
  let qm := MaxLeft / Div in
  let rm := MaxLeft mod Div in
  (0 <? Div) && (0 <=? e)
  && ((qm - 1) * e + (Div - 1) * Mul <? 2 ^ Shift)
  && (qm * e + rm * Mul <? 2 ^ Shift).

(** What [InitAll] needs of a table entry to accept it as it is. *)
Definition NeedsNoFixUp (ChunkSize : Z) : bool :=
  let Mul := ComputeMulForDiv (u32 ChunkSize) kDivMulShift in
  DivToMulCriterion (u32 ChunkSize) Mul kDivMulShift kSuperPageSize
  && (Mul <? 2 ^ 32)
  && (ChunkSize mod 16 =? 0) && (ChunkSize / 16 <? Z.shiftl 1 16)
  && match ComputeNumChunks ChunkSize
             (if ChunkSize mod kSizeAlignmentForSecondRange =? 0 then 1 else 0)
     with Some _ => true | None => false end.

(** ** Memory *)

(** The address space as a byte store.  A fresh anonymous mapping reads as
    zero, and so does the store nobody has written to. *)
Definition Mem : Type := Z -> Z.

Definition Load8 (m : Mem) (a : Z) : Z := u8 (m a).

Definition Store8 (m : Mem) (a v : Z) : Mem :=
  fun x => if x =? a then u8 v else m x.

(** An 8-byte little-endian load, [*reinterpret_cast<uint64_t*>(p)]. *)
Definition Load64 (m : Mem) (a : Z) : Z :=
  fold_right (fun k acc => Load8 m (a + k) + 256 * acc) 0 [0; 1; 2; 3; 4; 5; 6; 7].

(** ** Intrinsics used by the byte search *)

(** [_pext_u64(src, mask)]: the bits of [src] selected by [mask], packed
    into the low bits of the result, lowest selected bit first. *)
Definition pext_u64 (src mask : Z) : Z :=
  fold_right (fun p acc => Z.b2z (Z.testbit src p) + 2 * acc) 0
    (filter (Z.testbit mask) (map Z.of_nat (seq 0 64))).

(** [__builtin_ctz(x)] on a non-zero 32-bit argument. *)
Fixpoint ctz_from (fuel : nat) (i x : Z) : Z :=
  match fuel with
  | O => i
  | S fuel' => if Z.testbit x i then i else ctz_from fuel' (i + 1) x
  end.

Definition builtin_ctz (x : Z) : Z := ctz_from 32 0 (u32 x).

(** ** FindByte_Plain and FindByte_PEXT *)

(** Both searches take the callback as a function on the memory: the one
    [TryAllocate] passes performs a compare-and-swap.  The result is the
    index found, or [kNotFound]; [None] is the [TRAP()] on a bad hint (and,
    for the PEXT version, the [assert(Value == 0)]). *)
Definition Callback : Type := Z -> Mem -> bool * Mem.

Fixpoint FindByte_Plain_loop (fuel : nat) (I Bytes Value N StartPosHint : Z)
    (CB : Callback) (m : Mem) : Z * Mem :=
  match fuel with
  | O => (kNotFound, m)
  | S fuel' =>
      let Idx := u64 (I + StartPosHint) in
      let Idx := if N <=? Idx then u64 (Idx - N) else Idx in
      if Load8 m (Bytes + Idx) =? Value then
        let (ok, m') := CB Idx m in
        if ok then (Idx, m')
        else FindByte_Plain_loop fuel' (I + 1) Bytes Value N StartPosHint CB m'
      else FindByte_Plain_loop fuel' (I + 1) Bytes Value N StartPosHint CB m
  end.

Definition FindByte_Plain (Bytes Value N StartPosHint : Z) (CB : Callback)
    (m : Mem) : option (Z * Mem) :=
  if N <? StartPosHint then None
  else Some (FindByte_Plain_loop (Z.to_nat N) 0 Bytes Value N StartPosHint CB m).

(** The inner [while (Mask)] of [FindByte_PEXT]: [Some Pos] is the
    [return Pos], [None] is leaving the loop (mask exhausted or [break]).
    Every round clears one of the 64 mask bits. *)
Fixpoint FindByte_PEXT_mask (fuel : nat) (Mask Idx N : Z) (CB : Callback)
    (m : Mem) : option Z * Mem :=
  match fuel with
  | O => (None, m)
  | S fuel' =>
      if Mask =? 0 then (None, m)
      else
        let BitIdx := builtin_ctz Mask in
        let Mask := Z.land Mask (u64 (Z.lnot (Z.shiftl 1 BitIdx))) in
        let Pos := u64 (Idx + BitIdx) in
        if N <=? Pos then (None, m)
        else
          let (ok, m') := CB Pos m in
          if ok then (Some Pos, m')
          else FindByte_PEXT_mask fuel' Mask Idx N CB m'
  end.

(** The outer [for (I = 0; I < N; I += 8)].  [I] grows by 8 a round, so
    [N] rounds of fuel never cut the loop short. *)
Fixpoint FindByte_PEXT_loop (fuel : nat) (I Bytes N NRounded Hint : Z)
    (CB : Callback) (m : Mem) : Z * Mem :=
  match fuel with
  | O => (kNotFound, m)
  | S fuel' =>
      if I <? N then
        let Idx := u64 (I + Hint) in
        let Idx := if NRounded <=? Idx then u64 (Idx - NRounded) else Idx in
        let Tuple := Load64 m (Bytes + Idx) in
        let Mask := pext_u64 Tuple 0x0101010101010101 in
        let Mask := Z.land (u64 (Z.lnot Mask)) 0xFF in
        match FindByte_PEXT_mask 64 Mask Idx N CB m with
        | (Some Pos, m') => (Pos, m')
        | (None, m') =>
            FindByte_PEXT_loop fuel' (u64 (I + 8)) Bytes N NRounded Hint CB m'
        end
      else (kNotFound, m)
  end.

Definition FindByte_PEXT (Bytes Value N StartPosHint : Z) (CB : Callback)
    (m : Mem) : option (Z * Mem) :=
  if negb (Value =? 0) then None
  else
    let NRounded := RoundUpTo N 8 in
    let Hint := RoundDownTo StartPosHint 8 in
    if N <? StartPosHint then None
    else Some (FindByte_PEXT_loop (Z.to_nat N) 0 Bytes N NRounded Hint CB m).

(** A callback that only inspects the position. *)
Definition PureCallback (cb : Z -> bool) : Callback := fun Pos m => (cb Pos, m).

(** Index visited by round [I] of [FindByte_Plain]. *)
Definition plain_index (N Hint I : Z) : Z :=
  let Idx := u64 (I + Hint) in if N <=? Idx then u64 (Idx - N) else Idx.

(** First index of the group visited by round [I] of [FindByte_PEXT]. *)
Definition pext_group (NRounded Hint I : Z) : Z :=
  let Idx := u64 (I + Hint) in
  if NRounded <=? Idx then u64 (Idx - NRounded) else Idx.

(** ** Outcomes of the allocator's operations *)

(** Every fatal condition terminates the process; the constructor records
    which statement did. *)
Inductive fatal : Type :=
  | F_TRAP            (* the TRAP() macro *)
  | F_DoubleFree      (* "DoubleFree on %p" then TRAP() *)
  | F_TagDoubleFree   (* "ERROR: double-free %p" then __builtin_trap() *)
  | F_builtin_trap    (* a bare __builtin_trap() *)
  | F_assert.         (* a failed assert *)

Inductive outcome (A : Type) : Type :=
  | Ret (a : A)
  | Fatal (f : fatal)
  | OutOfFuel.        (* a loop without a bound of its own outran the fuel *)

Arguments Ret {A} a.
Arguments Fatal {A} f.
Arguments OutOfFuel {A}.

Definition bind {A B : Type} (x : outcome A) (k : A -> outcome B) : outcome B :=
  match x with
  | Ret a => k a
  | Fatal f => Fatal f
  | OutOfFuel => OutOfFuel
  end.

Notation "x <- e ;; k" := (bind e (fun x => k))
  (at level 61, e at next level, right associativity).
Notation "' p <- e ;; k" := (bind e (fun x => match x with p => k end))
  (at level 61, p pattern, e at next level, right associativity).

Definition trap_if {A : Type} (c : bool) (f : fatal) (k : outcome A) : outcome A :=
  if c then Fatal f else k.

(** ** mtmalloc_config.h *)

Record MallocConfig : Type := mkConfig {
  PrintStats : bool;
  PrintSpAlloc : bool;
  PrintScan : bool;
  LargeAllocFence : bool;
  LargeAllocVerbose : bool;
  UseTag : Z;             (* 0: no tag, 1: 4-bit tag, 2: 8-bit tag *)
  UseShadow : bool;
  UseAliases : bool;
  QuarantineSize : Z;     (* 0 .. 255 *)
  HandleSigUsr2 : bool;
  ReleaseFreq : Z         (* 0 .. 255 *)
}.

(** The configuration when no environment variable is set. *)
Definition DefaultConfig : MallocConfig :=
  mkConfig false false false true false 0 false false 0 true 0.

(** ** mtmalloc_shadow.h *)

(** The template parameters of an instance of [FixedShadow]. *)
Record FixedShadow : Type := mkShadow {
  kShadowBeg : Z;
  kBeg : Z;
  kSize : Z;
  kGranularity : Z
}.

Definition Shadow_IsMine (S : FixedShadow) (Val : Z) : bool :=
  (kBeg S <=? Val) && (Val <? kBeg S + kSize S).

Definition Shadow_GetShadowPtr (S : FixedShadow) (Val : Z) : Z :=
  u64 (kShadowBeg S + u64 (Val - kBeg S) / kGranularity S).

Definition Shadow_Get (S : FixedShadow) (m : Mem) (Val : Z) : Z :=
  Load8 m (Shadow_GetShadowPtr S Val).

(** [Check]: true when the value is a multiple of the granularity. *)
Definition Shadow_Check (S : FixedShadow) (Val : Z) : bool :=
  Val mod kGranularity S =? 0.

Definition Shadow_Set (S : FixedShadow) (m : Mem) (Val Shadow : Z) : outcome Mem :=
  trap_if (negb (Shadow_Check S Val)) F_builtin_trap
    (Ret (Store8 m (Shadow_GetShadowPtr S Val) Shadow)).

Fixpoint Shadow_fill (n : nat) (m : Mem) (ShadowPos ShadowVal : Z) : Mem :=
  match n with
  | O => m
  | S n' => Shadow_fill n' (Store8 m ShadowPos ShadowVal) (ShadowPos + 1) ShadowVal
  end.

Definition Shadow_SetRange (S : FixedShadow) (m : Mem) (Beg Size ShadowVal : Z)
  : outcome Mem :=
  trap_if (negb (Shadow_Check S Beg)) F_builtin_trap
  (trap_if (negb (Shadow_Check S Size)) F_builtin_trap
     (Ret (Shadow_fill (Z.to_nat (Size / kGranularity S)) m
             (Shadow_GetShadowPtr S Beg) ShadowVal))).

(** The instances declared in [mtmalloc.h] and [mtmalloc_tags.h]. *)
Definition SuperPageMetadata : FixedShadow :=
  mkShadow kPrimaryMetaSpace kAllocatorSpace kAllocatorSize kSuperPageSize.

(** Modelled from the spec: [SecondRangeMeta] is declared with a
    five-parameter [FixedShadow] whose definition is not among the sources.
    The spec puts the state bytes of range 1 in a separate shadow region at
    granularity 1024; the state array of a super page starts at the shadow
    of its first byte and has one byte per chunk. *)
Definition SecondRangeMeta : FixedShadow :=
  mkShadow kSecondRangeMeta (kFirstSuperPage 1) (kAllocatorSize / 2)
           kSizeAlignmentForSecondRange.

Definition kSmallMemoryTagSpace : Z := 0x300000000000.
Definition kLargeMemoryTagSpace : Z := 0x400000000000.

Definition SmallShadow : FixedShadow :=
  mkShadow kSmallMemoryTagSpace kAllocatorSpace (kAllocatorSize / 2) 16.

Definition LargeShadow : FixedShadow :=
  mkShadow kLargeMemoryTagSpace (kAllocatorSpace + kAllocatorSize / 2)
           (kAllocatorSize / 2) kSizeAlignmentForSecondRange.

(** ** mtmalloc_tags.h, as included by mtmalloc.h

    The version of the header that goes with the constants of [mtmalloc.h]:
    [UseAliases] is a flag and the 4-bit address tag sits at bit 40, right
    above the 2^40 bytes of the allocator space. *)

Section Tags.
Variable Config : MallocConfig.

Definition SetMemoryTag (m : Mem) (Addr Size Tag : Z) : outcome Mem :=
  if negb (UseShadow Config) then Ret m
  else if Shadow_IsMine SmallShadow Addr
       then Shadow_SetRange SmallShadow m Addr Size Tag
  else if Shadow_IsMine LargeShadow Addr
       then Shadow_SetRange LargeShadow m Addr Size Tag
  else Fatal F_builtin_trap.

Definition GetMemoryTag (m : Mem) (Addr : Z) : outcome Z :=
  if negb (UseShadow Config) then Ret 0
  else if Shadow_IsMine SmallShadow Addr then Ret (Shadow_Get SmallShadow m Addr)
  else if Shadow_IsMine LargeShadow Addr then Ret (Shadow_Get LargeShadow m Addr)
  else Fatal F_builtin_trap.

Definition ApplyAddressTag (Addr AddrTag : Z) : Z :=
  if negb (UseAliases Config) then Addr
  else
    let Tag := Z.land (u8 AddrTag) 15 in
    let Tag := u64 (Z.shiftl Tag 40) in
    let Mask := u64 (Z.shiftl 15 40) in
    Z.lor (Z.land Addr (u64 (Z.lnot Mask))) Tag.

Definition GetAddressTag (Addr : Z) : Z :=
  u8 (Z.land (Z.shiftr Addr 40) 15).
End Tags.

(** ** memtagmalloc/src/mtmalloc_tags.h

    The later version of the header.  Its [Config.UseAliases] is the number
    of alias bits and it reads [Config.UseMTE]; the configuration header it
    is compiled with is not among the sources, so the three fields it reads
    and the build constant [kUseArmTBI] are the members of [TagConfig].
    [arm_mte_get_tag] stands for the intrinsic [__arm_mte_get_tag]. *)

Module MemTag.

Record TagConfig : Type := mkTagConfig {
  kUseArmTBI : bool;
  UseMTE : bool;
  UseShadow : bool;
  UseAliases : Z
}.

Section Tags.
Variable Config : TagConfig.
Variable arm_mte_get_tag : Z -> Z.

Definition GetMemoryTag (m : Mem) (Addr : Z) : outcome Z :=
  if UseMTE Config then
    Ret (u8 (Z.land (Z.shiftr (u64 (arm_mte_get_tag Addr)) 56) 15))
  else if negb (UseShadow Config) then Ret 0
  else if Shadow_IsMine SmallShadow Addr then Ret (Shadow_Get SmallShadow m Addr)
  else if Shadow_IsMine LargeShadow Addr then Ret (Shadow_Get LargeShadow m Addr)
  else Fatal F_builtin_trap.

Definition ApplyAddressTag (Addr AddrTag : Z) : Z :=
  if kUseArmTBI Config then
    let Tag := u64 (Z.shiftl (u8 AddrTag) 56) in
    let Mask := u64 (Z.shiftl 255 56) in
    Z.lor (Z.land Addr (u64 (Z.lnot Mask))) Tag
  else if UseAliases Config =? 0 then Addr
  else
    let Tag := Z.land (u8 AddrTag) (Z.shiftl 1 (UseAliases Config) - 1) in
    let Tag := u64 (Z.shiftl Tag 37) in
    let Mask := u64 (Z.shiftl 15 37) in
    Z.lor (Z.land Addr (u64 (Z.lnot Mask))) Tag.

Definition GetAddressTag (Addr : Z) : Z :=
  if kUseArmTBI Config then u8 (Z.shiftr Addr 56)
  else u8 (Z.land (Z.shiftr Addr 37) (Z.shiftl 1 (UseAliases Config) - 1)).

(** The last step of [SuperPage::TryAllocate]:
    [Res = Tags.ApplyAddressTag(Res, Tags.GetMemoryTag(Res))]. *)
Definition TagFreshChunk (m : Mem) (Res : Z) : outcome Z :=
  Tag <- GetMemoryTag m Res ;;
  Ret (ApplyAddressTag Res Tag).

(** The bits of a tag that survive in the pointer. *)
Definition AddressTagMask : Z :=
  if kUseArmTBI Config then 255 else Z.shiftl 1 (UseAliases Config) - 1.

(** The field of the pointer that [ApplyAddressTag] rewrites. *)
Definition AddressTagField : Z :=
  if kUseArmTBI Config then Z.shiftl 255 56 else Z.shiftl 15 37.
End Tags.

End MemTag.

(** ** struct SuperPage *)

(** [enum state_t]. *)
Definition AVAILABLE : Z := 0.
Definition USED_MIXED : Z := 1.
Definition USED_DATA : Z := 3.
Definition QUARANTINED : Z := 5.
Definition MARKED : Z := 7.
Definition RELEASING : Z := 255.

(** [mmap(addr, len, ..., MAP_FIXED | MAP_ANONYMOUS, ...)]: the range reads
    as zero afterwards. *)
Definition mmap_fixed (m : Mem) (addr len : Z) : Mem :=
  fun x => if (addr <=? x) && (x <? addr + len) then 0 else m x.

Definition GetSizeClass (m : Mem) (Ptr : Z) : outcome Z :=
  trap_if (negb (Shadow_IsMine SuperPageMetadata Ptr)) F_TRAP
    (Ret (Shadow_Get SuperPageMetadata m Ptr)).

Definition SetSizeClass (m : Mem) (Ptr SC : Z) : outcome Mem :=
  trap_if (negb (Shadow_IsMine SuperPageMetadata Ptr)) F_TRAP
    (Shadow_Set SuperPageMetadata m Ptr SC).

(** The methods of a super page take its address [This]; memory and the
    descriptor table are passed explicitly. *)
Module SuperPage.

Definition End_ (This : Z) : Z := u64 (This + kSuperPageSize).

Definition GetSC (m : Mem) (This : Z) : outcome Z := GetSizeClass m This.

Definition GetSCD (SCDescr : list SizeClassDescr) (m : Mem) (This : Z)
  : outcome SizeClassDescr :=
  sc <- GetSizeClass m This ;; Ret (SCDescrAt SCDescr sc).

Definition State (NumChunks RangeNum This : Z) : Z :=
  if RangeNum =? 1 then Shadow_GetShadowPtr SecondRangeMeta This
  else u64 (End_ This - SizeOfInlineMeta NumChunks 0).

Definition AddressOfChunk (This Idx : Z) (SCD : SizeClassDescr) : Z :=
  u64 (This + Idx * ChunkSize SCD).

(** [IterateStates] with a callback that rewrites the byte it is given. *)
Fixpoint IterateStates_from (n : nat) (i S : Z) (CB : Z -> Z) (m : Mem) : Mem :=
  match n with
  | O => m
  | S n' =>
      IterateStates_from n' (i + 1) S CB
        (Store8 m (S + i) (CB (Load8 m (S + i))))
  end.

Definition IterateStates (SCDescr : list SizeClassDescr) (CB : Z -> Z)
    (m : Mem) (This : Z) : outcome Mem :=
  SCD <- GetSCD SCDescr m This ;;
  let N := NumChunks SCD in
  let S := State N (RangeNum SCD) This in
  Ret (IterateStates_from (Z.to_nat N) 0 S CB m).

Fixpoint CountStates_from (n : nat) (i S St : Z) (m : Mem) : Z :=
  match n with
  | O => 0
  | S n' =>
      (if Load8 m (S + i) =? St then 1 else 0)
      + CountStates_from n' (i + 1) S St m
  end.

Definition CountStates (SCDescr : list SizeClassDescr) (St : Z)
    (m : Mem) (This : Z) : outcome Z :=
  SCD <- GetSCD SCDescr m This ;;
  let N := NumChunks SCD in
  Ret (CountStates_from (Z.to_nat N) 0 (State N (RangeNum SCD) This) St m).

Definition CountQuarantined SCDescr m This := CountStates SCDescr QUARANTINED m This.
Definition CountAvailable SCDescr m This := CountStates SCDescr AVAILABLE m This.
Definition CountMarked SCDescr m This := CountStates SCDescr MARKED m This.

(** The callback of [TryAllocate]: a compare-and-swap of the state byte
    from [AVAILABLE] to [NewState]. *)
Definition TryPos (S NewState : Z) : Callback :=
  fun Pos m =>
    if Load8 m (S + Pos) =? AVAILABLE then (true, Store8 m (S + Pos) NewState)
    else (false, m).

Definition ComputeStatePtr (Ptr : Z) (SCD : SizeClassDescr) (This : Z) : outcome Z :=
  let Offset := Ptr mod kSuperPageSize in
  let Idx := DivBySizeViaMul Offset (ChunkSizeMulDiv SCD) in
  trap_if (negb (u64 (Idx * ChunkSize SCD) =? Offset)) F_TRAP
  (trap_if (NumChunks SCD <=? Idx) F_TRAP
     (Ret (State (NumChunks SCD) (RangeNum SCD) This + Idx))).

Definition Mark (SCDescr : list SizeClassDescr) (P : Z) (m : Mem) (This : Z)
  : outcome Mem :=
  let P := P mod kSuperPageSize in
  sc <- GetSizeClass m This ;;
  let SCD := SCDescrAt SCDescr sc in
  let Idx := DivBySizeViaMul P (ChunkSizeMulDiv SCD) in
  if NumChunks SCD <=? Idx then Ret m
  else
    let S := State (NumChunks SCD) (RangeNum SCD) This in
    if Load8 m (S + Idx) =? QUARANTINED then Ret (Store8 m (S + Idx) MARKED)
    else Ret m.

Definition MoveFromQuarantineToAvailable_CB (S : Z) : Z :=
  let S := if S =? QUARANTINED then AVAILABLE else S in
  if S =? MARKED then QUARANTINED else S.

Definition MoveFromQuarantineToAvailable SCDescr (m : Mem) (This : Z) : outcome Mem :=
  IterateStates SCDescr MoveFromQuarantineToAvailable_CB m This.

Definition Unmark SCDescr (m : Mem) (This : Z) : outcome Mem :=
  IterateStates SCDescr (fun S => if S =? MARKED then QUARANTINED else S) m This.

(** The old value is loaded and the new one stored before the check, so a
    double free leaves the new value behind and then traps. *)
Definition ExchangeAndCheckForDoubleFree (m : Mem) (S NewValue : Z) : outcome Mem :=
  let OldValue := Load8 m S in
  let m' := Store8 m S NewValue in
  if negb (OldValue =? USED_MIXED) && negb (OldValue =? USED_DATA)
  then Fatal F_DoubleFree
  else Ret m'.

Section WithConfig.
Variable Config : MallocConfig.
Variable SCDescr : list SizeClassDescr.

(** [TryAllocate] returns the pointer ([0] for [nullptr]), the value
    left in [*HintPtr], and the memory. *)
Definition TryAllocate (DataOnly : bool) (SCD : SizeClassDescr) (Hint : Z)
    (m : Mem) (This : Z) : outcome (Z * Z * Mem) :=
  let NumChunks := NumChunks SCD in
  let S := State NumChunks (RangeNum SCD) This in
  let NewState := if DataOnly then USED_DATA else USED_MIXED in
  match FindByte_PEXT S AVAILABLE NumChunks Hint (TryPos S NewState) m with
  | None => Fatal F_TRAP
  | Some (Pos, m') =>
      if Pos =? kNotFound then Ret (0, Hint, m')
      else
        trap_if (NumChunks <=? Pos) F_TRAP
          (let Res := AddressOfChunk This Pos SCD in
           Tag <- GetMemoryTag Config m' Res ;;
           Ret (ApplyAddressTag Config Res Tag, u64 (Pos + 1), m'))
  end.

(** Returns the new tag. *)
Definition UpdateMemoryTagOnFree (m : Mem) (P Size : Z) : outcome (Z * Mem) :=
  if negb (UseShadow Config) then Ret (0, m)
  else
    OldMemoryTag <- GetMemoryTag Config m P ;;
    let NewMemoryTag := u8 (OldMemoryTag + 1) in
    m' <- SetMemoryTag Config m P Size NewMemoryTag ;;
    Ret (NewMemoryTag, m').

Definition Deallocate (m : Mem) (Ptr This : Z) : outcome Mem :=
  SCD <- GetSCD SCDescr m This ;;
  S <- ComputeStatePtr Ptr SCD This ;;
  '(_, m1) <- UpdateMemoryTagOnFree m Ptr (ChunkSize SCD) ;;
  ExchangeAndCheckForDoubleFree m1 S AVAILABLE.

(** The state byte [Quarantine] stores for a given new tag. *)
Definition QuarantineNewValue (NewTag : Z) : Z :=
  let NewValue := QUARANTINED in
  let NewValue :=
    if (UseTag Config =? 1) && negb (Z.land NewTag 15 =? 0)
    then AVAILABLE else NewValue in
  if (UseTag Config =? 2) && negb (Z.land NewTag 255 =? 0)
  then AVAILABLE else NewValue.

Definition Quarantine (m : Mem) (Ptr This : Z) : outcome (Z * Mem) :=
  SCD <- GetSCD SCDescr m This ;;
  S <- ComputeStatePtr Ptr SCD This ;;
  '(NewTag, m1) <- UpdateMemoryTagOnFree m Ptr (ChunkSize SCD) ;;
  let NewValue := QuarantineNewValue NewTag in
  m2 <- ExchangeAndCheckForDoubleFree m1 S NewValue ;;
  if NewValue =? AVAILABLE then Ret (0, m2)
  else Ret (ChunkSize SCD, m2).
End WithConfig.

(** The word loop of [MarkAllLivePointers] over one chunk:
    [for (Word = P; Word < P + ChunkSize; Word += sizeof(void * ))].
    [Word] grows by 8 a round, so [ChunkSize] rounds of fuel are enough. *)
Fixpoint MarkWords (SCDescr : list SizeClassDescr) (Region0 Region1 : Z)
    (fuel : nat) (Word Limit : Z) (m : Mem) : outcome Mem :=
  match fuel with
  | O => Ret m
  | S fuel' =>
      if Word <? Limit then
        let Value := Load64 m Word in
        if (Region0 <=? u64 (Value - kFirstSuperPage 0))
           && (Region1 <=? u64 (Value - kFirstSuperPage 1))
        then MarkWords SCDescr Region0 Region1 fuel' (Word + 8) Limit m
        else
          m' <- Mark SCDescr Value m (RoundDownTo Value kSuperPageSize) ;;
          MarkWords SCDescr Region0 Region1 fuel' (Word + 8) Limit m'
      else Ret m
  end.

(** The chunk loop of [MarkAllLivePointers]. *)
Fixpoint MarkChunks (SCDescr : list SizeClassDescr) (Region0 Region1 : Z)
    (SCD : SizeClassDescr) (This S : Z) (n : nat) (Idx : Z) (m : Mem)
  : outcome Mem :=
  match n with
  | O => Ret m
  | S n' =>
      m' <- (if Load8 m (S + Idx) =? USED_MIXED then
               let P := AddressOfChunk This Idx SCD in
               MarkWords SCDescr Region0 Region1 (Z.to_nat (ChunkSize SCD))
                 P (P + ChunkSize SCD) m
             else Ret m) ;;
      MarkChunks SCDescr Region0 Region1 SCD This S n' (Idx + 1) m'
  end.

Definition MarkAllLivePointers (SCDescr : list SizeClassDescr)
    (NumSuperPages : Z -> Z) (m : Mem) (This : Z) : outcome Mem :=
  SCD <- GetSCD SCDescr m This ;;
  let Region0 := u64 (NumSuperPages 0 * kSuperPageSize) in
  let Region1 := u64 (NumSuperPages 1 * kSuperPageSize) in
  let S := State (NumChunks SCD) (RangeNum SCD) This in
  MarkChunks SCDescr Region0 Region1 SCD This S
    (Z.to_nat (NumChunks SCD)) 0 m.

End SuperPage.

Definition A2SP (Addr : Z) : outcome Z :=
  trap_if (Addr <? kAllocatorSpace) F_TRAP
  (trap_if (kAllocatorSpace + kAllocatorSize <=? Addr) F_TRAP
  (trap_if (negb (Addr mod kSuperPageSize =? 0)) F_TRAP
     (Ret Addr))).

Definition GetSuperPage (RangeNum Idx : Z) : outcome Z :=
  let Addr := u64 (kFirstSuperPage RangeNum + Idx * kSuperPageSize) in
  trap_if (kAllocatorSpace + kAllocatorSize <=? Addr) F_TRAP (Ret Addr).

(** ANSI C linear congruential PRNG: the new state and the value returned. *)
Definition RandR (State : Z) : Z * Z :=
  let NewState := u32 (State * 1103515245 + 12345) in
  (NewState, Z.shiftr NewState 16).

(** ** struct Allocator *)

(** The allocator object, the global descriptor table and the thread-local
    [TLS] of the one thread the model follows.  Arrays are functions of
    the index.  The statistics counters ([Stats], [super_pages]) are left
    out: nothing reads them back. *)
Record AllocatorState : Type := mkState {
  Memory : Mem;
  SCDescr : list SizeClassDescr;
  InitAllOnce : bool;
  NumScans : Z;
  NumSuperPages : Z -> Z;
  BytesInQuarantine : Z;
  ScanPos : Z -> Z;
  LastQurantineSize : Z;
  DataOnlyScopeLevel : Z;
  TLS_Rand : Z;
  TLS_LocalQuarantineSize : Z;
  TLS_PerSC_SP : Z -> Z;
  TLS_PerSC_LastIdxHint : Z -> Z
}.

(** [a[i] = v]. *)
Definition upd (a : Z -> Z) (i v : Z) : Z -> Z :=
  fun j => if j =? i then v else a j.

Definition set_Memory (st : AllocatorState) (m : Mem) : AllocatorState :=
  mkState m (SCDescr st) (InitAllOnce st) (NumScans st) (NumSuperPages st)
    (BytesInQuarantine st) (ScanPos st) (LastQurantineSize st)
    (DataOnlyScopeLevel st) (TLS_Rand st) (TLS_LocalQuarantineSize st)
    (TLS_PerSC_SP st) (TLS_PerSC_LastIdxHint st).

Definition set_SCDescr (st : AllocatorState) (t : list SizeClassDescr) :=
  mkState (Memory st) t true (NumScans st) (NumSuperPages st)
    (BytesInQuarantine st) (ScanPos st) (LastQurantineSize st)
    (DataOnlyScopeLevel st) (TLS_Rand st) (TLS_LocalQuarantineSize st)
    (TLS_PerSC_SP st) (TLS_PerSC_LastIdxHint st).

Definition set_NumScans (st : AllocatorState) (n : Z) :=
  mkState (Memory st) (SCDescr st) (InitAllOnce st) n (NumSuperPages st)
    (BytesInQuarantine st) (ScanPos st) (LastQurantineSize st)
    (DataOnlyScopeLevel st) (TLS_Rand st) (TLS_LocalQuarantineSize st)
    (TLS_PerSC_SP st) (TLS_PerSC_LastIdxHint st).

Definition set_NumSuperPages (st : AllocatorState) (f : Z -> Z) :=
  mkState (Memory st) (SCDescr st) (InitAllOnce st) (NumScans st) f
    (BytesInQuarantine st) (ScanPos st) (LastQurantineSize st)
    (DataOnlyScopeLevel st) (TLS_Rand st) (TLS_LocalQuarantineSize st)
    (TLS_PerSC_SP st) (TLS_PerSC_LastIdxHint st).

Definition set_BytesInQuarantine (st : AllocatorState) (b l : Z) :=
  mkState (Memory st) (SCDescr st) (InitAllOnce st) (NumScans st)
    (NumSuperPages st) b (ScanPos st) l
    (DataOnlyScopeLevel st) (TLS_Rand st) (TLS_LocalQuarantineSize st)
    (TLS_PerSC_SP st) (TLS_PerSC_LastIdxHint st).

Definition set_ScanPos (st : AllocatorState) (f : Z -> Z) :=
  mkState (Memory st) (SCDescr st) (InitAllOnce st) (NumScans st)
    (NumSuperPages st) (BytesInQuarantine st) f (LastQurantineSize st)
    (DataOnlyScopeLevel st) (TLS_Rand st) (TLS_LocalQuarantineSize st)
    (TLS_PerSC_SP st) (TLS_PerSC_LastIdxHint st).

Definition set_DataOnlyScopeLevel (st : AllocatorState) (l : Z) :=
  mkState (Memory st) (SCDescr st) (InitAllOnce st) (NumScans st)
    (NumSuperPages st) (BytesInQuarantine st) (ScanPos st)
    (LastQurantineSize st) l (TLS_Rand st) (TLS_LocalQuarantineSize st)
    (TLS_PerSC_SP st) (TLS_PerSC_LastIdxHint st).

Definition set_Rand (st : AllocatorState) (r : Z) :=
  mkState (Memory st) (SCDescr st) (InitAllOnce st) (NumScans st)
    (NumSuperPages st) (BytesInQuarantine st) (ScanPos st)
    (LastQurantineSize st) (DataOnlyScopeLevel st) r
    (TLS_LocalQuarantineSize st) (TLS_PerSC_SP st) (TLS_PerSC_LastIdxHint st).

Definition set_LocalQuarantineSize (st : AllocatorState) (q : Z) :=
  mkState (Memory st) (SCDescr st) (InitAllOnce st) (NumScans st)
    (NumSuperPages st) (BytesInQuarantine st) (ScanPos st)
    (LastQurantineSize st) (DataOnlyScopeLevel st) (TLS_Rand st) q
    (TLS_PerSC_SP st) (TLS_PerSC_LastIdxHint st).

Definition set_PerSC_SP (st : AllocatorState) (f : Z -> Z) :=
  mkState (Memory st) (SCDescr st) (InitAllOnce st) (NumScans st)
    (NumSuperPages st) (BytesInQuarantine st) (ScanPos st)
    (LastQurantineSize st) (DataOnlyScopeLevel st) (TLS_Rand st)
    (TLS_LocalQuarantineSize st) f (TLS_PerSC_LastIdxHint st).

Definition set_PerSC_LastIdxHint (st : AllocatorState) (f : Z -> Z) :=
  mkState (Memory st) (SCDescr st) (InitAllOnce st) (NumScans st)
    (NumSuperPages st) (BytesInQuarantine st) (ScanPos st)
    (LastQurantineSize st) (DataOnlyScopeLevel st) (TLS_Rand st)
    (TLS_LocalQuarantineSize st) (TLS_PerSC_SP st) f.

(** The allocator as the tests set it up: [memset(&A, 0, sizeof(A))],
    [memset(&TLS, 0, sizeof(TLS))], nothing mapped, descriptors zero. *)
Definition ZeroState : AllocatorState :=
  mkState (fun _ => 0) (repeat SCD0 (Z.to_nat kNumSizeClasses)) false 0
    (fun _ => 0) 0 (fun _ => 0) 0 0 0 0 (fun _ => 0) (fun _ => 0).

Module Allocator.

Section WithConfig.
Variable Config : MallocConfig.
(** The value of [pthread_self()] in the calling thread. *)
Variable pthread_self : Z.

Definition GetNumSuperPages (st : AllocatorState) (RangeNum : Z) : Z :=
  NumSuperPages st RangeNum.

(** The part of [InitAll] after [Config.Init()] and the signal handler:
    the descriptor table, the reservation of the allocator space and the
    shadows.  [pthread_once] runs it the first time only. *)
Definition InitAll (fuel : nat) (st : AllocatorState) : outcome AllocatorState :=
  match InitAll_SCDescr fuel with
  | None => match fuel with O => OutOfFuel | _ => Fatal F_assert end
  | Some tbl =>
      let m := mmap_fixed (Memory st) kAllocatorSpace kAllocatorSize in
      let m := mmap_fixed m (kShadowBeg SuperPageMetadata)
                 (kSize SuperPageMetadata / kGranularity SuperPageMetadata) in
      let m := mmap_fixed m (kShadowBeg SecondRangeMeta)
                 (kSize SecondRangeMeta / kGranularity SecondRangeMeta) in
      let m := mmap_fixed m (kShadowBeg LargeShadow)
                 (kSize LargeShadow / kGranularity LargeShadow) in
      let m := mmap_fixed m (kShadowBeg SmallShadow)
                 (kSize SmallShadow / kGranularity SmallShadow) in
      Ret (set_Memory (set_SCDescr st tbl) m)
  end.

(** The loop of [AllocateSuperPage] that seeds the memory tag of every
    chunk with [RandR(&TLS.Rand)]. *)
Fixpoint SeedMemoryTags (n : nat) (Pos ChunkSize Rand : Z) (m : Mem)
  : outcome (Z * Mem) :=
  match n with
  | O => Ret (Rand, m)
  | S n' =>
      let '(Rand', r) := RandR Rand in
      m' <- SetMemoryTag Config m Pos ChunkSize (u8 r) ;;
      SeedMemoryTags n' (u64 (Pos + ChunkSize)) ChunkSize Rand' m'
  end.

(** The alias mappings made when [UseAliases] is on are not modelled:
    the allocator itself reaches the super page through its untagged
    address only. *)
Definition AllocateSuperPage (st : AllocatorState) (Size : Z)
  : outcome (Z * AllocatorState) :=
  let '(SC, SCD) := SizeToSizeClass (SCDescr st) Size in
  Res <- GetSuperPage (RangeNum SCD) (GetNumSuperPages st (RangeNum SCD)) ;;
  let m := mmap_fixed (Memory st) Res kSuperPageSize in
  m <- SetSizeClass m Res SC ;;
  '(Rand, m) <- SeedMemoryTags (Z.to_nat (NumChunks SCD)) Res (ChunkSize SCD)
                  (TLS_Rand st) m ;;
  let st := set_Rand (set_Memory st m) Rand in
  let st := set_NumSuperPages st
              (upd (NumSuperPages st) (RangeNum SCD)
                 (u64 (NumSuperPages st (RangeNum SCD) + 1))) in
  Ret (Res, st).

(** The [for] loop of [AllocateSlower] over the super pages of a range,
    starting at a random offset: the pointer found ([0] if none) and the
    state with [PerSC->SP] and the hint as the loop left them. *)
Fixpoint TrySuperPages (n : nat) (I N Offset SC : Z) (SCD : SizeClassDescr)
    (st : AllocatorState) : outcome (Z * AllocatorState) :=
  match n with
  | O => Ret (0, st)
  | S n' =>
      let Idx := u64 (I + Offset) in
      let Idx := if N <=? Idx then u64 (Idx - N) else Idx in
      if Load8 (Memory st) (kMeta (RangeNum SCD) + Idx) =? SC then
        SP <- GetSuperPage (RangeNum SCD) Idx ;;
        let st := set_PerSC_SP st (upd (TLS_PerSC_SP st) SC SP) in
        '(Res, Hint, m) <-
          SuperPage.TryAllocate Config
            (negb (DataOnlyScopeLevel st =? 0)) SCD
            (TLS_PerSC_LastIdxHint st SC) (Memory st) SP ;;
        let st := set_PerSC_LastIdxHint (set_Memory st m)
                    (upd (TLS_PerSC_LastIdxHint st) SC Hint) in
        if Res =? 0 then TrySuperPages n' (I + 1) N Offset SC SCD st
        else Ret (Res, st)
      else TrySuperPages n' (I + 1) N Offset SC SCD st
  end.

(** The [while (true)] of [AllocateSlower]. *)
Fixpoint AllocateSlower_loop (fuel : nat) (Size SC : Z) (SCD : SizeClassDescr)
    (st : AllocatorState) : outcome (Z * AllocatorState) :=
  match fuel with
  | O => OutOfFuel
  | S fuel' =>
      let N := GetNumSuperPages st (RangeNum SCD) in
      let '(Rand, Offset) :=
        if N =? 0 then (TLS_Rand st, 0)
        else let '(Rand, r) := RandR (TLS_Rand st) in (Rand, r mod N) in
      let st := set_Rand st Rand in
      '(Res, st) <- TrySuperPages (Z.to_nat N) 0 N Offset SC SCD st ;;
      if Res =? 0 then
        '(_, st) <- AllocateSuperPage st Size ;;
        let st := set_PerSC_LastIdxHint st
                    (upd (TLS_PerSC_LastIdxHint st) SC 0) in
        AllocateSlower_loop fuel' Size SC SCD st
      else Ret (Res, st)
  end.

Definition AllocateSlower (fuel : nat) (st : AllocatorState) (Size : Z)
  : outcome (Z * AllocatorState) :=
  st <- (if TLS_Rand st =? 0 then
           st <- (if InitAllOnce st then Ret st else InitAll fuel st) ;;
           Ret (set_Rand st (u32 pthread_self))
         else Ret st) ;;
  (* Remember that on the first call the size class table is not yet
     set up. *)
  let '(SC, SCD) := SizeToSizeClass (SCDescr st) Size in
  AllocateSlower_loop fuel Size SC SCD st.

Definition Allocate (fuel : nat) (st : AllocatorState) (Size : Z)
  : outcome (Z * AllocatorState) :=
  let '(SC, SCD) := SizeToSizeClass (SCDescr st) Size in
  if negb (TLS_PerSC_SP st SC =? 0) then
    '(Res, Hint, m) <-
      SuperPage.TryAllocate Config
        (negb (DataOnlyScopeLevel st =? 0)) SCD
        (TLS_PerSC_LastIdxHint st SC) (Memory st) (TLS_PerSC_SP st SC) ;;
    let st := set_PerSC_LastIdxHint (set_Memory st m)
                (upd (TLS_PerSC_LastIdxHint st) SC Hint) in
    if negb (Res =? 0) then Ret (Res, st)
    else AllocateSlower fuel st Size
  else AllocateSlower fuel st Size.

Definition IsMine (Ptr : Z) : bool :=
  if UseAliases Config
  then (kAllocatorSpace <=? Ptr) && (Ptr <? kAllocatorSpace + 16 * kAllocatorSize)
  else (kAllocatorSpace <=? Ptr) && (Ptr <? kAllocatorSpace + kAllocatorSize).

Definition RemoveAddressTagAndCheckForDoubleFree (m : Mem) (Ptr : Z) : outcome Z :=
  let AddressTag := GetAddressTag Ptr in
  let Ptr := ApplyAddressTag Config Ptr 0 in
  Tag <- GetMemoryTag Config m Ptr ;;
  let MemoryTag := Z.land Tag 15 in
  if UseShadow Config && UseAliases Config && negb (AddressTag =? MemoryTag)
  then Fatal F_TagDoubleFree
  else Ret Ptr.

Definition Deallocate (st : AllocatorState) (Ptr : Z) : outcome AllocatorState :=
  Ptr <- RemoveAddressTagAndCheckForDoubleFree (Memory st) Ptr ;;
  let StartSP := RoundDownTo Ptr kSuperPageSize in
  trap_if (StartSP <? kAllocatorSpace) F_TRAP
  (trap_if (kAllocatorSpace + kAllocatorSize <=? StartSP) F_TRAP
     (m <- SuperPage.Deallocate Config (SCDescr st) (Memory st) Ptr StartSP ;;
      Ret (set_Memory st m))).

Definition Quarantine (st : AllocatorState) (Ptr : Z) : outcome AllocatorState :=
  Ptr <- RemoveAddressTagAndCheckForDoubleFree (Memory st) Ptr ;;
  let StartSP := RoundDownTo Ptr kSuperPageSize in
  trap_if (StartSP <? kAllocatorSpace) F_TRAP
  (trap_if (kAllocatorSpace + kAllocatorSize <=? StartSP) F_TRAP
     (SP <- A2SP StartSP ;;
      '(Sz, m) <- SuperPage.Quarantine Config (SCDescr st) (Memory st) Ptr SP ;;
      Ret (set_LocalQuarantineSize (set_Memory st m)
             (u64 (TLS_LocalQuarantineSize st + Sz))))).

(** [for (SPIdx = Pos; SPIdx < EndIdx; SPIdx++)] of [ScanLoop]. *)
Fixpoint ScanBatch (n : nat) (RangeNum SPIdx : Z) (NSP : Z -> Z)
    (tbl : list SizeClassDescr) (m : Mem) : outcome Mem :=
  match n with
  | O => Ret m
  | S n' =>
      SP <- GetSuperPage RangeNum SPIdx ;;
      m' <- SuperPage.MarkAllLivePointers tbl NSP m SP ;;
      ScanBatch n' RangeNum (SPIdx + 1) NSP tbl m'
  end.

Definition kPosIncrement : Z := 1024.

(** The [while (true)] of [ScanLoop] for one range: every round claims
    the next 1024 super pages with a fetch-and-add on [ScanPos].  The
    state carries memory and [ScanPos]; the number returned is what the
    round adds to [NumDone]. *)
Fixpoint ScanRange (fuel : nat) (RangeNum N : Z) (NSP : Z -> Z)
    (st : AllocatorState) : outcome (Z * AllocatorState) :=
  match fuel with
  | O => OutOfFuel
  | S fuel' =>
      let Pos := ScanPos st RangeNum in
      let st := set_ScanPos st (upd (ScanPos st) RangeNum (u64 (Pos + kPosIncrement))) in
      if N <=? Pos then Ret (0, st)
      else
        let EndIdx := Z.min N (u64 (Pos + kPosIncrement)) in
        m <- ScanBatch (Z.to_nat (EndIdx - Pos)) RangeNum Pos NSP
               (SCDescr st) (Memory st) ;;
        '(Done, st) <- ScanRange fuel' RangeNum N NSP (set_Memory st m) ;;
        Ret (EndIdx - Pos + Done, st)
  end.

(** [ScanLoop].  A round of [ScanRange] moves [ScanPos] by 1024, so
    [N + 1] rounds are more than the loop can make from a position that
    is not negative. *)
Definition ScanLoop (st : AllocatorState) : outcome (Z * AllocatorState) :=
  let NSP := fun r => GetNumSuperPages st r in
  '(Done0, st) <- ScanRange (S (Z.to_nat (NSP 0))) 0 (NSP 0) NSP st ;;
  '(Done1, st) <- ScanRange (S (Z.to_nat (NSP 1))) 1 (NSP 1) NSP st ;;
  Ret (Done0 + Done1, st).

(** The inner loop of [PostScan] over the super pages of one range. *)
Fixpoint PostScanRange (n : nat) (RangeNum SPIdx : Z)
    (tbl : list SizeClassDescr) (NewBytesInQuarantine : Z) (m : Mem)
  : outcome (Z * Mem) :=
  match n with
  | O => Ret (NewBytesInQuarantine, m)
  | S n' =>
      SP <- GetSuperPage RangeNum SPIdx ;;
      _ <- SuperPage.CountQuarantined tbl m SP ;;
      _ <- SuperPage.CountAvailable tbl m SP ;;
      SCD <- SuperPage.GetSCD tbl m SP ;;
      m' <- SuperPage.MoveFromQuarantineToAvailable tbl m SP ;;
      NowInQuorantine <- SuperPage.CountQuarantined tbl m' SP ;;
      PostScanRange n' RangeNum (SPIdx + 1) tbl
        (u64 (NewBytesInQuarantine + ChunkSize SCD * NowInQuorantine)) m'
  end.

Definition PostScan (st : AllocatorState) : outcome (Z * AllocatorState) :=
  '(B, m) <- PostScanRange (Z.to_nat (GetNumSuperPages st 0)) 0 0
               (SCDescr st) 0 (Memory st) ;;
  '(B, m) <- PostScanRange (Z.to_nat (GetNumSuperPages st 1)) 1 0
               (SCDescr st) B m ;;
  Ret (B, set_Memory st m).

(** [Scan].  [KillAllThreadsButMyself] signals the other threads; the
    model has the one thread, which marks every super page itself. *)
Definition Scan (st : AllocatorState) : outcome AllocatorState :=
  let st := set_ScanPos st (upd (upd (ScanPos st) 0 0) 1 0) in
  let st := set_NumScans st (u64 (NumScans st + 1)) in
  '(_, st) <- ScanLoop st ;;
  '(NewBytesInQuarantine, st) <- PostScan st ;;
  Ret (set_BytesInQuarantine st NewBytesInQuarantine NewBytesInQuarantine).

Definition QuarantineAndMaybeScan (st : AllocatorState)
    (Ptr MaxQuarantineSize : Z) : outcome AllocatorState :=
  st <- Quarantine st Ptr ;;
  if kSizeOfLocalQuarantine <=? TLS_LocalQuarantineSize st then
    let TotalQuarantineSize :=
      u64 (BytesInQuarantine st + TLS_LocalQuarantineSize st) in
    let st := set_BytesInQuarantine st TotalQuarantineSize
                (LastQurantineSize st) in
    let st := set_LocalQuarantineSize st 0 in
    let Limit := u64 (MaxQuarantineSize + LastQurantineSize st) in
    if Limit <? TotalQuarantineSize then
      if BytesInQuarantine st <? Limit then Ret st
      else Scan st
    else Ret st
  else Ret st.

Definition DataOnlyScope (st : AllocatorState) (level : Z)
  : outcome AllocatorState :=
  if level =? 1 then
    Ret (set_DataOnlyScopeLevel st (u64 (DataOnlyScopeLevel st + 1)))
  else if level =? -1 then
    trap_if (DataOnlyScopeLevel st =? 0) F_TRAP
      (Ret (set_DataOnlyScopeLevel st (u64 (DataOnlyScopeLevel st - 1))))
  else Fatal F_TRAP.

(** [GetPtrChunkSize]: the size of the chunk a pointer of the small
    allocator points to.  The two [assert]s abort the process. *)
Definition GetPtrChunkSize (st : AllocatorState) (Ptr : Z) : outcome Z :=
  let Ptr := ApplyAddressTag Config Ptr 0 in
  let StartSP := RoundDownTo Ptr kSuperPageSize in
  trap_if (StartSP <? kAllocatorSpace) F_assert
  (trap_if (kAllocatorSpace + kAllocatorSize <=? StartSP) F_assert
     (SP <- A2SP StartSP ;;
      SCD <- SuperPage.GetSCD (SCDescr st) (Memory st) SP ;;
      Ret (ChunkSize SCD))).

(** *** The C entry points of mtmalloc.cpp *)

(** The large allocator is a collaborator: [large_Allocate size] is the
    address its [mmap] path hands back. *)
Variable large_Allocate : Z -> Z.

Definition malloc (fuel : nat) (st : AllocatorState) (size : Z)
  : outcome (Z * AllocatorState) :=
  let size := if size <? 8 then 1 else size in
  if kMaxSizeClass <? size then Ret (large_Allocate size, st)
  else Allocate fuel st size.

(** [posix_memalign]: the return code and the pointer stored through
    [memptr].  An alignment above 4096 runs into [assert(0)]. *)
Definition posix_memalign (fuel : nat) (st : AllocatorState)
    (alignment size : Z) : outcome (Z * Z * AllocatorState) :=
  if alignment <=? 16 then
    '(p, st) <- malloc fuel st size ;; Ret (0, p, st)
  else if alignment <=? 4096 then
    let size := RoundDownTo size alignment in
    '(p, st) <- malloc fuel st size ;; Ret (0, p, st)
  else Fatal F_assert.

(** [large.Deallocate(p, Config.LargeAllocFence)], the other
    collaborator of [free]. *)
Variable large_Deallocate : AllocatorState -> Z -> bool -> outcome AllocatorState.

Definition free (st : AllocatorState) (p : Z) : outcome AllocatorState :=
  if p =? 0 then Ret st
  else if IsMine p then
    if QuarantineSize Config =? 0 then Deallocate st p
    else QuarantineAndMaybeScan st p (u64 (Z.shiftl (QuarantineSize Config) 20))
  else large_Deallocate st p (LargeAllocFence Config).

(** [__mtm_access], the callback the instrumented program runs on every
    memory access: a pointer of the small allocator whose address tag
    differs from the low nibble of the memory tag stops the process.
    ([CountAccess] only counts.) *)
Definition __mtm_access (st : AllocatorState) (Ptr : Z) : outcome unit :=
  if IsMine Ptr then
    MemoryTag <- GetMemoryTag Config (Memory st) (ApplyAddressTag Config Ptr 0) ;;
    if negb (GetAddressTag Ptr =? Z.land MemoryTag 15)
    then Fatal F_builtin_trap
    else Ret tt
  else Ret tt.
End WithConfig.

End Allocator.

(** ** Well-formed allocator states *)

(** Super pages a half of the allocator space has room for. *)
Definition kMaxSuperPages : Z := kAllocatorSize / 2 / kSuperPageSize.

(** Address of super page [idx] of a range, as [GetSuperPage] computes it
    while the index is in range. *)
Definition SPAddr (RangeNum idx : Z) : Z :=
  kFirstSuperPage RangeNum + idx * kSuperPageSize.

(** The size class recorded for a super page. *)
Definition ClassOf (m : Mem) (SP : Z) : Z := Shadow_Get SuperPageMetadata m SP.

Definition DescrOf (m : Mem) (SP : Z) : SizeClassDescr :=
  SCDescrAt SCDescrTable (ClassOf m SP).

(** Address of the state byte of chunk [i] of a super page. *)
Definition CellOf (m : Mem) (SP i : Z) : Z :=
  SuperPage.State (NumChunks (DescrOf m SP)) (RangeNum (DescrOf m SP)) SP + i.

Definition IsRange (r : Z) : Prop := r = 0 \/ r = 1.

(** [SP] is one of the super pages the allocator has created. *)
Definition ValidSP (st : AllocatorState) (SP : Z) : Prop :=
  exists r idx, IsRange r /\ 0 <= idx < NumSuperPages st r /\ SP = SPAddr r idx.

(** [a] is the address of chunk [i] of the created super page [SP]. *)
Definition IsChunk (st : AllocatorState) (a SP i : Z) : Prop :=
  ValidSP st SP /\
  0 <= i < NumChunks (DescrOf (Memory st) SP) /\
  a = SP + i * ChunkSize (DescrOf (Memory st) SP).

Definition IsUsed (v : Z) : Prop := v = USED_MIXED \/ v = USED_DATA.

(** [a] is the address of a chunk that is allocated. *)
Definition Live (st : AllocatorState) (a : Z) : Prop :=
  exists SP i, IsChunk st a SP i /\
               IsUsed (Load8 (Memory st) (CellOf (Memory st) SP i)).

(** The invariant of the allocator between calls, once [InitAll] has run:
    the descriptor table is in place, each range has at most as many super
    pages as its half of the space holds, every created super page has a
    size class of its own range recorded, and the per-class pointers of
    the thread are null or point to created super pages of that class. *)
Record WF (st : AllocatorState) : Prop := mkWF {
  wf_tbl : SCDescr st = SCDescrTable;
  wf_once : InitAllOnce st = true;
  wf_num : forall r, IsRange r -> 0 <= NumSuperPages st r <= kMaxSuperPages;
  wf_meta : forall r idx, IsRange r -> 0 <= idx < NumSuperPages st r ->
      0 <= ClassOf (Memory st) (SPAddr r idx) < kNumSizeClasses /\
      RangeNum (DescrOf (Memory st) (SPAddr r idx)) = r;
  wf_persc : forall sc, 0 <= sc < kNumSizeClasses ->
      TLS_PerSC_SP st sc = 0 \/
      (ValidSP st (TLS_PerSC_SP st sc) /\
       ClassOf (Memory st) (TLS_PerSC_SP st sc) = sc)
}.

(** What the proofs use of a descriptor of the table. *)
Definition GoodDescr (d : SizeClassDescr) : bool :=
  (16 <=? ChunkSize d) && (ChunkSize d <=? 262144)
  && (ChunkSize d mod 16 =? 0)
  && (1 <=? NumChunks d) && (NumChunks d <=? 30840)
  && ((RangeNum d =? 0) || (RangeNum d =? 1))
  && (NumChunks d <=? SizeOfInlineMeta (NumChunks d) 0)
  && (SizeOfInlineMeta (NumChunks d) 0 <=? 30848)
  && (SizeOfInlineMeta (NumChunks d) (RangeNum d)
      + NumChunks d * ChunkSize d <=? kSuperPageSize)
  && ((RangeNum d =? 0)
      || ((NumChunks d <=? 512) && (ChunkSize d mod 1024 =? 0))).

(** ** Calls into the allocator *)

Inductive Call : Type :=
  | CallAllocate (Size : Z)
  | CallDeallocate (Ptr : Z)
  | CallQuarantine (Ptr : Z)
  | CallScan.

Definition IsAllocate (c : Call) : Prop :=
  match c with CallAllocate _ => True | _ => False end.

Definition IsScan (c : Call) : Prop :=
  match c with CallScan => True | _ => False end.

(** A request size the small allocator is called with: a non-zero
    [size_t]. *)
Definition ValidCall (c : Call) : Prop :=
  match c with CallAllocate Size => 1 <= Size < 2 ^ 64 | _ => True end.

Section Calls.
Variable Config : MallocConfig.
Variable pthread_self : Z.
Variable fuel : nat.

(** One call: the pointer returned, if the call returns one, and the
    state it leaves. *)
Definition RunCall (st : AllocatorState) (c : Call)
  : outcome (option Z * AllocatorState) :=
  match c with
  | CallAllocate Size =>
      '(p, st') <- Allocator.Allocate Config pthread_self fuel st Size ;;
      Ret (Some p, st')
  | CallDeallocate Ptr =>
      st' <- Allocator.Deallocate Config st Ptr ;; Ret (None, st')
  | CallQuarantine Ptr =>
      st' <- Allocator.Quarantine Config st Ptr ;; Ret (None, st')
  | CallScan =>
      st' <- Allocator.Scan st ;; Ret (None, st')
  end.

(** A sequence of calls: the pointers returned, in order, and the final
    state. *)
Fixpoint RunCalls (st : AllocatorState) (cs : list Call)
  : outcome (list Z * AllocatorState) :=
  match cs with
  | [] => Ret ([], st)
  | c :: cs' =>
      '(r, st1) <- RunCall st c ;;
      '(rs, st2) <- RunCalls st1 cs' ;;
      Ret (match r with Some p => p :: rs | None => rs end, st2)
  end.
End Calls.

(** The pointer with its address tag removed. *)
Definition Untag (Config : MallocConfig) (p : Z) : Z := ApplyAddressTag Config p 0.

(** ** Statements taken from the specification *)

(** The state byte [quarantine] stores according to the spec's words: the
    chunk goes straight to [AVAILABLE] when [UseTag = 1] and the new tag
    has low nibble 0, or [UseTag = 2] and the new tag byte is 0. *)
Definition QuarantineNewValue_as_specified (UseTag NewTag : Z) : Z :=
  if ((UseTag =? 1) && (Z.land NewTag 15 =? 0))
     || ((UseTag =? 2) && (Z.land NewTag 255 =? 0))
  then AVAILABLE else QUARANTINED.

(** The condition under which the code skips the quarantine. *)
Definition TagShortcut (Config : MallocConfig) (NewTag : Z) : bool :=
  ((UseTag Config =? 1) && negb (Z.land NewTag 15 =? 0))
  || ((UseTag Config =? 2) && negb (Z.land NewTag 255 =? 0)).

(** ** Example configurations and memories *)

(** [MTM_USE_TAG=1 MTM_USE_SHADOW=1]. *)
Definition Tag4ShadowConfig : MallocConfig :=
  mkConfig false false false true false 1 true false 0 true 0.

(** [MTM_USE_TAG=1] alone. *)
Definition Tag4Config : MallocConfig :=
  mkConfig false false false true false 1 false false 0 true 0.

(** The first super page of range 0 holding chunks of class 0 (16 bytes),
    its first chunk [USED_MIXED], everything else zero. *)
Definition first_chunk_used : Mem :=
  Store8 (fun _ => 0)
    (SuperPage.State (NumChunks (SCDescrAt SCDescrTable 0)) 0 kAllocatorSpace)
    USED_MIXED.

(** ** The allocator after [InitAll] *)

(** The state [AllocateSlower] works on after its first-call block, when
    it is entered from [ZeroState]: descriptors written, the allocator
    space and the shadows mapped, [TLS.Rand] seeded. *)
Definition InitializedState (pthread_self : Z) : AllocatorState :=
  let m := mmap_fixed (Memory ZeroState) kAllocatorSpace kAllocatorSize in
  let m := mmap_fixed m (kShadowBeg SuperPageMetadata)
             (kSize SuperPageMetadata / kGranularity SuperPageMetadata) in
  let m := mmap_fixed m (kShadowBeg SecondRangeMeta)
             (kSize SecondRangeMeta / kGranularity SecondRangeMeta) in
  let m := mmap_fixed m (kShadowBeg LargeShadow)
             (kSize LargeShadow / kGranularity LargeShadow) in
  let m := mmap_fixed m (kShadowBeg SmallShadow)
             (kSize SmallShadow / kGranularity SmallShadow) in
  set_Rand (set_Memory (set_SCDescr ZeroState SCDescrTable) m)
    (u32 pthread_self).

(** ** A scenario for posix_memalign *)

(** [malloc(1)] followed by [posix_memalign(&out, 32, 1)] in a fresh
    process with the default configuration: the pointer the first call
    returns, and the return code and the pointer stored by the second. *)
Definition malloc_then_posix_memalign (pthread_self : Z) : outcome (Z * Z * Z) :=
  '(p, st) <- Allocator.malloc DefaultConfig pthread_self (fun _ => 0) 2
                ZeroState 1 ;;
  '(rc, q, _) <- Allocator.posix_memalign DefaultConfig pthread_self
                   (fun _ => 0) 2 st 32 1 ;;
  Ret (p, rc, q).

(** Two configurations of the memtagmalloc tag engine on x86_64 with the
    software shadow on: no alias bits, and one alias bit. *)
Definition shadow_without_aliases : MemTag.TagConfig :=
  MemTag.mkTagConfig false false true 0.

Definition shadow_with_one_alias_bit : MemTag.TagConfig :=
  MemTag.mkTagConfig false false true 1.

(** A memory in which the first chunk of the allocator space has memory
    tag 6. *)
Definition first_chunk_tagged_6 : Mem :=
  Store8 (fun _ => 0) (Shadow_GetShadowPtr SmallShadow kAllocatorSpace) 6.

(** A 10-entry state array at address 100 whose first seven chunks are
    [USED_MIXED] and whose last three are [AVAILABLE]. *)
Definition seven_used : Mem := fun a => if a <? 107 then 1 else 0.

(** ** Relations between allocator states *)

(** The facts of [GoodDescr] as propositions. *)
Record Good (d : SizeClassDescr) : Prop := mkGood {
  good_size : 16 <= ChunkSize d <= 262144;
  good_size16 : ChunkSize d mod 16 = 0;
  good_num : 1 <= NumChunks d <= 30840;
  good_range : IsRange (RangeNum d);
  good_meta : NumChunks d <= SizeOfInlineMeta (NumChunks d) 0 <= 30848;
  good_fit : SizeOfInlineMeta (NumChunks d) (RangeNum d)
             + NumChunks d * ChunkSize d <= 524288;
  good_range1 : RangeNum d = 1 -> NumChunks d <= 512 /\ ChunkSize d mod 1024 = 0;
  good_div : forall x, 0 <= x < 524288 ->
             DivBySizeViaMul x (ChunkSizeMulDiv d) = x / ChunkSize d
}.

(** A callback that leaves the memory alone when it refuses a position. *)
Definition QuietOnFailure (CB : Callback) : Prop :=
  forall Pos m m', CB Pos m = (false, m') -> m' = m.

(** [st'] has the super pages of [st], with their size classes, and the
    state bytes of their chunks are the same but for the chunks whose
    address is in [E]. *)
Record Preserves (E : Z -> Prop) (st st' : AllocatorState) : Prop := mkPreserves {
  pres_num : forall r, IsRange r -> NumSuperPages st r <= NumSuperPages st' r;
  pres_class : forall SP, ValidSP st SP ->
      ClassOf (Memory st') SP = ClassOf (Memory st) SP;
  pres_cell : forall SP i, ValidSP st SP ->
      0 <= i < NumChunks (DescrOf (Memory st) SP) ->
      ~ E (SP + i * ChunkSize (DescrOf (Memory st) SP)) ->
      Load8 (Memory st') (CellOf (Memory st) SP i)
      = Load8 (Memory st) (CellOf (Memory st) SP i)
}.

(** The result of an allocation that returned the chunk at [a]: the
    invariant holds, only the state byte of [a] has changed, and [a] is a
    chunk in a used state whose state byte, if its super page was there
    before, was [AVAILABLE]. *)
Definition AllocPost (st st' : AllocatorState) (a : Z) : Prop :=
  WF st' /\ Preserves (eq a) st st' /\
  exists SP i, IsChunk st' a SP i /\
    IsUsed (Load8 (Memory st') (CellOf (Memory st') SP i)) /\
    (ValidSP st SP ->
     Load8 (Memory st) (CellOf (Memory st) SP i) = AVAILABLE).

(** What the monotonicity of the super page counts needs of a state. *)
Definition Lite (st : AllocatorState) : Prop :=
  SCDescr st = SCDescrTable /\ InitAllOnce st = true /\
  0 <= NumSuperPages st 0 <= 2 * kMaxSuperPages.

(** A state the allocator can be entered in: the zeroed state of a fresh
    process, or a state in which the invariant holds. *)
Definition Callable (st : AllocatorState) : Prop := WF st \/ st = ZeroState.

Definition LiteStart (st : AllocatorState) : Prop := Lite st \/ st = ZeroState.

(** ** Reading the result of a run *)

Definition returns {A : Type} (o : outcome A) : bool :=
  match o with Ret _ => true | _ => false end.

Definition returned (o : outcome (list Z * AllocatorState)) : list Z :=
  match o with Ret (ps, _) => ps | _ => [] end.

Definition final_state {A : Type} (o : outcome (A * AllocatorState))
  : AllocatorState :=
  match o with Ret (_, st) => st | _ => ZeroState end.

(** Three requests of the largest small size. *)
Definition three_requests : list Call :=
  [CallAllocate 262144; CallAllocate 262144; CallAllocate 262144].

(** The result of a [Deallocate] or [Quarantine] of the chunk at [a]: the
    invariant holds, only the state byte of [a] has changed, and if [a] is
    a chunk, it was in a used state and its state byte is now [v]. *)
Definition FreePost (st st' : AllocatorState) (a v : Z) : Prop :=
  WF st' /\ Preserves (eq a) st st' /\
  NumSuperPages st' = NumSuperPages st /\
  forall SP i, IsChunk st a SP i ->
    IsUsed (Load8 (Memory st) (CellOf (Memory st) SP i)) /\
    Load8 (Memory st') (CellOf (Memory st) SP i) = v.

(** The two ways a double free stops the process. *)
Definition IsDoubleFreeTrap {A : Type} (o : outcome A) : Prop :=
  o = Fatal F_DoubleFree \/ o = Fatal F_TagDoubleFree.

Definition state_of (o : outcome AllocatorState) : AllocatorState :=
  match o with Ret st => st | _ => ZeroState end.

(** The allocator after one request of the largest small size, with the
    default configuration; the chunk it returns is the first one of the
    first super page of range 1. *)
Definition one_allocated : AllocatorState :=
  final_state (RunCalls DefaultConfig 1 2 (InitializedState 1)
                 [CallAllocate 262144]).

Definition first_large_chunk : Z := 0x608000000000.

Definition one_quarantined : AllocatorState :=
  state_of (Allocator.Quarantine DefaultConfig one_allocated first_large_chunk).

(** A fresh process with the 4-bit tag shortcut and the tag shadow on
    allocates, quarantines what it got and allocates again. *)
Definition allocate_quarantine_allocate : list Call :=
  [CallAllocate 262144; CallQuarantine first_large_chunk; CallAllocate 262144].

(** ** The mark phase of a scan *)

(** [x] is the address of the state byte of a chunk of a created super
    page. *)
Definition IsCell (st : AllocatorState) (x : Z) : Prop :=
  exists SP i, ValidSP st SP /\
               0 <= i < NumChunks (DescrOf (Memory st) SP) /\
               x = CellOf (Memory st) SP i.

(** What marking may do to a memory during a scan of [st]: state bytes go
    from [QUARANTINED] to [MARKED], and nothing else changes. *)
Definition MarkRel (st : AllocatorState) (m m' : Mem) : Prop :=
  forall x, Load8 m' x = Load8 m x \/
            (IsCell st x /\ Load8 m x = QUARANTINED /\ Load8 m' x = MARKED).

(** The body of the word loop of [MarkAllLivePointers]. *)
Definition MarkWord (SCDescr : list SizeClassDescr) (Region0 Region1 Word : Z)
    (m : Mem) : outcome Mem :=
  let Value := Load64 m Word in
  if (Region0 <=? u64 (Value - kFirstSuperPage 0))
     && (Region1 <=? u64 (Value - kFirstSuperPage 1))
  then Ret m
  else SuperPage.Mark SCDescr Value m (RoundDownTo Value kSuperPageSize).

(** The conditions of the conservative scan: [p] is a [USED_MIXED] chunk
    of [st], [q] a [QUARANTINED] one, and the aligned word at [w] inside
    [p] holds an address inside [q]. *)
Record PointsTo (st : AllocatorState) (p SPp ip w q SPq iq : Z) : Prop := mkPointsTo {
  pt_src : IsChunk st p SPp ip;
  pt_used : Load8 (Memory st) (CellOf (Memory st) SPp ip) = USED_MIXED;
  pt_dst : IsChunk st q SPq iq;
  pt_quarantined : Load8 (Memory st) (CellOf (Memory st) SPq iq) = QUARANTINED;
  pt_word : p <= w /\ w + 8 <= p + ChunkSize (DescrOf (Memory st) SPp) /\
            (w - p) mod 8 = 0;
  pt_value : q <= Load64 (Memory st) w
               < q + ChunkSize (DescrOf (Memory st) SPq)
}.

(** ** The pass after the marking *)

(** [x] is the state byte of a chunk of one of the super pages
    [a .. b - 1] of range [r]. *)
Definition CellsOfRange (st : AllocatorState) (r a b x : Z) : Prop :=
  exists idx i, a <= idx < b /\
    0 <= i < NumChunks (DescrOf (Memory st) (SPAddr r idx)) /\
    x = CellOf (Memory st) (SPAddr r idx) i.

(** ** A scan with a pointer to a quarantined chunk *)

Definition second_large_chunk : Z := 0x608000040000.

(** The allocator after two requests of the largest small size and the
    quarantine of the second chunk. *)
Definition two_allocated_one_quarantined : AllocatorState :=
  final_state (RunCalls DefaultConfig 1 2 (InitializedState 1)
                 [CallAllocate 262144; CallAllocate 262144;
                  CallQuarantine second_large_chunk]).

(** A store of the program: one byte of memory changes, the allocator's
    own variables do not. *)
Definition write_byte (st : AllocatorState) (x v : Z) : AllocatorState :=
  set_Memory st (Store8 (Memory st) x v).

(** The program has stored the address of the second chunk in the first
    word of the first one (the bytes of it that are not zero). *)
Definition pointer_stored : AllocatorState :=
  write_byte
    (write_byte (write_byte two_allocated_one_quarantined
                   (first_large_chunk + 2) 4)
       (first_large_chunk + 4) 128)
    (first_large_chunk + 5) 96.

(** The allocator after one request and the [Deallocate] of the chunk. *)
Definition one_deallocated : AllocatorState :=
  state_of (Allocator.Deallocate DefaultConfig one_allocated first_large_chunk).

(** A scan and a request of another size. *)
Definition scan_then_allocate : list Call := [CallScan; CallAllocate 1000].

(** The tag check of a free passes: whenever tags are compared, the
    address tag of the pointer is the low nibble of the memory tag. *)
Definition TagsAgree (Config : MallocConfig) (m : Mem) (p : Z) : Prop :=
  forall t, GetMemoryTag Config m (Untag Config p) = Ret t ->
    UseShadow Config && UseAliases Config = true ->
    GetAddressTag p = Z.land t 15.

(** What a free that returned has done to the heap: the invariant holds,
    the chunk at [a] has state [v], and every other chunk is what it
    was. *)
Definition Freed (st st' : AllocatorState) (a SP i v : Z) : Prop :=
  WF st' /\ NumSuperPages st' = NumSuperPages st /\
  IsChunk st' a SP i /\
  Load8 (Memory st') (CellOf (Memory st') SP i) = v /\
  forall b SP' i', IsChunk st b SP' i' -> b <> a ->
    IsChunk st' b SP' i' /\
    Load8 (Memory st') (CellOf (Memory st') SP' i')
    = Load8 (Memory st) (CellOf (Memory st) SP' i').

(** A shadow whose parameters make sense: a positive granularity that
    divides the start and the size of the region, and shadow bytes that
    lie below 2^64. *)
Definition GoodShadow (S : FixedShadow) : Prop :=
  0 < kGranularity S /\ kBeg S mod kGranularity S = 0 /\
  kSize S mod kGranularity S = 0 /\
  0 <= kBeg S /\ 0 <= kSize S /\ kBeg S + kSize S <= 2 ^ 64 /\
  0 <= kShadowBeg S /\ kShadowBeg S + kSize S / kGranularity S <= 2 ^ 64.

(** [N] chunks of [ChunkSize] bytes and their inline state bytes fit
    into a super page. *)
Definition FitsSuperPage (ChunkSize RangeNum N : Z) : Prop :=
  SizeOfInlineMeta N RangeNum + N * ChunkSize <= kSuperPageSize.

(** ** What an allocation returns, and what the calls leave alone *)

(** [st'] has every byte of the chunks of [st] as [st] has it. *)
Definition KeepsData (st st' : AllocatorState) : Prop :=
  forall b SP i x, IsChunk st b SP i ->
    b <= x < b + ChunkSize (DescrOf (Memory st) SP) ->
    Load8 (Memory st') x = Load8 (Memory st) x.

(** The state byte [TryAllocate] stores in the state [st]. *)
Definition NewChunkState (st : AllocatorState) : Z :=
  if DataOnlyScopeLevel st =? 0 then USED_MIXED else USED_DATA.

(** [p] is a pointer to a chunk of a super page of class [SC] whose state
    byte is [v], and it carries the memory tag of the chunk as its
    address tag. *)
Definition Fresh (Config : MallocConfig) (st : AllocatorState) (p SC v : Z)
  : Prop :=
  exists SP i T,
    IsChunk st (Untag Config p) SP i /\
    ClassOf (Memory st) SP = SC /\
    Load8 (Memory st) (CellOf (Memory st) SP i) = v /\
    GetMemoryTag Config (Memory st) (Untag Config p) = Ret T /\
    p = ApplyAddressTag Config (Untag Config p) T.

(** The chunks of [st] are chunks of [st'], of the same size. *)
Definition ChunksStay (st st' : AllocatorState) : Prop :=
  forall b SP i, IsChunk st b SP i ->
    IsChunk st' b SP i /\ DescrOf (Memory st') SP = DescrOf (Memory st) SP.

(** A free, a scan and a request of another size. *)
Definition free_scan_allocate : list Call :=
  [CallDeallocate first_large_chunk; CallScan; CallAllocate 1000].

(** [MTM_USE_TAG=1 MTM_USE_SHADOW=1 MTM_USE_ALIASES=1]. *)
Definition TagAliasConfig : MallocConfig :=
  mkConfig false false false true false 1 true true 0 true 0.

(** A fresh process with tags and aliases on after one request of the
    largest small size, and the tagged pointer the request returned. *)
Definition one_tagged : AllocatorState :=
  final_state (RunCalls TagAliasConfig 1 2 (InitializedState 1)
                 [CallAllocate 262144]).

Definition tagged_pointer : Z :=
  hd 0 (returned (RunCalls TagAliasConfig 1 2 (InitializedState 1)
                    [CallAllocate 262144])).

(** What [free] does to the heap, for the chunk at [a]: the invariant
    holds, the chunk is not allocated any more, every other allocated
    chunk is allocated, with the state it had, and the contents of all
    chunks are what they were. *)
Definition Released (st st' : AllocatorState) (a : Z) : Prop :=
  WF st' /\ ~ Live st' a /\
  (forall b SP i, IsChunk st b SP i -> b <> a ->
     IsUsed (Load8 (Memory st) (CellOf (Memory st) SP i)) ->
     IsChunk st' b SP i /\
     Load8 (Memory st') (CellOf (Memory st') SP i)
     = Load8 (Memory st) (CellOf (Memory st) SP i)) /\
  KeepsData st st'.

(** ** mtmalloc_util.h: powers of two *)

(** [__builtin_clzl(x)] on a non-zero 64-bit argument: the number of zero
    bits above the highest bit that is set. *)
Fixpoint clz_from (fuel : nat) (i x : Z) : Z :=
  match fuel with
  | O => 64
  | S fuel' => if Z.testbit x i then 63 - i else clz_from fuel' (i - 1) x
  end.

Definition builtin_clzl (x : Z) : Z := clz_from 64 63 (u64 x).

Definition MostSignificantSetBitIndex (x : Z) : Z :=
  u64 (8 * 8 - 1 - builtin_clzl x).

Definition IsPowerOfTwo (x : Z) : bool :=
  Z.land x (u64 (x - 1)) =? 0.

(** [1ULL << (up + 1)] has no defined value when [up + 1] is 64: the
    result is [None] there. *)
Definition RoundUpToPowerOfTwo (size : Z) : option Z :=
  if IsPowerOfTwo size then Some size
  else
    let up := MostSignificantSetBitIndex size in
    if up + 1 <? 64 then Some (u64 (Z.shiftl 1 (up + 1))) else None.

(** ** mtmalloc_config.h: reading the environment *)

(** The names of the variables [Init] reads. *)
Module EnvNames.
Import String.
Definition MTM_PRINT_STATS : string := "MTM_PRINT_STATS".
Definition MTM_PRINT_SP_ALLOC : string := "MTM_PRINT_SP_ALLOC".
Definition MTM_PRINT_SCAN : string := "MTM_PRINT_SCAN".
Definition MTM_LARGE_ALLOC_FENCE : string := "MTM_LARGE_ALLOC_FENCE".
Definition MTM_LARGE_ALLOC_VERBOSE : string := "MTM_LARGE_ALLOC_VERBOSE".
Definition MTM_USE_TAG : string := "MTM_USE_TAG".
Definition MTM_USE_SHADOW : string := "MTM_USE_SHADOW".
Definition MTM_USE_ALIASES : string := "MTM_USE_ALIASES".
Definition MTM_QUARANTINE_SIZE : string := "MTM_QUARANTINE_SIZE".
Definition MTM_HANDLE_SIGUSR2 : string := "MTM_HANDLE_SIGUSR2".
Definition MTM_RELEASE_FREQ : string := "MTM_RELEASE_FREQ".
End EnvNames.

(** [Environment]: for the name of a variable, nothing when [getenv]
    gives a null pointer, and otherwise the [long] that [atol] reads from
    its value. *)
Definition Environment : Type := String.string -> option Z.

Definition EnvToLong (env : Environment) (Env : String.string)
    (DefaultValue MinValue MaxValue : Z) : Z :=
  match env Env with
  | None => DefaultValue
  | Some Res =>
      if Res <? MinValue then MinValue
      else if MaxValue <? Res then MaxValue
      else Res
  end.

Definition EnvToBool (env : Environment) (Env : String.string)
    (DefaultValue : bool) : bool :=
  negb (EnvToLong env Env (Z.b2z DefaultValue) 0 1 =? 0).

(** [Init], with the bit [Initialized] passed beside the other fields.
    [!!x] is [x != 0]; a value stored into a bit-field of [w] bits is
    taken modulo [2 ^ w]. *)
Definition MallocConfig_Init (env : Environment) (Initialized : bool)
    (c : MallocConfig) : MallocConfig :=
  if Initialized then c
  else
    let flag n d := negb (EnvToLong env n d 0 1 =? 0) in
    mkConfig
      (flag EnvNames.MTM_PRINT_STATS 0)
      (flag EnvNames.MTM_PRINT_SP_ALLOC 0)
      (flag EnvNames.MTM_PRINT_SCAN 0)
      (flag EnvNames.MTM_LARGE_ALLOC_FENCE 1)
      (flag EnvNames.MTM_LARGE_ALLOC_VERBOSE 0)
      (EnvToLong env EnvNames.MTM_USE_TAG 0 0 2 mod 2 ^ 2)
      (flag EnvNames.MTM_USE_SHADOW 0)
      (flag EnvNames.MTM_USE_ALIASES 0)
      (EnvToLong env EnvNames.MTM_QUARANTINE_SIZE 0 0 255 mod 2 ^ 8)
      (EnvToBool env EnvNames.MTM_HANDLE_SIGUSR2 true)
      (EnvToLong env EnvNames.MTM_RELEASE_FREQ 0 0 255 mod 2 ^ 8).

(** ** mtmalloc_large.h *)

(** An 8-byte little-endian store, [*reinterpret_cast<uint64_t*>(p) = v]. *)
Definition Store64 (m : Mem) (a v : Z) : Mem :=
  fold_left (fun m k => Store8 m (a + k) (Z.shiftr v (8 * k)))
    [0; 1; 2; 3; 4; 5; 6; 7] m.

Module LargeAllocator.

Definition kCpuPageSize : Z := Z.shiftl 1 12.
Definition kLeftHeaderMagic : Z := 0x039C823525B0237E.
Definition kRightHeaderMagic : Z := 0x1C2C5300098D85AD.

(** [Allocate].  The address is the kernel's to choose: [mmap_result] is
    what [mmap(0, SizeWithHeader, ...)] returns, all bits set when it
    fails; the pages of a mapping that succeeded read as zero. *)
Definition Allocate (mmap_result : Z) (m : Mem) (Size : Z) : outcome (Z * Mem) :=
  let RoundedSize := RoundUpTo Size kCpuPageSize in
  let SizeWithHeader := u64 (RoundedSize + kCpuPageSize) in
  let Header := mmap_result in
  trap_if (Header =? 2 ^ 64 - 1) F_TRAP
    (let m := mmap_fixed m Header SizeWithHeader in
     let m := Store64 m Header kLeftHeaderMagic in
     let m := Store64 m (u64 (Header + 8 * 1)) SizeWithHeader in
     let m := Store64 m (u64 (Header + 8 * 2)) kRightHeaderMagic in
     Ret (u64 (Header + 8 * (kCpuPageSize / 8)), m)).

Definition GetHeader (m : Mem) (Ptr : Z) : outcome Z :=
  let Header := u64 (Ptr - 8 * (kCpuPageSize / 8)) in
  trap_if (negb (Load64 m Header =? kLeftHeaderMagic)
           && negb (Load64 m (u64 (Header + 8 * 2)) =? kRightHeaderMagic))
    F_TRAP (Ret Header).

Definition GetPtrChunkSize (m : Mem) (Ptr : Z) : outcome Z :=
  Header <- GetHeader m Ptr ;;
  Ret (u64 (Load64 m (u64 (Header + 8 * 1)) - kCpuPageSize)).

End LargeAllocator.

(** ** The bytes in quarantine *)

(** The bytes of the chunks of a super page whose state is
    [QUARANTINED], and their sum over the super pages
    [idx .. idx + n - 1] of a range. *)
Definition QuarantinedIn (m : Mem) (SP : Z) : Z :=
  let d := DescrOf m SP in
  ChunkSize d
  * SuperPage.CountStates_from (Z.to_nat (NumChunks d)) 0
      (SuperPage.State (NumChunks d) (RangeNum d) SP) QUARANTINED m.

Fixpoint QuarantinedBytes (n : nat) (r idx : Z) (m : Mem) : Z :=
  match n with
  | O => 0
  | S n' => QuarantinedIn m (SPAddr r idx) + QuarantinedBytes n' r (idx + 1) m
  end.

(** [m] records, for the created super pages of [st], the size classes
    that the memory of [st] records. *)
Definition SameClasses (st : AllocatorState) (m : Mem) : Prop :=
  forall SP, ValidSP st SP -> ClassOf m SP = ClassOf (Memory st) SP.

(** ** SuperPage::MaybeReleaseToOs *)

(** [madvise(addr, len, MADV_DONTNEED)] on a private anonymous mapping:
    the range reads as zero afterwards. *)
Definition madvise_dontneed (m : Mem) (addr len : Z) : Mem :=
  fun x => if (addr <=? x) && (x <? addr + len) then 0 else m x.

(** The first pass of [MaybeReleaseToOs] over the state bytes.  Its
    compare-and-swap is the weak one, which is allowed to fail though the
    byte holds the expected value: [cas_fails a] tells whether it does at
    the address [a]. *)
Fixpoint ReleasePass (n : nat) (i S : Z) (cas_fails : Z -> bool) (m : Mem)
    (NumReadyToRelease : Z) : Z * Mem :=
  match n with
  | O => (NumReadyToRelease, m)
  | S n' =>
      if (Load8 m (S + i) =? AVAILABLE) && negb (cas_fails (S + i))
      then ReleasePass n' (i + 1) S cas_fails (Store8 m (S + i) RELEASING)
             (NumReadyToRelease + 1)
      else ReleasePass n' (i + 1) S cas_fails m NumReadyToRelease
  end.

Definition SuperPage_MaybeReleaseToOs (cas_fails : Z -> bool)
    (SCDescr : list SizeClassDescr) (m : Mem) (This : Z) : outcome Mem :=
  SCD <- SuperPage.GetSCD SCDescr m This ;;
  let N := NumChunks SCD in
  Ava <- SuperPage.CountAvailable SCDescr m This ;;
  if negb (Ava =? N) then Ret m
  else
    SCD1 <- SuperPage.GetSCD SCDescr m This ;;
    let '(NumReadyToRelease, m) :=
      ReleasePass (Z.to_nat (NumChunks SCD1)) 0
        (SuperPage.State (NumChunks SCD1) (RangeNum SCD1) This)
        cas_fails m 0 in
    if NumReadyToRelease =? N then
      let m := madvise_dontneed m This kSuperPageSize in
      if RangeNum SCD =? 1
      then SuperPage.IterateStates SCDescr (fun _ => AVAILABLE) m This
      else Ret m
    else
      SuperPage.IterateStates SCDescr
        (fun S => if S =? RELEASING then AVAILABLE else S) m This.

(* ================================================================= *)
(** * Proofs *)
(* ================================================================= *)


(** Case analysis on every [<=?] of the goal. *)
Ltac case_leb :=
  repeat match goal with
         | |- context [?a <=? ?b] => destruct (Z.leb_spec a b)
         end.

(** ** Fixed-width arithmetic *)

Lemma u8_small x : 0 <= x < 2 ^ 8 -> u8 x = x.
Proof. intros; unfold u8; now apply Z.mod_small. Qed.

Lemma u32_small x : 0 <= x < 2 ^ 32 -> u32 x = x.
Proof. intros; unfold u32; now apply Z.mod_small. Qed.

Lemma u64_small x : 0 <= x < 2 ^ 64 -> u64 x = x.
Proof. intros; unfold u64; now apply Z.mod_small. Qed.

Lemma u32_range x : 0 <= u32 x < 2 ^ 32.
Proof. unfold u32; apply Z.mod_pos_bound; lia. Qed.

Lemma u64_range x : 0 <= u64 x < 2 ^ 64.
Proof. unfold u64; apply Z.mod_pos_bound; lia. Qed.

Lemma u8_range x : 0 <= u8 x < 2 ^ 8.
Proof. unfold u8; apply Z.mod_pos_bound; lia. Qed.

(** ** The reciprocal test *)

Lemma IsCorrectDivToMul_loop_sound fuel : forall Left Div Mul Shift,
  IsCorrectDivToMul_loop fuel Left Div Mul Shift = true ->
  forall x, Left <= x < Left + Z.of_nat fuel ->
    u32 (x / Div) = u32 (Z.shiftr (u64 (x * Mul)) Shift).
Proof.
  induction fuel as [|fuel IH]; intros Left Div Mul Shift H x Hx.
  - lia.
  - cbn [IsCorrectDivToMul_loop] in H.
    destruct (Z.eqb_spec (u32 (Left / Div))
                (u32 (Z.shiftr (u64 (Left * Mul)) Shift))) as [E|E];
      [|discriminate].
    destruct (Z.eq_dec x Left) as [->|Hne]; [exact E|].
    apply (IH _ _ _ _ H); lia.
Qed.

Lemma IsCorrectDivToMul_loop_complete fuel : forall Left Div Mul Shift,
  (forall x, Left <= x < Left + Z.of_nat fuel ->
     u32 (x / Div) = u32 (Z.shiftr (u64 (x * Mul)) Shift)) ->
  IsCorrectDivToMul_loop fuel Left Div Mul Shift = true.
Proof.
  induction fuel as [|fuel IH]; intros Left Div Mul Shift H; [reflexivity|].
  cbn [IsCorrectDivToMul_loop].
  rewrite (proj2 (Z.eqb_eq _ _) (H Left ltac:(lia))).
  apply IH; intros x Hx; apply H; lia.
Qed.

Lemma IsCorrectDivToMul_sound Div Mul Shift MaxLeft :
  IsCorrectDivToMul Div Mul Shift MaxLeft = true ->
  forall x, 1 <= x <= MaxLeft ->
    u32 (x / Div) = u32 (Z.shiftr (u64 (x * Mul)) Shift).
Proof.
  intros H x Hx. apply (IsCorrectDivToMul_loop_sound _ _ _ _ _ H). lia.
Qed.

Lemma DivToMulCriterion_exact Div Mul Shift MaxLeft :
  0 <= Shift ->
  DivToMulCriterion Div Mul Shift MaxLeft = true ->
  forall x, 0 <= x <= MaxLeft -> x * Mul / 2 ^ Shift = x / Div.
Proof.
  intros HS H x Hx. unfold DivToMulCriterion in H.
  repeat (apply andb_prop in H; destruct H as [H ?]).
  apply Z.ltb_lt in H. apply Z.leb_le in H2.
  apply Z.ltb_lt in H1. apply Z.ltb_lt in H0.
  assert (HP : 0 < 2 ^ Shift) by (apply Z.pow_pos_nonneg; lia).
  set (P := 2 ^ Shift) in *.
  set (e := Mul * Div - P) in *.
  assert (HM : 0 < Mul) by nia.
  pose proof (Z.div_mod x Div ltac:(lia)) as Hdm.
  pose proof (Z.mod_pos_bound x Div H) as Hr.
  pose proof (Z.div_mod MaxLeft Div ltac:(lia)) as HdmL.
  pose proof (Z.mod_pos_bound MaxLeft Div H) as HrL.
  set (q := x / Div) in *. set (r := x mod Div) in *.
  set (qm := MaxLeft / Div) in *. set (rm := MaxLeft mod Div) in *.
  assert (Hq0 : 0 <= q) by (apply Z.div_pos; lia).
  assert (Hqm : q <= qm) by (apply Z.div_le_mono; lia).
  assert (Hsplit : x * Mul = q * P + (q * e + r * Mul)) by (unfold e; nia).
  assert (Hlo : 0 <= q * e + r * Mul) by nia.
  assert (Hhi : q * e + r * Mul < P).
  { destruct (Z.eq_dec q qm) as [Eq|Ne].
    - assert (r <= rm) by nia. rewrite Eq. nia.
    - assert (q <= qm - 1) by lia.
      assert (q * e <= (qm - 1) * e) by nia.
      assert (r * Mul <= (Div - 1) * Mul) by nia. lia. }
  symmetry. apply (Z.div_unique_pos _ _ q (q * e + r * Mul)); lia.
Qed.

Lemma DivToMulCriterion_IsCorrect Div Mul :
  Mul < 2 ^ 32 ->
  DivToMulCriterion Div Mul kDivMulShift kSuperPageSize = true ->
  IsCorrectDivToMul Div Mul kDivMulShift kSuperPageSize = true.
Proof.
  intros HMul H. unfold IsCorrectDivToMul.
  apply IsCorrectDivToMul_loop_complete. intros x Hx.
  assert (Hx' : 0 <= x <= kSuperPageSize)
    by (change kSuperPageSize with 524288 in *; lia).
  assert (HS : 0 <= kDivMulShift) by (unfold kDivMulShift; lia).
  pose proof (DivToMulCriterion_exact _ _ _ _ HS H x Hx') as E.
  unfold DivToMulCriterion in H.
  repeat (apply andb_prop in H; destruct H as [H ?]).
  apply Z.ltb_lt in H. apply Z.leb_le in H2.
  change kSuperPageSize with 524288 in *. change kDivMulShift with 35 in *.
  assert (HM : 0 < Mul) by nia.
  rewrite (u64_small (x * Mul)) by nia.
  rewrite Z.shiftr_div_pow2 by lia. now rewrite E.
Qed.

(** The loop of [IsCorrectDivToMul] runs for 2^19 iterations; from here on
    proofs go through the lemmas above and never unfold it by conversion. *)
Strategy opaque [IsCorrectDivToMul IsCorrectDivToMul_loop].

(** ** The size-class table built by [InitAll] *)

Lemma ComputeMulForDiv_range Div Shift :
  0 <= ComputeMulForDiv Div Shift < 2 ^ 32.
Proof.
  unfold ComputeMulForDiv.
  destruct (Z.land Div (u32 (Div - 1)) =? 0); apply u32_range.
Qed.

Lemma FixUpChunkSize_nonneg fuel : forall c CS,
  0 <= c -> FixUpChunkSize fuel c = Some CS -> 0 <= CS.
Proof.
  induction fuel as [|fuel IH]; intros c CS Hc H; [discriminate|].
  cbn [FixUpChunkSize] in H.
  destruct (IsCorrectDivToMul _ _ _ _).
  - now inversion H; subst.
  - apply IH in H; [exact H | apply u64_range].
Qed.

Lemma InitSizeClass_no_fix_up fuel c :
  NeedsNoFixUp c = true ->
  InitSizeClass (S fuel) c = Some (DescrOfChunkSize c).
Proof.
  intros H. unfold NeedsNoFixUp in H.
  do 4 (apply andb_prop in H; destruct H as [H ?]).
  apply Z.ltb_lt in H3.
  pose proof (DivToMulCriterion_IsCorrect _ _ H3 H) as HC.
  unfold InitSizeClass, DescrOfChunkSize. cbn [FixUpChunkSize].
  rewrite HC, H2, H1. cbn [negb].
  destruct (ComputeNumChunks c _) as [N|]; [|discriminate].
  rewrite (u32_small (ComputeMulForDiv _ _)) by apply ComputeMulForDiv_range.
  now rewrite HC.
Qed.

Lemma InitSizeClasses_no_fix_up fuel l :
  forallb NeedsNoFixUp l = true ->
  InitSizeClasses (S fuel) l = Some (map DescrOfChunkSize l).
Proof.
  induction l as [|c l IH]; intros H; [reflexivity|].
  cbn [forallb] in H. apply andb_prop in H. destruct H as [Hc Hl].
  cbn [InitSizeClasses map].
  now rewrite (InitSizeClass_no_fix_up fuel c Hc), (IH Hl).
Qed.

(** Every entry of [SCArray] already passes the reciprocal test, so
    [InitAll] terminates on its first try of each and builds the table. *)
Lemma InitAll_SCDescr_ok fuel : InitAll_SCDescr (S fuel) = Some SCDescrTable.
Proof.
  unfold InitAll_SCDescr.
  rewrite InitSizeClasses_no_fix_up by (vm_compute; reflexivity).
  reflexivity.
Qed.

Lemma InitAll_SCDescr_inv fuel tbl :
  InitAll_SCDescr fuel = Some tbl -> tbl = SCDescrTable.
Proof.
  destruct fuel as [|fuel].
  - unfold InitAll_SCDescr. cbn. discriminate.
  - rewrite InitAll_SCDescr_ok. now inversion 1.
Qed.

Lemma InitSizeClasses_nth fuel : forall l ds i d,
  InitSizeClasses fuel l = Some ds -> nth_error ds i = Some d ->
  exists c, nth_error l i = Some c /\ InitSizeClass fuel c = Some d.
Proof.
  induction l as [|c l IH]; intros ds i d H Hn.
  - cbn in H. inversion H; subst. destruct i; discriminate.
  - cbn [InitSizeClasses] in H.
    destruct (InitSizeClass fuel c) as [d0|] eqn:E0; [|discriminate].
    destruct (InitSizeClasses fuel l) as [ds0|] eqn:E1; [|discriminate].
    inversion H; subst. destruct i as [|i]; cbn in Hn.
    + inversion Hn; subst. exists c. now split.
    + destruct (IH _ _ _ eq_refl Hn) as (c' & ? & ?). now exists c'.
Qed.

(** What [InitAll] has checked of a descriptor it wrote. *)
Lemma InitSizeClass_checked fuel c d :
  0 <= c -> InitSizeClass fuel c = Some d ->
  0 <= ChunkSize d < 2 ^ 20 /\ 0 <= ChunkSizeMulDiv d < 2 ^ 32 /\
  IsCorrectDivToMul (ChunkSize d) (ChunkSizeMulDiv d)
    kDivMulShift kSuperPageSize = true.
Proof.
  intros Hc H. unfold InitSizeClass in H.
  destruct (FixUpChunkSize fuel c) as [CS|] eqn:EF; [|discriminate].
  apply FixUpChunkSize_nonneg in EF; [|exact Hc].
  destruct (Z.eqb_spec (CS mod 16) 0) as [E16|]; [|discriminate].
  destruct (Z.ltb_spec (CS / 16) (Z.shiftl 1 16)) as [Hlt|]; [|discriminate].
  cbn [negb] in H.
  destruct (ComputeNumChunks CS _) as [N|]; [|discriminate].
  destruct (IsCorrectDivToMul _ _ _ _) eqn:EC; [|discriminate].
  inversion H; subst; clear H.
  unfold ChunkSize; cbn [ChunkSizeDiv16 ChunkSizeMulDiv].
  change (Z.shiftl 1 16) with 65536 in Hlt.
  assert (H0 : 0 <= CS / 16) by (apply Z.div_pos; lia).
  rewrite (Z.mod_small (CS / 16)) by lia.
  assert (ECS : CS / 16 * 16 = CS)
    by (pose proof (Z.div_mod CS 16 ltac:(lia)); lia).
  rewrite ECS. rewrite (u32_small CS) in * by lia.
  repeat split; try lia; try apply u32_range. exact EC.
Qed.

Lemma SCArray_nonneg c : In c SCArray -> 0 <= c.
Proof.
  intros H.
  assert (F : forallb (fun c => 0 <=? c) SCArray = true) by reflexivity.
  rewrite forallb_forall in F. apply Z.leb_le. now apply F.
Qed.

Lemma DivBySizeViaMul_exact Div Mul x :
  0 <= Div < 2 ^ 20 -> 0 <= Mul < 2 ^ 32 ->
  IsCorrectDivToMul Div Mul kDivMulShift kSuperPageSize = true ->
  0 <= x < kSuperPageSize ->
  Z.shiftr (x * Mul) kDivMulShift = x / Div /\
  DivBySizeViaMul x Mul = x / Div.
Proof.
  intros HD HM HC Hx. change kSuperPageSize with 524288 in *.
  assert (Hq : 0 <= x / Div <= x).
  { destruct (Z.eq_dec Div 0) as [->|]; [rewrite Z.div_0_r; lia|].
    split; [apply Z.div_pos; lia|].
    apply Z.div_le_upper_bound; nia. }
  assert (Hp : 0 <= x * Mul < 2 ^ 51) by nia.
  assert (Hs : 0 <= Z.shiftr (x * Mul) kDivMulShift < 2 ^ 16).
  { unfold kDivMulShift. rewrite Z.shiftr_div_pow2 by lia. split.
    - apply Z.div_pos; lia.
    - apply Z.div_lt_upper_bound; lia. }
  assert (E : Z.shiftr (x * Mul) kDivMulShift = x / Div).
  { destruct (Z.eq_dec x 0) as [->|Hne].
    - now rewrite Z.mul_0_l, Z.shiftr_0_l.
    - pose proof (IsCorrectDivToMul_sound _ _ _ _ HC x ltac:(lia)) as E.
      rewrite (u64_small (x * Mul)) in E by lia.
      rewrite !u32_small in E by lia. now symmetry. }
  split; [exact E|]. unfold DivBySizeViaMul.
  rewrite (u32_small x), (u32_small Mul) by lia.
  rewrite (u64_small (x * Mul)) by lia.
  rewrite u32_small by lia. exact E.
Qed.

(** C4. For every descriptor written by [InitAll] and every offset inside
    a super page, [(offset * ChunkSizeMulDiv) >> 35], computed exactly, is
    [offset / ChunkSize]; [DivBySizeViaMul], with its 32- and 64-bit
    truncations, returns the same quotient. *)
Theorem reciprocal_correct fuel tbl i d offset :
  InitAll_SCDescr fuel = Some tbl ->
  nth_error tbl i = Some d ->
  0 <= offset < kSuperPageSize ->
  Z.shiftr (offset * ChunkSizeMulDiv d) kDivMulShift = offset / ChunkSize d /\
  DivBySizeViaMul offset (ChunkSizeMulDiv d) = offset / ChunkSize d.
Proof.
  intros HI Hn Hoff. unfold InitAll_SCDescr in HI.
  destruct (InitSizeClasses_nth _ _ _ _ _ HI Hn) as (c & Hc & Hd).
  apply nth_error_In in Hc. apply SCArray_nonneg in Hc.
  destruct (InitSizeClass_checked _ _ _ Hc Hd) as (HCS & HMD & HOK).
  now apply DivBySizeViaMul_exact.
Qed.

Lemma reciprocal_correct_witness :
  Z.shiftr (1000 * ChunkSizeMulDiv (SCDescrAt SCDescrTable 2)) kDivMulShift
    = 1000 / ChunkSize (SCDescrAt SCDescrTable 2) /\
  DivBySizeViaMul 1000 (ChunkSizeMulDiv (SCDescrAt SCDescrTable 2))
    = 1000 / ChunkSize (SCDescrAt SCDescrTable 2).
Proof.
  apply (reciprocal_correct 1 SCDescrTable 2 (SCDescrAt SCDescrTable 2) 1000).
  - exact (InitAll_SCDescr_ok 0).
  - reflexivity.
  - vm_compute. split; [discriminate | reflexivity].
Defined.

(** ** SizeToSizeClass *)

Lemma SizeToSizeClass_loop_first tbl fuel : forall Idx n r,
  0 <= Idx -> Idx + Z.of_nat fuel <= 256 ->
  SizeToSizeClass_loop tbl fuel Idx n = Some r ->
  Idx <= r < Idx + Z.of_nat fuel /\
  n <= ChunkSize (SCDescrAt tbl r) /\
  forall j, Idx <= j < r -> ChunkSize (SCDescrAt tbl j) < n.
Proof.
  induction fuel as [|fuel IH]; intros Idx n r H0 Hb H; [discriminate|].
  cbn [SizeToSizeClass_loop] in H.
  destruct (Z.leb_spec n (ChunkSize (SCDescrAt tbl Idx))) as [Hle|Hgt].
  - inversion H; subst. repeat split; try lia.
  - destruct fuel as [|fuel']; [discriminate|].
    rewrite u8_small in H by lia.
    destruct (IH (Idx + 1) n r ltac:(lia) ltac:(lia) H) as (Hr & Hn & Hj).
    repeat split; try lia. intros j Hjr.
    destruct (Z.eq_dec j Idx) as [->|]; [lia | apply Hj; lia].
Qed.

Lemma SizeToSizeClass_loop_finds tbl fuel : forall Idx n k,
  0 <= Idx -> Idx + Z.of_nat fuel <= 256 ->
  Idx <= k < Idx + Z.of_nat fuel ->
  n <= ChunkSize (SCDescrAt tbl k) ->
  exists r, SizeToSizeClass_loop tbl fuel Idx n = Some r.
Proof.
  induction fuel as [|fuel IH]; intros Idx n k H0 Hb Hk Hn; [lia|].
  cbn [SizeToSizeClass_loop].
  destruct (Z.leb_spec n (ChunkSize (SCDescrAt tbl Idx))) as [Hle|Hgt].
  - now exists Idx.
  - assert (k <> Idx) by (intros ->; lia).
    destruct fuel as [|fuel']; [lia|].
    rewrite u8_small by lia.
    apply (IH _ _ k); lia.
Qed.

Lemma SCDescrTable_first16 k :
  0 <= k <= 15 -> ChunkSize (SCDescrAt SCDescrTable k) = 16 * (k + 1).
Proof.
  intros Hk.
  assert (F : forallb (fun k => ChunkSize (SCDescrAt SCDescrTable k)
                                =? 16 * (k + 1))
                (map Z.of_nat (seq 0 16)) = true) by (vm_compute; reflexivity).
  rewrite forallb_forall in F. apply Z.eqb_eq, F.
  replace k with (Z.of_nat (Z.to_nat k)) by lia.
  apply in_map, in_seq. lia.
Qed.

(** C9. Once [InitAll] has written the descriptors, a request of
    [1 <= n <= 262144] bytes gets class [(n + 15) / 16 - 1] when
    [n <= 256] and otherwise the first class whose chunk size is at least
    [n]; the descriptor handed back is the one of that class and its chunk
    size is at least [n]. *)
Theorem SizeToSizeClass_spec fuel tbl n :
  InitAll_SCDescr fuel = Some tbl ->
  1 <= n <= 262144 ->
  let sc := fst (SizeToSizeClass tbl n) in
  let scd := snd (SizeToSizeClass tbl n) in
  scd = SCDescrAt tbl sc /\
  0 <= sc < kNumSizeClasses /\
  (n <= 256 -> sc = (n + 15) / 16 - 1) /\
  (256 < n ->
     n <= ChunkSize (SCDescrAt tbl sc) /\
     forall j, 0 <= j < sc -> ChunkSize (SCDescrAt tbl j) < n) /\
  n <= ChunkSize scd.
Proof.
  intros HI Hn. apply InitAll_SCDescr_inv in HI. subst tbl.
  unfold SizeToSizeClass. change kNumSizeClasses with 67.
  destruct (Z.leb_spec n 256) as [Hs|Hl]; cbn [fst snd].
  - assert (Hq : 1 <= (n + 15) / 16 <= 16) by (Z.div_mod_to_equations; lia).
    rewrite (u64_small (n + 15)) by lia.
    rewrite (u64_small ((n + 15) / 16 - 1)) by lia.
    rewrite u8_small by lia.
    repeat split; try lia.
    rewrite SCDescrTable_first16 by lia.
    pose proof (Z.div_mod (n + 15) 16 ltac:(lia)).
    pose proof (Z.mod_pos_bound (n + 15) 16 ltac:(lia)). lia.
  - destruct (SizeToSizeClass_loop_finds SCDescrTable (Z.to_nat 67) 0 n 66)
      as [r Hr]; try lia.
    { change (ChunkSize (SCDescrAt SCDescrTable 66)) with 262144. lia. }
    rewrite Hr. cbn [fst snd].
    destruct (SizeToSizeClass_loop_first SCDescrTable (Z.to_nat 67) 0 n r
                ltac:(lia) ltac:(lia) Hr) as (Hrb & Hrn & Hrj).
    repeat split; try lia. exact Hrj.
Qed.

Lemma SizeToSizeClass_spec_witness :
  let sc := fst (SizeToSizeClass SCDescrTable 1000) in
  let scd := snd (SizeToSizeClass SCDescrTable 1000) in
  scd = SCDescrAt SCDescrTable sc /\
  0 <= sc < kNumSizeClasses /\
  (1000 <= 256 -> sc = (1000 + 15) / 16 - 1) /\
  (256 < 1000 ->
     1000 <= ChunkSize (SCDescrAt SCDescrTable sc) /\
     forall j, 0 <= j < sc -> ChunkSize (SCDescrAt SCDescrTable j) < 1000) /\
  1000 <= ChunkSize scd.
Proof.
  apply (SizeToSizeClass_spec 1 SCDescrTable 1000).
  - exact (InitAll_SCDescr_ok 0).
  - lia.
Defined.

(** ** Rounding to a power of two *)

Lemma land_lnot_pow2 x k :
  0 <= k < 64 -> Z.land x (Z.lnot (u64 (2 ^ k - 1))) = 2 ^ k * (x / 2 ^ k).
Proof.
  intros Hk.
  assert (H2 : 0 < 2 ^ k < 2 ^ 64).
  { split; [apply Z.pow_pos_nonneg; lia | apply Z.pow_lt_mono_r; lia]. }
  rewrite u64_small by lia.
  replace (2 ^ k - 1) with (Z.ones k) by (rewrite Z.ones_equiv; lia).
  rewrite <- Z.ldiff_land, Z.ldiff_ones_r by lia.
  rewrite Z.shiftl_mul_pow2, Z.shiftr_div_pow2 by lia. lia.
Qed.

Lemma RoundDownTo_pow2 x k :
  0 <= k < 64 -> RoundDownTo x (2 ^ k) = 2 ^ k * (x / 2 ^ k).
Proof. intros; unfold RoundDownTo; now apply land_lnot_pow2. Qed.

Lemma RoundUpTo_pow2 x k :
  0 <= k < 64 ->
  RoundUpTo x (2 ^ k) = 2 ^ k * (u64 (x + 2 ^ k - 1) / 2 ^ k).
Proof. intros; unfold RoundUpTo; now apply land_lnot_pow2. Qed.

Lemma RoundDownTo_8 x : RoundDownTo x 8 = 8 * (x / 8).
Proof. apply (RoundDownTo_pow2 x 3); lia. Qed.

Lemma RoundUpTo_8 x : 0 <= x < 2 ^ 64 - 8 -> RoundUpTo x 8 = 8 * ((x + 7) / 8).
Proof.
  intros. change 8 with (2 ^ 3) at 1. rewrite RoundUpTo_pow2 by lia.
  change (2 ^ 3) with 8. rewrite u64_small by lia.
  now replace (x + 8 - 1) with (x + 7) by lia.
Qed.

(** ** Bits of the words the PEXT search builds *)

Lemma bits_above_small x n j :
  0 <= x < 2 ^ n -> n <= j -> Z.testbit x j = false.
Proof.
  intros Hx Hj. destruct (Z.le_gt_cases 0 n) as [Hn|Hn].
  - rewrite <- (Z.mod_small x (2 ^ n)) by lia.
    apply Z.mod_pow2_bits_high. lia.
  - rewrite Z.pow_neg_r in Hx by lia. lia.
Qed.

Lemma small_of_bits x n :
  0 <= n -> 0 <= x -> (forall j, n <= j -> Z.testbit x j = false) -> x < 2 ^ n.
Proof.
  intros Hn Hx H.
  assert (E : x mod 2 ^ n = x).
  { apply Z.bits_inj'. intros j Hj. rewrite Z.testbit_mod_pow2 by lia.
    destruct (Z.ltb_spec j n); [reflexivity|]. cbn. symmetry. apply H. lia. }
  rewrite <- E. apply Z.mod_pos_bound. apply Z.pow_pos_nonneg; lia.
Qed.

Lemma testbit_b2z_double (b : bool) a k :
  0 <= k ->
  Z.testbit (Z.b2z b + 2 * a) k = if k =? 0 then b else Z.testbit a (k - 1).
Proof.
  intros Hk. destruct (Z.eqb_spec k 0) as [->|Hne].
  - apply Z.add_b2z_double_bit0.
  - replace k with (Z.succ (k - 1)) at 1 by lia.
    rewrite Z.add_comm. apply Z.testbit_succ_r. lia.
Qed.

Lemma pack_bits_testbit (f : Z -> bool) ps : forall k, 0 <= k ->
  Z.testbit (fold_right (fun p acc => Z.b2z (f p) + 2 * acc) 0 ps) k =
  match nth_error ps (Z.to_nat k) with Some p => f p | None => false end.
Proof.
  induction ps as [|p ps IH]; intros k Hk; cbn [fold_right].
  - rewrite Z.testbit_0_l. now destruct (Z.to_nat k).
  - rewrite testbit_b2z_double by lia.
    destruct (Z.eqb_spec k 0) as [->|Hne]; [reflexivity|].
    rewrite IH by lia.
    replace (Z.to_nat k) with (S (Z.to_nat (k - 1))) by lia. reflexivity.
Qed.

(** The gather mask of [FindByte_PEXT] picks bit 0 of each of the 8 bytes. *)
Lemma pext_u64_low_bits src k :
  0 <= k ->
  Z.testbit (pext_u64 src 0x0101010101010101) k =
  (k <? 8) && Z.testbit src (8 * k).
Proof.
  intros Hk. unfold pext_u64.
  change (filter _ _) with [0; 8; 16; 24; 32; 40; 48; 56].
  rewrite (pack_bits_testbit (Z.testbit src)) by lia.
  destruct (Z.ltb_spec k 8) as [Hlt|Hge]; cbn [andb].
  - assert (Hc : k = 0 \/ k = 1 \/ k = 2 \/ k = 3 \/ k = 4 \/ k = 5 \/
                 k = 6 \/ k = 7) by lia.
    repeat (destruct Hc as [->|Hc]; [reflexivity|]). now subst.
  - destruct (nth_error _ _) eqn:E; [|reflexivity].
    assert (Hl : nth_error [0; 8; 16; 24; 32; 40; 48; 56] (Z.to_nat k) <> None)
      by (rewrite E; discriminate).
    apply nth_error_Some in Hl. cbn [length] in Hl. lia.
Qed.

Lemma Load8_range m a : 0 <= Load8 m a < 256.
Proof. unfold Load8. apply u8_range. Qed.

Lemma bytes_testbit (f : Z -> Z) ks : forall j,
  (forall k, 0 <= f k < 256) ->
  Z.testbit (fold_right (fun k acc => f k + 256 * acc) 0 ks) (8 * Z.of_nat j) =
  match nth_error ks j with Some k => Z.odd (f k) | None => false end.
Proof.
  induction ks as [|k ks IH]; intros j Hf; cbn [fold_right].
  - rewrite Z.testbit_0_l. now destruct j.
  - specialize (Hf k) as Hk. destruct j as [|j]; cbn [nth_error].
    + change (8 * Z.of_nat 0) with 0. rewrite Z.bit0_odd.
      rewrite Z.odd_add, Z.odd_mul. change (Z.odd 256) with false.
      cbn [andb]. now rewrite xorb_false_r.
    + replace (8 * Z.of_nat (S j)) with (8 * Z.of_nat j + 8) by lia.
      rewrite <- (Z.div_pow2_bits _ 8) by lia. change (2 ^ 8) with 256.
      replace ((f k + 256 * _) / 256)
        with (fold_right (fun k acc => f k + 256 * acc) 0 ks).
      * now apply IH.
      * apply (Z.div_unique_pos _ _ _ (f k)); lia.
Qed.

Lemma Load64_byte_bit0 m a k :
  0 <= k < 8 ->
  Z.testbit (Load64 m a) (8 * k) = Z.odd (Load8 m (a + k)).
Proof.
  intros Hk. unfold Load64.
  replace k with (Z.of_nat (Z.to_nat k)) at 1 by lia.
  rewrite (bytes_testbit (fun k => Load8 m (a + k)))
    by (intros; apply Load8_range).
  assert (Hc : k = 0 \/ k = 1 \/ k = 2 \/ k = 3 \/ k = 4 \/ k = 5 \/
               k = 6 \/ k = 7) by lia.
  repeat (destruct Hc as [->|Hc]; [reflexivity|]). now subst.
Qed.

(** The candidate mask of one group: bit [b] is set exactly when byte
    [Idx + b] of the state array is even. *)
Lemma PEXT_mask_bits m a b :
  0 <= b ->
  Z.testbit (Z.land (u64 (Z.lnot (pext_u64 (Load64 m a) 0x0101010101010101)))
               0xFF) b =
  (b <? 8) && Z.even (Load8 m (a + b)).
Proof.
  intros Hb. rewrite Z.land_spec.
  change 0xFF with (Z.ones 8). rewrite Z.testbit_ones by lia.
  destruct (Z.ltb_spec b 8) as [Hlt|Hge].
  - replace (0 <=? b) with true by (symmetry; apply Z.leb_le; lia).
    rewrite andb_true_r. unfold u64.
    rewrite Z.mod_pow2_bits_low by lia.
    rewrite Z.lnot_spec, pext_u64_low_bits by lia.
    replace (b <? 8) with true by (symmetry; apply Z.ltb_lt; lia).
    rewrite Load64_byte_bit0 by lia. cbn [andb].
    now rewrite Z.negb_odd.
  - now rewrite !andb_false_r.
Qed.

Lemma PEXT_mask_range m a :
  0 <= Z.land (u64 (Z.lnot (pext_u64 (Load64 m a) 0x0101010101010101))) 0xFF
    < 2 ^ 8.
Proof.
  assert (H0 : 0 <= Z.land (u64 (Z.lnot (pext_u64 (Load64 m a)
                 0x0101010101010101))) 0xFF)
    by (apply Z.land_nonneg; right; lia).
  split; [exact H0|]. apply small_of_bits; [lia | exact H0 |].
  intros j Hj. rewrite PEXT_mask_bits by lia.
  now replace (j <? 8) with false by (symmetry; apply Z.ltb_ge; lia).
Qed.

Lemma ctz_from_spec x fuel : forall i r,
  ctz_from fuel i x = r ->
  i <= r <= i + Z.of_nat fuel /\
  (forall j, i <= j < r -> Z.testbit x j = false) /\
  (r < i + Z.of_nat fuel -> Z.testbit x r = true).
Proof.
  induction fuel as [|fuel IH]; intros i r H; cbn [ctz_from] in H.
  - subst. repeat split; try lia; intros; lia.
  - destruct (Z.testbit x i) eqn:E.
    + subst. repeat split; try lia. intros _; exact E.
    + destruct (IH _ _ H) as (Hr & Hlo & Hhi).
      repeat split; try lia.
      * intros j Hj. destruct (Z.eq_dec j i) as [->|]; [exact E|].
        apply Hlo; lia.
      * intros; apply Hhi; lia.
Qed.

Lemma builtin_ctz_spec x :
  0 < x < 2 ^ 8 ->
  0 <= builtin_ctz x < 8 /\
  Z.testbit x (builtin_ctz x) = true /\
  forall j, 0 <= j < builtin_ctz x -> Z.testbit x j = false.
Proof.
  intros Hx. unfold builtin_ctz. rewrite u32_small by lia.
  destruct (ctz_from_spec x 32 0 _ eq_refl) as (Hr & Hlo & Hhi).
  set (c := ctz_from 32 0 x) in *.
  assert (Hc : c < 8).
  { destruct (Z.lt_ge_cases c 8) as [|Hge]; [assumption|exfalso].
    assert (x = 0); [|lia].
    apply Z.bits_inj'. intros j Hj. rewrite Z.testbit_0_l.
    destruct (Z.lt_ge_cases j 8).
    - apply Hlo; lia.
    - apply (bits_above_small x 8); lia. }
  repeat split; try lia; [apply Hhi; lia | exact Hlo].
Qed.

(** ** The two byte searches with a pure callback *)

Lemma plain_index_range N Hint I :
  0 <= I < N -> 0 <= Hint <= N -> N < 2 ^ 63 ->
  0 <= plain_index N Hint I < N /\
  plain_index N Hint I = if N <=? I + Hint then I + Hint - N else I + Hint.
Proof.
  intros HI HH HN. unfold plain_index. rewrite (u64_small (I + Hint)) by lia.
  destruct (Z.leb_spec N (I + Hint)).
  - rewrite u64_small by lia. lia.
  - lia.
Qed.

Lemma FindByte_Plain_loop_pure cb m Bytes V N Hint fuel : forall I,
  0 <= I -> I + Z.of_nat fuel <= N -> 0 <= Hint <= N -> N < 2 ^ 63 ->
  exists r,
    FindByte_Plain_loop fuel I Bytes V N Hint (PureCallback cb) m = (r, m) /\
    ((r = kNotFound /\
      forall I', I <= I' < I + Z.of_nat fuel ->
        Load8 m (Bytes + plain_index N Hint I') = V ->
        cb (plain_index N Hint I') = false) \/
     (0 <= r < N /\ Load8 m (Bytes + r) = V /\ cb r = true)).
Proof.
  induction fuel as [|fuel IH]; intros I HI Hf HH HN.
  - exists kNotFound. split; [reflexivity|]. left. split; [reflexivity|].
    intros; lia.
  - cbn [FindByte_Plain_loop]. fold (plain_index N Hint I).
    destruct (plain_index_range N Hint I ltac:(lia) HH HN) as [Hr _].
    destruct (IH (I + 1) ltac:(lia) ltac:(lia) HH HN) as (r & Er & Hr').
    assert (Hstep : forall I', I <= I' < I + Z.of_nat (S fuel) ->
              I' = I \/ I + 1 <= I' < I + 1 + Z.of_nat fuel) by lia.
    destruct (Z.eqb_spec (Load8 m (Bytes + plain_index N Hint I)) V) as [E|E].
    + unfold PureCallback at 1.
      destruct (cb (plain_index N Hint I)) eqn:Ecb.
      * eexists. split; [reflexivity|]. right. now repeat split.
      * exists r. split; [exact Er|].
        destruct Hr' as [[-> Hnone]|Hfound]; [left|now right].
        split; [reflexivity|]. intros I' HI' HV.
        destruct (Hstep I' HI') as [->|H']; [exact Ecb | now apply Hnone].
    + exists r. split; [exact Er|].
      destruct Hr' as [[-> Hnone]|Hfound]; [left|now right].
      split; [reflexivity|]. intros I' HI' HV.
      destruct (Hstep I' HI') as [->|H']; [contradiction | now apply Hnone].
Qed.

Lemma FindByte_PEXT_mask_pure cb m Idx N fuel : forall Mask L,
  0 <= Idx -> Idx + 8 < 2 ^ 64 -> 0 <= L -> 0 <= Mask < 2 ^ 8 ->
  (forall j, 0 <= j < L -> Z.testbit Mask j = false) ->
  8 - L <= Z.of_nat fuel ->
  exists r,
    FindByte_PEXT_mask fuel Mask Idx N (PureCallback cb) m = (r, m) /\
    match r with
    | Some Pos =>
        exists b, 0 <= b < 8 /\ Z.testbit Mask b = true /\
                  Pos = Idx + b /\ Pos < N /\ cb Pos = true
    | None =>
        forall b, 0 <= b -> Z.testbit Mask b = true -> Idx + b < N ->
                  cb (Idx + b) = false
    end.
Proof.
  induction fuel as [|fuel IH]; intros Mask L HIdx HIdx8 HL HM Hlow Hfuel.
  - exists None. split; [reflexivity|]. intros b Hb Hbit _.
    destruct (Z.lt_ge_cases b L).
    + rewrite Hlow in Hbit by lia. discriminate.
    + rewrite (bits_above_small Mask 8) in Hbit by lia. discriminate.
  - cbn [FindByte_PEXT_mask].
    destruct (Z.eqb_spec Mask 0) as [->|HM0].
    { exists None. split; [reflexivity|]. intros b _ Hbit.
      rewrite Z.testbit_0_l in Hbit. discriminate. }
    destruct (builtin_ctz_spec Mask ltac:(lia)) as (Hc & Hcbit & Hcmin).
    set (c := builtin_ctz Mask) in *.
    assert (HcL : L <= c).
    { destruct (Z.lt_ge_cases c L); [|assumption].
      rewrite Hlow in Hcbit by lia. discriminate. }
    set (Mask' := Z.land Mask (u64 (Z.lnot (Z.shiftl 1 c)))).
    assert (Hbits' : forall j, 0 <= j ->
              Z.testbit Mask' j = Z.testbit Mask j && negb (j =? c)).
    { intros j Hj. unfold Mask'. rewrite Z.land_spec.
      destruct (Z.lt_ge_cases j 8).
      - unfold u64. rewrite Z.mod_pow2_bits_low by lia.
        rewrite Z.lnot_spec, Z.shiftl_1_l, Z.pow2_bits_eqb by lia.
        now rewrite (Z.eqb_sym c j).
      - now rewrite (bits_above_small Mask 8 j) by lia. }
    assert (HM' : 0 <= Mask' < 2 ^ 8).
    { assert (0 <= Mask') by (apply Z.land_nonneg; left; lia).
      split; [assumption|]. apply small_of_bits; [lia|assumption|].
      intros j Hj. rewrite Hbits' by lia.
      now rewrite (bits_above_small Mask 8 j) by lia. }
    rewrite (u64_small (Idx + c)) by lia.
    destruct (Z.leb_spec N (Idx + c)) as [Hbreak|Hin].
    { exists None. split; [reflexivity|]. intros b Hb Hbit HbN.
      destruct (Z.lt_ge_cases b c); [|lia].
      rewrite Hcmin in Hbit by lia. discriminate. }
    unfold PureCallback at 1. destruct (cb (Idx + c)) eqn:Ecb.
    { exists (Some (Idx + c)). split; [reflexivity|].
      exists c. repeat split; try lia; assumption. }
    destruct (IH Mask' (c + 1) HIdx HIdx8 ltac:(lia) HM') as (r & Er & Hr).
    { intros j Hj. rewrite Hbits' by lia.
      destruct (Z.eqb_spec j c) as [->|Hne]; [now rewrite andb_false_r|].
      now rewrite Hcmin by lia. }
    { lia. }
    exists r. split; [exact Er|]. destruct r as [Pos|].
    + destruct Hr as (b & Hb & Hbit & HPos & HPN & Hcb).
      exists b. repeat split; try assumption; try lia.
      rewrite Hbits' in Hbit by lia. now apply andb_prop in Hbit.
    + intros b Hb Hbit HbN.
      destruct (Z.eq_dec b c) as [->|Hne]; [exact Ecb|].
      apply Hr; try assumption. rewrite Hbits' by lia. rewrite Hbit.
      now destruct (Z.eqb_spec b c).
Qed.

Lemma pext_group_range NR Hint I :
  0 <= I < NR -> 0 <= Hint <= NR -> NR < 2 ^ 63 ->
  0 <= pext_group NR Hint I < NR /\
  pext_group NR Hint I = if NR <=? I + Hint then I + Hint - NR else I + Hint.
Proof.
  intros HI HH HN. unfold pext_group. rewrite (u64_small (I + Hint)) by lia.
  destruct (Z.leb_spec NR (I + Hint)).
  - rewrite u64_small by lia. lia.
  - lia.
Qed.

Lemma FindByte_PEXT_loop_pure cb m Bytes N NR Hint fuel : forall I,
  0 <= N <= NR -> NR < 2 ^ 63 -> NR mod 8 = 0 ->
  0 <= Hint <= NR -> Hint mod 8 = 0 ->
  0 <= I -> I mod 8 = 0 ->
  exists r,
    FindByte_PEXT_loop fuel I Bytes N NR Hint (PureCallback cb) m = (r, m) /\
    ((r = kNotFound /\
      forall I', I <= I' < N -> I' mod 8 = 0 -> I' < I + 8 * Z.of_nat fuel ->
        forall b, 0 <= b < 8 -> pext_group NR Hint I' + b < N ->
          Z.even (Load8 m (Bytes + (pext_group NR Hint I' + b))) = true ->
          cb (pext_group NR Hint I' + b) = false) \/
     (0 <= r < N /\ Z.even (Load8 m (Bytes + r)) = true /\ cb r = true)).
Proof.
  induction fuel as [|fuel IH]; intros I HN HNR HNR8 HH HH8 HI HI8.
  - exists kNotFound. split; [reflexivity|]. left. split; [reflexivity|].
    intros; lia.
  - cbn [FindByte_PEXT_loop].
    destruct (Z.ltb_spec I N) as [HIN|HIN].
    2:{ exists kNotFound. split; [reflexivity|]. left. split; [reflexivity|].
        intros; lia. }
    fold (pext_group NR Hint I).
    destruct (pext_group_range NR Hint I ltac:(lia) HH HNR) as [Hg Hgeq].
    set (Idx := pext_group NR Hint I) in *.
    assert (Hg8 : Idx mod 8 = 0).
    { rewrite Hgeq. destruct (NR <=? I + Hint); Z.div_mod_to_equations; lia. }
    assert (HIdx8 : Idx + 8 <= NR) by (Z.div_mod_to_equations; lia).
    destruct (FindByte_PEXT_mask_pure cb m Idx N 64
                (Z.land (u64 (Z.lnot (pext_u64 (Load64 m (Bytes + Idx))
                   0x0101010101010101))) 0xFF) 0)
      as (rm & Erm & Hrm); try lia.
    { apply PEXT_mask_range. }
    rewrite Erm. destruct rm as [Pos|].
    + destruct Hrm as (b & Hb & Hbit & HPos & HPN & Hcb).
      exists Pos. split; [reflexivity|]. right.
      rewrite PEXT_mask_bits in Hbit by lia.
      apply andb_prop in Hbit. destruct Hbit as [_ Hev].
      subst Pos. rewrite Z.add_assoc. repeat split; try lia; assumption.
    + rewrite (u64_small (I + 8)) by lia.
      destruct (IH (I + 8) HN HNR HNR8 HH HH8 ltac:(lia)) as (r & Er & Hr).
      { Z.div_mod_to_equations; lia. }
      exists r. split; [exact Er|].
      destruct Hr as [[-> Hnone]|Hfound]; [left|now right].
      split; [reflexivity|]. intros I' HI' HI'8 HI'f b Hb HbN Hev.
      destruct (Z.eq_dec I' I) as [->|Hne].
      * apply Hrm; try lia. rewrite PEXT_mask_bits by lia.
        rewrite <- Z.add_assoc. fold Idx.
        replace (b <? 8) with true by (symmetry; apply Z.ltb_lt; lia).
        exact Hev.
      * apply Hnone; try assumption; try lia.
        Z.div_mod_to_equations; lia.
Qed.

(** C10. On a state array whose first [N] bytes are each zero or odd, with
    a hint of at most [N] and a callback that only looks at the position,
    [FindByte_PEXT] and [FindByte_Plain] both return (no trap), leave the
    memory alone, fail together, and a result other than [(size_t)-1] is
    an index below [N] of a zero byte that the callback accepts. *)
Theorem FindByte_PEXT_agrees_with_Plain (m : Mem) (Bytes N Hint : Z)
    (cb : Z -> bool) :
  0 <= N <= 2 ^ 63 - 8 ->
  0 <= Hint <= N ->
  (forall i, 0 <= i < N ->
     Load8 m (Bytes + i) = 0 \/ Z.odd (Load8 m (Bytes + i)) = true) ->
  exists r_plain r_pext,
    FindByte_Plain Bytes 0 N Hint (PureCallback cb) m = Some (r_plain, m) /\
    FindByte_PEXT Bytes 0 N Hint (PureCallback cb) m = Some (r_pext, m) /\
    (r_pext = kNotFound <-> r_plain = kNotFound) /\
    (r_pext <> kNotFound ->
       0 <= r_pext < N /\ Load8 m (Bytes + r_pext) = 0 /\ cb r_pext = true) /\
    (r_plain <> kNotFound ->
       0 <= r_plain < N /\ Load8 m (Bytes + r_plain) = 0 /\ cb r_plain = true).
Proof.
  intros HN HH Hinv.
  assert (Hzero : forall i, 0 <= i < N ->
            (Z.even (Load8 m (Bytes + i)) = true <-> Load8 m (Bytes + i) = 0)).
  { intros i Hi. split.
    - intros Hev. destruct (Hinv i Hi) as [E|E]; [exact E|].
      rewrite <- Z.negb_odd, E in Hev. discriminate.
    - intros ->. reflexivity. }
  assert (HkN : N < kNotFound) by (unfold kNotFound; lia).
  (* the plain search *)
  destruct (FindByte_Plain_loop_pure cb m Bytes 0 N Hint (Z.to_nat N) 0)
    as (r1 & E1 & H1); try lia.
  assert (P1 : r1 = kNotFound <->
               forall i, 0 <= i < N -> Load8 m (Bytes + i) = 0 -> cb i = false).
  { split.
    - intros ->. destruct H1 as [[_ Hnone]|Hf]; [|lia].
      intros i Hi Hz.
      set (I' := if Hint <=? i then i - Hint else i - Hint + N).
      assert (HI' : 0 <= I' < N) by (unfold I'; destruct (Z.leb_spec Hint i); lia).
      destruct (plain_index_range N Hint I' HI' HH ltac:(lia)) as [_ Eidx].
      assert (Ei : plain_index N Hint I' = i).
      { rewrite Eidx. unfold I'. case_leb; lia. }
      rewrite <- Ei. apply Hnone; [lia|]. now rewrite Ei.
    - intros Hall. destruct H1 as [[-> _]|(Hr & Hz & Hcb)]; [reflexivity|].
      rewrite (Hall r1 Hr Hz) in Hcb. discriminate. }
  (* the PEXT search *)
  assert (HNR : RoundUpTo N 8 = 8 * ((N + 7) / 8)) by (apply RoundUpTo_8; lia).
  assert (HHr : RoundDownTo Hint 8 = 8 * (Hint / 8)) by apply RoundDownTo_8.
  set (NR := RoundUpTo N 8) in *. set (H8 := RoundDownTo Hint 8) in *.
  assert (HNRb : N <= NR <= N + 7) by (Z.div_mod_to_equations; lia).
  assert (HH8b : 0 <= H8 <= Hint) by (Z.div_mod_to_equations; lia).
  destruct (FindByte_PEXT_loop_pure cb m Bytes N NR H8 (Z.to_nat N) 0)
    as (r2 & E2 & H2);
    try lia; try reflexivity; try (Z.div_mod_to_equations; lia).
  assert (P2 : r2 = kNotFound <->
               forall i, 0 <= i < N -> Load8 m (Bytes + i) = 0 -> cb i = false).
  { split.
    - intros ->. destruct H2 as [[_ Hnone]|Hf]; [|lia].
      intros i Hi Hz.
      set (g := 8 * (i / 8)). set (b := i mod 8).
      assert (Hgb : i = g + b /\ 0 <= b < 8 /\ 0 <= g /\ g + 8 <= NR)
        by (unfold g, b; Z.div_mod_to_equations; lia).
      set (I' := if H8 <=? g then g - H8 else g - H8 + NR).
      assert (HI' : 0 <= I' < N /\ I' mod 8 = 0).
      { unfold I'. destruct (Z.leb_spec H8 g); Z.div_mod_to_equations; lia. }
      destruct (pext_group_range NR H8 I' ltac:(lia) ltac:(lia) ltac:(lia))
        as [_ Eidx].
      assert (Eg : pext_group NR H8 I' = g).
      { rewrite Eidx. unfold I'. case_leb; lia. }
      replace i with (pext_group NR H8 I' + b) by lia.
      apply Hnone; try lia.
      rewrite Eg. replace (g + b) with i by lia. now apply Hzero.
    - intros Hall. destruct H2 as [[-> _]|(Hr & Hev & Hcb)]; [reflexivity|].
      rewrite (Hall r2 Hr) in Hcb; [discriminate|]. now apply Hzero. }
  exists r1, r2.
  unfold FindByte_Plain, FindByte_PEXT. cbn [Z.eqb negb].
  replace (N <? Hint) with false by (symmetry; apply Z.ltb_ge; lia).
  fold NR. fold H8. rewrite E1, E2.
  split; [reflexivity|]. split; [reflexivity|].
  split; [now rewrite P1, P2|]. split.
  - intros Hne. destruct H2 as [[-> _]|(Hr & Hev & Hcb)]; [contradiction|].
    repeat split; try lia; [now apply Hzero | exact Hcb].
  - intros Hne. destruct H1 as [[-> _]|(Hr & Hz & Hcb)]; [contradiction|].
    repeat split; try lia; assumption.
Qed.

Lemma FindByte_PEXT_agrees_with_Plain_witness :
  exists r_plain r_pext,
    FindByte_Plain 100 0 10 3 (PureCallback (fun i => 5 <=? i)) seven_used
      = Some (r_plain, seven_used) /\
    FindByte_PEXT 100 0 10 3 (PureCallback (fun i => 5 <=? i)) seven_used
      = Some (r_pext, seven_used) /\
    (r_pext = kNotFound <-> r_plain = kNotFound) /\
    (r_pext <> kNotFound ->
       0 <= r_pext < 10 /\ Load8 seven_used (100 + r_pext) = 0 /\
       (5 <=? r_pext) = true) /\
    (r_plain <> kNotFound ->
       0 <= r_plain < 10 /\ Load8 seven_used (100 + r_plain) = 0 /\
       (5 <=? r_plain) = true).
Proof.
  apply (FindByte_PEXT_agrees_with_Plain seven_used 100 10 3 (fun i => 5 <=? i)).
  - lia.
  - lia.
  - intros i Hi. unfold Load8, seven_used. destruct (Z.ltb_spec (100 + i) 107).
    + right. reflexivity.
    + left. reflexivity.
Defined.

(** ** Outcomes *)

Lemma Ret_inj {A : Type} (a b : A) : Ret a = Ret b -> a = b.
Proof. now inversion 1. Qed.

(** ** Address tags *)

(** Rewriting with the bit specifications of the operations on words. *)
Ltac bits :=
  unfold u64, u8;
  repeat first
    [ rewrite Z.land_spec | rewrite Z.lor_spec
    | rewrite Z.lnot_spec by lia | rewrite Z.shiftl_spec by lia
    | rewrite Z.shiftr_spec by lia | rewrite Z.testbit_mod_pow2 by lia
    | rewrite Z.testbit_ones by lia | rewrite Z.testbit_0_l ].

(** Then case analysis on the comparisons the bit specifications leave. *)
Ltac bit_cases :=
  repeat match goal with
         | |- context [?a <? ?b] => destruct (Z.ltb_spec a b)
         | |- context [?a <=? ?b] => destruct (Z.leb_spec a b)
         end;
  cbn [andb orb negb];
  repeat match goal with
         | |- context [Z.testbit ?x ?n] => rewrite (Z.testbit_neg_r x n) by lia
         end;
  rewrite ?andb_false_r, ?andb_true_r, ?orb_false_r, ?orb_true_r;
  try reflexivity; try lia.

Lemma testbit_small x n j :
  0 <= x < 2 ^ n -> 0 <= j ->
  Z.testbit x j = (j <? n) && Z.testbit x j.
Proof.
  intros Hx Hj. destruct (Z.ltb_spec j n); [reflexivity|].
  now rewrite (bits_above_small x n j) by lia.
Qed.

Lemma land_zero_bits a b j :
  Z.land a b = 0 -> Z.testbit b j = true -> Z.testbit a j = false.
Proof.
  intros H Hb.
  assert (E : Z.testbit (Z.land a b) j = false) by (rewrite H; apply Z.testbit_0_l).
  rewrite Z.land_spec, Hb, andb_true_r in E. exact E.
Qed.

Lemma shiftl_1_minus_1 k : 0 <= k -> Z.shiftl 1 k - 1 = Z.ones k.
Proof. intros. rewrite Z.shiftl_1_l, Z.ones_equiv. lia. Qed.

Module MemTagFacts.
Import MemTag.

Section Facts.
Variable Config : TagConfig.
Variable arm_mte_get_tag : Z -> Z.
Hypothesis UseAliases_range : 0 <= UseAliases Config <= 4.

Lemma GetAddressTag_ApplyAddressTag a t :
  0 <= a < 2 ^ 64 ->
  GetAddressTag Config (ApplyAddressTag Config a t) =
  Z.land (u8 t) (AddressTagMask Config).
Proof.
  intros Ha. unfold GetAddressTag, ApplyAddressTag, AddressTagMask.
  destruct (kUseArmTBI Config).
  - apply Z.bits_inj'. intros j Hj. change 255 with (Z.ones 8). bits.
    change (Z.shiftl 255 56) with (Z.shiftl (Z.ones 8) 56). bits.
    destruct (Z.ltb_spec j 8); cbn [andb]; [|reflexivity].
    replace (j + 56 <? 64) with true by (symmetry; apply Z.ltb_lt; lia).
    replace (j + 56 - 56) with j by lia.
    replace (0 <=? j) with true by (symmetry; apply Z.leb_le; lia).
    replace (j <? 8) with true by (symmetry; apply Z.ltb_lt; lia).
    cbn [andb negb]. now rewrite !andb_false_r, !andb_true_r.
  - rewrite shiftl_1_minus_1 by lia.
    destruct (Z.eqb_spec (UseAliases Config) 0) as [E0|E0].
    + rewrite E0. change (Z.ones 0) with 0.
      now rewrite !Z.land_0_r.
    + apply Z.bits_inj'. intros j Hj.
      change (Z.shiftl 15 37) with (Z.shiftl (Z.ones 4) 37). bits.
      destruct (Z.ltb_spec j (UseAliases Config)); cbn [andb];
        [|now rewrite !andb_false_r].
      replace (j + 37 <? 64) with true by (symmetry; apply Z.ltb_lt; lia).
      replace (j + 37 - 37) with j by lia.
      replace (0 <=? j) with true by (symmetry; apply Z.leb_le; lia).
      replace (j <? 4) with true by (symmetry; apply Z.ltb_lt; lia).
      replace (j <? 8) with true by (symmetry; apply Z.ltb_lt; lia).
      replace (j <? UseAliases Config) with true
        by (symmetry; apply Z.ltb_lt; lia).
      cbn [andb negb]. now rewrite !andb_false_r, !andb_true_r.
Qed.

Lemma ApplyAddressTag_strip a t :
  0 <= a < 2 ^ 64 -> Z.land a (AddressTagField Config) = 0 ->
  ApplyAddressTag Config (ApplyAddressTag Config a t) 0 = a.
Proof.
  intros Ha Hfield. unfold ApplyAddressTag, AddressTagField in *.
  destruct (kUseArmTBI Config).
  - apply Z.bits_inj'. intros j Hj.
    pose proof (fun H => land_zero_bits a _ j Hfield H) as Hz.
    rewrite (testbit_small a 64 j) by lia.
    change (Z.shiftl 255 56) with (Z.shiftl (Z.ones 8) 56) in *.
    change (u8 0) with 0. rewrite Z.shiftl_0_l. change (u64 0) with 0.
    rewrite Z.lor_0_r. revert Hz. bits. intros Hz.
    revert Hz. bit_cases.
    all: intros Hz; rewrite ?Hz by reflexivity; reflexivity.
  - destruct (Z.eqb_spec (UseAliases Config) 0) as [E0|E0]; [reflexivity|].
    rewrite shiftl_1_minus_1 by lia.
    apply Z.bits_inj'. intros j Hj.
    pose proof (fun H => land_zero_bits a _ j Hfield H) as Hz.
    rewrite (testbit_small a 64 j) by lia.
    change (Z.shiftl 15 37) with (Z.shiftl (Z.ones 4) 37) in *.
    change (u8 0) with 0. rewrite Z.land_0_l, Z.shiftl_0_l.
    change (u64 0) with 0. rewrite Z.lor_0_r. revert Hz. bits. intros Hz.
    revert Hz. bit_cases.
    all: intros Hz; rewrite ?Hz by reflexivity; reflexivity.
Qed.

Lemma GetMemoryTag_byte m a tag :
  GetMemoryTag Config arm_mte_get_tag m a = Ret tag -> u8 tag = tag.
Proof.
  unfold GetMemoryTag, Shadow_Get, Load8. intros H.
  destruct (UseMTE Config).
  { apply Ret_inj in H. subst tag. apply u8_small, u8_range. }
  destruct (negb (UseShadow Config)).
  { apply Ret_inj in H. subst tag. reflexivity. }
  destruct (Shadow_IsMine SmallShadow a).
  { apply Ret_inj in H. subst tag. apply u8_small, u8_range. }
  destruct (Shadow_IsMine LargeShadow a).
  { apply Ret_inj in H. subst tag. apply u8_small, u8_range. }
  discriminate.
Qed.
End Facts.
End MemTagFacts.




(** ** Outcomes, continued *)

Lemma bind_Ret {A B : Type} (x : outcome A) (k : A -> outcome B) (b : B) :
  bind x k = Ret b -> exists a, x = Ret a /\ k a = Ret b.
Proof. destruct x as [a| |]; cbn; try discriminate. intros H. now exists a. Qed.

Lemma trap_if_Ret {A : Type} (c : bool) (f : fatal) (k : outcome A) (a : A) :
  trap_if c f k = Ret a -> c = false /\ k = Ret a.
Proof. destruct c; cbn; [discriminate | now split]. Qed.

(** Inversion of a successful run of binds and trap tests in [H]. *)
Ltac ret_inv H :=
  repeat match type of H with
    | bind _ _ = Ret _ =>
        let a := fresh "a" in let E := fresh "E" in
        apply bind_Ret in H; destruct H as (a & E & H)
    | trap_if _ _ _ = Ret _ =>
        let E := fresh "E" in
        apply trap_if_Ret in H; destruct H as (E & H)
    | (match ?x with (_, _) => _ end) = Ret _ => destruct x
    | Ret _ = Ret _ => apply Ret_inj in H
    end.

Lemma Load8_Store8_same m a v : Load8 (Store8 m a v) a = u8 v.
Proof.
  unfold Load8, Store8. rewrite Z.eqb_refl.
  apply u8_small, u8_range.
Qed.

Lemma Load8_Store8_other m a v b : b <> a -> Load8 (Store8 m a v) b = Load8 m b.
Proof.
  intros H. unfold Load8, Store8.
  now destruct (Z.eqb_spec b a).
Qed.

(** ** SuperPage::Quarantine *)

Lemma QuarantineNewValue_shortcut Config NewTag :
  SuperPage.QuarantineNewValue Config NewTag =
  if TagShortcut Config NewTag then AVAILABLE else QUARANTINED.
Proof.
  unfold SuperPage.QuarantineNewValue, TagShortcut.
  destruct (UseTag Config =? 1), (UseTag Config =? 2),
    (Z.land NewTag 15 =? 0), (Z.land NewTag 255 =? 0); reflexivity.
Qed.

(** C5, as the code has it.  When [Quarantine] returns, the state byte of
    the chunk is [QUARANTINED] and the result is the chunk size, except
    that when [UseTag = 1] and the low nibble of the new memory tag is not
    zero, or [UseTag = 2] and the new tag byte is not zero, the state byte
    is [AVAILABLE] and the result is 0. *)
Theorem Quarantine_new_state Config tbl m Ptr This sz m' :
  SuperPage.Quarantine Config tbl m Ptr This = Ret (sz, m') ->
  exists SCD S NewTag m1,
    SuperPage.GetSCD tbl m This = Ret SCD /\
    SuperPage.ComputeStatePtr Ptr SCD This = Ret S /\
    SuperPage.UpdateMemoryTagOnFree Config m Ptr (ChunkSize SCD)
      = Ret (NewTag, m1) /\
    Load8 m' S = (if TagShortcut Config NewTag then AVAILABLE else QUARANTINED) /\
    sz = (if TagShortcut Config NewTag then 0 else ChunkSize SCD).
Proof.
  intros H. unfold SuperPage.Quarantine in H.
  apply bind_Ret in H. destruct H as (SCD & ESCD & H).
  apply bind_Ret in H. destruct H as (S & ES & H).
  apply bind_Ret in H. destruct H as ([NewTag m1] & ET & H).
  cbv zeta in H. rewrite QuarantineNewValue_shortcut in H.
  apply bind_Ret in H. destruct H as (m2 & EX & H).
  exists SCD, S, NewTag, m1.
  unfold SuperPage.ExchangeAndCheckForDoubleFree in EX.
  destruct (_ && _) in EX; [discriminate|]. apply Ret_inj in EX. subst m2.
  destruct (TagShortcut Config NewTag); cbn [Z.eqb AVAILABLE QUARANTINED] in H;
    apply Ret_inj in H; inversion H; subst; clear H;
    rewrite Load8_Store8_same; repeat split; assumption || reflexivity.
Qed.

Lemma Quarantine_new_state_witness :
  exists SCD S NewTag m1,
    SuperPage.GetSCD SCDescrTable first_chunk_used kAllocatorSpace = Ret SCD /\
    SuperPage.ComputeStatePtr kAllocatorSpace SCD kAllocatorSpace = Ret S /\
    SuperPage.UpdateMemoryTagOnFree Tag4ShadowConfig first_chunk_used
      kAllocatorSpace (ChunkSize SCD) = Ret (NewTag, m1) /\
    Load8 (Store8 (Store8 first_chunk_used 0x300000000000 1)
             (SuperPage.State (NumChunks (SCDescrAt SCDescrTable 0)) 0
                kAllocatorSpace) AVAILABLE) S
      = (if TagShortcut Tag4ShadowConfig NewTag then AVAILABLE else QUARANTINED) /\
    0 = (if TagShortcut Tag4ShadowConfig NewTag then 0 else ChunkSize SCD).
Proof.
  apply (Quarantine_new_state Tag4ShadowConfig SCDescrTable first_chunk_used
           kAllocatorSpace kAllocatorSpace).
  reflexivity.
Defined.

(** C5, as the spec has it, fails in both directions.  With the 4-bit tag
    shortcut and the shadow on, a chunk whose tag goes from 0 to 1 (low
    nibble not 0) is made [AVAILABLE] and 0 is returned, where the spec
    asks for [QUARANTINED]; with the shadow off the new tag is 0 and the
    chunk is [QUARANTINED] with its size returned, where the spec asks for
    [AVAILABLE]. *)
Lemma Quarantine_not_as_specified :
  (exists m',
     SuperPage.Quarantine Tag4ShadowConfig SCDescrTable first_chunk_used
       kAllocatorSpace kAllocatorSpace = Ret (0, m') /\
     SuperPage.UpdateMemoryTagOnFree Tag4ShadowConfig first_chunk_used
       kAllocatorSpace 16 = Ret (1, Store8 first_chunk_used 0x300000000000 1) /\
     Load8 m' (SuperPage.State 30840 0 kAllocatorSpace) = AVAILABLE /\
     QuarantineNewValue_as_specified (UseTag Tag4ShadowConfig) 1 = QUARANTINED) /\
  (exists m',
     SuperPage.Quarantine Tag4Config SCDescrTable first_chunk_used
       kAllocatorSpace kAllocatorSpace = Ret (16, m') /\
     SuperPage.UpdateMemoryTagOnFree Tag4Config first_chunk_used
       kAllocatorSpace 16 = Ret (0, first_chunk_used) /\
     Load8 m' (SuperPage.State 30840 0 kAllocatorSpace) = QUARANTINED /\
     QuarantineNewValue_as_specified (UseTag Tag4Config) 0 = AVAILABLE).
Proof.
  split; eexists; (split; [reflexivity|]); repeat split; reflexivity.
Qed.

(** ** The first allocation of a process *)

Lemma InitAll_ZeroState pthread_self fuel :
  st <- Allocator.InitAll (S fuel) ZeroState ;;
  Ret (set_Rand st (u32 pthread_self))
  = Ret (InitializedState pthread_self) :> outcome AllocatorState.
Proof.
  unfold Allocator.InitAll. rewrite InitAll_SCDescr_ok. reflexivity.
Qed.

(** From [ZeroState] every per-class super page pointer is null, so the
    first [Allocate] goes to [AllocateSlower], runs [InitAll] and carries
    on from [InitializedState]. *)
Lemma Allocate_ZeroState Config pthread_self fuel Size :
  u32 pthread_self <> 0 ->
  Allocator.Allocate Config pthread_self (S fuel) ZeroState Size =
  Allocator.Allocate Config pthread_self (S fuel)
    (InitializedState pthread_self) Size.
Proof.
  intros Hself. unfold Allocator.Allocate.
  destruct (SizeToSizeClass (SCDescr ZeroState) Size) as [SC0 SCD0'].
  destruct (SizeToSizeClass (SCDescr (InitializedState pthread_self)) Size)
    as [SC SCD] eqn:ESC.
  change (TLS_PerSC_SP ZeroState SC0) with 0.
  change (TLS_PerSC_SP (InitializedState pthread_self) SC) with 0.
  cbn [Z.eqb negb].
  unfold Allocator.AllocateSlower.
  change (TLS_Rand ZeroState =? 0) with true.
  change (InitAllOnce ZeroState) with false. cbv iota.
  rewrite (InitAll_ZeroState pthread_self fuel).
  change (TLS_Rand (InitializedState pthread_self)) with (u32 pthread_self).
  destruct (Z.eqb_spec (u32 pthread_self) 0) as [E|_]; [contradiction|].
  reflexivity.
Qed.

Lemma malloc_ZeroState Config pthread_self large_Allocate fuel size :
  u32 pthread_self <> 0 ->
  (kMaxSizeClass <? (if size <? 8 then 1 else size)) = false ->
  Allocator.malloc Config pthread_self large_Allocate (S fuel) ZeroState size =
  Allocator.malloc Config pthread_self large_Allocate (S fuel)
    (InitializedState pthread_self) size.
Proof.
  intros Hself Hsmall. unfold Allocator.malloc. rewrite Hsmall.
  now apply Allocate_ZeroState.
Qed.

(** ** posix_memalign *)

(** C6 at a failing input: in a fresh process, after [malloc(1)] has taken
    the first 16-byte chunk, [posix_memalign(&out, 32, 1)] rounds the size
    down to 0, allocates the next 16-byte chunk and returns 0 with a
    pointer that is 16 bytes past a 32-byte boundary. *)
Lemma posix_memalign_misaligned :
  malloc_then_posix_memalign 1 = Ret (0x600000000000, 0, 0x600000000010) /\
  0x600000000010 mod 32 = 16.
Proof.
  split; [|reflexivity]. unfold malloc_then_posix_memalign.
  rewrite malloc_ZeroState by (vm_compute; reflexivity || discriminate).
  vm_compute. reflexivity.
Qed.

(** ** Constants and the descriptor table *)

(** The named constants as numbers, for linear arithmetic. *)
Ltac consts :=
  change kMaxSuperPages with 1048576 in *;
  change kNumSizeClasses with 67 in *;
  change kSuperPageSize with 524288 in *;
  change (kFirstSuperPage 0) with 105553116266496 in *;
  change (kFirstSuperPage 1) with 106102872080384 in *;
  change (kMeta 0) with 123145302310912 in *;
  change (kMeta 1) with 123145303359488 in *;
  change kAllocatorSpace with 105553116266496 in *;
  change kAllocatorSize with 1099511627776 in *;
  change kPrimaryMetaSpace with 123145302310912 in *;
  change kSecondRangeMeta with 124244813938688 in *;
  change kSmallMemoryTagSpace with 52776558133248 in *;
  change kLargeMemoryTagSpace with 70368744177664 in *;
  change kSizeAlignmentForSecondRange with 1024 in *;
  change kStateArrayAlignment with 32 in *;
  change (2 ^ 64) with 18446744073709551616 in *;
  change (2 ^ 8) with 256 in *.

Lemma SCDescrTable_good : forallb GoodDescr SCDescrTable = true.
Proof. vm_compute. reflexivity. Qed.

Lemma SCDescrTable_length : length SCDescrTable = 67%nat.
Proof. reflexivity. Qed.

Lemma SCDescrAt_In sc :
  0 <= sc < kNumSizeClasses -> In (SCDescrAt SCDescrTable sc) SCDescrTable.
Proof.
  intros H. unfold SCDescrAt. apply nth_In. rewrite SCDescrTable_length.
  consts. lia.
Qed.

Lemma SCD0_good_enough :
  NumChunks SCD0 = 0 /\ RangeNum SCD0 = 0 /\ ChunkSize SCD0 = 0.
Proof. repeat split. Qed.

Lemma SCDescrAt_outside sc :
  ~ 0 <= sc < kNumSizeClasses -> 0 <= sc -> SCDescrAt SCDescrTable sc = SCD0.
Proof.
  intros H H0. unfold SCDescrAt. apply nth_overflow.
  rewrite SCDescrTable_length. consts. lia.
Qed.


Lemma RoundUpTo_32 x : 0 <= x < 2 ^ 63 -> RoundUpTo x 32 = 32 * ((x + 31) / 32).
Proof.
  intros. change 32 with (2 ^ 5) at 1. rewrite RoundUpTo_pow2 by lia.
  change (2 ^ 5) with 32. rewrite u64_small by lia.
  now replace (x + 32 - 1) with (x + 31) by lia.
Qed.

Lemma SCDescrTable_Good sc :
  0 <= sc < kNumSizeClasses -> Good (SCDescrAt SCDescrTable sc).
Proof.
  intros Hsc. pose proof (SCDescrAt_In sc Hsc) as HIn.
  pose proof SCDescrTable_good as F. rewrite forallb_forall in F.
  specialize (F _ HIn). unfold GoodDescr in F.
  repeat (apply andb_prop in F; destruct F as [F ?]).
  repeat match goal with
         | H : (_ <=? _) = true |- _ => apply Z.leb_le in H
         | H : (_ =? _) = true |- _ => apply Z.eqb_eq in H
         end.
  set (d := SCDescrAt SCDescrTable sc) in *.
  assert (HR : IsRange (RangeNum d)).
  { apply orb_prop in H3. unfold IsRange.
    destruct H3 as [E|E]; apply Z.eqb_eq in E; auto. }
  assert (Hr1 : RangeNum d = 1 -> NumChunks d <= 512 /\ ChunkSize d mod 1024 = 0).
  { intros E1. apply orb_prop in H. destruct H as [E|E].
    - apply Z.eqb_eq in E. lia.
    - apply andb_prop in E. destruct E as [Ea Eb].
      apply Z.leb_le in Ea. apply Z.eqb_eq in Eb. now split. }
  assert (Hdiv : forall x, 0 <= x < 524288 ->
            DivBySizeViaMul x (ChunkSizeMulDiv d) = x / ChunkSize d).
  { intros x Hx. destruct (In_nth_error _ _ HIn) as [n Hn].
    apply (reciprocal_correct 1 SCDescrTable n d x (InitAll_SCDescr_ok 0) Hn).
    exact Hx. }
  split; try assumption; lia.
Qed.

(** ** Addresses of super pages, size classes and state bytes *)

Lemma SPAddr_range r idx :
  IsRange r -> 0 <= idx < kMaxSuperPages ->
  kFirstSuperPage r <= SPAddr r idx < kFirstSuperPage r + 549755813888 /\
  SPAddr r idx mod kSuperPageSize = 0 /\
  kAllocatorSpace <= SPAddr r idx < kAllocatorSpace + kAllocatorSize.
Proof.
  intros [-> | ->] Hidx; unfold SPAddr; consts;
    (split; [lia|]); (split; [|lia]); Z.div_mod_to_equations; lia.
Qed.

Lemma SPAddr_inj r idx r' idx' :
  IsRange r -> IsRange r' ->
  0 <= idx < kMaxSuperPages -> 0 <= idx' < kMaxSuperPages ->
  SPAddr r idx = SPAddr r' idx' -> r = r' /\ idx = idx'.
Proof.
  intros [-> | ->] [-> | ->] H H'; unfold SPAddr; consts; lia.
Qed.

Lemma GetSuperPage_valid r idx :
  IsRange r -> 0 <= idx < kMaxSuperPages ->
  GetSuperPage r idx = Ret (SPAddr r idx).
Proof.
  intros Hr Hidx. unfold GetSuperPage. fold (SPAddr r idx).
  destruct (SPAddr_range r idx Hr Hidx) as (_ & _ & Hb). consts.
  rewrite u64_small by (consts; lia).
  destruct (Z.leb_spec (105553116266496 + 1099511627776) (SPAddr r idx));
    [lia | reflexivity].
Qed.

Lemma MetaPtr_SPAddr r idx :
  IsRange r -> 0 <= idx < kMaxSuperPages ->
  Shadow_GetShadowPtr SuperPageMetadata (SPAddr r idx) = kMeta r + idx.
Proof.
  intros [-> | ->] Hidx; unfold Shadow_GetShadowPtr, SPAddr; cbn [kShadowBeg
    kBeg kGranularity SuperPageMetadata]; consts.
  - replace (105553116266496 + idx * 524288 - 105553116266496)
      with (idx * 524288) by lia.
    rewrite (u64_small (idx * 524288)) by lia.
    rewrite Z.div_mul by lia. apply u64_small. lia.
  - replace (106102872080384 + idx * 524288 - 105553116266496)
      with ((idx + 1048576) * 524288) by lia.
    rewrite (u64_small ((idx + 1048576) * 524288)) by lia.
    rewrite Z.div_mul by lia. rewrite u64_small by lia. lia.
Qed.

Lemma RoundDownTo_SP SP a :
  SP mod kSuperPageSize = 0 -> SP <= a < SP + kSuperPageSize ->
  RoundDownTo a kSuperPageSize = SP.
Proof.
  intros Hal Ha. change kSuperPageSize with (2 ^ 19) in *.
  rewrite RoundDownTo_pow2 by lia. change (2 ^ 19) with 524288 in *.
  Z.div_mod_to_equations; lia.
Qed.

Lemma State_range0 d SP :
  Good d -> RangeNum d = 0 ->
  kAllocatorSpace <= SP < kAllocatorSpace + kAllocatorSize ->
  SuperPage.State (NumChunks d) (RangeNum d) SP
  = SP + kSuperPageSize - SizeOfInlineMeta (NumChunks d) 0.
Proof.
  intros G E HSP. unfold SuperPage.State, SuperPage.End_. rewrite E.
  cbn [Z.eqb]. pose proof (good_meta d G). pose proof (good_num d G). consts.
  rewrite (u64_small (SP + 524288)) by lia. apply u64_small. lia.
Qed.

Lemma State_range1 d idx :
  RangeNum d = 1 -> 0 <= idx < kMaxSuperPages ->
  SuperPage.State (NumChunks d) (RangeNum d) (SPAddr 1 idx)
  = kSecondRangeMeta + idx * 512.
Proof.
  intros E Hidx. unfold SuperPage.State, Shadow_GetShadowPtr, SPAddr.
  rewrite E. cbn [Z.eqb kShadowBeg kBeg kGranularity SecondRangeMeta]. consts.
  replace (106102872080384 + idx * 524288 - 106102872080384)
    with (idx * 512 * 1024) by lia.
  rewrite (u64_small (idx * 512 * 1024)) by lia.
  rewrite Z.div_mul by lia. apply u64_small. lia.
Qed.

Lemma chunk_offset_range d i :
  Good d -> 0 <= i < NumChunks d ->
  0 <= i * ChunkSize d /\
  i * ChunkSize d + ChunkSize d <= NumChunks d * ChunkSize d /\
  NumChunks d * ChunkSize d
    <= 524288 - SizeOfInlineMeta (NumChunks d) (RangeNum d).
Proof.
  intros G Hi. pose proof (good_size d G). pose proof (good_fit d G).
  repeat split; nia.
Qed.

Lemma ValidSP_range st SP :
  WF st -> ValidSP st SP ->
  SP mod kSuperPageSize = 0 /\
  kAllocatorSpace <= SP < kAllocatorSpace + kAllocatorSize /\
  Good (DescrOf (Memory st) SP) /\
  exists r idx, IsRange r /\ 0 <= idx < NumSuperPages st r /\
                idx < kMaxSuperPages /\ SP = SPAddr r idx /\
                RangeNum (DescrOf (Memory st) SP) = r.
Proof.
  intros W (r & idx & Hr & Hidx & ->).
  pose proof (wf_num st W r Hr) as Hn.
  destruct (wf_meta st W r idx Hr Hidx) as [Hc HR].
  destruct (SPAddr_range r idx Hr ltac:(lia)) as (_ & Hal & Hb).
  split; [assumption|]. split; [assumption|].
  split; [now apply SCDescrTable_Good|].
  exists r, idx. repeat split; try assumption; lia.
Qed.

(** Where the state byte of a chunk lives: in the tail of its own super
    page, above the chunks, for range 0; in the second-range shadow, 512
    bytes a super page, for range 1. *)
Lemma CellOf_place st SP i :
  WF st -> ValidSP st SP -> 0 <= i < NumChunks (DescrOf (Memory st) SP) ->
  let d := DescrOf (Memory st) SP in
  (RangeNum d = 0 /\
   SP + NumChunks d * ChunkSize d <= CellOf (Memory st) SP i
     < SP + kSuperPageSize) \/
  (RangeNum d = 1 /\ exists idx,
     0 <= idx < kMaxSuperPages /\ SP = SPAddr 1 idx /\
     CellOf (Memory st) SP i = kSecondRangeMeta + idx * 512 + i /\ i < 512).
Proof.
  intros W V Hi d.
  destruct (ValidSP_range st SP W V)
    as (Hal & Hb & G & r & idx & Hr & Hidx & Hmax & -> & HR).
  fold d in G, HR, Hi. unfold CellOf. fold d.
  destruct Hr as [-> | ->].
  - left. split; [assumption|].
    rewrite State_range0 by assumption.
    pose proof (good_fit d G) as Hfit. rewrite HR in Hfit.
    pose proof (good_meta d G). consts. lia.
  - right. split; [assumption|]. exists idx.
    rewrite State_range1 by (assumption || lia).
    pose proof (good_range1 d G HR) as [Hn _].
    repeat split; lia.
Qed.

Lemma CellOf_inj st SP i SP' i' :
  WF st -> ValidSP st SP -> ValidSP st SP' ->
  0 <= i < NumChunks (DescrOf (Memory st) SP) ->
  0 <= i' < NumChunks (DescrOf (Memory st) SP') ->
  CellOf (Memory st) SP i = CellOf (Memory st) SP' i' ->
  SP = SP' /\ i = i'.
Proof.
  intros W V V' Hi Hi' E.
  destruct (ValidSP_range st SP W V) as (Hal & Hb & G & _).
  destruct (ValidSP_range st SP' W V') as (Hal' & Hb' & G' & _).
  pose proof (chunk_offset_range _ _ G Hi) as (Ho & _).
  pose proof (chunk_offset_range _ _ G' Hi') as (Ho' & _).
  pose proof (good_num _ G). pose proof (good_num _ G').
  pose proof (good_size _ G). pose proof (good_size _ G').
  destruct (CellOf_place st SP i W V Hi) as [[R0 Hc] | [R1 (idx & Hidx & -> & Hc & Hlt)]];
  destruct (CellOf_place st SP' i' W V' Hi')
    as [[R0' Hc'] | [R1' (idx' & Hidx' & -> & Hc' & Hlt')]].
  - assert (SP = SP').
    { consts. assert (0 <= NumChunks (DescrOf (Memory st) SP)
                          * ChunkSize (DescrOf (Memory st) SP)) by nia.
      assert (0 <= NumChunks (DescrOf (Memory st) SP')
                     * ChunkSize (DescrOf (Memory st) SP')) by nia.
      Z.div_mod_to_equations; lia. }
    subst SP'. split; [reflexivity|]. unfold CellOf in E. lia.
  - exfalso. consts. rewrite Hc' in E. lia.
  - exfalso. consts. rewrite Hc in E. lia.
  - rewrite Hc, Hc' in E. assert (idx = idx') by lia. subst. split; [reflexivity|lia].
Qed.

Lemma IsChunk_inj st a SP i SP' i' :
  WF st -> IsChunk st a SP i -> IsChunk st a SP' i' -> SP = SP' /\ i = i'.
Proof.
  intros W (V & Hi & Ea) (V' & Hi' & Ea').
  destruct (ValidSP_range st SP W V) as (Hal & Hb & G & _).
  destruct (ValidSP_range st SP' W V') as (Hal' & Hb' & G' & _).
  pose proof (chunk_offset_range _ _ G Hi) as (Ho & Ho1 & Ho2).
  pose proof (chunk_offset_range _ _ G' Hi') as (Ho' & Ho1' & Ho2').
  pose proof (good_size _ G). pose proof (good_size _ G').
  assert (Hm : forall d, Good d -> 0 <= SizeOfInlineMeta (NumChunks d) (RangeNum d)).
  { intros d Gd. unfold SizeOfInlineMeta. pose proof (good_meta d Gd) as Hm.
    pose proof (good_num d Gd).
    unfold SizeOfInlineMeta in Hm. cbn [Z.eqb] in Hm.
    destruct (RangeNum d =? 1); lia. }
  pose proof (Hm _ G). pose proof (Hm _ G').
  assert (SP = SP').
  { consts. Z.div_mod_to_equations; lia. }
  subst SP'. split; [reflexivity|]. nia.
Qed.

Lemma IsChunk_range st a SP i :
  WF st -> IsChunk st a SP i ->
  SP <= a /\ a + ChunkSize (DescrOf (Memory st) SP) <= SP + kSuperPageSize /\
  a mod 16 = 0 /\
  kAllocatorSpace <= a < kAllocatorSpace + kAllocatorSize /\
  RoundDownTo a kSuperPageSize = SP /\
  a mod kSuperPageSize = i * ChunkSize (DescrOf (Memory st) SP).
Proof.
  intros W (V & Hi & ->).
  destruct (ValidSP_range st SP W V) as (Hal & Hb & G & _).
  pose proof (chunk_offset_range _ _ G Hi) as (Ho & Ho1 & Ho2).
  pose proof (good_size _ G). pose proof (good_size16 _ G) as H16.
  assert (Hm : 0 <= SizeOfInlineMeta (NumChunks (DescrOf (Memory st) SP))
                      (RangeNum (DescrOf (Memory st) SP))).
  { unfold SizeOfInlineMeta. pose proof (good_meta _ G) as Hm.
    pose proof (good_num _ G).
    unfold SizeOfInlineMeta in Hm. cbn [Z.eqb] in Hm.
    destruct (RangeNum _ =? 1); lia. }
  set (d := DescrOf (Memory st) SP) in *.
  assert (Hr : RoundDownTo (SP + i * ChunkSize d) kSuperPageSize = SP).
  { apply RoundDownTo_SP; [assumption|]. consts. lia. }
  repeat split; try assumption; consts; try lia.
  - rewrite Z.add_mod, (Z.mul_mod i), H16 by lia.
    assert (E16 : SP mod 16 = 0) by (Z.div_mod_to_equations; lia).
    rewrite E16, Z.mul_0_r. reflexivity.
  - Z.div_mod_to_equations; lia.
  - Z.div_mod_to_equations; lia.
Qed.

(** ** The byte search with the compare-and-swap callback *)

Lemma FindByte_PEXT_mask_found CB Idx N fuel : forall Mask m r m',
  QuietOnFailure CB ->
  FindByte_PEXT_mask fuel Mask Idx N CB m = (r, m') ->
  match r with
  | Some Pos => 0 <= Pos < N /\ CB Pos m = (true, m')
  | None => m' = m
  end.
Proof.
  induction fuel as [|fuel IH]; intros Mask m r m' HQ H;
    cbn [FindByte_PEXT_mask] in H.
  - inversion H; subst. reflexivity.
  - destruct (Mask =? 0); [inversion H; subst; reflexivity|].
    set (Pos := u64 (Idx + builtin_ctz Mask)) in *.
    destruct (Z.leb_spec N Pos); [inversion H; subst; reflexivity|].
    destruct (CB Pos m) as [[|] m1] eqn:ECB.
    + inversion H; subst. split; [|exact ECB].
      pose proof (u64_range (Idx + builtin_ctz Mask)). unfold Pos in *. lia.
    + apply HQ in ECB. subst m1. now apply IH in H.
Qed.

Lemma FindByte_PEXT_loop_found CB Bytes N NR Hint fuel : forall I m r m',
  QuietOnFailure CB ->
  FindByte_PEXT_loop fuel I Bytes N NR Hint CB m = (r, m') ->
  (r = kNotFound /\ m' = m) \/ (0 <= r < N /\ CB r m = (true, m')).
Proof.
  induction fuel as [|fuel IH]; intros I m r m' HQ H;
    cbn [FindByte_PEXT_loop] in H.
  - inversion H; subst. now left.
  - destruct (I <? N); [|inversion H; subst; now left].
    destruct (FindByte_PEXT_mask _ _ _ _ _ _) as [[Pos|] m1] eqn:EM;
      apply FindByte_PEXT_mask_found in EM; try assumption.
    + inversion H; subst. now right.
    + subst m1. now apply IH in H.
Qed.

Lemma FindByte_PEXT_found CB Bytes N Hint m r m' :
  QuietOnFailure CB ->
  FindByte_PEXT Bytes 0 N Hint CB m = Some (r, m') ->
  (r = kNotFound /\ m' = m) \/ (0 <= r < N /\ CB r m = (true, m')).
Proof.
  intros HQ H. unfold FindByte_PEXT in H. cbn [Z.eqb negb] in H.
  destruct (N <? Hint); [discriminate|].
  inversion H as [H1]. now apply FindByte_PEXT_loop_found in H1.
Qed.

Lemma TryPos_quiet S NewState : QuietOnFailure (SuperPage.TryPos S NewState).
Proof.
  intros Pos m m' H. unfold SuperPage.TryPos in H.
  destruct (Load8 m (S + Pos) =? AVAILABLE); now inversion H.
Qed.

Lemma TryPos_true S NewState Pos m m' :
  SuperPage.TryPos S NewState Pos m = (true, m') ->
  Load8 m (S + Pos) = AVAILABLE /\ m' = Store8 m (S + Pos) NewState.
Proof.
  unfold SuperPage.TryPos.
  destruct (Z.eqb_spec (Load8 m (S + Pos)) AVAILABLE); intros H;
    inversion H; now split.
Qed.

(** What a call of [TryAllocate] that returns has done: nothing, with a
    null result; or it has taken an [AVAILABLE] chunk of the super page,
    set its state byte and returned its tagged address. *)
Lemma TryAllocate_spec Config DataOnly SCD Hint m This Res Hint' m' :
  SuperPage.TryAllocate Config DataOnly SCD Hint m This = Ret (Res, Hint', m') ->
  NumChunks SCD < kNotFound ->
  let S := SuperPage.State (NumChunks SCD) (RangeNum SCD) This in
  (Res = 0 /\ Hint' = Hint /\ m' = m) \/
  (exists Pos Tag,
     0 <= Pos < NumChunks SCD /\
     Load8 m (S + Pos) = AVAILABLE /\
     m' = Store8 m (S + Pos) (if DataOnly then USED_DATA else USED_MIXED) /\
     GetMemoryTag Config m' (SuperPage.AddressOfChunk This Pos SCD) = Ret Tag /\
     Res = ApplyAddressTag Config (SuperPage.AddressOfChunk This Pos SCD) Tag).
Proof.
  intros H HN S. unfold SuperPage.TryAllocate in H. fold S in H.
  destruct (FindByte_PEXT _ _ _ _ _ _) as [[Pos m1]|] eqn:EF; [|discriminate].
  apply FindByte_PEXT_found in EF; [|apply TryPos_quiet].
  destruct EF as [[-> ->] | [HPos ECB]].
  - rewrite Z.eqb_refl in H. apply Ret_inj in H. inversion H; subst. now left.
  - destruct (Z.eqb_spec Pos kNotFound) as [E|_]; [lia|].
    apply trap_if_Ret in H. destruct H as [_ H].
    apply bind_Ret in H. destruct H as (Tag & ET & H).
    apply Ret_inj in H. inversion H; subst.
    apply TryPos_true in ECB. destruct ECB as [EA ->].
    right. exists Pos, Tag. now repeat split.
Qed.

(** ** Address tags of mtmalloc.h *)

Lemma allocator_space_tag_bits a j :
  kAllocatorSpace <= a < kAllocatorSpace + kAllocatorSize ->
  40 <= j < 44 -> Z.testbit a j = false.
Proof.
  intros Ha Hj. consts.
  replace j with ((j - 40) + 40) by lia.
  rewrite <- Z.div_pow2_bits by lia.
  replace (a / 2 ^ 40) with 96 by (change (2 ^ 40) with 1099511627776;
                                   Z.div_mod_to_equations; lia).
  assert (Hc : j - 40 = 0 \/ j - 40 = 1 \/ j - 40 = 2 \/ j - 40 = 3) by lia.
  destruct Hc as [-> | [-> | [-> | ->]]]; reflexivity.
Qed.

Lemma Untag_ApplyAddressTag Config a t :
  kAllocatorSpace <= a < kAllocatorSpace + kAllocatorSize ->
  Untag Config (ApplyAddressTag Config a t) = a.
Proof.
  intros Ha. unfold Untag, ApplyAddressTag.
  destruct (UseAliases Config); cbn [negb]; [|reflexivity].
  apply Z.bits_inj'. intros j Hj.
  pose proof (allocator_space_tag_bits a j Ha) as Hz.
  assert (Ha64 : 0 <= a < 2 ^ 64) by (consts; lia).
  rewrite (testbit_small a 64 j) by lia.
  change (Z.shiftl 15 40) with (Z.shiftl (Z.ones 4) 40).
  change (u8 0) with 0. rewrite Z.land_0_l, Z.shiftl_0_l.
  change (u64 0) with 0. rewrite Z.lor_0_r. change 15 with (Z.ones 4).
  revert Hz. bits. bit_cases.
  all: intros Hz; rewrite ?Hz by lia; reflexivity.
Qed.

Lemma ApplyAddressTag_low_bits Config a t :
  0 <= a < 2 ^ 64 -> ApplyAddressTag Config a t mod 2 ^ 40 = a mod 2 ^ 40.
Proof.
  intros Ha. unfold ApplyAddressTag.
  destruct (UseAliases Config); cbn [negb]; [|reflexivity].
  apply Z.bits_inj'. intros j Hj.
  change (Z.shiftl 15 40) with (Z.shiftl (Z.ones 4) 40). change 15 with (Z.ones 4).
  rewrite !(Z.testbit_mod_pow2 _ 40) by lia.
  destruct (Z.ltb_spec j 40); [|reflexivity]. cbn [andb].
  bits. bit_cases.
Qed.

Lemma mod_16_of_mod_pow40 x y : x mod 2 ^ 40 = y mod 2 ^ 40 -> x mod 16 = y mod 16.
Proof.
  intros H. change (2 ^ 40) with (16 * 68719476736) in H.
  rewrite !Z.rem_mul_r in H by lia.
  pose proof (Z.mod_pos_bound x 16 ltac:(lia)).
  pose proof (Z.mod_pos_bound y 16 ltac:(lia)).
  pose proof (Z.mod_pos_bound (x / 16) 68719476736 ltac:(lia)).
  pose proof (Z.mod_pos_bound (y / 16) 68719476736 ltac:(lia)).
  lia.
Qed.

(** ** Size classes of requests *)

Lemma SizeToSizeClass_class Size SC SCD :
  1 <= Size ->
  SizeToSizeClass SCDescrTable Size = (SC, SCD) ->
  0 <= SC < kNumSizeClasses /\ SCD = SCDescrAt SCDescrTable SC.
Proof.
  intros HS H. unfold SizeToSizeClass in H.
  destruct (Z.leb_spec Size 256).
  - inversion H; subst. split; [|reflexivity].
    rewrite (u64_small (Size + 15)) by lia.
    assert (1 <= (Size + 15) / 16 <= 16) by (Z.div_mod_to_equations; lia).
    rewrite u64_small by lia. rewrite u8_small by lia. consts. lia.
  - destruct (SizeToSizeClass_loop _ _ _ _) as [Idx|] eqn:EL.
    + inversion H; subst. split; [|reflexivity].
      apply SizeToSizeClass_loop_first in EL; [|lia|consts; cbn; lia].
      consts. cbn in EL. lia.
    + inversion H; subst. split; [consts; lia | reflexivity].
Qed.

Lemma SCDescrAt_cases sc :
  Good (SCDescrAt SCDescrTable sc) \/ SCDescrAt SCDescrTable sc = SCD0.
Proof.
  destruct (Z_lt_le_dec sc 0) as [Hn|Hn].
  - left. destruct sc as [|p|p]; try lia.
    change (SCDescrAt SCDescrTable (Z.neg p)) with (SCDescrAt SCDescrTable 0).
    apply SCDescrTable_Good. consts. lia.
  - destruct (Z_lt_le_dec sc kNumSizeClasses) as [Hlt|Hge].
    + left. apply SCDescrTable_Good. lia.
    + right. unfold SCDescrAt. apply nth_overflow. rewrite SCDescrTable_length.
      consts. lia.
Qed.

Lemma ChunkSize_bound sc : 0 <= ChunkSize (SCDescrAt SCDescrTable sc) <= 262144.
Proof.
  destruct (SCDescrAt_cases sc) as [G | ->].
  - pose proof (good_size _ G). lia.
  - cbn. lia.
Qed.

(** ** Writes that leave an address alone *)

Lemma Load8_mmap_fixed_other m addr len x :
  x < addr \/ addr + len <= x ->
  Load8 (mmap_fixed m addr len) x = Load8 m x.
Proof.
  intros H. unfold Load8, mmap_fixed.
  destruct (Z.leb_spec addr x); destruct (Z.ltb_spec x (addr + len));
    cbn [andb]; try reflexivity; lia.
Qed.

Lemma Load8_mmap_fixed_in m addr len x :
  addr <= x < addr + len -> Load8 (mmap_fixed m addr len) x = 0.
Proof.
  intros H. unfold Load8, mmap_fixed.
  destruct (Z.leb_spec addr x); destruct (Z.ltb_spec x (addr + len));
    cbn [andb]; try reflexivity; lia.
Qed.

Lemma Load8_Shadow_fill_other n : forall m pos v x,
  x < pos \/ pos + Z.of_nat n <= x ->
  Load8 (Shadow_fill n m pos v) x = Load8 m x.
Proof.
  induction n as [|n IH]; intros m pos v x H; [reflexivity|].
  cbn [Shadow_fill]. rewrite IH by lia. apply Load8_Store8_other. lia.
Qed.

(** The tag shadows lie below the allocator space: setting the memory tag
    of at most 2^30 bytes changes nothing from the allocator space on. *)
Lemma SetMemoryTag_frame Config m Addr Size Tag m' x :
  SetMemoryTag Config m Addr Size Tag = Ret m' ->
  0 <= Size <= 2 ^ 30 -> kAllocatorSpace <= x ->
  Load8 m' x = Load8 m x.
Proof.
  intros H HS Hx. unfold SetMemoryTag in H.
  destruct (UseShadow Config); cbn [negb] in H;
    [|apply Ret_inj in H; now subst].
  assert (Hn : forall g, 16 <= g -> 0 <= Size / g <= 2 ^ 26).
  { intros g Hg. change (2 ^ 30) with 1073741824 in HS.
    change (2 ^ 26) with 67108864. split.
    - apply Z.div_pos; lia.
    - apply Z.div_le_upper_bound; nia. }
  destruct (Shadow_IsMine SmallShadow Addr) eqn:E1.
  - unfold Shadow_SetRange in H. ret_inv H. subst m'.
    unfold Shadow_IsMine in E1. apply andb_prop in E1. destruct E1 as [Ea Eb].
    apply Z.leb_le in Ea. apply Z.ltb_lt in Eb.
    cbn [kBeg kSize kShadowBeg kGranularity SmallShadow] in *.
    apply Load8_Shadow_fill_other. right.
    unfold Shadow_GetShadowPtr.
    cbn [kBeg kSize kShadowBeg kGranularity SmallShadow].
    specialize (Hn 16 ltac:(lia)). change (2 ^ 26) with 67108864 in Hn.
    rewrite Z2Nat.id by lia. consts.
    change (1099511627776 / 2) with 549755813888 in *.
    rewrite (u64_small (Addr - 105553116266496)) by lia.
    assert (0 <= (Addr - 105553116266496) / 16 < 34359738368)
      by (Z.div_mod_to_equations; lia).
    rewrite u64_small by lia. lia.
  - destruct (Shadow_IsMine LargeShadow Addr) eqn:E2; [|discriminate].
    unfold Shadow_SetRange in H. ret_inv H. subst m'.
    unfold Shadow_IsMine in E2. apply andb_prop in E2. destruct E2 as [Ea Eb].
    apply Z.leb_le in Ea. apply Z.ltb_lt in Eb.
    cbn [kBeg kSize kShadowBeg kGranularity LargeShadow] in *.
    apply Load8_Shadow_fill_other. right.
    unfold Shadow_GetShadowPtr.
    cbn [kBeg kSize kShadowBeg kGranularity LargeShadow].
    specialize (Hn 1024 ltac:(lia)). change (2 ^ 26) with 67108864 in Hn.
    consts. rewrite Z2Nat.id by lia.
    change (1099511627776 / 2) with 549755813888 in *.
    rewrite (u64_small (Addr - _)) by lia.
    assert (0 <= (Addr - (105553116266496 + 549755813888)) / 1024 < 536870912)
      by (Z.div_mod_to_equations; lia).
    rewrite u64_small by lia. lia.
Qed.

Lemma SeedMemoryTags_frame Config n : forall Pos CS Rand m Rand' m' x,
  Allocator.SeedMemoryTags Config n Pos CS Rand m = Ret (Rand', m') ->
  0 <= CS <= 2 ^ 30 -> kAllocatorSpace <= x ->
  Load8 m' x = Load8 m x.
Proof.
  induction n as [|n IH]; intros Pos CS Rand m Rand' m' x H HS Hx;
    cbn [Allocator.SeedMemoryTags] in H.
  - apply Ret_inj in H. now inversion H.
  - destruct (RandR Rand) as [R1 r]. apply bind_Ret in H.
    destruct H as (m1 & E1 & H). apply IH with (x := x) in H; try assumption.
    rewrite H. eapply SetMemoryTag_frame; eassumption.
Qed.

Lemma UpdateMemoryTagOnFree_frame Config m P Size T m' x :
  SuperPage.UpdateMemoryTagOnFree Config m P Size = Ret (T, m') ->
  0 <= Size <= 2 ^ 30 -> kAllocatorSpace <= x ->
  Load8 m' x = Load8 m x.
Proof.
  intros H HS Hx. unfold SuperPage.UpdateMemoryTagOnFree in H.
  destruct (UseShadow Config); cbn [negb] in H.
  - ret_inv H. inversion H; subst. eapply SetMemoryTag_frame; eassumption.
  - apply Ret_inj in H. now inversion H.
Qed.

(** ** Keeping the invariant *)

Lemma ValidSP_mono st st' SP :
  (forall r, IsRange r -> NumSuperPages st r <= NumSuperPages st' r) ->
  ValidSP st SP -> ValidSP st' SP.
Proof.
  intros Hn (r & idx & Hr & Hidx & ->). exists r, idx.
  specialize (Hn r Hr). repeat split; try assumption; lia.
Qed.

Lemma DescrOf_eq m m' SP :
  ClassOf m' SP = ClassOf m SP -> DescrOf m' SP = DescrOf m SP.
Proof. unfold DescrOf. now intros ->. Qed.

Lemma CellOf_eq m m' SP i :
  ClassOf m' SP = ClassOf m SP -> CellOf m' SP i = CellOf m SP i.
Proof. unfold CellOf. intros H. now rewrite (DescrOf_eq _ _ _ H). Qed.

(** A step that keeps the table, the counts, the per-class pointers and
    the size classes of the super pages keeps the invariant. *)
Lemma WF_update st st' :
  WF st ->
  SCDescr st' = SCDescr st -> InitAllOnce st' = InitAllOnce st ->
  NumSuperPages st' = NumSuperPages st ->
  TLS_PerSC_SP st' = TLS_PerSC_SP st ->
  (forall SP, ValidSP st SP -> ClassOf (Memory st') SP = ClassOf (Memory st) SP) ->
  WF st'.
Proof.
  intros W Et Eo En Ep Hc.
  assert (HV : forall SP, ValidSP st' SP -> ValidSP st SP).
  { intros SP (r & idx & Hr & Hidx & ->). exists r, idx.
    rewrite En in Hidx. now repeat split. }
  constructor.
  - rewrite Et. apply (wf_tbl _ W).
  - rewrite Eo. apply (wf_once _ W).
  - intros r Hr. rewrite En. now apply (wf_num _ W).
  - intros r idx Hr Hidx. rewrite En in Hidx.
    assert (V : ValidSP st (SPAddr r idx)) by (exists r, idx; now repeat split).
    unfold DescrOf. rewrite (Hc _ V). now apply (wf_meta _ W).
  - intros sc Hsc. rewrite Ep.
    destruct (wf_persc _ W sc Hsc) as [E | [V E]]; [now left|right].
    split.
    + eapply ValidSP_mono; [|exact V]. intros r _. rewrite En. lia.
    + now rewrite (Hc _ V).
Qed.

(** The address of the size-class byte of a created super page. *)
Lemma ClassOf_SPAddr m r idx :
  IsRange r -> 0 <= idx < kMaxSuperPages ->
  ClassOf m (SPAddr r idx) = Load8 m (kMeta r + idx).
Proof.
  intros Hr Hidx. unfold ClassOf, Shadow_Get. now rewrite MetaPtr_SPAddr.
Qed.

(** State bytes are not size-class bytes and lie in the allocator space
    or above it. *)
Lemma CellOf_not_meta st SP i r idx :
  WF st -> ValidSP st SP -> 0 <= i < NumChunks (DescrOf (Memory st) SP) ->
  IsRange r -> 0 <= idx < kMaxSuperPages ->
  CellOf (Memory st) SP i <> kMeta r + idx /\
  kAllocatorSpace <= CellOf (Memory st) SP i.
Proof.
  intros W V Hi Hr Hidx.
  destruct (ValidSP_range st SP W V) as (Hal & Hsp & G & _).
  destruct (CellOf_place st SP i W V Hi) as [(E & Hc) | (E & j & Hj & -> & Hc & Hi5)].
  - pose proof (chunk_offset_range _ i G Hi). pose proof (good_size _ G).
    cbv zeta in Hc.
    destruct Hr as [-> | ->]; consts; lia.
  - rewrite Hc. destruct Hr as [-> | ->]; consts; lia.
Qed.

Lemma WF_store_cell st SP i v :
  WF st -> ValidSP st SP -> 0 <= i < NumChunks (DescrOf (Memory st) SP) ->
  let st' := set_Memory st (Store8 (Memory st) (CellOf (Memory st) SP i) v) in
  WF st' /\
  forall SP', ValidSP st SP' -> ClassOf (Memory st') SP' = ClassOf (Memory st) SP'.
Proof.
  intros W V Hi st'.
  assert (Hc : forall SP', ValidSP st SP' ->
                 ClassOf (Memory st') SP' = ClassOf (Memory st) SP').
  { intros SP' V'.
    destruct (ValidSP_range st SP' W V') as (_ & _ & _ & r & idx & Hr & Hidx & Hk & -> & _).
    rewrite !ClassOf_SPAddr by (try assumption; lia).
    cbn [st' Memory set_Memory]. apply Load8_Store8_other.
    intros E. symmetry in E. revert E.
    apply (CellOf_not_meta st SP i r idx W V Hi Hr). lia. }
  split; [|exact Hc].
  apply (WF_update st st' W); try reflexivity. exact Hc.
Qed.

(** The state bytes of the created super pages lie outside the super page
    that comes next in a range. *)
Lemma CellOf_outside_fresh st SP i r :
  WF st -> ValidSP st SP -> 0 <= i < NumChunks (DescrOf (Memory st) SP) ->
  IsRange r -> NumSuperPages st r < kMaxSuperPages ->
  ~ (SPAddr r (NumSuperPages st r) <= CellOf (Memory st) SP i
     < SPAddr r (NumSuperPages st r) + kSuperPageSize).
Proof.
  intros W V Hi Hr Hcap.
  pose proof (wf_num _ W r Hr) as HN.
  destruct (CellOf_place st SP i W V Hi) as [(E & Hc) | (E & j & Hj & -> & Hc & Hi5)].
  - cbv zeta in Hc.
    destruct (ValidSP_range st SP W V) as (_ & _ & G & r' & idx & Hr' & Hidx & Hk & -> & Er).
    pose proof (chunk_offset_range _ i G Hi). pose proof (good_size _ G).
    unfold SPAddr in *. destruct Hr as [-> | ->], Hr' as [-> | ->]; consts; lia.
  - rewrite Hc. unfold SPAddr. destruct Hr as [-> | ->]; consts; lia.
Qed.

Lemma upd_same a i v : upd a i v i = v.
Proof. unfold upd. now rewrite Z.eqb_refl. Qed.

Lemma upd_other a i v j : j <> i -> upd a i v j = a j.
Proof. unfold upd. now destruct (Z.eqb_spec j i). Qed.

Lemma AllocateSuperPage_spec Config st Size SC SCD Res st' :
  WF st -> 1 <= Size ->
  SizeToSizeClass SCDescrTable Size = (SC, SCD) ->
  NumSuperPages st (RangeNum SCD) < kMaxSuperPages ->
  Allocator.AllocateSuperPage Config st Size = Ret (Res, st') ->
  WF st' /\ Preserves (fun _ => False) st st' /\
  DataOnlyScopeLevel st' = DataOnlyScopeLevel st /\
  TLS_PerSC_LastIdxHint st' = TLS_PerSC_LastIdxHint st.
Proof.
  intros W HS HSC Hcap H.
  destruct (SizeToSizeClass_class _ _ _ HS HSC) as [HSCr ESCD].
  assert (G : Good SCD) by (subst SCD; now apply SCDescrTable_Good).
  pose proof (good_range _ G) as Hr. pose proof (good_size _ G) as Hsz.
  set (r := RangeNum SCD) in *. pose proof (wf_num _ W r Hr) as HN.
  unfold Allocator.AllocateSuperPage, Allocator.GetNumSuperPages in H.
  rewrite (wf_tbl _ W), HSC in H. fold r in H.
  rewrite GetSuperPage_valid in H by (try assumption; lia).
  cbn [bind] in H. unfold SetSizeClass, Shadow_Set in H.
  rewrite MetaPtr_SPAddr in H by (try assumption; lia).
  apply bind_Ret in H. destruct H as (m0 & E0 & H).
  apply trap_if_Ret in E0. destruct E0 as [_ E0].
  apply trap_if_Ret in E0. destruct E0 as [_ E0].
  apply Ret_inj in E0. subst m0.
  apply bind_Ret in H. destruct H as ([Rand m2] & E1 & H).
  apply Ret_inj in H. inversion H; subst Res st'; clear H.
  set (SP := SPAddr r (NumSuperPages st r)) in *.
  set (m1 := Store8 (mmap_fixed (Memory st) SP kSuperPageSize)
               (kMeta r + NumSuperPages st r) SC) in *.
  assert (F : forall x, kAllocatorSpace <= x ->
                ~ (SP <= x < SP + kSuperPageSize) ->
                x <> kMeta r + NumSuperPages st r ->
                Load8 m2 x = Load8 (Memory st) x).
  { intros x Hx Hz Hm.
    rewrite (SeedMemoryTags_frame _ _ _ _ _ _ _ _ x E1) by
      (try assumption; change (2 ^ 30) with 1073741824; lia).
    unfold m1. rewrite Load8_Store8_other by assumption.
    apply Load8_mmap_fixed_other. lia. }
  assert (Fnew : Load8 m2 (kMeta r + NumSuperPages st r) = SC).
  { rewrite (SeedMemoryTags_frame _ _ _ _ _ _ _ _ _ E1) by
      (try (change (2 ^ 30) with 1073741824; lia);
       destruct Hr as [-> | ->]; consts; lia).
    unfold m1. rewrite Load8_Store8_same. apply u8_small. consts. lia. }
  assert (Fold : forall r' idx, IsRange r' -> 0 <= idx < NumSuperPages st r' ->
                   ClassOf m2 (SPAddr r' idx)
                   = ClassOf (Memory st) (SPAddr r' idx)).
  { intros r' idx Hr' Hidx. pose proof (wf_num _ W r' Hr').
    rewrite !ClassOf_SPAddr by (try assumption; lia).
    apply F; unfold SP, SPAddr;
      destruct Hr as [-> | ->], Hr' as [-> | ->]; consts; lia. }
  cbn [set_NumSuperPages set_Rand set_Memory NumSuperPages Memory SCDescr
       InitAllOnce TLS_PerSC_SP DataOnlyScopeLevel TLS_PerSC_LastIdxHint].
  assert (Hnum : forall r', IsRange r' ->
            NumSuperPages st r' <=
            upd (NumSuperPages st) r (u64 (NumSuperPages st r + 1)) r').
  { intros r' Hr'. unfold upd. destruct (Z.eqb_spec r' r) as [-> | _]; [|lia].
    rewrite u64_small by (consts; lia). lia. }
  assert (HC : forall SP', ValidSP st SP' ->
                 ClassOf m2 SP' = ClassOf (Memory st) SP').
  { intros SP' (r' & idx & Hr' & Hidx & ->). now apply Fold. }
  split; [|split; [|split; reflexivity]].
  - constructor; cbn [set_NumSuperPages set_Rand set_Memory NumSuperPages
                      Memory SCDescr InitAllOnce TLS_PerSC_SP].
    + apply (wf_tbl _ W).
    + apply (wf_once _ W).
    + intros r' Hr'. unfold upd. destruct (Z.eqb_spec r' r) as [-> | _].
      * rewrite u64_small by (consts; lia). lia.
      * now apply (wf_num _ W).
    + intros r' idx Hr' Hidx. unfold upd in Hidx.
      destruct (Z.eqb_spec r' r) as [-> | Hne].
      * rewrite u64_small in Hidx by (consts; lia).
        destruct (Z.eq_dec idx (NumSuperPages st r)) as [-> | Hni].
        -- unfold DescrOf. rewrite ClassOf_SPAddr by (try assumption; lia).
           rewrite Fnew, <- ESCD. split; [assumption | reflexivity].
        -- unfold DescrOf. rewrite Fold by (try assumption; lia).
           apply (wf_meta _ W); [assumption | lia].
      * unfold DescrOf. rewrite Fold by assumption. now apply (wf_meta _ W).
    + intros sc Hsc.
      destruct (wf_persc _ W sc Hsc) as [E | [V E]]; [now left|right].
      split.
      * eapply ValidSP_mono; [|exact V]. exact Hnum.
      * now rewrite (HC _ V).
  - constructor; cbn [set_NumSuperPages set_Rand set_Memory NumSuperPages
                      Memory].
    + exact Hnum.
    + exact HC.
    + intros SP' i V Hi _.
      destruct (CellOf_not_meta st SP' i r (NumSuperPages st r) W V Hi Hr
                  ltac:(lia)) as [Hm Hlo].
      apply F; try assumption.
      now apply CellOf_outside_fresh.
Qed.

(** ** Steps that preserve the state bytes *)

Ltac st_simpl :=
  cbn [Memory SCDescr InitAllOnce NumScans NumSuperPages BytesInQuarantine
       ScanPos LastQurantineSize DataOnlyScopeLevel TLS_Rand
       TLS_LocalQuarantineSize TLS_PerSC_SP TLS_PerSC_LastIdxHint
       set_Memory set_SCDescr set_NumScans set_NumSuperPages
       set_BytesInQuarantine set_ScanPos set_DataOnlyScopeLevel set_Rand
       set_LocalQuarantineSize set_PerSC_SP set_PerSC_LastIdxHint] in *.

Lemma ValidSP_heap st st' SP :
  NumSuperPages st' = NumSuperPages st -> ValidSP st SP -> ValidSP st' SP.
Proof. intros E. apply ValidSP_mono. intros r _. rewrite E. lia. Qed.

Lemma IsChunk_heap st st' a SP i :
  NumSuperPages st' = NumSuperPages st ->
  ClassOf (Memory st') SP = ClassOf (Memory st) SP ->
  IsChunk st a SP i -> IsChunk st' a SP i.
Proof.
  intros En Ec (V & Hi & Ha). unfold IsChunk.
  rewrite (DescrOf_eq _ _ _ Ec). split; [|now split].
  now apply (ValidSP_heap st).
Qed.

Lemma Preserves_same E st st' :
  Memory st' = Memory st -> NumSuperPages st' = NumSuperPages st ->
  Preserves E st st'.
Proof.
  intros Em En. constructor.
  - intros r _. rewrite En. lia.
  - intros SP _. now rewrite Em.
  - intros SP i _ _ _. now rewrite Em.
Qed.

Lemma Preserves_trans E st1 st2 st3 :
  Preserves E st1 st2 -> Preserves E st2 st3 -> Preserves E st1 st3.
Proof.
  intros P Q.
  assert (HV : forall SP, ValidSP st1 SP -> ValidSP st2 SP)
    by (intros SP; apply ValidSP_mono, (pres_num _ _ _ P)).
  constructor.
  - intros r Hr. pose proof (pres_num _ _ _ P r Hr).
    pose proof (pres_num _ _ _ Q r Hr). lia.
  - intros SP V. rewrite (pres_class _ _ _ Q) by auto.
    now apply (pres_class _ _ _ P).
  - intros SP i V Hi HE.
    pose proof (pres_class _ _ _ P SP V) as Ec.
    rewrite <- (pres_cell _ _ _ P SP i V Hi HE).
    rewrite <- (CellOf_eq _ _ SP i Ec).
    apply (pres_cell _ _ _ Q); [auto| |]; rewrite (DescrOf_eq _ _ _ Ec);
      assumption.
Qed.

Lemma Preserves_weaken (E E' : Z -> Prop) st st' :
  (forall a, E a -> E' a) -> Preserves E st st' -> Preserves E' st st'.
Proof.
  intros HE P. constructor.
  - apply (pres_num _ _ _ P).
  - apply (pres_class _ _ _ P).
  - intros SP i V Hi Hn. apply (pres_cell _ _ _ P); auto.
Qed.

(** Writing the state byte of one chunk. *)
Lemma Preserves_store st st' a SP i v :
  WF st -> IsChunk st a SP i ->
  Memory st' = Store8 (Memory st) (CellOf (Memory st) SP i) v ->
  NumSuperPages st' = NumSuperPages st ->
  Preserves (eq a) st st'.
Proof.
  intros W (V & Hi & Ha) Em En.
  destruct (WF_store_cell st SP i v W V Hi) as [_ Hc]. st_simpl.
  constructor.
  - intros r _. rewrite En. lia.
  - intros SP' V'. rewrite Em. now apply Hc.
  - intros SP' i' V' Hi' Hne. rewrite Em. apply Load8_Store8_other.
    intros Ecell. apply Hne.
    destruct (CellOf_inj st SP' i' SP i W V' V Hi' Hi Ecell) as [-> ->].
    exact Ha.
Qed.

Lemma Untag_0 Config : Untag Config 0 = 0.
Proof. unfold Untag, ApplyAddressTag. now destruct (UseAliases Config). Qed.

(** [TryAllocate] on a created super page of the class of the request. *)
Lemma TryAllocate_valid Config st SP SC D Hint Res Hint' m' :
  WF st -> ValidSP st SP -> ClassOf (Memory st) SP = SC ->
  SuperPage.TryAllocate Config D (SCDescrAt SCDescrTable SC) Hint (Memory st) SP
    = Ret (Res, Hint', m') ->
  (Res = 0 /\ m' = Memory st) \/
  (Res <> 0 /\ exists i,
     IsChunk st (Untag Config Res) SP i /\
     Load8 (Memory st) (CellOf (Memory st) SP i) = AVAILABLE /\
     m' = Store8 (Memory st) (CellOf (Memory st) SP i)
            (if D then USED_DATA else USED_MIXED)).
Proof.
  intros W V EC H.
  destruct (ValidSP_range st SP W V) as (Hal & Hsp & G & _).
  assert (ED : DescrOf (Memory st) SP = SCDescrAt SCDescrTable SC)
    by (unfold DescrOf; now rewrite EC).
  rewrite <- ED in H.
  apply TryAllocate_spec in H;
    [|pose proof (good_num _ G); unfold kNotFound; consts; lia].
  cbv zeta in H. destruct H as [(-> & _ & ->) | (Pos & Tag & HPos & EA & -> & ET & ->)].
  - now left.
  - right.
    assert (IC : IsChunk st (SP + Pos * ChunkSize (DescrOf (Memory st) SP)) SP Pos)
      by (now repeat split).
    destruct (IsChunk_range st _ SP Pos W IC) as (_ & _ & _ & Hin & _).
    assert (EAddr : SuperPage.AddressOfChunk SP Pos (DescrOf (Memory st) SP)
                    = SP + Pos * ChunkSize (DescrOf (Memory st) SP)).
    { unfold SuperPage.AddressOfChunk. apply u64_small. consts. lia. }
    rewrite EAddr. rewrite Untag_ApplyAddressTag by assumption.
    split.
    + intros E0. pose proof (Untag_ApplyAddressTag Config _ Tag Hin) as HU.
      rewrite E0, Untag_0 in HU. consts. lia.
    + exists Pos. repeat split; try assumption; apply IC.
Qed.

Lemma WF_set_PerSC_SP st SC SP :
  WF st -> ValidSP st SP -> ClassOf (Memory st) SP = SC ->
  WF (set_PerSC_SP st (upd (TLS_PerSC_SP st) SC SP)).
Proof.
  intros W V EC. constructor; st_simpl.
  - apply (wf_tbl _ W).
  - apply (wf_once _ W).
  - apply (wf_num _ W).
  - apply (wf_meta _ W).
  - intros sc Hsc. unfold upd. destruct (Z.eqb_spec sc SC) as [-> | _].
    + right. now split.
    + apply (wf_persc _ W sc Hsc).
Qed.

(** State bytes as a later state sees them. *)
Lemma Preserves_cell_back st0 st SP i :
  Preserves (fun _ => False) st0 st -> ValidSP st0 SP ->
  0 <= i < NumChunks (DescrOf (Memory st) SP) ->
  Load8 (Memory st0) (CellOf (Memory st0) SP i)
  = Load8 (Memory st) (CellOf (Memory st) SP i).
Proof.
  intros P V0 Hi. pose proof (pres_class _ _ _ P SP V0) as Ec.
  rewrite (DescrOf_eq _ _ _ Ec) in Hi.
  rewrite (CellOf_eq _ _ SP i Ec). symmetry.
  apply (pres_cell _ _ _ P SP i V0 Hi). tauto.
Qed.

(** The state after [TryAllocate] has taken chunk [a] of a super page. *)
Lemma AllocPost_store st0 st st' a SP i v :
  WF st -> Preserves (fun _ => False) st0 st ->
  IsChunk st a SP i ->
  Load8 (Memory st) (CellOf (Memory st) SP i) = AVAILABLE ->
  IsUsed v ->
  Memory st' = Store8 (Memory st) (CellOf (Memory st) SP i) v ->
  SCDescr st' = SCDescr st -> InitAllOnce st' = InitAllOnce st ->
  NumSuperPages st' = NumSuperPages st ->
  TLS_PerSC_SP st' = TLS_PerSC_SP st ->
  AllocPost st0 st' a.
Proof.
  intros W P IC EA Hv Em Et Eo En Ep.
  pose proof IC as (V & Hi & Ha).
  destruct (WF_store_cell st SP i v W V Hi) as [_ Hc]. st_simpl.
  assert (Hc' : forall SP', ValidSP st SP' ->
                  ClassOf (Memory st') SP' = ClassOf (Memory st) SP')
    by (intros SP' V'; rewrite Em; now apply Hc).
  split; [|split].
  - now apply (WF_update st st' W).
  - apply Preserves_trans with (st2 := st).
    + eapply Preserves_weaken; [|exact P]. contradiction.
    + now apply (Preserves_store st st' a SP i v).
  - exists SP, i. split; [|split].
    + apply (IsChunk_heap st st'); auto.
    + rewrite (CellOf_eq _ _ SP i (Hc' SP V)), Em, Load8_Store8_same.
      destruct Hv as [-> | ->]; [left | right]; reflexivity.
    + intros V0. now rewrite (Preserves_cell_back st0 st SP i P V0 Hi).
Qed.

Lemma AllocPost_after st0 st st' a :
  Preserves (fun _ => False) st0 st -> AllocPost st st' a -> AllocPost st0 st' a.
Proof.
  intros P (W' & Q & SP & i & IC & HU & HA).
  split; [exact W'|split].
  - apply Preserves_trans with (st2 := st); [|exact Q].
    eapply Preserves_weaken; [|exact P]. contradiction.
  - exists SP, i. split; [exact IC|split; [exact HU|]].
    intros V0.
    assert (V : ValidSP st SP)
      by (eapply ValidSP_mono; [apply (pres_num _ _ _ P)|exact V0]).
    rewrite (Preserves_cell_back st0 st SP i P V0); [now apply HA|].
    destruct IC as (_ & Hi & _).
    now rewrite <- (DescrOf_eq _ _ _ (pres_class _ _ _ Q SP V)).
Qed.

(** The loop of [AllocateSlower] over the super pages of the range. *)
Lemma TrySuperPages_spec Config SC Offset n : forall I N st Res st',
  WF st -> 0 <= SC < kNumSizeClasses ->
  N = NumSuperPages st (RangeNum (SCDescrAt SCDescrTable SC)) ->
  0 <= I -> I + Z.of_nat n <= N -> 0 <= Offset <= N ->
  Allocator.TrySuperPages Config n I N Offset SC (SCDescrAt SCDescrTable SC) st
    = Ret (Res, st') ->
  (Res = 0 /\ WF st' /\ Memory st' = Memory st /\
   NumSuperPages st' = NumSuperPages st) \/
  (Res <> 0 /\ AllocPost st st' (Untag Config Res)).
Proof.
  induction n as [|n IH]; intros I N st Res st' W HSC EN HI HIn HOff H.
  - cbn [Allocator.TrySuperPages] in H. apply Ret_inj in H.
    inversion H; subst. left. tauto.
  - cbn [Allocator.TrySuperPages] in H.
    set (SCD := SCDescrAt SCDescrTable SC) in *.
    assert (G : Good SCD) by now apply SCDescrTable_Good.
    pose proof (good_range _ G) as Hr.
    pose proof (wf_num _ W _ Hr) as HN. rewrite <- EN in HN.
    set (Idx0 := u64 (I + Offset)) in *.
    set (Idx := if N <=? Idx0 then u64 (Idx0 - N) else Idx0) in *.
    assert (HIdx : 0 <= Idx < N).
    { unfold Idx, Idx0. rewrite (u64_small (I + Offset)) by (consts; lia).
      destruct (Z.leb_spec N (I + Offset));
        [rewrite u64_small by (consts; lia)|]; lia. }
    assert (V : ValidSP st (SPAddr (RangeNum SCD) Idx))
      by (exists (RangeNum SCD), Idx; rewrite <- EN; now repeat split).
    rewrite <- ClassOf_SPAddr in H by (try assumption; lia).
    destruct (Z.eqb_spec (ClassOf (Memory st) (SPAddr (RangeNum SCD) Idx)) SC)
      as [EC | _].
    + rewrite GetSuperPage_valid in H by (try assumption; lia).
      cbn [bind] in H. set (SP := SPAddr (RangeNum SCD) Idx) in *.
      set (st1 := set_PerSC_SP st (upd (TLS_PerSC_SP st) SC SP)) in *.
      assert (W1 : WF st1) by now apply WF_set_PerSC_SP.
      apply bind_Ret in H. destruct H as ([[R Hint] m] & ET & H).
      change (Memory st1) with (Memory st) in ET.
      apply (TryAllocate_valid Config st SP SC) in ET; try assumption.
      destruct ET as [[-> ->] | (HR & i & IC & EA & ->)].
      * cbn [Z.eqb] in H.
        set (st2 := set_PerSC_LastIdxHint _ _) in H.
        assert (W2 : WF st2)
          by (apply (WF_update st1); try reflexivity; exact W1).
        apply (IH (I + 1) N) in H; try assumption; try lia.
        destruct H as [(-> & W' & Em & En) | (HR & Post)].
        -- left. st_simpl. rewrite Em, En. tauto.
        -- right. split; [exact HR|].
           eapply AllocPost_after; [|exact Post].
           now apply Preserves_same.
      * destruct (Z.eqb_spec R 0) as [E0|_]; [contradiction|].
        apply Ret_inj in H. inversion H; subst Res st'. right.
        split; [exact HR|].
        apply (AllocPost_store st st1 _ _ SP i
                 (if negb (DataOnlyScopeLevel st1 =? 0) then USED_DATA
                  else USED_MIXED)); try reflexivity; try assumption.
        -- now apply Preserves_same.
        -- destruct (negb _); [right | left]; reflexivity.
    + apply (IH (I + 1) N) in H; try assumption; try lia.
Qed.

(** ** The number of super pages only grows *)

Lemma WF_Lite st : WF st -> Lite st.
Proof.
  intros W. split; [apply (wf_tbl _ W)|split; [apply (wf_once _ W)|]].
  pose proof (wf_num _ W 0 ltac:(now left)). consts. lia.
Qed.

Lemma SizeToSizeClass_snd tbl Size :
  snd (SizeToSizeClass tbl Size) = SCDescrAt tbl (fst (SizeToSizeClass tbl Size)).
Proof.
  unfold SizeToSizeClass. destruct (Size <=? 256); [reflexivity|].
  now destruct (SizeToSizeClass_loop _ _ _ _).
Qed.

Lemma SCDescrAt_range sc : IsRange (RangeNum (SCDescrAt SCDescrTable sc)).
Proof.
  destruct (SCDescrAt_cases sc) as [G | ->]; [apply (good_range _ G)|now left].
Qed.

Lemma AllocateSuperPage_lite Config st Size Res st' :
  Lite st -> Allocator.AllocateSuperPage Config st Size = Ret (Res, st') ->
  Lite st' /\
  NumSuperPages st' 0 =
    NumSuperPages st 0
    + (if RangeNum (snd (SizeToSizeClass SCDescrTable Size)) =? 0 then 1 else 0).
Proof.
  intros (Et & Eo & HN) H.
  unfold Allocator.AllocateSuperPage, Allocator.GetNumSuperPages in H.
  rewrite Et in H. pose proof (SizeToSizeClass_snd SCDescrTable Size) as ES.
  destruct (SizeToSizeClass SCDescrTable Size) as [SC SCD]. cbn [fst snd] in *.
  pose proof (SCDescrAt_range SC) as Hr. rewrite <- ES in Hr.
  apply bind_Ret in H. destruct H as (SP & EG & H).
  apply bind_Ret in H. destruct H as (m1 & _ & H).
  apply bind_Ret in H. destruct H as ([Rand m2] & _ & H).
  apply Ret_inj in H. inversion H; subst Res st'; clear H. st_simpl.
  unfold Lite. st_simpl. unfold upd.
  destruct Hr as [E | E]; rewrite E in *; cbn [Z.eqb].
  - unfold GetSuperPage in EG. apply trap_if_Ret in EG. destruct EG as [EG _].
    apply Z.leb_gt in EG. consts.
    rewrite u64_small in EG by lia. rewrite u64_small by lia.
    repeat split; try assumption; lia.
  - repeat split; try assumption; lia.
Qed.

Lemma TrySuperPages_lite Config SC SCD Offset N n : forall I st Res st',
  Allocator.TrySuperPages Config n I N Offset SC SCD st = Ret (Res, st') ->
  SCDescr st' = SCDescr st /\ InitAllOnce st' = InitAllOnce st /\
  NumSuperPages st' = NumSuperPages st.
Proof.
  induction n as [|n IH]; intros I st Res st' H;
    cbn [Allocator.TrySuperPages] in H.
  - apply Ret_inj in H. inversion H; subst. tauto.
  - destruct (Load8 _ _ =? SC).
    + apply bind_Ret in H. destruct H as (SP & _ & H).
      apply bind_Ret in H. destruct H as ([[R Hint] m] & _ & H).
      destruct (R =? 0).
      * apply IH in H. st_simpl. exact H.
      * apply Ret_inj in H. inversion H; subst. st_simpl. tauto.
    + now apply IH in H.
Qed.

Lemma AllocateSlower_loop_lite Config Size SC SCD fuel : forall st p st',
  Lite st ->
  Allocator.AllocateSlower_loop Config fuel Size SC SCD st = Ret (p, st') ->
  Lite st' /\ NumSuperPages st 0 <= NumSuperPages st' 0.
Proof.
  induction fuel as [|fuel IH]; intros st p st' L H;
    cbn [Allocator.AllocateSlower_loop] in H; [discriminate|].
  destruct (if Allocator.GetNumSuperPages st (RangeNum SCD) =? 0
            then (TLS_Rand st, 0)
            else let '(Rand, r) := RandR (TLS_Rand st) in
                 (Rand, r mod Allocator.GetNumSuperPages st (RangeNum SCD)))
    as [Rand Offset].
  apply bind_Ret in H. destruct H as ([Res st1] & ET & H).
  apply TrySuperPages_lite in ET. st_simpl. destruct ET as (Et & Eo & En).
  assert (L1 : Lite st1).
  { destruct L as (A & B & C). unfold Lite. now rewrite Et, Eo, En. }
  destruct (Res =? 0).
  - apply bind_Ret in H. destruct H as ([R2 st2] & EA & H).
    apply AllocateSuperPage_lite in EA; [|exact L1]. destruct EA as [L2 E2].
    apply IH in H.
    + st_simpl. destruct H as [L' Hle]. split; [exact L'|].
      rewrite <- En. destruct (_ =? 0) in E2; lia.
    + destruct L2 as (A & B & C). unfold Lite. st_simpl. tauto.
  - apply Ret_inj in H. inversion H; subst. split; [exact L1|].
    rewrite En. lia.
Qed.

Lemma AllocateSlower_lite Config self fuel st Size p st' :
  Lite st ->
  Allocator.AllocateSlower Config self fuel st Size = Ret (p, st') ->
  Lite st' /\ NumSuperPages st 0 <= NumSuperPages st' 0.
Proof.
  intros L H. unfold Allocator.AllocateSlower in H.
  pose proof L as (Et & Eo & HN). rewrite Eo in H.
  destruct (TLS_Rand st =? 0); cbn [bind] in H.
  - destruct (SizeToSizeClass _ _) as [SC SCD].
    apply AllocateSlower_loop_lite in H; [exact H|].
    unfold Lite. st_simpl. tauto.
  - destruct (SizeToSizeClass _ _) as [SC SCD].
    now apply AllocateSlower_loop_lite in H.
Qed.

Lemma Allocate_lite Config self fuel st Size p st' :
  Lite st ->
  Allocator.Allocate Config self fuel st Size = Ret (p, st') ->
  Lite st' /\ NumSuperPages st 0 <= NumSuperPages st' 0.
Proof.
  intros L H. unfold Allocator.Allocate in H.
  destruct (SizeToSizeClass _ _) as [SC SCD].
  destruct (negb (TLS_PerSC_SP st SC =? 0)).
  - apply bind_Ret in H. destruct H as ([[R Hint] m] & _ & H).
    destruct (negb (R =? 0)).
    + apply Ret_inj in H. inversion H; subst. st_simpl.
      split; [|lia]. destruct L as (A & B & C). unfold Lite. st_simpl. tauto.
    + apply AllocateSlower_lite in H; [exact H|].
      destruct L as (A & B & C). unfold Lite. st_simpl. tauto.
  - now apply AllocateSlower_lite in H.
Qed.

(** ** Allocate *)

(** Range 1 ends where the allocator space ends, so [GetSuperPage] stops
    it there. *)
Lemma AllocateSuperPage_cap1 Config st Size Res st' :
  WF st ->
  RangeNum (snd (SizeToSizeClass SCDescrTable Size)) = 1 ->
  Allocator.AllocateSuperPage Config st Size = Ret (Res, st') ->
  NumSuperPages st 1 < kMaxSuperPages.
Proof.
  intros W E H.
  unfold Allocator.AllocateSuperPage, Allocator.GetNumSuperPages in H.
  rewrite (wf_tbl _ W) in H.
  destruct (SizeToSizeClass SCDescrTable Size) as [SC SCD]. cbn [snd] in E.
  rewrite E in H. apply bind_Ret in H. destruct H as (SP & EG & _).
  unfold GetSuperPage in EG. apply trap_if_Ret in EG. destruct EG as [EG _].
  apply Z.leb_gt in EG. pose proof (wf_num _ W 1 ltac:(now right)) as HN.
  consts. rewrite u64_small in EG by lia. lia.
Qed.

Lemma AllocateSlower_loop_spec Config Size SC SCD fuel : forall st p st',
  WF st -> 1 <= Size -> SizeToSizeClass SCDescrTable Size = (SC, SCD) ->
  Allocator.AllocateSlower_loop Config fuel Size SC SCD st = Ret (p, st') ->
  NumSuperPages st' 0 <= kMaxSuperPages ->
  AllocPost st st' (Untag Config p).
Proof.
  induction fuel as [|fuel IH]; intros st p st' W HS HSC H Hcap;
    cbn [Allocator.AllocateSlower_loop] in H; [discriminate|].
  destruct (SizeToSizeClass_class _ _ _ HS HSC) as [HSCr ESCD].
  assert (G : Good SCD) by (subst SCD; now apply SCDescrTable_Good).
  pose proof (good_range _ G) as Hr.
  unfold Allocator.GetNumSuperPages in H.
  pose proof (wf_num _ W _ Hr) as HN.
  set (N := NumSuperPages st (RangeNum SCD)) in *.
  destruct (if N =? 0 then (TLS_Rand st, 0)
            else let '(Rand, r) := RandR (TLS_Rand st) in (Rand, r mod N))
    as [Rand Offset] eqn:EO.
  assert (HOff : 0 <= Offset <= N).
  { destruct (Z.eqb_spec N 0).
    - inversion EO; subst. lia.
    - destruct (RandR (TLS_Rand st)) as [R1 r]. inversion EO; subst.
      pose proof (Z.mod_pos_bound r N ltac:(lia)). lia. }
  set (st0 := set_Rand st Rand) in *.
  assert (W0 : WF st0) by (apply (WF_update st); try reflexivity; exact W).
  apply bind_Ret in H. destruct H as ([Res st1] & ET & H).
  rewrite ESCD in ET.
  apply TrySuperPages_spec in ET; try assumption; try lia;
    [|now rewrite <- ESCD].
  destruct ET as [(-> & W1 & Em & En) | (HR & Post)].
  - cbn [Z.eqb] in H.
    apply bind_Ret in H. destruct H as ([R2 st2] & EA & H).
    set (st3 := set_PerSC_LastIdxHint st2 _) in H.
    destruct (AllocateSuperPage_lite _ _ _ _ _ (WF_Lite _ W1) EA) as [L2 E2].
    assert (L3 : Lite st3)
      by (destruct L2 as (A & B & C); unfold Lite; st_simpl; tauto).
    destruct (AllocateSlower_loop_lite _ _ _ _ _ _ _ _ L3 H) as [_ Hmono].
    change (NumSuperPages st3 0) with (NumSuperPages st2 0) in Hmono.
    rewrite HSC in E2. cbn [snd] in E2.
    assert (Hc1 : NumSuperPages st1 (RangeNum SCD) < kMaxSuperPages).
    { destruct Hr as [E | E]; rewrite E in *; cbn [Z.eqb] in E2.
      - lia.
      - eapply AllocateSuperPage_cap1; [exact W1| |exact EA].
        now rewrite HSC. }
    destruct (AllocateSuperPage_spec _ _ _ _ _ _ _ W1 HS HSC Hc1 EA)
      as (W2 & P12 & _).
    assert (W3 : WF st3) by (apply (WF_update st2); try reflexivity; exact W2).
    apply IH in H; try assumption.
    eapply AllocPost_after; [|exact H].
    apply Preserves_trans with (st2 := st1);
      [apply Preserves_same; [rewrite Em|rewrite En]; reflexivity|].
    apply Preserves_trans with (st2 := st2); [exact P12|].
    now apply Preserves_same.
  - destruct (Z.eqb_spec Res 0) as [E0|_]; [contradiction|].
    apply Ret_inj in H. inversion H; subst p st'.
    eapply AllocPost_after; [|exact Post]. now apply Preserves_same.
Qed.

Lemma AllocateSlower_spec Config self fuel st Size p st' :
  WF st -> 1 <= Size ->
  Allocator.AllocateSlower Config self fuel st Size = Ret (p, st') ->
  NumSuperPages st' 0 <= kMaxSuperPages ->
  AllocPost st st' (Untag Config p).
Proof.
  intros W HS H Hcap. unfold Allocator.AllocateSlower in H.
  rewrite (wf_once _ W) in H.
  destruct (TLS_Rand st =? 0); cbn [bind] in H.
  - st_simpl. rewrite (wf_tbl _ W) in H.
    destruct (SizeToSizeClass SCDescrTable Size) as [SC SCD] eqn:HSC.
    apply AllocateSlower_loop_spec in H; try assumption.
    + eapply AllocPost_after; [|exact H]. now apply Preserves_same.
    + apply (WF_update st); try reflexivity; exact W.
  - rewrite (wf_tbl _ W) in H.
    destruct (SizeToSizeClass SCDescrTable Size) as [SC SCD] eqn:HSC.
    now apply AllocateSlower_loop_spec in H.
Qed.

Lemma Allocate_WF Config self fuel st Size p st' :
  WF st -> 1 <= Size ->
  Allocator.Allocate Config self fuel st Size = Ret (p, st') ->
  NumSuperPages st' 0 <= kMaxSuperPages ->
  AllocPost st st' (Untag Config p).
Proof.
  intros W HS H Hcap. unfold Allocator.Allocate in H.
  rewrite (wf_tbl _ W) in H.
  destruct (SizeToSizeClass SCDescrTable Size) as [SC SCD] eqn:HSC.
  destruct (SizeToSizeClass_class _ _ _ HS HSC) as [HSCr ESCD].
  destruct (Z.eqb_spec (TLS_PerSC_SP st SC) 0) as [E0 | Hne]; cbn [negb] in H.
  - now apply AllocateSlower_spec in H.
  - destruct (wf_persc _ W SC HSCr) as [E | [V EC]]; [contradiction|].
    apply bind_Ret in H. destruct H as ([[R Hint] m] & ET & H).
    rewrite ESCD in ET.
    apply (TryAllocate_valid Config st _ SC) in ET; try assumption.
    destruct ET as [[-> ->] | (HR & i & IC & EA & ->)].
    + cbn [Z.eqb negb] in H.
      set (st1 := set_PerSC_LastIdxHint _ _) in H.
      apply AllocateSlower_spec in H; try assumption.
      * eapply AllocPost_after; [|exact H]. now apply Preserves_same.
      * apply (WF_update st); try reflexivity; exact W.
    + destruct (Z.eqb_spec R 0) as [E0|_]; [contradiction|]. cbn [negb] in H.
      apply Ret_inj in H. inversion H; subst p st'.
      apply (AllocPost_store st st _ _ (TLS_PerSC_SP st SC) i
               (if negb (DataOnlyScopeLevel st =? 0) then USED_DATA
                else USED_MIXED)); try reflexivity; try assumption.
      * now apply Preserves_same.
      * destruct (negb _); [right | left]; reflexivity.
Qed.

(** ** The first call *)

Lemma WF_InitializedState self : WF (InitializedState self).
Proof.
  constructor.
  - reflexivity.
  - reflexivity.
  - intros r _. change (NumSuperPages (InitializedState self) r) with 0.
    consts. lia.
  - intros r idx _ Hidx.
    change (NumSuperPages (InitializedState self) r) with 0 in Hidx. lia.
  - intros sc _. now left.
Qed.

Lemma not_ValidSP_ZeroState SP : ~ ValidSP ZeroState SP.
Proof.
  intros (r & idx & _ & Hidx & _).
  change (NumSuperPages ZeroState r) with 0 in Hidx. lia.
Qed.

Lemma Allocate_ZeroState_loop Config self fuel Size :
  Allocator.Allocate Config self (S fuel) ZeroState Size =
  let '(SC, SCD) := SizeToSizeClass SCDescrTable Size in
  Allocator.AllocateSlower_loop Config (S fuel) Size SC SCD
    (InitializedState self).
Proof.
  unfold Allocator.Allocate.
  destruct (SizeToSizeClass (SCDescr ZeroState) Size) as [SC0 SCD0'].
  change (TLS_PerSC_SP ZeroState SC0) with 0. cbn [Z.eqb negb].
  unfold Allocator.AllocateSlower.
  change (TLS_Rand ZeroState =? 0) with true.
  change (InitAllOnce ZeroState) with false. cbv iota.
  rewrite (InitAll_ZeroState self fuel). reflexivity.
Qed.

Lemma Allocate_ZeroState_no_fuel Config self Size :
  Allocator.Allocate Config self 0 ZeroState Size = OutOfFuel.
Proof.
  unfold Allocator.Allocate.
  destruct (SizeToSizeClass (SCDescr ZeroState) Size) as [SC0 SCD0'].
  reflexivity.
Qed.

Lemma Preserves_ZeroState E st :
  (forall r, IsRange r -> 0 <= NumSuperPages st r) -> Preserves E ZeroState st.
Proof.
  intros H. constructor.
  - exact H.
  - intros SP V. now apply not_ValidSP_ZeroState in V.
  - intros SP i V. now apply not_ValidSP_ZeroState in V.
Qed.

Lemma Allocate_Callable Config self fuel st Size p st' :
  Callable st -> 1 <= Size ->
  Allocator.Allocate Config self fuel st Size = Ret (p, st') ->
  NumSuperPages st' 0 <= kMaxSuperPages ->
  AllocPost st st' (Untag Config p).
Proof.
  intros [W | ->] HS H Hcap; [now apply Allocate_WF in H|].
  destruct fuel as [|fuel];
    [rewrite Allocate_ZeroState_no_fuel in H; discriminate|].
  rewrite Allocate_ZeroState_loop in H.
  destruct (SizeToSizeClass SCDescrTable Size) as [SC SCD] eqn:HSC.
  apply AllocateSlower_loop_spec in H; try assumption;
    [|apply WF_InitializedState].
  eapply AllocPost_after; [|exact H].
  apply Preserves_ZeroState. intros r _.
  change (NumSuperPages (InitializedState self) r) with 0. lia.
Qed.

Lemma Allocate_LiteStart Config self fuel st Size p st' :
  LiteStart st ->
  Allocator.Allocate Config self fuel st Size = Ret (p, st') ->
  Lite st' /\ NumSuperPages st 0 <= NumSuperPages st' 0.
Proof.
  intros [L | ->] H; [now apply Allocate_lite in H|].
  destruct fuel as [|fuel];
    [rewrite Allocate_ZeroState_no_fuel in H; discriminate|].
  rewrite Allocate_ZeroState_loop in H.
  destruct (SizeToSizeClass SCDescrTable Size) as [SC SCD] eqn:HSC.
  apply AllocateSlower_loop_lite in H;
    [exact H | apply WF_Lite, WF_InitializedState].
Qed.

(** ** Allocated chunks *)

Lemma IsChunk_Preserves E st st' a SP i :
  Preserves E st st' -> IsChunk st a SP i -> IsChunk st' a SP i.
Proof.
  intros P (V & Hi & Ha). unfold IsChunk.
  rewrite (DescrOf_eq _ _ _ (pres_class _ _ _ P SP V)).
  split; [|now split].
  eapply ValidSP_mono; [apply (pres_num _ _ _ P)|exact V].
Qed.

Lemma AllocPost_Live st st' a : AllocPost st st' a -> Live st' a.
Proof. intros (_ & _ & SP & i & IC & HU & _). now exists SP, i. Qed.

Lemma AllocPost_Live_mono st st' a b :
  AllocPost st st' a -> Live st b -> Live st' b.
Proof.
  intros Post (SP & i & IC & HU).
  destruct (Z.eq_dec b a) as [-> | Hne]; [now apply AllocPost_Live in Post|].
  destruct Post as (_ & P & _). exists SP, i.
  split; [now apply (IsChunk_Preserves (eq a) st)|].
  pose proof IC as (V & Hi & Ha).
  rewrite (CellOf_eq _ _ SP i (pres_class _ _ _ P SP V)).
  rewrite (pres_cell _ _ _ P SP i V Hi); [exact HU|].
  intros E. apply Hne. now rewrite Ha.
Qed.

Lemma AllocPost_fresh st st' a : AllocPost st st' a -> ~ Live st a.
Proof.
  intros (W' & P & SP & i & IC & HU & HA) (SP0 & i0 & IC0 & HU0).
  pose proof (IsChunk_Preserves _ _ _ _ _ _ P IC0) as IC0'.
  destruct (IsChunk_inj st' a SP0 i0 SP i W' IC0' IC) as [-> ->].
  destruct IC0 as (V & _). rewrite (HA V) in HU0.
  destruct HU0 as [E | E]; discriminate.
Qed.

(** ** Sequences of allocations *)

Lemma RunCalls_cons Config self fuel st c cs ps st' :
  RunCalls Config self fuel st (c :: cs) = Ret (ps, st') ->
  exists r st1 rs,
    RunCall Config self fuel st c = Ret (r, st1) /\
    RunCalls Config self fuel st1 cs = Ret (rs, st') /\
    ps = match r with Some p => p :: rs | None => rs end.
Proof.
  intros H. cbn [RunCalls] in H.
  apply bind_Ret in H. destruct H as ([r st1] & E1 & H).
  apply bind_Ret in H. destruct H as ([rs st2] & E2 & H).
  apply Ret_inj in H. inversion H; subst. now exists r, st1, rs.
Qed.

Lemma RunCall_Allocate Config self fuel st Size r st1 :
  RunCall Config self fuel st (CallAllocate Size) = Ret (r, st1) ->
  exists p, r = Some p /\
            Allocator.Allocate Config self fuel st Size = Ret (p, st1).
Proof.
  intros H. cbn [RunCall] in H.
  apply bind_Ret in H. destruct H as ([p st'] & E & H).
  apply Ret_inj in H. inversion H; subst. now exists p.
Qed.

Lemma RunAllocs_lite Config self fuel cs : forall st ps st',
  LiteStart st -> Forall IsAllocate cs ->
  RunCalls Config self fuel st cs = Ret (ps, st') ->
  LiteStart st' /\ NumSuperPages st 0 <= NumSuperPages st' 0.
Proof.
  induction cs as [|c cs IH]; intros st ps st' L HA H.
  - apply Ret_inj in H. inversion H; subst. split; [exact L | lia].
  - apply RunCalls_cons in H. destruct H as (r & st1 & rs & E1 & E2 & _).
    inversion HA as [|? ? Hc HA']; subst.
    destruct c as [Size| | |]; try contradiction.
    apply RunCall_Allocate in E1. destruct E1 as (p & _ & E1).
    apply Allocate_LiteStart in E1; [|exact L]. destruct E1 as [L1 Hle].
    apply IH in E2; [|now left|exact HA']. destruct E2 as [L' Hle'].
    split; [exact L' | lia].
Qed.

Lemma Callable_LiteStart st : Callable st -> LiteStart st.
Proof. intros [W | E]; [left; now apply WF_Lite | now right]. Qed.

Lemma RunAllocs_spec Config self fuel cs : forall st ps st',
  Callable st -> Forall IsAllocate cs -> Forall ValidCall cs ->
  RunCalls Config self fuel st cs = Ret (ps, st') ->
  NumSuperPages st' 0 <= kMaxSuperPages ->
  (forall a, Live st a -> Live st' a) /\
  (forall p, In p ps ->
     Live st' (Untag Config p) /\ ~ Live st (Untag Config p)) /\
  NoDup (map (Untag Config) ps).
Proof.
  induction cs as [|c cs IH]; intros st ps st' C HA HV H Hcap.
  - apply Ret_inj in H. inversion H; subst.
    split; [auto|split; [contradiction|constructor]].
  - apply RunCalls_cons in H. destruct H as (r & st1 & rs & E1 & E2 & ->).
    inversion HA as [|? ? Hc HA']; subst.
    inversion HV as [|? ? Hv HV']; subst.
    destruct c as [Size| | |]; try contradiction. cbn [ValidCall] in Hv.
    apply RunCall_Allocate in E1. destruct E1 as (p & -> & E1).
    destruct (Allocate_LiteStart _ _ _ _ _ _ _ (Callable_LiteStart _ C) E1)
      as [L1 _].
    destruct (RunAllocs_lite _ _ _ _ _ _ _ (or_introl L1) HA' E2) as [_ Hle].
    apply Allocate_Callable in E1; try assumption; try lia.
    pose proof E1 as (W1 & _).
    destruct (IH st1 rs st' (or_introl W1) HA' HV' E2 Hcap) as (Hm & Hn & Hd).
    split; [|split].
    + intros a La. apply Hm. now apply (AllocPost_Live_mono st st1 _ a E1).
    + intros q [<- | Hq].
      * split; [apply Hm; now apply AllocPost_Live in E1
               |now apply AllocPost_fresh in E1].
      * destruct (Hn q Hq) as [Lq Nq]. split; [exact Lq|].
        intros La. apply Nq. now apply (AllocPost_Live_mono st st1 _ _ E1).
    + cbn [map]. constructor; [|exact Hd].
      intros Hin. apply in_map_iff in Hin. destruct Hin as (q & Eq & Hq).
      destruct (Hn q Hq) as [_ Nq]. apply Nq. rewrite Eq.
      now apply AllocPost_Live in E1.
Qed.


Lemma returns_Ret (o : outcome (list Z * AllocatorState)) :
  returns o = true -> o = Ret (returned o, final_state o).
Proof. destruct o as [[ps st]| |]; cbn; intros H; now try discriminate. Qed.


(** ** State bytes reached from arbitrary addresses *)

(** The state byte [ComputeStatePtr] arrives at from an aligned address of
    the allocator space that is not a created super page is no state byte
    of a created super page and no size-class byte. *)
Lemma State_of_other st This d Idx :
  WF st -> ~ ValidSP st This ->
  This mod kSuperPageSize = 0 ->
  kAllocatorSpace <= This < kAllocatorSpace + kAllocatorSize ->
  Good d -> 0 <= Idx < NumChunks d ->
  let S := SuperPage.State (NumChunks d) (RangeNum d) This + Idx in
  (forall SP i, ValidSP st SP -> 0 <= i < NumChunks (DescrOf (Memory st) SP) ->
     CellOf (Memory st) SP i <> S) /\
  (forall r idx, IsRange r -> 0 <= idx < kMaxSuperPages -> S <> kMeta r + idx).
Proof.
  intros W NV Hal Hsp G HIdx S.
  pose proof (good_meta d G) as Hmeta. pose proof (good_num d G) as Hnum.
  assert (Hcases :
    (This <= S < This + kSuperPageSize) \/
    (exists j, 0 <= j < kMaxSuperPages /\ This = SPAddr 1 j /\
               S = kSecondRangeMeta + j * 512 + Idx /\ Idx < 512) \/
    2 ^ 53 <= S).
  { destruct (good_range d G) as [E | E].
    - left. unfold S. rewrite State_range0 by assumption. consts. lia.
    - right. destruct (good_range1 d G E) as [H512 _].
      destruct (Z_lt_le_dec This (kFirstSuperPage 1)) as [Hlo | Hhi].
      + right. unfold S, SuperPage.State, Shadow_GetShadowPtr. rewrite E.
        change (1 =? 1) with true. cbv iota.
        cbn [kShadowBeg kBeg kGranularity SecondRangeMeta]. consts.
        change (2 ^ 53) with 9007199254740992.
        assert (E64 : u64 (This - 106102872080384)
                      = This - 106102872080384 + 18446744073709551616).
        { unfold u64. change (2 ^ 64) with 18446744073709551616.
          symmetry. apply Z.mod_unique with (q := -1); lia. }
        rewrite E64.
        assert (18014398509481984 - 536870912 <=
                (This - 106102872080384 + 18446744073709551616) / 1024
                < 18014398509481984) by (Z.div_mod_to_equations; lia).
        rewrite u64_small by (consts; lia). lia.
      + left. exists ((This - kFirstSuperPage 1) / kSuperPageSize).
        assert (Hj : 0 <= (This - kFirstSuperPage 1) / kSuperPageSize
                     < kMaxSuperPages)
          by (consts; Z.div_mod_to_equations; lia).
        assert (EThis : This = SPAddr 1 ((This - kFirstSuperPage 1) / kSuperPageSize))
          by (unfold SPAddr; consts; Z.div_mod_to_equations; lia).
        split; [exact Hj|split; [exact EThis|split; [|lia]]].
        unfold S. rewrite EThis at 1. rewrite State_range1 by assumption.
        reflexivity. }
  split.
  - intros SP i V Hi Ec.
    destruct (ValidSP_range st SP W V) as (HalSP & HspSP & GSP & _).
    pose proof (chunk_offset_range _ i GSP Hi) as (Ho & Ho1 & _).
    pose proof (good_size _ GSP) as Hsz.
    assert (Hne : SP <> This) by (intros ->; contradiction).
    destruct (CellOf_place st SP i W V Hi)
      as [(E0 & Hc) | (E1 & idx & Hidx & ESP & Hc & Hi5)]; cbv zeta in *.
    + rewrite Ec in Hc.
      destruct Hcases as [HS | [(j & Hj & _ & ES & _) | HS]].
      * consts. Z.div_mod_to_equations. lia.
      * rewrite ES in Hc. consts. lia.
      * change (2 ^ 53) with 9007199254740992 in HS. consts. lia.
    + rewrite Ec in Hc.
      destruct Hcases as [HS | [(j & Hj & EThis & ES & Hj5) | HS]].
      * consts. lia.
      * apply Hne. rewrite ESP, EThis. f_equal. lia.
      * change (2 ^ 53) with 9007199254740992 in HS. consts. lia.
  - intros r idx Hr Hidx Em.
    destruct Hcases as [HS | [(j & Hj & _ & ES & _) | HS]].
    + destruct Hr as [-> | ->]; consts; lia.
    + destruct Hr as [-> | ->]; consts; lia.
    + change (2 ^ 53) with 9007199254740992 in HS.
      destruct Hr as [-> | ->]; consts; lia.
Qed.

(** ** ComputeStatePtr *)

Lemma ComputeStatePtr_inv sc Ptr This S :
  SuperPage.ComputeStatePtr Ptr (SCDescrAt SCDescrTable sc) This = Ret S ->
  let d := SCDescrAt SCDescrTable sc in
  exists Idx, Good d /\ 0 <= Idx < NumChunks d /\
              Ptr mod kSuperPageSize = Idx * ChunkSize d /\
              S = SuperPage.State (NumChunks d) (RangeNum d) This + Idx.
Proof.
  intros H d. fold d in H. unfold SuperPage.ComputeStatePtr in H.
  apply trap_if_Ret in H. destruct H as [E1 H].
  apply trap_if_Ret in H. destruct H as [E2 H].
  apply Ret_inj in H. apply negb_false_iff in E1. apply Z.eqb_eq in E1.
  apply Z.leb_gt in E2.
  pose proof (Z.mod_pos_bound Ptr kSuperPageSize ltac:(consts; lia)) as Ho.
  set (Offset := Ptr mod kSuperPageSize) in *.
  destruct (SCDescrAt_cases sc) as [G | E0]; fold d in G || fold d in E0.
  - pose proof (good_div d G Offset ltac:(consts; lia)) as Ed.
    pose proof (good_size d G) as Hsz.
    set (Idx := DivBySizeViaMul Offset (ChunkSizeMulDiv d)) in *.
    assert (HI : 0 <= Idx * ChunkSize d <= Offset).
    { rewrite Ed. split; [apply Z.mul_nonneg_nonneg; [apply Z.div_pos|]; lia|].
      rewrite Z.mul_comm. apply Z.mul_div_le. lia. }
    rewrite u64_small in E1 by (consts; lia).
    exists Idx. split; [exact G|]. split; [|split; [now symmetry|now symmetry]].
    split; [rewrite Ed; apply Z.div_pos; lia | exact E2].
  - rewrite E0 in E2. cbn [NumChunks SCD0] in E2.
    pose proof (u32_range (Z.shiftr (u64 (u32 Offset * u32 (ChunkSizeMulDiv d)))
                             kDivMulShift)) as Hr.
    unfold DivBySizeViaMul in E2. rewrite E0 in *. lia.
Qed.

Lemma ComputeStatePtr_chunk d Ptr This i :
  Good d -> 0 <= i < NumChunks d ->
  Ptr mod kSuperPageSize = i * ChunkSize d ->
  SuperPage.ComputeStatePtr Ptr d This
  = Ret (SuperPage.State (NumChunks d) (RangeNum d) This + i).
Proof.
  intros G Hi Ho. unfold SuperPage.ComputeStatePtr. rewrite Ho.
  pose proof (chunk_offset_range d i G Hi) as (H0 & H1 & H2).
  pose proof (good_size d G) as Hsz. pose proof (good_meta d G) as Hm.
  assert (Hb : 0 <= i * ChunkSize d < 524288).
  { unfold SizeOfInlineMeta in H2. destruct (RangeNum d =? 1);
      [|unfold SizeOfInlineMeta in Hm; cbn [Z.eqb] in Hm]; lia. }
  rewrite (good_div d G _ Hb). rewrite Z.div_mul by lia.
  rewrite u64_small by (consts; lia). rewrite Z.eqb_refl. cbn [negb trap_if].
  destruct (Z.leb_spec (NumChunks d) i); [lia | reflexivity].
Qed.

(** ** Memory tags of chunks *)

Lemma GetMemoryTag_ok Config m a :
  kAllocatorSpace <= a < kAllocatorSpace + kAllocatorSize ->
  exists t, GetMemoryTag Config m a = Ret t.
Proof.
  intros Ha. unfold GetMemoryTag.
  destruct (UseShadow Config); cbn [negb]; [|now exists 0].
  unfold Shadow_IsMine. cbn [kBeg kSize SmallShadow LargeShadow].
  consts. change (1099511627776 / 2) with 549755813888.
  destruct (Z.leb_spec 105553116266496 a); [|lia].
  destruct (Z.ltb_spec a (105553116266496 + 549755813888)); cbn [andb].
  - eexists; reflexivity.
  - destruct (Z.leb_spec (105553116266496 + 549755813888) a); [|lia].
    destruct (Z.ltb_spec a (105553116266496 + 549755813888 + 549755813888));
      [|lia].
    cbn [andb]. eexists; reflexivity.
Qed.

Lemma SetMemoryTag_ok Config m a Size T :
  kAllocatorSpace <= a < kAllocatorSpace + kAllocatorSize ->
  (a < kFirstSuperPage 1 -> a mod 16 = 0 /\ Size mod 16 = 0) ->
  (kFirstSuperPage 1 <= a -> a mod 1024 = 0 /\ Size mod 1024 = 0) ->
  exists m', SetMemoryTag Config m a Size T = Ret m'.
Proof.
  intros Ha H1 H2. unfold SetMemoryTag.
  destruct (UseShadow Config); cbn [negb]; [|now exists m].
  unfold Shadow_IsMine, Shadow_SetRange, Shadow_Check.
  cbn [kBeg kSize kGranularity SmallShadow LargeShadow].
  consts. change (1099511627776 / 2) with 549755813888.
  change (105553116266496 + 549755813888) with 106102872080384 in *.
  destruct (Z.leb_spec 105553116266496 a); [|lia].
  destruct (Z.ltb_spec a 106102872080384); cbn [andb].
  - destruct (H1 ltac:(lia)) as [-> ->]. cbn. eexists; reflexivity.
  - destruct (Z.leb_spec 106102872080384 a); [|lia].
    destruct (Z.ltb_spec a (106102872080384 + 549755813888)); [|lia].
    cbn [andb]. destruct (H2 ltac:(lia)) as [-> ->]. cbn.
    eexists; reflexivity.
Qed.

Lemma UpdateMemoryTagOnFree_ok Config m a Size :
  kAllocatorSpace <= a < kAllocatorSpace + kAllocatorSize ->
  (a < kFirstSuperPage 1 -> a mod 16 = 0 /\ Size mod 16 = 0) ->
  (kFirstSuperPage 1 <= a -> a mod 1024 = 0 /\ Size mod 1024 = 0) ->
  exists T m', SuperPage.UpdateMemoryTagOnFree Config m a Size = Ret (T, m').
Proof.
  intros Ha H1 H2. unfold SuperPage.UpdateMemoryTagOnFree.
  destruct (UseShadow Config) eqn:EU; cbn [negb]; [|now exists 0, m].
  destruct (GetMemoryTag_ok Config m a Ha) as (t & ->). cbn [bind].
  destruct (SetMemoryTag_ok Config m a Size (u8 (t + 1)) Ha H1 H2) as (m' & ->).
  cbn [bind]. now eexists; eexists.
Qed.

(** Chunks are aligned as the tag shadow of their half asks. *)
Lemma IsChunk_tag_alignment st a SP i :
  WF st -> IsChunk st a SP i ->
  let CS := ChunkSize (DescrOf (Memory st) SP) in
  (a < kFirstSuperPage 1 -> a mod 16 = 0 /\ CS mod 16 = 0) /\
  (kFirstSuperPage 1 <= a -> a mod 1024 = 0 /\ CS mod 1024 = 0).
Proof.
  intros W IC CS.
  destruct (IsChunk_range st a SP i W IC) as (Hlo & Hhi & H16 & Hin & _ & Hoff).
  pose proof IC as (V & Hi & Ea).
  destruct (ValidSP_range st SP W V)
    as (Hal & Hsp & G & r & idx & Hr & Hidx & Hk & ESP & ER).
  pose proof (good_size16 _ G) as HCS. pose proof (good_size _ G) as Hsz.
  fold CS in Hhi, HCS, Hsz, Ea. split; [now intros _|].
  intros Ha.
  assert (E1 : r = 1).
  { destruct Hr as [-> | ->]; [|reflexivity]. exfalso.
    unfold SPAddr in ESP. consts. lia. }
  rewrite E1 in *. destruct (good_range1 _ G ER) as [_ H1024]. fold CS in H1024.
  split; [|exact H1024].
  rewrite Ea, ESP. unfold SPAddr. consts.
  rewrite Z.add_mod, (Z.mul_mod i) by lia. rewrite H1024, Z.mul_0_r.
  replace ((106102872080384 + idx * 524288) mod 1024) with 0
    by (Z.div_mod_to_equations; lia).
  reflexivity.
Qed.

(** ** Deallocate and Quarantine *)

Lemma ValidSP_dec st This :
  WF st -> This mod kSuperPageSize = 0 ->
  kAllocatorSpace <= This < kAllocatorSpace + kAllocatorSize ->
  ValidSP st This \/ ~ ValidSP st This.
Proof.
  intros W Hal Hsp.
  set (r := if This <? kFirstSuperPage 1 then 0 else 1).
  set (idx := (This - kFirstSuperPage r) / kSuperPageSize).
  assert (Hr : IsRange r) by (unfold r; destruct (_ <? _); [left|right]; reflexivity).
  assert (E : This = SPAddr r idx /\ 0 <= idx < kMaxSuperPages).
  { unfold idx, r, SPAddr. destruct (Z.ltb_spec This (kFirstSuperPage 1));
      consts; Z.div_mod_to_equations; lia. }
  destruct E as [E Hidx].
  destruct (Z_lt_le_dec idx (NumSuperPages st r)) as [Hlt | Hge].
  - left. exists r, idx. repeat split; try assumption; lia.
  - right. intros (r' & idx' & Hr' & Hidx' & E').
    pose proof (wf_num _ W r' Hr').
    rewrite E in E'. apply SPAddr_inj in E'; try assumption; try lia.
    destruct E' as [-> ->]. lia.
Qed.

Lemma GetSCD_inv tbl m This SCD :
  SuperPage.GetSCD tbl m This = Ret SCD ->
  kAllocatorSpace <= This < kAllocatorSpace + kAllocatorSize /\
  SCD = SCDescrAt tbl (ClassOf m This).
Proof.
  intros H. unfold SuperPage.GetSCD, GetSizeClass in H.
  apply bind_Ret in H. destruct H as (sc & E & H).
  apply trap_if_Ret in E. destruct E as [EM E].
  apply Ret_inj in E. apply Ret_inj in H. subst. split; [|reflexivity].
  apply negb_false_iff in EM. unfold Shadow_IsMine in EM.
  apply andb_prop in EM. destruct EM as [A B].
  apply Z.leb_le in A. apply Z.ltb_lt in B.
  cbn [kBeg kSize SuperPageMetadata] in *. lia.
Qed.

Lemma GetSCD_ok tbl m This :
  kAllocatorSpace <= This < kAllocatorSpace + kAllocatorSize ->
  SuperPage.GetSCD tbl m This = Ret (SCDescrAt tbl (ClassOf m This)).
Proof.
  intros H. unfold SuperPage.GetSCD, GetSizeClass, Shadow_IsMine.
  cbn [kBeg kSize SuperPageMetadata].
  destruct (Z.leb_spec kAllocatorSpace This); [|lia].
  destruct (Z.ltb_spec This (kAllocatorSpace + kAllocatorSize)); [|lia].
  reflexivity.
Qed.

Lemma Exchange_inv m S NV m' :
  SuperPage.ExchangeAndCheckForDoubleFree m S NV = Ret m' ->
  IsUsed (Load8 m S) /\ m' = Store8 m S NV.
Proof.
  unfold SuperPage.ExchangeAndCheckForDoubleFree, IsUsed. intros H.
  destruct (Z.eqb_spec (Load8 m S) USED_MIXED);
    destruct (Z.eqb_spec (Load8 m S) USED_DATA); cbn [negb andb] in H;
    try discriminate; apply Ret_inj in H; subst; tauto.
Qed.

Lemma Exchange_fatal m S NV :
  ~ IsUsed (Load8 m S) ->
  SuperPage.ExchangeAndCheckForDoubleFree m S NV = Fatal F_DoubleFree.
Proof.
  unfold SuperPage.ExchangeAndCheckForDoubleFree, IsUsed. intros H.
  destruct (Z.eqb_spec (Load8 m S) USED_MIXED);
    destruct (Z.eqb_spec (Load8 m S) USED_DATA); cbn [negb andb];
    tauto.
Qed.

(** The common part of [SuperPage::Deallocate] and [SuperPage::Quarantine]
    when it goes through: the state byte of the chunk, which was in a used
    state, is set to the new value, and nothing else that matters
    changes. *)
Lemma free_core Config st P SCD S T m1 NV m2 st' :
  WF st ->
  let This := RoundDownTo P kSuperPageSize in
  SuperPage.GetSCD (SCDescr st) (Memory st) This = Ret SCD ->
  SuperPage.ComputeStatePtr P SCD This = Ret S ->
  SuperPage.UpdateMemoryTagOnFree Config (Memory st) P (ChunkSize SCD)
    = Ret (T, m1) ->
  SuperPage.ExchangeAndCheckForDoubleFree m1 S NV = Ret m2 ->
  Memory st' = m2 -> SCDescr st' = SCDescr st ->
  InitAllOnce st' = InitAllOnce st ->
  NumSuperPages st' = NumSuperPages st ->
  TLS_PerSC_SP st' = TLS_PerSC_SP st ->
  FreePost st st' P (u8 NV).
Proof.
  intros W This EG EC EU EX Em Et Eo En Ep.
  rewrite (wf_tbl _ W) in EG. apply GetSCD_inv in EG. destruct EG as [Hsp ->].
  fold (DescrOf (Memory st) This) in *.
  apply ComputeStatePtr_inv in EC. cbv zeta in EC.
  fold (DescrOf (Memory st) This) in EC.
  destruct EC as (Idx & G & HIdx & Hoff & ES).
  apply Exchange_inv in EX. destruct EX as [HU ->].
  assert (Hal : This mod kSuperPageSize = 0 /\ P = This + Idx * ChunkSize (DescrOf (Memory st) This)).
  { unfold This in *. change kSuperPageSize with (2 ^ 19) in *.
    rewrite RoundDownTo_pow2 in * by lia. change (2 ^ 19) with 524288 in *.
    rewrite <- Hoff. split; Z.div_mod_to_equations; lia. }
  destruct Hal as [Hal EP].
  assert (Hframe : forall x, kAllocatorSpace <= x -> Load8 m1 x = Load8 (Memory st) x).
  { intros x Hx. eapply UpdateMemoryTagOnFree_frame; [exact EU| |exact Hx].
    pose proof (good_size _ G). change (2 ^ 30) with 1073741824. lia. }
  assert (Hmeta : forall r idx, IsRange r -> 0 <= idx < kMaxSuperPages ->
                    S <> kMeta r + idx).
  { destruct (ValidSP_dec st This W Hal Hsp) as [V | NoV].
    - intros r idx Hr Hidx. rewrite ES.
      apply (CellOf_not_meta st This Idx r idx W V HIdx Hr Hidx).
    - rewrite ES. apply (State_of_other st This _ Idx W NoV Hal Hsp G HIdx). }
  assert (Hcells : forall SP i, ValidSP st SP ->
            0 <= i < NumChunks (DescrOf (Memory st) SP) ->
            CellOf (Memory st) SP i = S -> SP = This /\ i = Idx).
  { intros SP i V Hi Ecell.
    destruct (ValidSP_dec st This W Hal Hsp) as [VT | NoV].
    - apply (CellOf_inj st SP i This Idx W V VT Hi HIdx). now rewrite Ecell, ES.
    - exfalso. revert Ecell. rewrite ES.
      apply (State_of_other st This _ Idx W NoV Hal Hsp G HIdx); assumption. }
  assert (HC : forall SP, ValidSP st SP ->
                 ClassOf (Memory st') SP = ClassOf (Memory st) SP).
  { intros SP V.
    destruct (ValidSP_range st SP W V) as (_ & _ & _ & r & idx & Hr & Hidx & Hk & -> & _).
    rewrite !ClassOf_SPAddr by (try assumption; lia). rewrite Em.
    rewrite Load8_Store8_other
      by (intros E; symmetry in E; revert E; apply Hmeta; [assumption|lia]).
    apply Hframe. destruct Hr as [-> | ->]; consts; lia. }
  split; [now apply (WF_update st st' W)|]. split; [|split; [exact En|]].
  - constructor.
    + intros r _. rewrite En. lia.
    + exact HC.
    + intros SP i V Hi Hne. rewrite Em.
      rewrite Load8_Store8_other.
      * apply Hframe.
        apply (CellOf_not_meta st SP i 0 0 W V Hi); [now left|consts; lia].
      * intros Ecell. apply Hne.
        destruct (Hcells SP i V Hi Ecell) as [-> ->]. exact EP.
  - intros SP i IC.
    destruct (IsChunk_range st P SP i W IC) as (_ & _ & _ & _ & ERD & _).
    fold This in ERD. subst SP.
    pose proof IC as (V & Hi & Ea).
    assert (i = Idx).
    { pose proof (good_size _ G). rewrite EP in Ea. nia. }
    subst i. fold (CellOf (Memory st) This Idx) in ES. rewrite <- ES.
    assert (HS : kAllocatorSpace <= S)
      by (rewrite ES; apply (CellOf_not_meta st This Idx 0 0 W V HIdx);
          [now left|consts; lia]).
    split.
    + rewrite <- (Hframe S HS). exact HU.
    + rewrite Em. apply Load8_Store8_same.
Qed.

Lemma RemoveAddressTag_inv Config m Ptr P :
  Allocator.RemoveAddressTagAndCheckForDoubleFree Config m Ptr = Ret P ->
  P = Untag Config Ptr.
Proof.
  intros H. unfold Allocator.RemoveAddressTagAndCheckForDoubleFree in H.
  apply bind_Ret in H. destruct H as (t & _ & H).
  destruct (_ && _) in H; [discriminate|]. apply Ret_inj in H. now subst.
Qed.

Lemma Deallocate_spec Config st Ptr st' :
  WF st -> Allocator.Deallocate Config st Ptr = Ret st' ->
  FreePost st st' (Untag Config Ptr) AVAILABLE.
Proof.
  intros W H. unfold Allocator.Deallocate in H.
  apply bind_Ret in H. destruct H as (P & ER & H).
  apply RemoveAddressTag_inv in ER. subst P.
  apply trap_if_Ret in H. destruct H as [_ H].
  apply trap_if_Ret in H. destruct H as [_ H].
  apply bind_Ret in H. destruct H as (m & ED & H).
  apply Ret_inj in H. subst st'.
  unfold SuperPage.Deallocate in ED.
  apply bind_Ret in ED. destruct ED as (SCD & EG & ED).
  apply bind_Ret in ED. destruct ED as (S & EC & ED).
  apply bind_Ret in ED. destruct ED as ([T m1] & EU & EX).
  change AVAILABLE with (u8 AVAILABLE).
  eapply (free_core Config st); try eassumption; reflexivity.
Qed.

Lemma QuarantineNewValue_cases Config NewTag :
  SuperPage.QuarantineNewValue Config NewTag = AVAILABLE \/
  SuperPage.QuarantineNewValue Config NewTag = QUARANTINED.
Proof.
  unfold SuperPage.QuarantineNewValue.
  repeat match goal with
         | |- context [if ?c then _ else _] => destruct c
         end; tauto.
Qed.

Lemma A2SP_inv a SP : A2SP a = Ret SP -> SP = a.
Proof.
  intros H. unfold A2SP in H.
  apply trap_if_Ret in H. destruct H as [_ H].
  apply trap_if_Ret in H. destruct H as [_ H].
  apply trap_if_Ret in H. destruct H as [_ H].
  apply Ret_inj in H. now subst.
Qed.

Lemma UpdateMemoryTagOnFree_no_shadow Config m P Size T m' :
  UseShadow Config = false ->
  SuperPage.UpdateMemoryTagOnFree Config m P Size = Ret (T, m') -> T = 0.
Proof.
  intros E H. unfold SuperPage.UpdateMemoryTagOnFree in H. rewrite E in H.
  apply Ret_inj in H. now inversion H.
Qed.

Lemma Quarantine_spec Config st Ptr st' :
  WF st -> Allocator.Quarantine Config st Ptr = Ret st' ->
  exists T,
    FreePost st st' (Untag Config Ptr) (SuperPage.QuarantineNewValue Config T) /\
    (UseShadow Config = false -> T = 0).
Proof.
  intros W H. unfold Allocator.Quarantine in H.
  apply bind_Ret in H. destruct H as (P & ER & H).
  apply RemoveAddressTag_inv in ER. subst P.
  apply trap_if_Ret in H. destruct H as [_ H].
  apply trap_if_Ret in H. destruct H as [_ H].
  apply bind_Ret in H. destruct H as (SP & EA & H).
  apply A2SP_inv in EA. subst SP.
  apply bind_Ret in H. destruct H as ([Sz m] & EQ & H).
  apply Ret_inj in H. subst st'.
  unfold SuperPage.Quarantine in EQ.
  apply bind_Ret in EQ. destruct EQ as (SCD & EG & EQ).
  apply bind_Ret in EQ. destruct EQ as (S & EC & EQ).
  apply bind_Ret in EQ. destruct EQ as ([T m1] & EU & EQ).
  apply bind_Ret in EQ. destruct EQ as (m2 & EX & EQ).
  assert (m = m2).
  { destruct (SuperPage.QuarantineNewValue Config T =? AVAILABLE) in EQ;
      apply Ret_inj in EQ; now inversion EQ. }
  subst m2. exists T. split.
  - replace (SuperPage.QuarantineNewValue Config T)
      with (u8 (SuperPage.QuarantineNewValue Config T))
      by (destruct (QuarantineNewValue_cases Config T) as [-> | ->]; reflexivity).
    eapply (free_core Config st); try eassumption; reflexivity.
  - intros E. eapply UpdateMemoryTagOnFree_no_shadow; eassumption.
Qed.

Lemma A2SP_ok SP :
  SP mod kSuperPageSize = 0 ->
  kAllocatorSpace <= SP < kAllocatorSpace + kAllocatorSize ->
  A2SP SP = Ret SP.
Proof.
  intros Hal Hsp. unfold A2SP.
  destruct (Z.ltb_spec SP kAllocatorSpace); [lia|].
  destruct (Z.leb_spec (kAllocatorSpace + kAllocatorSize) SP); [lia|].
  rewrite Hal. reflexivity.
Qed.

(** The part of a free that comes after the tag check, on a chunk whose
    state byte is not a used one. *)
Lemma free_path_fatal Config st a SP i :
  WF st -> IsChunk st a SP i ->
  ~ IsUsed (Load8 (Memory st) (CellOf (Memory st) SP i)) ->
  RoundDownTo a kSuperPageSize = SP /\
  (SP <? kAllocatorSpace) = false /\
  (kAllocatorSpace + kAllocatorSize <=? SP) = false /\
  A2SP SP = Ret SP /\
  SuperPage.Deallocate Config (SCDescr st) (Memory st) a SP
    = Fatal F_DoubleFree /\
  SuperPage.Quarantine Config (SCDescr st) (Memory st) a SP
    = Fatal F_DoubleFree.
Proof.
  intros W IC HU.
  destruct (IsChunk_range st a SP i W IC) as (_ & _ & _ & Hin & ERD & Hoff).
  destruct (IsChunk_tag_alignment st a SP i W IC) as [T1 T2].
  pose proof IC as (V & Hi & Ea).
  destruct (ValidSP_range st SP W V) as (Hal & Hsp & G & _).
  destruct (UpdateMemoryTagOnFree_ok Config (Memory st) a
              (ChunkSize (DescrOf (Memory st) SP)) Hin T1 T2) as (T & m1 & EU).
  assert (EX : forall NV,
            SuperPage.ExchangeAndCheckForDoubleFree m1
              (CellOf (Memory st) SP i) NV = Fatal F_DoubleFree).
  { intros NV. apply Exchange_fatal.
    rewrite (UpdateMemoryTagOnFree_frame _ _ _ _ _ _ _ EU).
    - exact HU.
    - pose proof (good_size _ G). change (2 ^ 30) with 1073741824. lia.
    - apply (CellOf_not_meta st SP i 0 0 W V Hi); [now left|consts; lia]. }
  split; [exact ERD|]. split; [apply Z.ltb_ge; lia|].
  split; [apply Z.leb_gt; lia|]. split; [now apply A2SP_ok|].
  unfold SuperPage.Deallocate, SuperPage.Quarantine.
  rewrite (wf_tbl _ W), GetSCD_ok by assumption. cbn [bind].
  fold (DescrOf (Memory st) SP).
  rewrite (ComputeStatePtr_chunk _ a SP i G Hi Hoff). cbn [bind].
  fold (CellOf (Memory st) SP i). rewrite EU. cbn [bind].
  rewrite !EX. split; reflexivity.
Qed.

(** A free of a chunk whose state byte is not a used one stops the
    process, at the tag check or at the exchange of the state byte. *)
Lemma double_free_fatal Config st Ptr SP i :
  WF st -> IsChunk st (Untag Config Ptr) SP i ->
  ~ IsUsed (Load8 (Memory st) (CellOf (Memory st) SP i)) ->
  IsDoubleFreeTrap (Allocator.Deallocate Config st Ptr) /\
  IsDoubleFreeTrap (Allocator.Quarantine Config st Ptr).
Proof.
  intros W IC HU.
  destruct (free_path_fatal Config st _ SP i W IC HU)
    as (ERD & E1 & E2 & EA & ED & EQ).
  destruct (IsChunk_range st _ SP i W IC) as (_ & _ & _ & Hin & _).
  destruct (GetMemoryTag_ok Config (Memory st) _ Hin) as (t & Et).
  unfold IsDoubleFreeTrap, Allocator.Deallocate, Allocator.Quarantine,
    Allocator.RemoveAddressTagAndCheckForDoubleFree.
  fold (Untag Config Ptr). rewrite Et. cbn [bind].
  destruct (UseShadow Config && UseAliases Config && _); cbn [bind];
    [split; right; reflexivity|].
  rewrite ERD, E1, E2. cbn [trap_if]. rewrite EA, ED. cbn [bind].
  rewrite EQ. cbn [bind]. split; left; reflexivity.
Qed.

(** ** Frees keep the super page counts *)

Lemma Deallocate_lite Config st Ptr st' :
  Lite st -> Allocator.Deallocate Config st Ptr = Ret st' ->
  Lite st' /\ NumSuperPages st' 0 = NumSuperPages st 0.
Proof.
  intros L H. unfold Allocator.Deallocate in H.
  apply bind_Ret in H. destruct H as (P & _ & H).
  apply trap_if_Ret in H. destruct H as [_ H].
  apply trap_if_Ret in H. destruct H as [_ H].
  apply bind_Ret in H. destruct H as (m & _ & H).
  apply Ret_inj in H. subst st'. split; [exact L|reflexivity].
Qed.

Lemma Quarantine_lite Config st Ptr st' :
  Lite st -> Allocator.Quarantine Config st Ptr = Ret st' ->
  Lite st' /\ NumSuperPages st' 0 = NumSuperPages st 0.
Proof.
  intros L H. unfold Allocator.Quarantine in H.
  apply bind_Ret in H. destruct H as (P & _ & H).
  apply trap_if_Ret in H. destruct H as [_ H].
  apply trap_if_Ret in H. destruct H as [_ H].
  apply bind_Ret in H. destruct H as (SP & _ & H).
  apply bind_Ret in H. destruct H as ([Sz m] & _ & H).
  apply Ret_inj in H. subst st'. split; [exact L|reflexivity].
Qed.

(** ** Scan keeps the super page counts *)

Lemma ScanRange_fields r N NSP fuel : forall st d st',
  Allocator.ScanRange fuel r N NSP st = Ret (d, st') ->
  SCDescr st' = SCDescr st /\ InitAllOnce st' = InitAllOnce st /\
  NumSuperPages st' = NumSuperPages st /\ TLS_PerSC_SP st' = TLS_PerSC_SP st.
Proof.
  induction fuel as [|fuel IH]; intros st d st' H;
    cbn [Allocator.ScanRange] in H; [discriminate|].
  destruct (N <=? ScanPos st r).
  - apply Ret_inj in H. inversion H; subst. st_simpl. tauto.
  - apply bind_Ret in H. destruct H as (m & _ & H).
    apply bind_Ret in H. destruct H as ([d1 st1] & E & H).
    apply Ret_inj in H. inversion H; subst. apply IH in E. st_simpl. exact E.
Qed.

Lemma Scan_fields st st' :
  Allocator.Scan st = Ret st' ->
  SCDescr st' = SCDescr st /\ InitAllOnce st' = InitAllOnce st /\
  NumSuperPages st' = NumSuperPages st /\ TLS_PerSC_SP st' = TLS_PerSC_SP st.
Proof.
  intros H. unfold Allocator.Scan in H.
  apply bind_Ret in H. destruct H as ([d st1] & EL & H).
  apply bind_Ret in H. destruct H as ([B st2] & EP & H).
  apply Ret_inj in H. subst st'.
  unfold Allocator.ScanLoop in EL.
  apply bind_Ret in EL. destruct EL as ([d0 sa] & E0 & EL).
  apply bind_Ret in EL. destruct EL as ([d1 sb] & E1 & EL).
  apply Ret_inj in EL. inversion EL; subst d st1; clear EL.
  apply ScanRange_fields in E0. apply ScanRange_fields in E1.
  unfold Allocator.PostScan in EP.
  apply bind_Ret in EP. destruct EP as ([B0 m0] & _ & EP).
  apply bind_Ret in EP. destruct EP as ([B1 m1] & _ & EP).
  apply Ret_inj in EP. inversion EP; subst B st2; clear EP.
  st_simpl. destruct E0 as (A0 & B0' & C0 & D0), E1 as (A1 & B1' & C1 & D1).
  rewrite A1, B1', C1, D1. tauto.
Qed.

Lemma RunCall_lite Config self fuel st c r st' :
  Lite st -> RunCall Config self fuel st c = Ret (r, st') ->
  Lite st' /\ NumSuperPages st 0 <= NumSuperPages st' 0.
Proof.
  intros L H. destruct c as [Size | Ptr | Ptr |]; cbn [RunCall] in H.
  - apply bind_Ret in H. destruct H as ([p s] & E & H).
    apply Ret_inj in H. inversion H; subst.
    now apply Allocate_lite in E.
  - apply bind_Ret in H. destruct H as (s & E & H).
    apply Ret_inj in H. inversion H; subst.
    apply Deallocate_lite in E; [|exact L]. destruct E as [L' E]. split; [exact L'|lia].
  - apply bind_Ret in H. destruct H as (s & E & H).
    apply Ret_inj in H. inversion H; subst.
    apply Quarantine_lite in E; [|exact L]. destruct E as [L' E]. split; [exact L'|lia].
  - apply bind_Ret in H. destruct H as (s & E & H).
    apply Ret_inj in H. inversion H; subst.
    apply Scan_fields in E. destruct E as (A & B & C & _).
    destruct L as (L1 & L2 & L3). unfold Lite. rewrite A, B, C.
    split; [tauto|lia].
Qed.

Lemma RunCalls_lite Config self fuel cs : forall st ps st',
  Lite st -> RunCalls Config self fuel st cs = Ret (ps, st') ->
  Lite st' /\ NumSuperPages st 0 <= NumSuperPages st' 0.
Proof.
  induction cs as [|c cs IH]; intros st ps st' L H.
  - apply Ret_inj in H. inversion H; subst. split; [exact L | lia].
  - apply RunCalls_cons in H. destruct H as (r & st1 & rs & E1 & E2 & _).
    apply RunCall_lite in E1; [|exact L]. destruct E1 as [L1 Hle].
    apply IH in E2; [|exact L1]. destruct E2 as [L' Hle'].
    split; [exact L' | lia].
Qed.

(** ** What one call does to the state bytes *)

(** A call other than [Scan] changes the state byte of at most the chunk
    [e]: the chunk it returns, whose state byte was [AVAILABLE], or the
    chunk it frees, which was in a used state. *)
Lemma RunCall_touch Config self fuel st c r st' :
  WF st -> ValidCall c -> ~ IsScan c ->
  RunCall Config self fuel st c = Ret (r, st') ->
  NumSuperPages st' 0 <= kMaxSuperPages ->
  exists e, WF st' /\ Preserves (eq e) st st' /\
    (forall p, r = Some p -> e = Untag Config p) /\
    (forall SP i, IsChunk st e SP i ->
       match r with
       | Some _ => Load8 (Memory st) (CellOf (Memory st) SP i) = AVAILABLE
       | None => IsUsed (Load8 (Memory st) (CellOf (Memory st) SP i))
       end).
Proof.
  intros W HV HS H Hcap. destruct c as [Size | Ptr | Ptr |]; cbn [RunCall] in H.
  - apply bind_Ret in H. destruct H as ([p s] & E & H).
    apply Ret_inj in H. inversion H; subst r st'; clear H.
    cbn [ValidCall] in HV.
    apply Allocate_WF in E; try assumption; try lia.
    exists (Untag Config p). pose proof E as (W' & P & SP' & i' & IC' & _ & HA).
    split; [exact W'|split; [exact P|split]].
    + intros q Hq. now inversion Hq.
    + intros SP i IC.
      pose proof (IsChunk_Preserves _ _ _ _ _ _ P IC) as IC2.
      destruct (IsChunk_inj s _ SP i SP' i' W' IC2 IC') as [-> ->].
      apply HA. apply IC.
  - apply bind_Ret in H. destruct H as (s & E & H).
    apply Ret_inj in H. inversion H; subst r st'; clear H.
    apply Deallocate_spec in E; [|exact W].
    destruct E as (W' & P & _ & HU). exists (Untag Config Ptr).
    split; [exact W'|split; [exact P|split]].
    + discriminate.
    + intros SP i IC. now apply HU.
  - apply bind_Ret in H. destruct H as (s & E & H).
    apply Ret_inj in H. inversion H; subst r st'; clear H.
    apply Quarantine_spec in E; [|exact W].
    destruct E as (T & (W' & P & _ & HU) & _). exists (Untag Config Ptr).
    split; [exact W'|split; [exact P|split]].
    + discriminate.
    + intros SP i IC. now apply HU.
  - exfalso. now apply HS.
Qed.

(** A chunk other than [e] stays a chunk and keeps its state byte. *)
Lemma Preserves_other e st st' a SP i :
  Preserves (eq e) st st' -> e <> a -> IsChunk st a SP i ->
  IsChunk st' a SP i /\
  Load8 (Memory st') (CellOf (Memory st') SP i)
  = Load8 (Memory st) (CellOf (Memory st) SP i).
Proof.
  intros P Hne IC. split; [now apply (IsChunk_Preserves (eq e) st)|].
  pose proof IC as (V & Hi & Ea).
  rewrite (CellOf_eq _ _ SP i (pres_class _ _ _ P SP V)).
  apply (pres_cell _ _ _ P SP i V Hi). intros E. apply Hne. now rewrite Ea.
Qed.

(** ** Quarantined chunks are not handed out *)

Lemma quarantined_run Config self fuel a SP i cs : forall st ps st',
  WF st -> IsChunk st a SP i ->
  Load8 (Memory st) (CellOf (Memory st) SP i) = QUARANTINED ->
  Forall (fun c => ~ IsScan c) cs -> Forall ValidCall cs ->
  RunCalls Config self fuel st cs = Ret (ps, st') ->
  NumSuperPages st' 0 <= kMaxSuperPages ->
  (forall r, In r ps -> Untag Config r <> a) /\
  WF st' /\ IsChunk st' a SP i /\
  Load8 (Memory st') (CellOf (Memory st') SP i) = QUARANTINED.
Proof.
  induction cs as [|c cs IH]; intros st ps st' W IC HQ HS HV H Hcap.
  - apply Ret_inj in H. inversion H; subst.
    split; [intros r []|]. split; [exact W|]. split; [exact IC|exact HQ].
  - apply RunCalls_cons in H. destruct H as (r & st1 & rs & E1 & E2 & ->).
    inversion HS as [|? ? Hs HS']; subst.
    inversion HV as [|? ? Hv HV']; subst.
    destruct (RunCall_lite _ _ _ _ _ _ _ (WF_Lite _ W) E1) as [L1 _].
    destruct (RunCalls_lite _ _ _ _ _ _ _ L1 E2) as [_ Hle].
    destruct (RunCall_touch _ _ _ _ _ _ _ W Hv Hs E1 ltac:(lia))
      as (e & W1 & P & He & HT).
    assert (Hne : e <> a).
    { intros ->. specialize (HT SP i IC). rewrite HQ in HT.
      destruct r; [discriminate|destruct HT; discriminate]. }
    destruct (Preserves_other e st st1 a SP i P Hne IC) as [IC1 EQ1].
    rewrite HQ in EQ1.
    destruct (IH st1 rs st' W1 IC1 EQ1 HS' HV' E2 Hcap) as (Hrs & W' & IC' & HQ').
    split; [|tauto].
    intros q Hq. destruct r as [p|]; [|now apply Hrs].
    destruct Hq as [<- | Hq]; [|now apply Hrs].
    rewrite <- (He p eq_refl). exact Hne.
Qed.

Lemma QuarantineNewValue_no_shortcut Config T :
  UseTag Config = 0 \/ (UseShadow Config = false /\ T = 0) ->
  SuperPage.QuarantineNewValue Config T = QUARANTINED.
Proof.
  unfold SuperPage.QuarantineNewValue. intros [E | [_ ->]].
  - rewrite E. reflexivity.
  - cbn. now rewrite !andb_false_r.
Qed.


Lemma returns_state (o : outcome AllocatorState) :
  returns o = true -> o = Ret (state_of o).
Proof. destruct o; cbn; intros H; now try discriminate. Qed.

Lemma RunCalls_ZeroState Config self fuel Size cs :
  u32 self <> 0 ->
  RunCalls Config self (S fuel) ZeroState (CallAllocate Size :: cs)
  = RunCalls Config self (S fuel) (InitializedState self) (CallAllocate Size :: cs).
Proof.
  intros H. cbn [RunCalls RunCall]. now rewrite Allocate_ZeroState.
Qed.

Lemma RunCalls_noscan_WF Config self fuel cs : forall st ps st',
  WF st -> Forall (fun c => ~ IsScan c) cs -> Forall ValidCall cs ->
  RunCalls Config self fuel st cs = Ret (ps, st') ->
  NumSuperPages st' 0 <= kMaxSuperPages ->
  WF st'.
Proof.
  induction cs as [|c cs IH]; intros st ps st' W HS HV H Hcap.
  - apply Ret_inj in H. inversion H; now subst.
  - apply RunCalls_cons in H. destruct H as (r & st1 & rs & E1 & E2 & ->).
    inversion HS as [|? ? Hs HS']; subst.
    inversion HV as [|? ? Hv HV']; subst.
    destruct (RunCall_lite _ _ _ _ _ _ _ (WF_Lite _ W) E1) as [L1 _].
    destruct (RunCalls_lite _ _ _ _ _ _ _ L1 E2) as [_ Hle].
    destruct (RunCall_touch _ _ _ _ _ _ _ W Hv Hs E1 ltac:(lia))
      as (e & W1 & _).
    now apply (IH st1 rs st').
Qed.

Lemma WF_one_allocated : WF one_allocated.
Proof.
  apply (RunCalls_noscan_WF DefaultConfig 1 2 [CallAllocate 262144]
           (InitializedState 1)
           (returned (RunCalls DefaultConfig 1 2 (InitializedState 1)
                        [CallAllocate 262144]))).
  - apply WF_InitializedState.
  - repeat constructor. intros [].
  - repeat constructor; unfold ValidCall;
      change (2 ^ 64) with 18446744073709551616; lia.
  - apply returns_Ret. vm_compute. reflexivity.
  - apply Z.leb_le. vm_compute. reflexivity.
Qed.

Lemma IsChunk_first_large_chunk :
  IsChunk one_allocated (Untag DefaultConfig first_large_chunk)
    first_large_chunk 0.
Proof.
  split; [|split].
  - exists 1, 0. split; [now right|]. split; [|reflexivity].
    vm_compute. split; [discriminate|reflexivity].
  - vm_compute. split; [discriminate|reflexivity].
  - vm_compute. reflexivity.
Qed.



(** ** Marking *)

Lemma MarkRel_refl st m : MarkRel st m m.
Proof. intros x. now left. Qed.

Lemma MarkRel_trans st m1 m2 m3 :
  MarkRel st m1 m2 -> MarkRel st m2 m3 -> MarkRel st m1 m3.
Proof.
  intros H12 H23 x.
  destruct (H23 x) as [E23 | (C & Q2 & M3)]; destruct (H12 x) as [E12 | (C' & Q1 & M2)].
  - left. congruence.
  - right. rewrite E23. tauto.
  - right. rewrite <- E12. tauto.
  - rewrite M2 in Q2. discriminate.
Qed.

Lemma IsCell_place st x :
  WF st -> IsCell st x ->
  kAllocatorSpace <= x /\
  forall r idx, IsRange r -> 0 <= idx < kMaxSuperPages -> x <> kMeta r + idx.
Proof.
  intros W (SP & i & V & Hi & ->). split.
  - apply (CellOf_not_meta st SP i 0 0 W V Hi); [now left|consts; lia].
  - intros r idx Hr Hidx. now apply (CellOf_not_meta st SP i r idx W V Hi).
Qed.

Section Marking.
Variable st : AllocatorState.
Hypothesis W : WF st.

Lemma MarkRel_class m SP :
  MarkRel st (Memory st) m -> ValidSP st SP ->
  ClassOf m SP = ClassOf (Memory st) SP.
Proof.
  intros R V.
  destruct (ValidSP_range st SP W V) as (_ & _ & _ & r & idx & Hr & Hidx & Hk & -> & _).
  rewrite !ClassOf_SPAddr by (try assumption; lia).
  destruct (R (kMeta r + idx)) as [E | (C & _)]; [exact E|].
  exfalso. apply (IsCell_place st _ W C) with (r := r) (idx := idx);
    try assumption; try lia.
Qed.

Lemma MarkRel_used m x :
  MarkRel st (Memory st) m -> Load8 (Memory st) x <> QUARANTINED ->
  Load8 m x = Load8 (Memory st) x.
Proof. intros R H. destruct (R x) as [E | (_ & Q & _)]; [exact E|contradiction]. Qed.

(** The bytes of a chunk are not state bytes. *)
Lemma data_not_cell p SP i x :
  IsChunk st p SP i ->
  p <= x < p + ChunkSize (DescrOf (Memory st) SP) -> ~ IsCell st x.
Proof.
  intros (V & Hi & Ep) Hx (SP' & i' & V' & Hi' & Ex).
  destruct (ValidSP_range st SP W V) as (Hal & Hsp & G & _).
  destruct (ValidSP_range st SP' W V') as (Hal' & Hsp' & G' & _).
  pose proof (chunk_offset_range _ i G Hi) as (H0 & H1 & H2).
  pose proof (chunk_offset_range _ i' G' Hi') as (H0' & H1' & H2').
  pose proof (good_size _ G'). pose proof (good_size _ G).
  assert (Hm : 0 <= SizeOfInlineMeta (NumChunks (DescrOf (Memory st) SP))
                      (RangeNum (DescrOf (Memory st) SP))).
  { pose proof (good_meta _ G) as Hm. pose proof (good_num _ G).
    unfold SizeOfInlineMeta in *. cbn [Z.eqb] in Hm.
    destruct (RangeNum _ =? 1); lia. }
  destruct (CellOf_place st SP' i' W V' Hi')
    as [(E0 & Hc) | (E1 & idx & Hidx & ESP & Hc & Hi5)]; cbv zeta in *.
  - rewrite <- Ex in Hc. destruct (Z.eq_dec SP' SP) as [-> | Hne].
    + lia.
    + consts. Z.div_mod_to_equations. lia.
  - rewrite <- Ex in Hc. consts. lia.
Qed.

Lemma Load64_range m a : 0 <= Load64 m a < 2 ^ 64.
Proof.
  unfold Load64. cbn [fold_right].
  pose proof (Load8_range m (a + 0)). pose proof (Load8_range m (a + 1)).
  pose proof (Load8_range m (a + 2)). pose proof (Load8_range m (a + 3)).
  pose proof (Load8_range m (a + 4)). pose proof (Load8_range m (a + 5)).
  pose proof (Load8_range m (a + 6)). pose proof (Load8_range m (a + 7)).
  change (2 ^ 64) with 18446744073709551616. lia.
Qed.

Lemma Load64_ext m m' a :
  (forall k, 0 <= k < 8 -> Load8 m' (a + k) = Load8 m (a + k)) ->
  Load64 m' a = Load64 m a.
Proof.
  intros H. unfold Load64. cbn [fold_right].
  rewrite !H by lia. reflexivity.
Qed.

Lemma MarkRel_Load64 m p SP i w :
  MarkRel st (Memory st) m -> IsChunk st p SP i ->
  p <= w -> w + 8 <= p + ChunkSize (DescrOf (Memory st) SP) ->
  Load64 m w = Load64 (Memory st) w.
Proof.
  intros R IC Hlo Hhi. apply Load64_ext. intros k Hk.
  destruct (R (w + k)) as [E | (C & _)]; [exact E|].
  exfalso. apply (data_not_cell p SP i (w + k) IC); [lia|exact C].
Qed.
End Marking.

Section MarkPhase.
Variable st : AllocatorState.
Hypothesis W : WF st.

Variables Region0 Region1 : Z.
Hypothesis ERegion0 : Region0 = u64 (NumSuperPages st 0 * kSuperPageSize).
Hypothesis ERegion1 : Region1 = u64 (NumSuperPages st 1 * kSuperPageSize).

Lemma Region_small r :
  IsRange r ->
  u64 (NumSuperPages st r * kSuperPageSize) = NumSuperPages st r * 524288.
Proof.
  intros Hr. pose proof (wf_num _ W r Hr). consts. apply u64_small. consts. lia.
Qed.

Lemma u64_sub v K :
  0 <= v < 2 ^ 64 -> 0 <= K < 2 ^ 64 ->
  u64 (v - K) = if K <=? v then v - K else v - K + 2 ^ 64.
Proof.
  intros Hv HK. destruct (Z.leb_spec K v).
  - apply u64_small. lia.
  - unfold u64. symmetry. apply Z.mod_unique with (q := -1); lia.
Qed.

(** A word that passes the region test of the scan points into a created
    super page. *)
Lemma region_hit v :
  0 <= v < 2 ^ 64 ->
  (Region0 <=? u64 (v - kFirstSuperPage 0))
  && (Region1 <=? u64 (v - kFirstSuperPage 1)) = false ->
  exists r, IsRange r /\
    kFirstSuperPage r <= v
      < kFirstSuperPage r + NumSuperPages st r * kSuperPageSize.
Proof.
  intros Hv H. rewrite ERegion0, ERegion1 in H. rewrite (Region_small 0), (Region_small 1) in H by (unfold IsRange; lia).
  pose proof (wf_num _ W 0 ltac:(now left)).
  pose proof (wf_num _ W 1 ltac:(now right)).
  rewrite !u64_sub in H by (consts; lia). consts.
  apply andb_false_iff in H. destruct H as [H | H]; apply Z.leb_gt in H.
  - exists 0. split; [now left|]. consts.
    destruct (Z.leb_spec 105553116266496 v); lia.
  - exists 1. split; [now right|]. consts.
    destruct (Z.leb_spec 106102872080384 v); lia.
Qed.

Lemma region_in v r :
  IsRange r ->
  kFirstSuperPage r <= v
    < kFirstSuperPage r + NumSuperPages st r * kSuperPageSize ->
  (Region0 <=? u64 (v - kFirstSuperPage 0))
  && (Region1 <=? u64 (v - kFirstSuperPage 1)) = false.
Proof.
  intros Hr Hv. rewrite ERegion0, ERegion1. rewrite (Region_small 0), (Region_small 1) by (unfold IsRange; lia).
  pose proof (wf_num _ W 0 ltac:(now left)).
  pose proof (wf_num _ W 1 ltac:(now right)).
  apply andb_false_iff.
  destruct Hr as [-> | ->]; [left | right]; apply Z.leb_gt;
    rewrite u64_sub by (consts; lia); consts;
    match goal with |- context [?a <=? ?b] => destruct (Z.leb_spec a b) end;
    lia.
Qed.

Lemma region_SP v r :
  IsRange r ->
  kFirstSuperPage r <= v
    < kFirstSuperPage r + NumSuperPages st r * kSuperPageSize ->
  ValidSP st (RoundDownTo v kSuperPageSize) /\
  RoundDownTo v kSuperPageSize <= v < RoundDownTo v kSuperPageSize + kSuperPageSize.
Proof.
  intros Hr Hv.
  replace (RoundDownTo v kSuperPageSize) with (524288 * (v / 524288))
    by (change kSuperPageSize with (2 ^ 19); now rewrite RoundDownTo_pow2 by lia).
  pose proof (wf_num _ W r Hr). split.
  - exists r, ((v - kFirstSuperPage r) / 524288). split; [exact Hr|].
    unfold SPAddr. destruct Hr as [-> | ->]; consts;
      split; Z.div_mod_to_equations; lia.
  - consts. Z.div_mod_to_equations. lia.
Qed.

(** [Mark] on a word that points into a created super page: it returns,
    it changes at most one state byte from [QUARANTINED] to [MARKED], and a
    chunk the word points into that was [QUARANTINED] or [MARKED] is
    [MARKED] afterwards. *)
Lemma Mark_valid m v r :
  MarkRel st (Memory st) m -> IsRange r ->
  kFirstSuperPage r <= v
    < kFirstSuperPage r + NumSuperPages st r * kSuperPageSize ->
  exists m',
    SuperPage.Mark (SCDescr st) v m (RoundDownTo v kSuperPageSize) = Ret m' /\
    MarkRel st m m' /\
    forall q SPq iq, IsChunk st q SPq iq ->
      q <= v < q + ChunkSize (DescrOf (Memory st) SPq) ->
      Load8 m (CellOf (Memory st) SPq iq) = QUARANTINED \/
      Load8 m (CellOf (Memory st) SPq iq) = MARKED ->
      Load8 m' (CellOf (Memory st) SPq iq) = MARKED.
Proof.
  intros R Hr Hv. destruct (region_SP v r Hr Hv) as [V Hin].
  set (SP := RoundDownTo v kSuperPageSize) in *.
  destruct (ValidSP_range st SP W V) as (Hal & Hsp & G & _).
  unfold SuperPage.Mark, GetSizeClass, Shadow_IsMine.
  cbn [kBeg kSize SuperPageMetadata].
  destruct (Z.leb_spec kAllocatorSpace SP); [|lia].
  destruct (Z.ltb_spec SP (kAllocatorSpace + kAllocatorSize)); [|lia].
  cbn [andb negb trap_if bind].
  fold (ClassOf m SP). rewrite (MarkRel_class st W m SP R V).
  rewrite (wf_tbl _ W). fold (DescrOf (Memory st) SP).
  set (d := DescrOf (Memory st) SP) in *.
  assert (Hoff : v mod kSuperPageSize = v - SP /\ 0 <= v - SP < 524288).
  { consts. Z.div_mod_to_equations. lia. }
  destruct Hoff as [Eoff Hoff]. rewrite Eoff.
  rewrite (good_div d G (v - SP) Hoff).
  pose proof (good_size d G) as Hsz.
  assert (HIdx : 0 <= (v - SP) / ChunkSize d) by (apply Z.div_pos; lia).
  change (SuperPage.State (NumChunks d) (RangeNum d) SP + (v - SP) / ChunkSize d)
    with (CellOf (Memory st) SP ((v - SP) / ChunkSize d)).
  assert (Hq : forall q SPq iq, IsChunk st q SPq iq ->
            q <= v < q + ChunkSize (DescrOf (Memory st) SPq) ->
            SPq = SP /\ iq = (v - SP) / ChunkSize d /\ iq < NumChunks d).
  { intros q SPq iq IC Hqv.
    destruct (IsChunk_range st q SPq iq W IC) as (Hlo & Hhi & _ & _ & _ & _).
    pose proof IC as (Vq & Hiq & Eq).
    destruct (ValidSP_range st SPq W Vq) as (Halq & _).
    assert (SPq = SP).
    { unfold SP. symmetry. apply RoundDownTo_SP; [exact Halq|lia]. }
    subst SPq. fold d in Hiq, Eq, Hqv. split; [reflexivity|]. split; [|lia].
    apply Z.div_unique with (r := v - SP - iq * ChunkSize d); lia. }
  destruct (Z.leb_spec (NumChunks d) ((v - SP) / ChunkSize d)) as [Hout | Hlt].
  - exists m. split; [reflexivity|]. split; [apply MarkRel_refl|].
    intros q SPq iq IC Hqv _. destruct (Hq q SPq iq IC Hqv) as (_ & -> & Hc). lia.
  - destruct (Z.eqb_spec (Load8 m (CellOf (Memory st) SP ((v - SP) / ChunkSize d)))
                QUARANTINED) as [EQ | NQ].
    + eexists. split; [reflexivity|]. split.
      * intros x.
        destruct (Z.eq_dec x (CellOf (Memory st) SP ((v - SP) / ChunkSize d)))
          as [-> | Hne].
        -- right. split; [|split; [exact EQ|apply Load8_Store8_same]].
           exists SP, ((v - SP) / ChunkSize d). split; [exact V|].
           split; [fold d; lia|reflexivity].
        -- left. now apply Load8_Store8_other.
      * intros q SPq iq IC Hqv _. destruct (Hq q SPq iq IC Hqv) as (-> & -> & _).
        apply Load8_Store8_same.
    + exists m. split; [reflexivity|]. split; [apply MarkRel_refl|].
      intros q SPq iq IC Hqv [HQ | HM];
        destruct (Hq q SPq iq IC Hqv) as (-> & -> & _); [contradiction|exact HM].
Qed.

(** One word of the scan. *)
Lemma MarkWord_total m Word :
  MarkRel st (Memory st) m ->
  exists m', MarkWord (SCDescr st) Region0 Region1 Word m = Ret m' /\
             MarkRel st m m'.
Proof.
  intros R. unfold MarkWord.
  destruct (_ && _) eqn:EC.
  - exists m. split; [reflexivity|apply MarkRel_refl].
  - apply region_hit in EC; [|apply Load64_range].
    destruct EC as (r & Hr & Hv).
    destruct (Mark_valid m _ r R Hr Hv) as (m' & E & R' & _).
    now exists m'.
Qed.

Lemma MarkWords_unfold tbl R0 R1 fuel Word Limit m :
  SuperPage.MarkWords tbl R0 R1 (S fuel) Word Limit m =
  if Word <? Limit then
    m' <- MarkWord tbl R0 R1 Word m ;;
    SuperPage.MarkWords tbl R0 R1 fuel (Word + 8) Limit m'
  else Ret m.
Proof.
  cbn [SuperPage.MarkWords]. unfold MarkWord.
  destruct (Word <? Limit); [|reflexivity].
  now destruct (_ && _).
Qed.

Lemma MarkWords_total Limit fuel : forall Word m,
  MarkRel st (Memory st) m ->
  exists m', SuperPage.MarkWords (SCDescr st) Region0 Region1 fuel Word Limit m
             = Ret m' /\ MarkRel st m m'.
Proof.
  induction fuel as [|fuel IH]; intros Word m R.
  - exists m. split; [reflexivity|apply MarkRel_refl].
  - rewrite MarkWords_unfold. destruct (Word <? Limit).
    + destruct (MarkWord_total m Word R) as (m1 & -> & R1). cbn [bind].
      destruct (IH (Word + 8) m1 (MarkRel_trans _ _ _ _ R R1)) as (m' & E & R').
      exists m'. split; [exact E|]. now apply MarkRel_trans with (m2 := m1).
    + exists m. split; [reflexivity|apply MarkRel_refl].
Qed.

Lemma MarkChunks_total SCD This S n : forall Idx m,
  MarkRel st (Memory st) m ->
  exists m',
    SuperPage.MarkChunks (SCDescr st) Region0 Region1 SCD This S n Idx m
    = Ret m' /\ MarkRel st m m'.
Proof.
  induction n as [|n IH]; intros Idx m R; cbn [SuperPage.MarkChunks].
  - exists m. split; [reflexivity|apply MarkRel_refl].
  - assert (H1 : exists m1,
              (if Load8 m (S + Idx) =? USED_MIXED
               then SuperPage.MarkWords (SCDescr st) Region0 Region1
                      (Z.to_nat (ChunkSize SCD))
                      (SuperPage.AddressOfChunk This Idx SCD)
                      (SuperPage.AddressOfChunk This Idx SCD + ChunkSize SCD) m
               else Ret m) = Ret m1 /\ MarkRel st m m1).
    { destruct (_ =? USED_MIXED).
      - now apply MarkWords_total.
      - exists m. split; [reflexivity|apply MarkRel_refl]. }
    destruct H1 as (m1 & -> & R1). cbn [bind].
    destruct (IH (Idx + 1) m1 (MarkRel_trans _ _ _ _ R R1)) as (m' & E & R').
    exists m'. split; [exact E|]. now apply MarkRel_trans with (m2 := m1).
Qed.

Section Target.
Variables p SPp ip w q SPq iq : Z.
Hypothesis ICp : IsChunk st p SPp ip.
Hypothesis Up : Load8 (Memory st) (CellOf (Memory st) SPp ip) = USED_MIXED.
Hypothesis ICq : IsChunk st q SPq iq.
Hypothesis Hw : p <= w /\ w + 8 <= p + ChunkSize (DescrOf (Memory st) SPp) /\
                (w - p) mod 8 = 0.
Hypothesis Hv : q <= Load64 (Memory st) w
                  < q + ChunkSize (DescrOf (Memory st) SPq).

Lemma Marked_step m m' :
  MarkRel st m m' ->
  Load8 m (CellOf (Memory st) SPq iq) = MARKED ->
  Load8 m' (CellOf (Memory st) SPq iq) = MARKED.
Proof.
  intros R H. destruct (R (CellOf (Memory st) SPq iq)) as [E | (_ & Q & _)].
  - now rewrite E.
  - rewrite H in Q. discriminate.
Qed.

Lemma QM_step m m' :
  MarkRel st m m' ->
  Load8 m (CellOf (Memory st) SPq iq) = QUARANTINED \/
  Load8 m (CellOf (Memory st) SPq iq) = MARKED ->
  Load8 m' (CellOf (Memory st) SPq iq) = QUARANTINED \/
  Load8 m' (CellOf (Memory st) SPq iq) = MARKED.
Proof.
  intros R H. destruct (R (CellOf (Memory st) SPq iq)) as [E | (_ & _ & M)].
  - now rewrite E.
  - now right.
Qed.

Lemma target_region :
  exists r, IsRange r /\
    kFirstSuperPage r <= Load64 (Memory st) w
      < kFirstSuperPage r + NumSuperPages st r * kSuperPageSize.
Proof.
  destruct (IsChunk_range st q SPq iq W ICq) as (Hlo & Hhi & _).
  pose proof ICq as (V & _).
  destruct V as (r & idx & Hr & Hidx & E). exists r. split; [exact Hr|].
  unfold SPAddr in E. consts. nia.
Qed.

Lemma MarkWord_marks m m' :
  MarkRel st (Memory st) m ->
  Load8 m (CellOf (Memory st) SPq iq) = QUARANTINED \/
  Load8 m (CellOf (Memory st) SPq iq) = MARKED ->
  MarkWord (SCDescr st) Region0 Region1 w m = Ret m' ->
  Load8 m' (CellOf (Memory st) SPq iq) = MARKED.
Proof.
  intros R HQM H. unfold MarkWord in H.
  destruct Hw as (Hw1 & Hw2 & _).
  rewrite (MarkRel_Load64 st W m p SPp ip w R ICp Hw1 Hw2) in H.
  destruct target_region as (r & Hr & Hreg).
  rewrite (region_in _ r Hr Hreg) in H.
  destruct (Mark_valid m _ r R Hr Hreg) as (m1 & E & _ & HM).
  rewrite E in H. apply Ret_inj in H. subst m1.
  now apply (HM q SPq iq ICq Hv).
Qed.

Lemma MarkWords_marks Limit fuel : forall Word m m',
  MarkRel st (Memory st) m ->
  Load8 m (CellOf (Memory st) SPq iq) = QUARANTINED \/
  Load8 m (CellOf (Memory st) SPq iq) = MARKED ->
  Word <= w < Limit -> (w - Word) mod 8 = 0 ->
  (w - Word) / 8 < Z.of_nat fuel ->
  SuperPage.MarkWords (SCDescr st) Region0 Region1 fuel Word Limit m = Ret m' ->
  Load8 m' (CellOf (Memory st) SPq iq) = MARKED.
Proof.
  induction fuel as [|fuel IH]; intros Word m m' R HQM HW Hmod Hfuel H.
  - exfalso. assert (0 <= (w - Word) / 8) by (apply Z.div_pos; lia). lia.
  - rewrite MarkWords_unfold in H.
    destruct (Z.ltb_spec Word Limit); [|lia].
    destruct (MarkWord_total m Word R) as (m1 & E1 & R1).
    rewrite E1 in H. cbn [bind] in H.
    pose proof (MarkRel_trans _ _ _ _ R R1) as R01.
    destruct (Z.eq_dec Word w) as [-> | Hne].
    + apply (MarkWord_marks m m1 R HQM) in E1.
      destruct (MarkWords_total Limit fuel (w + 8) m1 R01) as (m2 & E2 & R2).
      rewrite E2 in H. apply Ret_inj in H. subst m2.
      now apply (Marked_step m1 m').
    + apply (IH (Word + 8) m1 m'); try assumption.
      * now apply (QM_step m m1).
      * Z.div_mod_to_equations. lia.
      * Z.div_mod_to_equations. lia.
      * Z.div_mod_to_equations. lia.
Qed.

Lemma MarkChunks_marks n : forall Idx m m',
  MarkRel st (Memory st) m ->
  Load8 m (CellOf (Memory st) SPq iq) = QUARANTINED \/
  Load8 m (CellOf (Memory st) SPq iq) = MARKED ->
  Idx <= ip < Idx + Z.of_nat n ->
  SuperPage.MarkChunks (SCDescr st) Region0 Region1 (DescrOf (Memory st) SPp)
    SPp (SuperPage.State (NumChunks (DescrOf (Memory st) SPp))
           (RangeNum (DescrOf (Memory st) SPp)) SPp) n Idx m = Ret m' ->
  Load8 m' (CellOf (Memory st) SPq iq) = MARKED.
Proof.
  induction n as [|n IH]; intros Idx m m' R HQM HI H; [lia|].
  cbn [SuperPage.MarkChunks] in H.
  set (d := DescrOf (Memory st) SPp) in *.
  set (S := SuperPage.State (NumChunks d) (RangeNum d) SPp) in *.
  apply bind_Ret in H. destruct H as (m1 & E1 & H).
  assert (R1 : MarkRel st m m1).
  { destruct (Load8 m (S + Idx) =? USED_MIXED).
    - destruct (MarkWords_total (SuperPage.AddressOfChunk SPp Idx d + ChunkSize d)
                  (Z.to_nat (ChunkSize d)) (SuperPage.AddressOfChunk SPp Idx d)
                  m R) as (m2 & E2 & R2).
      rewrite E2 in E1. apply Ret_inj in E1. now subst.
    - apply Ret_inj in E1. subst. apply MarkRel_refl. }
  pose proof (MarkRel_trans _ _ _ _ R R1) as R01.
  destruct (MarkChunks_total d SPp S n (Idx + 1) m1 R01) as (m2 & E2 & R2).
  rewrite E2 in H. apply Ret_inj in H. subst m2.
  destruct (Z.eq_dec Idx ip) as [-> | Hne].
  - apply (Marked_step m1 m' R2).
    change (S + ip) with (CellOf (Memory st) SPp ip) in E1.
    rewrite (MarkRel_used st m _ R) in E1 by (rewrite Up; discriminate).
    rewrite Up in E1. cbn [Z.eqb Pos.eqb] in E1.
    destruct (IsChunk_range st p SPp ip W ICp) as (_ & _ & _ & Hin & _).
    pose proof ICp as (_ & _ & Ep). fold d in Ep.
    assert (EA : SuperPage.AddressOfChunk SPp ip d = p).
    { unfold SuperPage.AddressOfChunk. rewrite <- Ep. apply u64_small.
      consts. lia. }
    rewrite EA in E1. destruct Hw as (Hw1 & Hw2 & Hw3). fold d in Hw2.
    apply (MarkWords_marks _ _ p m m1 R HQM) in E1; try assumption; try lia.
    pose proof (Z.div_pos (w - p) 8). Z.div_mod_to_equations. lia.
  - apply (IH (Idx + 1) m1 m'); try assumption; try lia.
    now apply (QM_step m m1).
Qed.
End Target.
End MarkPhase.

(** ** The scan loop *)

Section ScanPhase.
Variable st : AllocatorState.
Hypothesis W : WF st.
Variable NSP : Z -> Z.
Hypothesis ENSP : forall r, NSP r = NumSuperPages st r.

Lemma NSP_Region r :
  u64 (NSP r * kSuperPageSize) = u64 (NumSuperPages st r * kSuperPageSize).
Proof. now rewrite ENSP. Qed.

Lemma MarkAllLivePointers_total m This :
  MarkRel st (Memory st) m -> ValidSP st This ->
  exists m',
    SuperPage.MarkAllLivePointers (SCDescr st) NSP m This = Ret m' /\
    MarkRel st m m'.
Proof.
  intros R V. destruct (ValidSP_range st This W V) as (_ & Hsp & _).
  unfold SuperPage.MarkAllLivePointers. rewrite GetSCD_ok by assumption.
  cbn [bind].
  apply (MarkChunks_total st W _ _ (NSP_Region 0) (NSP_Region 1)). exact R.
Qed.

Lemma ScanBatch_total r n : forall idx m,
  IsRange r -> 0 <= idx -> idx + Z.of_nat n <= NumSuperPages st r ->
  MarkRel st (Memory st) m ->
  exists m', Allocator.ScanBatch n r idx NSP (SCDescr st) m = Ret m' /\
             MarkRel st m m'.
Proof.
  induction n as [|n IH]; intros idx m Hr Hidx Hn R; cbn [Allocator.ScanBatch].
  - exists m. split; [reflexivity|apply MarkRel_refl].
  - pose proof (wf_num _ W r Hr).
    rewrite GetSuperPage_valid by (try assumption; lia). cbn [bind].
    assert (V : ValidSP st (SPAddr r idx))
      by (exists r, idx; repeat split; try assumption; lia).
    destruct (MarkAllLivePointers_total m _ R V) as (m1 & -> & R1). cbn [bind].
    destruct (IH (idx + 1) m1 Hr ltac:(lia) ltac:(lia)
                (MarkRel_trans _ _ _ _ R R1)) as (m' & E & R').
    exists m'. split; [exact E|]. now apply MarkRel_trans with (m2 := m1).
Qed.

(** A round of [ScanRange] from a state [s] of the scan. *)
Lemma ScanRange_rel r fuel : forall s d s',
  IsRange r -> SCDescr s = SCDescr st -> 0 <= ScanPos s r ->
  MarkRel st (Memory st) (Memory s) ->
  Allocator.ScanRange fuel r (NumSuperPages st r) NSP s = Ret (d, s') ->
  MarkRel st (Memory s) (Memory s') /\
  SCDescr s' = SCDescr st /\
  forall r', r' <> r -> ScanPos s' r' = ScanPos s r'.
Proof.
  induction fuel as [|fuel IH]; intros s d s' Hr Et HPos R H;
    cbn [Allocator.ScanRange] in H; [discriminate|].
  pose proof (wf_num _ W r Hr) as HN.
  destruct (Z.leb_spec (NumSuperPages st r) (ScanPos s r)) as [Hdone | Hmore].
  - apply Ret_inj in H. inversion H; subst. st_simpl.
    split; [apply MarkRel_refl|]. split; [exact Et|].
    intros r' Hne. now apply upd_other.
  - st_simpl. rewrite (u64_small (ScanPos s r + Allocator.kPosIncrement)) in H
      by (unfold Allocator.kPosIncrement; consts; lia).
    apply bind_Ret in H. destruct H as (m1 & EB & H).
    apply bind_Ret in H. destruct H as ([d1 s1] & ER & H).
    apply Ret_inj in H. inversion H; subst d s'; clear H.
    rewrite Et in EB.
    destruct (ScanBatch_total r
                (Z.to_nat (Z.min (NumSuperPages st r)
                             (ScanPos s r + Allocator.kPosIncrement)
                           - ScanPos s r))
                (ScanPos s r) (Memory s) Hr HPos
                ltac:(unfold Allocator.kPosIncrement; lia) R)
      as (m2 & E2 & R2).
    rewrite E2 in EB. apply Ret_inj in EB. subst m2.
    apply IH in ER; st_simpl; try assumption.
    + destruct ER as (R' & Et' & HP). split; [|split; [exact Et'|]].
      * now apply MarkRel_trans with (m2 := m1).
      * intros r' Hne. rewrite (HP r' Hne). now apply upd_other.
    + rewrite upd_same. unfold Allocator.kPosIncrement. lia.
    + now apply MarkRel_trans with (m2 := Memory s).
Qed.

Lemma ScanRange_unfold fuel r N (NSP' : Z -> Z) s :
  Allocator.ScanRange (S fuel) r N NSP' s =
  let Pos := ScanPos s r in
  let s0 := set_ScanPos s (upd (ScanPos s) r (u64 (Pos + Allocator.kPosIncrement))) in
  if N <=? Pos then Ret (0, s0)
  else
    let EndIdx := Z.min N (u64 (Pos + Allocator.kPosIncrement)) in
    m <- Allocator.ScanBatch (Z.to_nat (EndIdx - Pos)) r Pos NSP'
           (SCDescr s0) (Memory s0) ;;
    '(Done, s1) <- Allocator.ScanRange fuel r N NSP' (set_Memory s0 m) ;;
    Ret (EndIdx - Pos + Done, s1).
Proof. reflexivity. Qed.

Lemma ScanRange_total r fuel : forall s,
  IsRange r -> SCDescr s = SCDescr st -> 0 <= ScanPos s r ->
  NumSuperPages st r - ScanPos s r <= 1024 * Z.of_nat fuel ->
  MarkRel st (Memory st) (Memory s) ->
  exists d s', Allocator.ScanRange (S fuel) r (NumSuperPages st r) NSP s
               = Ret (d, s').
Proof.
  induction fuel as [|fuel IH]; intros s Hr Et HPos Hfuel R;
    rewrite ScanRange_unfold; cbv zeta; pose proof (wf_num _ W r Hr) as HN;
    (destruct (Z.leb_spec (NumSuperPages st r) (ScanPos s r)) as [Hdone | Hmore];
     [now eexists; eexists|]).
  - lia.
  - st_simpl. rewrite (u64_small (ScanPos s r + Allocator.kPosIncrement))
      by (unfold Allocator.kPosIncrement; consts; lia).
    rewrite Et.
    destruct (ScanBatch_total r
                (Z.to_nat (Z.min (NumSuperPages st r)
                             (ScanPos s r + Allocator.kPosIncrement)
                           - ScanPos s r))
                (ScanPos s r) (Memory s) Hr HPos
                ltac:(unfold Allocator.kPosIncrement; lia) R)
      as (m1 & -> & R1).
    cbn [bind].
    set (s1 := set_Memory _ m1).
    destruct (IH s1) as (d1 & s2 & E); try assumption.
    + unfold s1. st_simpl. rewrite upd_same.
      unfold Allocator.kPosIncrement. lia.
    + unfold s1. st_simpl. rewrite upd_same.
      unfold Allocator.kPosIncrement. lia.
    + unfold s1. st_simpl. now apply MarkRel_trans with (m2 := Memory s).
    + rewrite E. cbn [bind]. now eexists; eexists.
Qed.
End ScanPhase.

Section ScanTarget.
Variable st : AllocatorState.
Hypothesis W : WF st.
Variable NSP : Z -> Z.
Hypothesis ENSP : forall r, NSP r = NumSuperPages st r.
Variables p SPp ip w q SPq iq : Z.
Hypothesis ICp : IsChunk st p SPp ip.
Hypothesis Up : Load8 (Memory st) (CellOf (Memory st) SPp ip) = USED_MIXED.
Hypothesis ICq : IsChunk st q SPq iq.
Hypothesis Hw : p <= w /\ w + 8 <= p + ChunkSize (DescrOf (Memory st) SPp) /\
                (w - p) mod 8 = 0.
Hypothesis Hv : q <= Load64 (Memory st) w
                  < q + ChunkSize (DescrOf (Memory st) SPq).
Variables rp idxp : Z.
Hypothesis Hrp : IsRange rp.
Hypothesis Hidxp : 0 <= idxp < NumSuperPages st rp.
Hypothesis ESPp : SPp = SPAddr rp idxp.

Lemma MarkAllLivePointers_marks m m' :
  MarkRel st (Memory st) m ->
  Load8 m (CellOf (Memory st) SPq iq) = QUARANTINED \/
  Load8 m (CellOf (Memory st) SPq iq) = MARKED ->
  SuperPage.MarkAllLivePointers (SCDescr st) NSP m SPp = Ret m' ->
  Load8 m' (CellOf (Memory st) SPq iq) = MARKED.
Proof.
  intros R HQM H. pose proof ICp as (V & Hi & _).
  destruct (ValidSP_range st SPp W V) as (_ & Hsp & G & _).
  unfold SuperPage.MarkAllLivePointers in H.
  rewrite GetSCD_ok in H by assumption. cbn [bind] in H.
  rewrite (MarkRel_class st W m SPp R V), (wf_tbl _ W) in H.
  fold (DescrOf (Memory st) SPp) in H. rewrite <- (wf_tbl _ W) in H.
  apply (MarkChunks_marks st W _ _ (NSP_Region st NSP ENSP 0)
           (NSP_Region st NSP ENSP 1) p SPp ip w q SPq iq ICp Up ICq Hw Hv
           _ 0 m m' R HQM) in H; [exact H|].
  pose proof (good_num _ G). lia.
Qed.

Lemma ScanBatch_marks n : forall idx m m',
  0 <= idx -> idx + Z.of_nat n <= NumSuperPages st rp ->
  MarkRel st (Memory st) m ->
  Load8 m (CellOf (Memory st) SPq iq) = QUARANTINED \/
  Load8 m (CellOf (Memory st) SPq iq) = MARKED ->
  idx <= idxp < idx + Z.of_nat n ->
  Allocator.ScanBatch n rp idx NSP (SCDescr st) m = Ret m' ->
  Load8 m' (CellOf (Memory st) SPq iq) = MARKED.
Proof.
  induction n as [|n IH]; intros idx m m' Hidx Hn R HQM Hin H; [lia|].
  cbn [Allocator.ScanBatch] in H.
  pose proof (wf_num _ W rp Hrp).
  rewrite GetSuperPage_valid in H by (try assumption; lia). cbn [bind] in H.
  assert (V : ValidSP st (SPAddr rp idx))
    by (exists rp, idx; repeat split; try assumption; lia).
  destruct (MarkAllLivePointers_total st W NSP ENSP m _ R V) as (m1 & E1 & R1).
  rewrite E1 in H. cbn [bind] in H.
  pose proof (MarkRel_trans _ _ _ _ R R1) as R01.
  destruct (Z.eq_dec idx idxp) as [-> | Hne].
  - rewrite <- ESPp in E1. apply (MarkAllLivePointers_marks m m1 R HQM) in E1.
    destruct (ScanBatch_total st W NSP ENSP rp n (idxp + 1) m1 Hrp
                ltac:(lia) ltac:(lia) R01) as (m2 & E2 & R2).
    rewrite E2 in H. apply Ret_inj in H. subst m2.
    now apply (Marked_step st SPq iq m1 m').
  - apply (IH (idx + 1) m1 m'); try assumption; try lia.
    now apply (QM_step st SPq iq m m1).
Qed.

Lemma ScanRange_marks fuel : forall s d s',
  SCDescr s = SCDescr st -> 0 <= ScanPos s rp -> ScanPos s rp <= idxp ->
  MarkRel st (Memory st) (Memory s) ->
  Load8 (Memory s) (CellOf (Memory st) SPq iq) = QUARANTINED \/
  Load8 (Memory s) (CellOf (Memory st) SPq iq) = MARKED ->
  Allocator.ScanRange fuel rp (NumSuperPages st rp) NSP s = Ret (d, s') ->
  Load8 (Memory s') (CellOf (Memory st) SPq iq) = MARKED.
Proof.
  induction fuel as [|fuel IH]; intros s d s' Et HPos Hle R HQM H;
    [discriminate|].
  rewrite ScanRange_unfold in H. cbv zeta in H.
  pose proof (wf_num _ W rp Hrp) as HN.
  destruct (Z.leb_spec (NumSuperPages st rp) (ScanPos s rp)) as [Hdone | Hmore];
    [lia|].
  st_simpl. rewrite (u64_small (ScanPos s rp + Allocator.kPosIncrement)) in H
    by (unfold Allocator.kPosIncrement; consts; lia).
  apply bind_Ret in H. destruct H as (m1 & EB & H).
  apply bind_Ret in H. destruct H as ([d1 s1] & ER & H).
  apply Ret_inj in H. inversion H; subst d s'; clear H.
  rewrite Et in EB.
  destruct (ScanBatch_total st W NSP ENSP rp
              (Z.to_nat (Z.min (NumSuperPages st rp)
                           (ScanPos s rp + Allocator.kPosIncrement)
                         - ScanPos s rp))
              (ScanPos s rp) (Memory s) Hrp HPos
              ltac:(unfold Allocator.kPosIncrement; lia) R)
    as (m2 & E2 & R2).
  rewrite E2 in EB. apply Ret_inj in EB. subst m2.
  pose proof (MarkRel_trans _ _ _ _ R R2) as R02.
  set (s0 := set_Memory _ m1) in ER.
  assert (Hs0 : SCDescr s0 = SCDescr st /\
                ScanPos s0 rp = ScanPos s rp + 1024 /\ Memory s0 = m1).
  { unfold s0. st_simpl. rewrite upd_same. tauto. }
  destruct Hs0 as (Et0 & EP0 & Em0).
  destruct (Z_lt_le_dec idxp (ScanPos s rp + 1024)) as [Hin | Hlater].
  - apply (ScanBatch_marks _ _ (Memory s) m1) in E2; try assumption;
      try (unfold Allocator.kPosIncrement; lia).
    apply (ScanRange_rel st W NSP ENSP rp fuel s0 d1 s1 Hrp Et0) in ER.
    + destruct ER as (R' & _). rewrite Em0 in R'.
      now apply (Marked_step st SPq iq m1 (Memory s1)).
    + lia.
    + now rewrite Em0.
  - apply (IH s0 d1 s1); try assumption; try lia.
    rewrite Em0. now apply (QM_step st SPq iq (Memory s) m1).
Qed.
End ScanTarget.

Lemma ScanLoop_spec st s :
  WF st -> SCDescr s = SCDescr st -> NumSuperPages s = NumSuperPages st ->
  Memory s = Memory st -> ScanPos s 0 = 0 -> ScanPos s 1 = 0 ->
  exists d s1,
    Allocator.ScanLoop s = Ret (d, s1) /\
    MarkRel st (Memory st) (Memory s1) /\
    SCDescr s1 = SCDescr s /\ InitAllOnce s1 = InitAllOnce s /\
    NumSuperPages s1 = NumSuperPages s /\ TLS_PerSC_SP s1 = TLS_PerSC_SP s /\
    forall p SPp ip w q SPq iq, PointsTo st p SPp ip w q SPq iq ->
      Load8 (Memory s1) (CellOf (Memory st) SPq iq) = MARKED.
Proof.
  intros W Et En Em EP0 EP1. unfold Allocator.ScanLoop, Allocator.GetNumSuperPages.
  rewrite En.
  set (NSP := fun r => NumSuperPages st r).
  assert (ENSP : forall r, NSP r = NumSuperPages st r) by reflexivity.
  assert (R0 : MarkRel st (Memory st) (Memory s))
    by (rewrite Em; apply MarkRel_refl).
  pose proof (wf_num _ W 0 ltac:(now left)) as HN0.
  pose proof (wf_num _ W 1 ltac:(now right)) as HN1.
  destruct (ScanRange_total st W NSP ENSP 0 (Z.to_nat (NSP 0)) s
              ltac:(now left) Et ltac:(lia) ltac:(unfold NSP; lia) R0)
    as (d0 & sa & Ea).
  change (Allocator.ScanRange (S (Z.to_nat (NSP 0))) 0 (NumSuperPages st 0) NSP s)
    with (Allocator.ScanRange (S (Z.to_nat (NSP 0))) 0 (NSP 0) NSP s) in Ea.
  rewrite Ea. cbn [bind].
  pose proof Ea as Fa. apply ScanRange_fields in Fa.
  destruct Fa as (Fa1 & Fa2 & Fa3 & Fa4).
  pose proof Ea as Ra.
  apply (ScanRange_rel st W NSP ENSP 0 _ s d0 sa ltac:(now left) Et
           ltac:(lia) R0) in Ra.
  destruct Ra as (Ra & Eta & Pa).
  assert (R0a : MarkRel st (Memory st) (Memory sa))
    by (now apply MarkRel_trans with (m2 := Memory s)).
  assert (EPa : ScanPos sa 1 = 0) by (rewrite Pa by lia; exact EP1).
  destruct (ScanRange_total st W NSP ENSP 1 (Z.to_nat (NSP 1)) sa
              ltac:(now right) Eta ltac:(lia) ltac:(unfold NSP; lia) R0a)
    as (d1 & sb & Eb).
  change (Allocator.ScanRange (S (Z.to_nat (NSP 1))) 1 (NumSuperPages st 1) NSP sa)
    with (Allocator.ScanRange (S (Z.to_nat (NSP 1))) 1 (NSP 1) NSP sa) in Eb.
  rewrite Eb. cbn [bind].
  pose proof Eb as Fb. apply ScanRange_fields in Fb.
  destruct Fb as (Fb1 & Fb2 & Fb3 & Fb4).
  pose proof Eb as Rb.
  apply (ScanRange_rel st W NSP ENSP 1 _ sa d1 sb ltac:(now right) Eta
           ltac:(lia) R0a) in Rb.
  destruct Rb as (Rb & Etb & Pb).
  exists (d0 + d1), sb. split; [reflexivity|].
  split; [now apply MarkRel_trans with (m2 := Memory sa)|].
  split; [now rewrite Fb1|]. split; [now rewrite Fb2|].
  split; [rewrite Fb3, Fa3; exact En|]. split; [now rewrite Fb4|].
  intros p SPp ip w q SPq iq [ICp Up ICq HQ Hw Hv].
  pose proof ICp as (Vp & _).
  destruct Vp as (rp & idxp & Hrp & Hidxp & ESPp).
  assert (HQM : Load8 (Memory s) (CellOf (Memory st) SPq iq) = QUARANTINED \/
                Load8 (Memory s) (CellOf (Memory st) SPq iq) = MARKED)
    by (left; now rewrite Em).
  destruct Hrp as [-> | ->].
  - apply (Marked_step st SPq iq (Memory sa) (Memory sb) Rb).
    apply (ScanRange_marks st W NSP ENSP p SPp ip w q SPq iq ICp Up ICq Hw Hv
             0 idxp ltac:(now left) Hidxp ESPp _ s d0 sa Et ltac:(lia)
             ltac:(lia) R0 HQM Ea).
  - apply (ScanRange_marks st W NSP ENSP p SPp ip w q SPq iq ICp Up ICq Hw Hv
             1 idxp ltac:(now right) Hidxp ESPp _ sa d1 sb Eta ltac:(lia)
             ltac:(lia) R0a (QM_step st SPq iq _ _ Ra HQM) Eb).
Qed.

Lemma IterateStates_from_spec CB S n : forall i m x,
  Load8 (SuperPage.IterateStates_from n i S CB m) x =
  if (S + i <=? x) && (x <? S + i + Z.of_nat n)
  then u8 (CB (Load8 m x)) else Load8 m x.
Proof.
  induction n as [|n IH]; intros i m x; cbn [SuperPage.IterateStates_from].
  - destruct (Z.leb_spec (S + i) x); destruct (Z.ltb_spec x (S + i + Z.of_nat 0));
      cbn [andb]; try reflexivity; lia.
  - rewrite IH. replace (S + (i + 1)) with (S + i + 1) by lia.
    destruct (Z.eq_dec x (S + i)) as [-> | Hne].
    + rewrite Load8_Store8_same.
      destruct (Z.leb_spec (S + i + 1) (S + i)); [lia|].
      destruct (Z.leb_spec (S + i) (S + i)); [|lia].
      destruct (Z.ltb_spec (S + i) (S + i + Z.of_nat (Datatypes.S n))); [|lia].
      reflexivity.
    + rewrite Load8_Store8_other by assumption.
      destruct (Z.leb_spec (S + i + 1) x); destruct (Z.leb_spec (S + i) x);
        destruct (Z.ltb_spec x (S + i + 1 + Z.of_nat n));
        destruct (Z.ltb_spec x (S + i + Z.of_nat (Datatypes.S n)));
        cbn [andb]; try reflexivity; lia.
Qed.

Lemma CountStates_ok tbl St m SP :
  kAllocatorSpace <= SP < kAllocatorSpace + kAllocatorSize ->
  exists c, SuperPage.CountStates tbl St m SP = Ret c.
Proof.
  intros H. unfold SuperPage.CountStates. rewrite GetSCD_ok by assumption.
  cbn [bind]. now eexists.
Qed.

Section PostScanPhase.
Variable st : AllocatorState.
Hypothesis W : WF st.

(** One super page of the pass. *)
Lemma Move_valid m SP :
  ValidSP st SP ->
  (forall SP', ValidSP st SP' -> ClassOf m SP' = ClassOf (Memory st) SP') ->
  exists m',
    SuperPage.MoveFromQuarantineToAvailable (SCDescr st) m SP = Ret m' /\
    (forall i, 0 <= i < NumChunks (DescrOf (Memory st) SP) ->
       Load8 m' (CellOf (Memory st) SP i)
       = u8 (SuperPage.MoveFromQuarantineToAvailable_CB
               (Load8 m (CellOf (Memory st) SP i)))) /\
    (forall x, (forall i, 0 <= i < NumChunks (DescrOf (Memory st) SP) ->
                  x <> CellOf (Memory st) SP i) ->
       Load8 m' x = Load8 m x).
Proof.
  intros V HC. destruct (ValidSP_range st SP W V) as (_ & Hsp & G & _).
  unfold SuperPage.MoveFromQuarantineToAvailable, SuperPage.IterateStates.
  rewrite GetSCD_ok by assumption. cbn [bind].
  rewrite (HC SP V), (wf_tbl _ W). fold (DescrOf (Memory st) SP).
  set (d := DescrOf (Memory st) SP) in *. pose proof (good_num d G) as Hn.
  eexists. split; [reflexivity|]. split.
  - intros i Hi. rewrite IterateStates_from_spec. unfold CellOf. fold d.
    rewrite Z2Nat.id by lia.
    destruct (Z.leb_spec (SuperPage.State (NumChunks d) (RangeNum d) SP + 0)
                (SuperPage.State (NumChunks d) (RangeNum d) SP + i)); [|lia].
    destruct (Z.ltb_spec (SuperPage.State (NumChunks d) (RangeNum d) SP + i)
                (SuperPage.State (NumChunks d) (RangeNum d) SP + 0 + NumChunks d));
      [|lia].
    reflexivity.
  - intros x Hx. rewrite IterateStates_from_spec. rewrite Z2Nat.id by lia.
    destruct (Z.leb_spec (SuperPage.State (NumChunks d) (RangeNum d) SP + 0) x);
      [|reflexivity].
    destruct (Z.ltb_spec x
                (SuperPage.State (NumChunks d) (RangeNum d) SP + 0 + NumChunks d));
      [|reflexivity].
    exfalso.
    apply (Hx (x - SuperPage.State (NumChunks d) (RangeNum d) SP)); [lia|].
    unfold CellOf. fold d. lia.
Qed.

Lemma PostScanRange_spec r n : forall k B m,
  IsRange r -> 0 <= k -> k + Z.of_nat n <= NumSuperPages st r ->
  (forall SP, ValidSP st SP -> ClassOf m SP = ClassOf (Memory st) SP) ->
  exists B' m',
    Allocator.PostScanRange n r k (SCDescr st) B m = Ret (B', m') /\
    (forall x, CellsOfRange st r k (k + Z.of_nat n) x ->
       Load8 m' x = u8 (SuperPage.MoveFromQuarantineToAvailable_CB (Load8 m x))) /\
    (forall x, ~ CellsOfRange st r k (k + Z.of_nat n) x ->
       Load8 m' x = Load8 m x).
Proof.
  induction n as [|n IH]; intros k B m Hr Hk Hn HC; cbn [Allocator.PostScanRange].
  - exists B, m. split; [reflexivity|]. split; [|reflexivity].
    intros x (idx & i & Hidx & _). lia.
  - pose proof (wf_num _ W r Hr) as HN.
    rewrite GetSuperPage_valid by (try assumption; lia). cbn [bind].
    assert (V : ValidSP st (SPAddr r k))
      by (exists r, k; repeat split; try assumption; lia).
    destruct (ValidSP_range st _ W V) as (_ & Hsp & G & _).
    unfold SuperPage.CountQuarantined, SuperPage.CountAvailable.
    destruct (CountStates_ok (SCDescr st) QUARANTINED m _ Hsp) as (c1 & ->).
    destruct (CountStates_ok (SCDescr st) AVAILABLE m _ Hsp) as (c2 & ->).
    cbn [bind]. rewrite GetSCD_ok by assumption. cbn [bind].
    destruct (Move_valid m _ V HC) as (m1 & -> & Hin & Hout). cbn [bind].
    destruct (CountStates_ok (SCDescr st) QUARANTINED m1 _ Hsp) as (c3 & ->).
    cbn [bind].
    assert (HC1 : forall SP, ValidSP st SP -> ClassOf m1 SP = ClassOf (Memory st) SP).
    { intros SP VSP. rewrite <- (HC SP VSP).
      destruct (ValidSP_range st SP W VSP)
        as (_ & _ & _ & r' & idx' & Hr' & Hidx' & Hk' & -> & _).
      rewrite !ClassOf_SPAddr by (try assumption; lia).
      apply Hout. intros i Hi E. symmetry in E. revert E.
      apply (CellOf_not_meta st _ i r' idx' W V Hi Hr'). lia. }
    destruct (IH (k + 1) (u64 (B + ChunkSize (SCDescrAt (SCDescr st)
                                               (ClassOf m (SPAddr r k))) * c3))
                m1 Hr ltac:(lia) ltac:(lia) HC1)
      as (B' & m' & -> & Hin' & Hout').
    exists B', m'. split; [reflexivity|]. split.
    + intros x (idx & i & Hidx & Hi & ->).
      destruct (Z.eq_dec idx k) as [-> | Hne].
      * rewrite Hout'; [now apply Hin|].
        intros (idx' & i' & Hidx' & Hi' & E).
        assert (V' : ValidSP st (SPAddr r idx'))
          by (exists r, idx'; repeat split; try assumption; lia).
        destruct (CellOf_inj st _ i _ i' W V V' Hi Hi' E) as [ESP _].
        apply SPAddr_inj in ESP; try assumption; lia.
      * rewrite Hin' by (exists idx, i; repeat split; try assumption; lia).
        f_equal. f_equal. apply Hout. intros i' Hi' E.
        assert (V' : ValidSP st (SPAddr r idx))
          by (exists r, idx; repeat split; try assumption; lia).
        destruct (CellOf_inj st _ i _ i' W V' V Hi Hi' E) as [ESP _].
        apply SPAddr_inj in ESP; try assumption; lia.
    + intros x Hx. rewrite Hout'.
      * apply Hout. intros i Hi ->. apply Hx. exists k, i.
        repeat split; try assumption; lia.
      * intros (idx & i & Hidx & Hi & ->). apply Hx. exists idx, i.
        repeat split; try assumption; lia.
Qed.
End PostScanPhase.

Lemma CellsOfRange_IsCell st r a b x :
  IsRange r -> 0 <= a -> b <= NumSuperPages st r ->
  CellsOfRange st r a b x -> IsCell st x.
Proof.
  intros Hr Ha Hb (idx & i & Hidx & Hi & ->).
  exists (SPAddr r idx), i. split; [|now split].
  exists r, idx. repeat split; try assumption; lia.
Qed.

Lemma PostScan_spec st s :
  WF st -> SCDescr s = SCDescr st -> NumSuperPages s = NumSuperPages st ->
  (forall SP, ValidSP st SP -> ClassOf (Memory s) SP = ClassOf (Memory st) SP) ->
  exists B m',
    Allocator.PostScan s = Ret (B, set_Memory s m') /\
    (forall x, IsCell st x ->
       Load8 m' x
       = u8 (SuperPage.MoveFromQuarantineToAvailable_CB (Load8 (Memory s) x))) /\
    (forall x, ~ IsCell st x -> Load8 m' x = Load8 (Memory s) x).
Proof.
  intros W Et En HC. unfold Allocator.PostScan, Allocator.GetNumSuperPages.
  rewrite Et, En.
  pose proof (wf_num _ W 0 ltac:(now left)) as HN0.
  pose proof (wf_num _ W 1 ltac:(now right)) as HN1.
  destruct (PostScanRange_spec st W 0 (Z.to_nat (NumSuperPages st 0)) 0 0
              (Memory s) ltac:(now left) ltac:(lia) ltac:(lia) HC)
    as (B1 & m1 & -> & Hin1 & Hout1).
  cbn [bind]. rewrite Z2Nat.id in Hin1, Hout1 by lia.
  assert (HC1 : forall SP, ValidSP st SP -> ClassOf m1 SP = ClassOf (Memory st) SP).
  { intros SP V. rewrite <- (HC SP V).
    destruct (ValidSP_range st SP W V)
      as (_ & _ & _ & r' & idx' & Hr' & Hidx' & Hk' & -> & _).
    rewrite !ClassOf_SPAddr by (try assumption; lia).
    apply Hout1. intros C.
    apply CellsOfRange_IsCell in C; [|now left|lia|lia].
    apply (IsCell_place st _ W C) with (r := r') (idx := idx');
      try assumption; lia. }
  destruct (PostScanRange_spec st W 1 (Z.to_nat (NumSuperPages st 1)) 0 B1
              m1 ltac:(now right) ltac:(lia) ltac:(lia) HC1)
    as (B2 & m2 & -> & Hin2 & Hout2).
  cbn [bind]. rewrite Z2Nat.id in Hin2, Hout2 by lia.
  exists B2, m2. split; [reflexivity|]. split.
  - intros x (SP & i & V & Hi & ->). pose proof V as (r & idx & Hr & Hidx & ->).
    pose proof (wf_num _ W r Hr).
    destruct Hr as [-> | ->].
    + rewrite Hout2.
      * apply Hin1. now exists idx, i.
      * intros (idx' & i' & Hidx' & Hi' & E).
        assert (V' : ValidSP st (SPAddr 1 idx'))
          by (exists 1, idx'; split; [now right|split; [lia|reflexivity]]).
        destruct (CellOf_inj st _ i _ i' W V V' Hi Hi' E) as [ESP _].
        apply SPAddr_inj in ESP; try lia; [now left|now right].
    + rewrite Hin2 by now exists idx, i.
      f_equal. f_equal. apply Hout1.
      intros (idx' & i' & Hidx' & Hi' & E).
      assert (V' : ValidSP st (SPAddr 0 idx'))
        by (exists 0, idx'; split; [now left|split; [lia|reflexivity]]).
      destruct (CellOf_inj st _ i _ i' W V V' Hi Hi' E) as [ESP _].
      apply SPAddr_inj in ESP; try lia; [now right|now left].
  - intros x Hx. rewrite Hout2, Hout1; [reflexivity| |];
      intros C; apply Hx; eapply CellsOfRange_IsCell; try exact C; try lia;
      [now left|now right].
Qed.

(** [Scan] on a state in which the invariant holds: it returns; the
    marking has turned state bytes from [QUARANTINED] to [MARKED] only and
    has marked every quarantined chunk that a word of a [USED_MIXED] chunk
    points into; the pass after it has put every state byte through
    [MoveFromQuarantineToAvailable]; nothing else has changed. *)
Lemma Scan_spec st :
  WF st ->
  exists m1 st',
    Allocator.Scan st = Ret st' /\
    MarkRel st (Memory st) m1 /\
    WF st' /\ NumSuperPages st' = NumSuperPages st /\
    (forall SP, ValidSP st SP ->
       ClassOf (Memory st') SP = ClassOf (Memory st) SP) /\
    (forall x, IsCell st x ->
       Load8 (Memory st') x
       = u8 (SuperPage.MoveFromQuarantineToAvailable_CB (Load8 m1 x))) /\
    (forall x, ~ IsCell st x -> Load8 (Memory st') x = Load8 (Memory st) x) /\
    (forall p SPp ip w q SPq iq, PointsTo st p SPp ip w q SPq iq ->
       Load8 m1 (CellOf (Memory st) SPq iq) = MARKED).
Proof.
  intros W. unfold Allocator.Scan.
  set (sa := set_NumScans _ _).
  destruct (ScanLoop_spec st sa W) as (d & s1 & -> & R & F1 & F2 & F3 & F4 & HT);
    try reflexivity.
  cbn [bind].
  assert (HC : forall SP, ValidSP st SP ->
                 ClassOf (Memory s1) SP = ClassOf (Memory st) SP)
    by (intros SP V; now apply MarkRel_class).
  destruct (PostScan_spec st s1 W F1 F3 HC) as (B & m' & -> & Hin & Hout).
  cbn [bind].
  assert (Hnc : forall x, ~ IsCell st x -> Load8 m' x = Load8 (Memory st) x).
  { intros x Hx. rewrite (Hout x Hx).
    destruct (R x) as [E | (C & _)]; [exact E|contradiction]. }
  assert (HC' : forall SP, ValidSP st SP -> ClassOf m' SP = ClassOf (Memory st) SP).
  { intros SP V.
    destruct (ValidSP_range st SP W V)
      as (_ & _ & _ & r' & idx' & Hr' & Hidx' & Hk' & -> & _).
    rewrite !ClassOf_SPAddr by (try assumption; lia).
    apply Hnc. intros C.
    apply (IsCell_place st _ W C) with (r := r') (idx := idx');
      try assumption; lia. }
  exists (Memory s1). eexists. split; [reflexivity|]. split; [exact R|].
  st_simpl. split; [|split; [exact F3|split; [exact HC'|split; [exact Hin|split; [exact Hnc|exact HT]]]]].
  apply (WF_update st); st_simpl; assumption.
Qed.

(** ** Conservative reachability *)


(** The program writes into a chunk. *)
Lemma store_data st p SP i x v :
  WF st -> IsChunk st p SP i ->
  p <= x < p + ChunkSize (DescrOf (Memory st) SP) ->
  let st' := write_byte st x v in
  WF st' /\
  forall a SP' i', IsChunk st a SP' i' ->
    IsChunk st' a SP' i' /\
    Load8 (Memory st') (CellOf (Memory st') SP' i')
    = Load8 (Memory st) (CellOf (Memory st) SP' i').
Proof.
  intros W IC Hx st'.
  destruct (IsChunk_range st p SP i W IC) as (Hlo & Hhi & _ & Hin & _).
  pose proof IC as (V & _).
  destruct (ValidSP_range st SP W V) as (_ & Hsp & _).
  assert (HC : forall SP', ValidSP st SP' ->
                 ClassOf (Memory st') SP' = ClassOf (Memory st) SP').
  { intros SP' V'.
    destruct (ValidSP_range st SP' W V')
      as (_ & _ & _ & r' & idx' & Hr' & Hidx' & Hk' & -> & _).
    rewrite !ClassOf_SPAddr by (try assumption; lia).
    unfold st', write_byte. st_simpl. apply Load8_Store8_other.
    destruct Hr' as [-> | ->]; consts; lia. }
  split; [apply (WF_update st st' W); try reflexivity; exact HC|].
  intros a SP' i' IC'. pose proof IC' as (V' & Hi' & _).
  split; [apply (IsChunk_heap st st'); auto|].
  rewrite (CellOf_eq _ _ SP' i' (HC SP' V')).
  unfold st', write_byte. st_simpl. apply Load8_Store8_other. intros E.
  apply (data_not_cell st W p SP i x IC Hx). exists SP', i'. now repeat split.
Qed.

Lemma WF_two_allocated_one_quarantined : WF two_allocated_one_quarantined.
Proof.
  apply (RunCalls_noscan_WF DefaultConfig 1 2
           [CallAllocate 262144; CallAllocate 262144;
            CallQuarantine second_large_chunk]
           (InitializedState 1)
           (returned (RunCalls DefaultConfig 1 2 (InitializedState 1)
                        [CallAllocate 262144; CallAllocate 262144;
                         CallQuarantine second_large_chunk]))).
  - apply WF_InitializedState.
  - repeat constructor; intros [].
  - repeat constructor; unfold ValidCall;
      change (2 ^ 64) with 18446744073709551616; lia.
  - apply returns_Ret. vm_compute. reflexivity.
  - apply Z.leb_le. vm_compute. reflexivity.
Qed.

Lemma WF_pointer_stored :
  WF pointer_stored /\
  IsChunk pointer_stored first_large_chunk first_large_chunk 0.
Proof.
  pose proof WF_two_allocated_one_quarantined as W0.
  assert (IC0 : IsChunk two_allocated_one_quarantined first_large_chunk
                  first_large_chunk 0).
  { split; [|split].
    - exists 1, 0. split; [now right|]. split; [|reflexivity].
      vm_compute. split; [discriminate|reflexivity].
    - vm_compute. split; [discriminate|reflexivity].
    - vm_compute. reflexivity. }
  assert (B0 : first_large_chunk <= first_large_chunk + 2
               < first_large_chunk
                 + ChunkSize (DescrOf (Memory two_allocated_one_quarantined)
                                first_large_chunk))
    by (vm_compute; split; [discriminate|reflexivity]).
  destruct (store_data _ _ _ _ (first_large_chunk + 2) 4 W0 IC0 B0) as [W1 H1].
  destruct (H1 _ _ _ IC0) as [IC1 _].
  set (s1 := write_byte two_allocated_one_quarantined _ _) in *.
  assert (B1 : first_large_chunk <= first_large_chunk + 4
               < first_large_chunk
                 + ChunkSize (DescrOf (Memory s1) first_large_chunk))
    by (vm_compute; split; [discriminate|reflexivity]).
  destruct (store_data _ _ _ _ (first_large_chunk + 4) 128 W1 IC1 B1) as [W2 H2].
  destruct (H2 _ _ _ IC1) as [IC2 _].
  set (s2 := write_byte s1 _ _) in *.
  assert (B2 : first_large_chunk <= first_large_chunk + 5
               < first_large_chunk
                 + ChunkSize (DescrOf (Memory s2) first_large_chunk))
    by (vm_compute; split; [discriminate|reflexivity]).
  destruct (store_data _ _ _ _ (first_large_chunk + 5) 96 W2 IC2 B2) as [W3 H3].
  destruct (H3 _ _ _ IC2) as [IC3 _].
  split; [exact W3|exact IC3].
Qed.


(** ** What a scan does to a state byte *)

Lemma Move_CB_cases v :
  0 <= v < 256 ->
  (v = QUARANTINED -> u8 (SuperPage.MoveFromQuarantineToAvailable_CB v) = AVAILABLE) /\
  (v = MARKED -> u8 (SuperPage.MoveFromQuarantineToAvailable_CB v) = QUARANTINED) /\
  (v <> QUARANTINED -> v <> MARKED ->
   u8 (SuperPage.MoveFromQuarantineToAvailable_CB v) = v).
Proof.
  intros Hv. unfold SuperPage.MoveFromQuarantineToAvailable_CB.
  split; [intros ->; reflexivity|]. split; [intros ->; reflexivity|].
  intros H5 H7. destruct (Z.eqb_spec v QUARANTINED) as [E|_]; [contradiction|].
  destruct (Z.eqb_spec v MARKED) as [E|_]; [contradiction|].
  apply u8_small. change (2 ^ 8) with 256. lia.
Qed.

Lemma Scan_cell st st' a SP i :
  WF st -> Allocator.Scan st = Ret st' -> IsChunk st a SP i ->
  WF st' /\ NumSuperPages st' = NumSuperPages st /\ IsChunk st' a SP i /\
  let v := Load8 (Memory st) (CellOf (Memory st) SP i) in
  let v' := Load8 (Memory st') (CellOf (Memory st') SP i) in
  (v = QUARANTINED -> v' = QUARANTINED \/ v' = AVAILABLE) /\
  (v = MARKED -> v' = QUARANTINED) /\
  (v <> QUARANTINED -> v <> MARKED -> v' = v).
Proof.
  intros W H IC.
  destruct (Scan_spec st W) as (m1 & s & E & R & W' & En & HC & Hin & _ & _).
  rewrite E in H. apply Ret_inj in H. subst s.
  pose proof IC as (V & Hi & _).
  split; [exact W'|]. split; [exact En|].
  split; [apply (IsChunk_heap st st'); auto|].
  cbv zeta. rewrite (CellOf_eq _ _ SP i (HC SP V)).
  rewrite Hin by (exists SP, i; now repeat split).
  pose proof (Load8_range (Memory st) (CellOf (Memory st) SP i)) as Hr.
  destruct (Move_CB_cases _ Hr) as (C5 & C7 & Co).
  destruct (R (CellOf (Memory st) SP i)) as [Eq | (_ & Hq & Hm)].
  - rewrite Eq. split; [intros Ev; right; now apply C5|].
    split; [exact C7|exact Co].
  - rewrite Hm. split; [intros _; left; reflexivity|].
    split; [intros Ev; rewrite Hq in Ev; discriminate|].
    intros Hn. now rewrite Hq in Hn.
Qed.



(** ** Double frees *)

(** A chunk that is not in a used state stays so through any calls in
    which no allocation returns it. *)
Lemma freed_run Config self fuel a SP i cs : forall st ps st',
  WF st -> IsChunk st a SP i ->
  ~ IsUsed (Load8 (Memory st) (CellOf (Memory st) SP i)) ->
  Forall ValidCall cs ->
  RunCalls Config self fuel st cs = Ret (ps, st') ->
  (forall r, In r ps -> Untag Config r <> a) ->
  NumSuperPages st' 0 <= kMaxSuperPages ->
  WF st' /\ IsChunk st' a SP i /\
  ~ IsUsed (Load8 (Memory st') (CellOf (Memory st') SP i)).
Proof.
  induction cs as [|c cs IH]; intros st ps st' W IC HU HV H Hps Hcap.
  - apply Ret_inj in H. inversion H; subst. tauto.
  - apply RunCalls_cons in H. destruct H as (r & st1 & rs & E1 & E2 & ->).
    inversion HV as [|? ? Hv HV']; subst.
    destruct (RunCall_lite _ _ _ _ _ _ _ (WF_Lite _ W) E1) as [L1 _].
    destruct (RunCalls_lite _ _ _ _ _ _ _ L1 E2) as [_ Hle].
    assert (Hrs : forall q, In q rs -> Untag Config q <> a).
    { intros q Hq. apply Hps. destruct r; [now right|exact Hq]. }
    assert (Step : WF st1 /\ IsChunk st1 a SP i /\
              ~ IsUsed (Load8 (Memory st1) (CellOf (Memory st1) SP i))).
    { destruct c as [Size | Ptr | Ptr |].
      1-3: destruct (RunCall_touch _ _ _ _ _ _ _ W Hv (fun x => x) E1 ltac:(lia))
             as (e & W1 & P & He & HT).
      1-3: assert (Hne : e <> a);
             [intros ->; specialize (HT SP i IC);
              destruct r as [p|];
              [apply (Hps p); [now left|symmetry; now apply He]
              |now apply HU]|].
      1-3: destruct (Preserves_other e st st1 a SP i P Hne IC) as [IC1 EQ1];
             rewrite EQ1; tauto.
      cbn [RunCall] in E1. apply bind_Ret in E1. destruct E1 as (s & ES & E1).
      apply Ret_inj in E1. inversion E1; subst r s; clear E1.
      destruct (Scan_cell st st1 a SP i W ES IC) as (W1 & _ & IC1 & H5 & H7 & Ho).
      split; [exact W1|]. split; [exact IC1|].
      cbv zeta in *. intros HU1.
      destruct (Z.eq_dec (Load8 (Memory st) (CellOf (Memory st) SP i)) QUARANTINED)
        as [E5|N5].
      - destruct (H5 E5) as [E|E]; rewrite E in HU1;
          destruct HU1; discriminate.
      - destruct (Z.eq_dec (Load8 (Memory st) (CellOf (Memory st) SP i)) MARKED)
          as [E7|N7].
        + rewrite (H7 E7) in HU1. destruct HU1; discriminate.
        + rewrite (Ho N5 N7) in HU1. now apply HU. }
    destruct Step as (W1 & IC1 & HU1).
    apply (IH st1 rs st' W1 IC1 HU1 HV' E2 Hrs Hcap).
Qed.

(** The state byte a free leaves behind is not a used one. *)
Lemma freed_not_used Config st st1 p SP i :
  WF st -> IsChunk st (Untag Config p) SP i ->
  Allocator.Deallocate Config st p = Ret st1 \/
  Allocator.Quarantine Config st p = Ret st1 ->
  WF st1 /\ IsChunk st1 (Untag Config p) SP i /\
  ~ IsUsed (Load8 (Memory st1) (CellOf (Memory st1) SP i)).
Proof.
  intros W IC [E | E].
  - apply Deallocate_spec in E; [|exact W].
    destruct E as (W1 & P & _ & HU). destruct (HU SP i IC) as [_ Hnew].
    pose proof (IsChunk_Preserves _ _ _ _ _ _ P IC) as IC1.
    pose proof IC as (V & _).
    rewrite <- (CellOf_eq _ _ SP i (pres_class _ _ _ P SP V)) in Hnew.
    split; [exact W1|]. split; [exact IC1|]. rewrite Hnew.
    intros [H|H]; discriminate.
  - apply Quarantine_spec in E; [|exact W].
    destruct E as (T & (W1 & P & _ & HU) & _). destruct (HU SP i IC) as [_ Hnew].
    pose proof (IsChunk_Preserves _ _ _ _ _ _ P IC) as IC1.
    pose proof IC as (V & _).
    rewrite <- (CellOf_eq _ _ SP i (pres_class _ _ _ P SP V)) in Hnew.
    split; [exact W1|]. split; [exact IC1|]. rewrite Hnew.
    destruct (QuarantineNewValue_cases Config T) as [-> | ->];
      intros [H|H]; discriminate.
Qed.



(** ** Frees of live chunks *)

Lemma Exchange_ok m S NV :
  IsUsed (Load8 m S) ->
  SuperPage.ExchangeAndCheckForDoubleFree m S NV = Ret (Store8 m S NV).
Proof.
  unfold SuperPage.ExchangeAndCheckForDoubleFree. intros [-> | ->]; reflexivity.
Qed.

(** The path of a free through a super page, for a chunk in a used
    state. *)
Lemma free_path_ok Config st a SP i :
  WF st -> IsChunk st a SP i ->
  IsUsed (Load8 (Memory st) (CellOf (Memory st) SP i)) ->
  RoundDownTo a kSuperPageSize = SP /\
  (SP <? kAllocatorSpace) = false /\
  (kAllocatorSpace + kAllocatorSize <=? SP) = false /\
  A2SP SP = Ret SP /\
  SuperPage.GetSCD (SCDescr st) (Memory st) SP = Ret (DescrOf (Memory st) SP) /\
  SuperPage.ComputeStatePtr a (DescrOf (Memory st) SP) SP
    = Ret (CellOf (Memory st) SP i) /\
  exists T m1,
    SuperPage.UpdateMemoryTagOnFree Config (Memory st) a
      (ChunkSize (DescrOf (Memory st) SP)) = Ret (T, m1) /\
    forall NV,
      SuperPage.ExchangeAndCheckForDoubleFree m1 (CellOf (Memory st) SP i) NV
      = Ret (Store8 m1 (CellOf (Memory st) SP i) NV).
Proof.
  intros W IC HU.
  destruct (IsChunk_range st a SP i W IC) as (_ & _ & _ & Hin & ERD & Hoff).
  destruct (IsChunk_tag_alignment st a SP i W IC) as [T1 T2].
  pose proof IC as (V & Hi & Ea).
  destruct (ValidSP_range st SP W V) as (Hal & Hsp & G & _).
  destruct (UpdateMemoryTagOnFree_ok Config (Memory st) a
              (ChunkSize (DescrOf (Memory st) SP)) Hin T1 T2) as (T & m1 & EU).
  split; [exact ERD|]. split; [apply Z.ltb_ge; lia|].
  split; [apply Z.leb_gt; lia|]. split; [now apply A2SP_ok|].
  split; [rewrite (wf_tbl _ W); now apply GetSCD_ok|].
  split; [exact (ComputeStatePtr_chunk _ a SP i G Hi Hoff)|].
  exists T, m1. split; [exact EU|].
  intros NV. apply Exchange_ok.
  rewrite (UpdateMemoryTagOnFree_frame _ _ _ _ _ _ _ EU).
  - exact HU.
  - pose proof (good_size _ G). change (2 ^ 30) with 1073741824. lia.
  - apply (CellOf_not_meta st SP i 0 0 W V Hi); [now left|consts; lia].
Qed.

Lemma RemoveAddressTag_ok Config st p SP i :
  WF st -> IsChunk st (Untag Config p) SP i -> TagsAgree Config (Memory st) p ->
  Allocator.RemoveAddressTagAndCheckForDoubleFree Config (Memory st) p
  = Ret (Untag Config p).
Proof.
  intros W IC HT.
  destruct (IsChunk_range st _ SP i W IC) as (_ & _ & _ & Hin & _).
  destruct (GetMemoryTag_ok Config (Memory st) _ Hin) as (t & Et).
  unfold Allocator.RemoveAddressTagAndCheckForDoubleFree.
  fold (Untag Config p). rewrite Et. cbn [bind].
  destruct (UseShadow Config && UseAliases Config) eqn:EC; cbn [andb];
    [|reflexivity].
  rewrite (HT t Et EC), Z.eqb_refl. reflexivity.
Qed.

Lemma FreePost_Freed st st' a SP i v :
  IsChunk st a SP i -> FreePost st st' a v -> Freed st st' a SP i v.
Proof.
  intros IC (W1 & P & En & HU). destruct (HU SP i IC) as [_ Hnew].
  pose proof IC as (V & _).
  rewrite <- (CellOf_eq _ _ SP i (pres_class _ _ _ P SP V)) in Hnew.
  split; [exact W1|]. split; [exact En|].
  split; [now apply (IsChunk_Preserves (eq a) st)|]. split; [exact Hnew|].
  intros b SP' i' IC' Hne.
  apply (Preserves_other a st st' b SP' i' P); auto.
Qed.

(** The states a [Deallocate] and a [Quarantine] of a chunk in a used
    state return. *)
Lemma free_explicit Config st p SP i :
  WF st -> IsChunk st (Untag Config p) SP i ->
  IsUsed (Load8 (Memory st) (CellOf (Memory st) SP i)) ->
  TagsAgree Config (Memory st) p ->
  exists T m1,
    SuperPage.UpdateMemoryTagOnFree Config (Memory st) (Untag Config p)
      (ChunkSize (DescrOf (Memory st) SP)) = Ret (T, m1) /\
    Allocator.Deallocate Config st p
    = Ret (set_Memory st (Store8 m1 (CellOf (Memory st) SP i) AVAILABLE)) /\
    Allocator.Quarantine Config st p
    = Ret (set_LocalQuarantineSize
             (set_Memory st
                (Store8 m1 (CellOf (Memory st) SP i)
                   (SuperPage.QuarantineNewValue Config T)))
             (u64 (TLS_LocalQuarantineSize st
                   + (if SuperPage.QuarantineNewValue Config T =? AVAILABLE
                      then 0 else ChunkSize (DescrOf (Memory st) SP))))).
Proof.
  intros W IC HU HT.
  destruct (free_path_ok Config st _ SP i W IC HU)
    as (ERD & E1 & E2 & EA & EG & EC & T & m1 & EU & EX).
  exists T, m1. split; [exact EU|]. split.
  - unfold Allocator.Deallocate.
    rewrite (RemoveAddressTag_ok Config st p SP i W IC HT). cbn [bind].
    rewrite ERD, E1, E2. cbn [trap_if]. unfold SuperPage.Deallocate.
    rewrite EG. cbn [bind]. rewrite EC. cbn [bind]. rewrite EU. cbn [bind].
    rewrite EX. reflexivity.
  - unfold Allocator.Quarantine.
    rewrite (RemoveAddressTag_ok Config st p SP i W IC HT). cbn [bind].
    rewrite ERD, E1, E2. cbn [trap_if]. rewrite EA. cbn [bind].
    unfold SuperPage.Quarantine.
    rewrite EG. cbn [bind]. rewrite EC. cbn [bind]. rewrite EU. cbn [bind].
    rewrite EX. cbn [bind].
    destruct (SuperPage.QuarantineNewValue Config T =? AVAILABLE); reflexivity.
Qed.

Lemma Deallocate_ok Config st p SP i :
  WF st -> IsChunk st (Untag Config p) SP i ->
  IsUsed (Load8 (Memory st) (CellOf (Memory st) SP i)) ->
  TagsAgree Config (Memory st) p ->
  exists st',
    Allocator.Deallocate Config st p = Ret st' /\
    Freed st st' (Untag Config p) SP i AVAILABLE.
Proof.
  intros W IC HU HT.
  destruct (free_explicit Config st p SP i W IC HU HT) as (T & m1 & _ & E & _).
  eexists. split; [exact E|].
  apply FreePost_Freed; [exact IC|]. now apply (Deallocate_spec Config st p).
Qed.

(** [Deallocate] of a pointer to a chunk in a used state, with a tag that
    passes the check, returns; the chunk is [AVAILABLE] afterwards, the
    invariant holds, and every other chunk is what it was. *)
Theorem Deallocate_live Config st p SP i :
  WF st -> IsChunk st (Untag Config p) SP i ->
  IsUsed (Load8 (Memory st) (CellOf (Memory st) SP i)) ->
  TagsAgree Config (Memory st) p ->
  exists st',
    Allocator.Deallocate Config st p = Ret st' /\
    Freed st st' (Untag Config p) SP i AVAILABLE.
Proof.
  intros W IC HU HT.
  destruct (free_explicit Config st p SP i W IC HU HT) as (T & m1 & _ & E & _).
  exists (set_Memory st (Store8 m1 (CellOf (Memory st) SP i) AVAILABLE)).
  split; [exact E|].
  pose proof (Deallocate_spec Config st p _ W E) as FP.
  apply FreePost_Freed; [exact IC|exact FP].
Qed.

Lemma TagsAgree_DefaultConfig m p : TagsAgree DefaultConfig m p.
Proof. intros t _ H. discriminate H. Qed.

Lemma Deallocate_live_witness :
  exists st',
    Allocator.Deallocate DefaultConfig one_allocated first_large_chunk = Ret st' /\
    Freed one_allocated st' (Untag DefaultConfig first_large_chunk)
      first_large_chunk 0 AVAILABLE.
Proof.
  apply (Deallocate_live DefaultConfig one_allocated first_large_chunk
           first_large_chunk 0).
  - exact WF_one_allocated.
  - exact IsChunk_first_large_chunk.
  - left. vm_compute. reflexivity.
  - apply TagsAgree_DefaultConfig.
Defined.

Lemma Quarantine_ok Config st p SP i :
  WF st -> IsChunk st (Untag Config p) SP i ->
  IsUsed (Load8 (Memory st) (CellOf (Memory st) SP i)) ->
  TagsAgree Config (Memory st) p ->
  exists st' v,
    Allocator.Quarantine Config st p = Ret st' /\
    Freed st st' (Untag Config p) SP i v /\ ~ IsUsed v.
Proof.
  intros W IC HU HT.
  destruct (free_explicit Config st p SP i W IC HU HT) as (T & m1 & _ & _ & E).
  destruct (Quarantine_spec Config st p _ W E) as (T' & FP & _).
  eexists. exists (SuperPage.QuarantineNewValue Config T').
  split; [exact E|]. split; [apply FreePost_Freed; [exact IC|exact FP]|].
  destruct (QuarantineNewValue_cases Config T') as [-> | ->];
    intros [X|X]; discriminate.
Qed.

(** [Quarantine] of a pointer to a chunk in a used state, with a tag that
    passes the check, returns; the chunk is [QUARANTINED] afterwards and
    the local quarantine has grown by the chunk size, or, when the tag
    shortcut applies, the chunk is [AVAILABLE] and the local quarantine
    has not grown; every other chunk is what it was. *)
Theorem Quarantine_live Config st p SP i :
  WF st -> IsChunk st (Untag Config p) SP i ->
  IsUsed (Load8 (Memory st) (CellOf (Memory st) SP i)) ->
  TagsAgree Config (Memory st) p ->
  exists st' v,
    Allocator.Quarantine Config st p = Ret st' /\
    Freed st st' (Untag Config p) SP i v /\
    ((v = QUARANTINED /\
      TLS_LocalQuarantineSize st'
      = u64 (TLS_LocalQuarantineSize st
             + ChunkSize (DescrOf (Memory st) SP))) \/
     (v = AVAILABLE /\ UseTag Config <> 0 /\
      TLS_LocalQuarantineSize st' = u64 (TLS_LocalQuarantineSize st + 0))).
Proof.
  intros W IC HU HT.
  destruct (free_explicit Config st p SP i W IC HU HT) as (T & m1 & EU & _ & E).
  destruct (free_path_ok Config st _ SP i W IC HU)
    as (ERD & _ & _ & _ & EG & EC & T' & m1' & EU' & EX).
  rewrite EU in EU'. apply Ret_inj in EU'. inversion EU'; subst T' m1'.
  set (v := SuperPage.QuarantineNewValue Config T) in *.
  assert (Hv : u8 v = v).
  { unfold v. destruct (QuarantineNewValue_cases Config T) as [-> | ->];
      reflexivity. }
  set (st' := set_LocalQuarantineSize _ _) in E.
  assert (FP : FreePost st st' (Untag Config p) (u8 v)).
  { apply (free_core Config st (Untag Config p) (DescrOf (Memory st) SP)
             (CellOf (Memory st) SP i) T m1 v
             (Store8 m1 (CellOf (Memory st) SP i) v) st' W);
      cbv zeta; rewrite ?ERD; try reflexivity; auto. }
  rewrite Hv in FP.
  exists st', v. split; [exact E|]. split.
  - apply FreePost_Freed; [exact IC|exact FP].
  - unfold st'. cbn [TLS_LocalQuarantineSize set_LocalQuarantineSize].
    destruct (QuarantineNewValue_cases Config T) as [Ev | Ev]; fold v in Ev;
      rewrite Ev.
    + right. split; [reflexivity|]. split; [|reflexivity].
      intros E0. unfold v in Ev.
      rewrite (QuarantineNewValue_no_shortcut Config T (or_introl E0)) in Ev.
      discriminate.
    + left. split; reflexivity.
Qed.


Lemma Quarantine_live_witness :
  exists st' v,
    Allocator.Quarantine DefaultConfig one_allocated first_large_chunk
      = Ret st' /\
    Freed one_allocated st' (Untag DefaultConfig first_large_chunk)
      first_large_chunk 0 v /\
    ((v = QUARANTINED /\
      TLS_LocalQuarantineSize st'
      = u64 (TLS_LocalQuarantineSize one_allocated
             + ChunkSize (DescrOf (Memory one_allocated) first_large_chunk))) \/
     (v = AVAILABLE /\ UseTag DefaultConfig <> 0 /\
      TLS_LocalQuarantineSize st'
      = u64 (TLS_LocalQuarantineSize one_allocated + 0))).
Proof.
  apply (Quarantine_live DefaultConfig one_allocated first_large_chunk
           first_large_chunk 0).
  - exact WF_one_allocated.
  - exact IsChunk_first_large_chunk.
  - left. vm_compute. reflexivity.
  - apply TagsAgree_DefaultConfig.
Defined.

(** ** Frees of pointers that are not the address of a chunk *)

(** A [Deallocate] or [Quarantine] of a pointer into the middle of a
    chunk stops the process: at the tag check, or in [ComputeStatePtr],
    which finds that the offset is not a multiple of the chunk size. *)
Theorem free_inside_chunk_traps Config st p a SP i :
  WF st -> IsChunk st a SP i ->
  a < Untag Config p < a + ChunkSize (DescrOf (Memory st) SP) ->
  (Allocator.Deallocate Config st p = Fatal F_TRAP \/
   Allocator.Deallocate Config st p = Fatal F_TagDoubleFree) /\
  (Allocator.Quarantine Config st p = Fatal F_TRAP \/
   Allocator.Quarantine Config st p = Fatal F_TagDoubleFree).
Proof.
  intros W IC Hp.
  destruct (IsChunk_range st a SP i W IC) as (Hlo & Hhi & _ & _ & _ & Hoff).
  pose proof IC as (V & Hi & Ea).
  destruct (ValidSP_range st SP W V) as (Hal & Hsp & G & _).
  set (P := Untag Config p) in *.
  assert (Hin : kAllocatorSpace <= P < kAllocatorSpace + kAllocatorSize)
    by (revert Hsp Hlo Hhi Hp; consts; intros; Z.div_mod_to_equations; lia).
  assert (ERD : RoundDownTo P kSuperPageSize = SP)
    by (apply RoundDownTo_SP; [exact Hal|lia]).
  destruct (GetMemoryTag_ok Config (Memory st) P Hin) as (t & Et).
  assert (EC : SuperPage.ComputeStatePtr P (DescrOf (Memory st) SP) SP
               = Fatal F_TRAP).
  { unfold SuperPage.ComputeStatePtr.
    pose proof (good_size _ G) as Hs.
    destruct (chunk_offset_range _ i G Hi) as (O1 & O2 & O3).
    assert (EP : P mod kSuperPageSize = i * ChunkSize (DescrOf (Memory st) SP)
                                        + (P - a)).
    { symmetry. apply (Z.mod_unique_pos _ _ (SP / kSuperPageSize)).
      - revert Hlo Hhi Hp O1. consts. intros. lia.
      - rewrite Ea. revert Hal. consts. intros.
        Z.div_mod_to_equations. lia. }
    rewrite EP.
    rewrite (good_div _ G) by (revert Hhi Hp O1 Hlo; rewrite Ea; consts; lia).
    replace ((i * ChunkSize (DescrOf (Memory st) SP) + (P - a))
             / ChunkSize (DescrOf (Memory st) SP)) with i
      by (apply (Z.div_unique_pos _ _ _ (P - a)); lia).
    rewrite u64_small by (consts; lia).
    destruct (Z.eqb_spec (i * ChunkSize (DescrOf (Memory st) SP))
                (i * ChunkSize (DescrOf (Memory st) SP) + (P - a)));
      [lia|reflexivity]. }
  unfold Allocator.Deallocate, Allocator.Quarantine,
    Allocator.RemoveAddressTagAndCheckForDoubleFree.
  fold (Untag Config p). fold P. rewrite Et. cbn [bind].
  destruct (UseShadow Config && UseAliases Config && _); cbn [bind];
    [split; right; reflexivity|].
  rewrite ERD.
  replace (SP <? kAllocatorSpace) with false by (symmetry; apply Z.ltb_ge; lia).
  replace (kAllocatorSpace + kAllocatorSize <=? SP) with false
    by (symmetry; apply Z.leb_gt; lia).
  cbn [trap_if]. rewrite (A2SP_ok SP Hal Hsp). cbn [bind].
  unfold SuperPage.Deallocate, SuperPage.Quarantine.
  rewrite (wf_tbl _ W), GetSCD_ok by assumption. cbn [bind].
  fold (DescrOf (Memory st) SP). rewrite EC. cbn [bind].
  split; left; reflexivity.
Qed.

Lemma free_inside_chunk_traps_witness :
  (Allocator.Deallocate DefaultConfig one_allocated (first_large_chunk + 16)
   = Fatal F_TRAP \/
   Allocator.Deallocate DefaultConfig one_allocated (first_large_chunk + 16)
   = Fatal F_TagDoubleFree) /\
  (Allocator.Quarantine DefaultConfig one_allocated (first_large_chunk + 16)
   = Fatal F_TRAP \/
   Allocator.Quarantine DefaultConfig one_allocated (first_large_chunk + 16)
   = Fatal F_TagDoubleFree).
Proof.
  apply (free_inside_chunk_traps DefaultConfig one_allocated
           (first_large_chunk + 16) first_large_chunk first_large_chunk 0).
  - exact WF_one_allocated.
  - exact IsChunk_first_large_chunk.
  - vm_compute. split; reflexivity.
Defined.

(** ** Chunks do not overlap *)

(** The bytes of a chunk belong to no other chunk, and none of them is a
    state byte of a chunk or the size-class byte of a super page. *)
Theorem chunks_disjoint st a SP i b SP' i' x :
  WF st -> IsChunk st a SP i -> IsChunk st b SP' i' -> a <> b ->
  a <= x < a + ChunkSize (DescrOf (Memory st) SP) ->
  ~ (b <= x < b + ChunkSize (DescrOf (Memory st) SP')) /\
  ~ IsCell st x /\
  (forall r idx, IsRange r -> 0 <= idx < kMaxSuperPages -> x <> kMeta r + idx).
Proof.
  intros W IC IC' Hne Hx.
  destruct (IsChunk_range st a SP i W IC) as (Hlo & Hhi & _ & Hin & _ & _).
  destruct (IsChunk_range st b SP' i' W IC') as (Hlo' & Hhi' & _ & Hin' & _ & _).
  pose proof IC as (V & Hi & Ea). pose proof IC' as (V' & Hi' & Eb).
  destruct (ValidSP_range st SP W V) as (Hal & Hsp & G & _).
  destruct (ValidSP_range st SP' W V') as (Hal' & Hsp' & G' & _).
  pose proof (good_size _ G) as Hs. pose proof (good_size _ G') as Hs'.
  split; [|split].
  - intros Hx'. destruct (Z.eq_dec SP SP') as [<- | HSP].
    + assert (i <> i') by (intros <-; apply Hne; now rewrite Ea, Eb).
      rewrite Ea, Eb in *. nia.
    + revert Hal Hal' Hhi Hhi'. consts. intros.
      Z.div_mod_to_equations. lia.
  - exact (data_not_cell st W a SP i x IC Hx).
  - intros r idx [-> | ->] Hidx; revert Hin Hs Hidx; consts; intros; lia.
Qed.

Lemma chunks_disjoint_witness :
  ~ (second_large_chunk <= first_large_chunk + 100
     < second_large_chunk
       + ChunkSize (DescrOf (Memory two_allocated_one_quarantined)
                      first_large_chunk)) /\
  ~ IsCell two_allocated_one_quarantined (first_large_chunk + 100) /\
  (forall r idx, IsRange r -> 0 <= idx < kMaxSuperPages ->
     first_large_chunk + 100 <> kMeta r + idx).
Proof.
  apply (chunks_disjoint two_allocated_one_quarantined
           first_large_chunk first_large_chunk 0
           second_large_chunk first_large_chunk 1).
  - exact WF_two_allocated_one_quarantined.
  - split; [|split].
    + exists 1, 0. split; [now right|]. split; [|reflexivity].
      vm_compute. split; [discriminate|reflexivity].
    + vm_compute. split; [discriminate|reflexivity].
    + vm_compute. reflexivity.
  - split; [|split].
    + exists 1, 0. split; [now right|]. split; [|reflexivity].
      vm_compute. split; [discriminate|reflexivity].
    + vm_compute. split; [discriminate|reflexivity].
    + vm_compute. reflexivity.
  - discriminate.
  - vm_compute. split; [discriminate|reflexivity].
Defined.

(** ** GetSuperPage *)

(** [GetSuperPage] returns the address of the super page while that is
    below the end of the allocator space and traps beyond it.  The end of
    the space is its only limit: an index of range 0 past the first half
    of the space yields a super page of range 1. *)
Theorem GetSuperPage_spec r idx :
  IsRange r -> 0 <= idx < 2 ^ 44 ->
  GetSuperPage r idx =
    (if idx <? (2 - r) * kMaxSuperPages then Ret (SPAddr r idx)
     else Fatal F_TRAP) /\
  GetSuperPage 0 (kMaxSuperPages + idx) = GetSuperPage 1 idx.
Proof.
  intros Hr Hidx. change (2 ^ 44) with 17592186044416 in Hidx. split.
  - unfold GetSuperPage, SPAddr.
    rewrite u64_small by (destruct Hr as [-> | ->]; consts; lia).
    destruct Hr as [-> | ->];
      match goal with
      | |- trap_if (?a <=? ?b) _ _ = (if ?c <? ?d then _ else _) =>
          destruct (Z.leb_spec a b) as [H | H];
          destruct (Z.ltb_spec c d) as [H' | H']
      end; cbn [trap_if]; try reflexivity; exfalso; consts; lia.
  - unfold GetSuperPage.
    replace (kFirstSuperPage 0 + (kMaxSuperPages + idx) * kSuperPageSize)
      with (kFirstSuperPage 1 + idx * kSuperPageSize) by (consts; lia).
    reflexivity.
Qed.

Lemma GetSuperPage_spec_witness :
  GetSuperPage 0 1048576 =
    (if 1048576 <? (2 - 0) * kMaxSuperPages then Ret (SPAddr 0 1048576)
     else Fatal F_TRAP) /\
  GetSuperPage 0 (kMaxSuperPages + 1048576) = GetSuperPage 1 1048576.
Proof.
  apply (GetSuperPage_spec 0 1048576).
  - now left.
  - vm_compute. split; [discriminate|reflexivity].
Defined.

(** ** Address tags at bit 40 *)

Lemma ApplyAddressTag_value Config a t :
  UseAliases Config = true ->
  kAllocatorSpace <= a < kAllocatorSpace + kAllocatorSize ->
  ApplyAddressTag Config a t = a + (t mod 16) * 2 ^ 40.
Proof.
  intros EA Ha. unfold ApplyAddressTag. rewrite EA. cbn [negb].
  assert (Ha64 : 0 <= a < 2 ^ 64) by (consts; lia).
  assert (ET : Z.land (u8 t) 15 = t mod 16).
  { change 15 with (Z.ones 4). rewrite Z.land_ones by lia. unfold u8.
    change (2 ^ 8) with (2 ^ 4 * 2 ^ 4) at 1.
    rewrite Z.rem_mul_r by lia.
    change (2 ^ 4) with 16. rewrite Z.mul_comm, Z.mod_add by lia.
    apply Z.mod_mod. lia. }
  rewrite ET.
  assert (Ht : 0 <= t mod 16 < 16) by (apply Z.mod_pos_bound; lia).
  assert (ES : u64 (Z.shiftl (t mod 16) 40) = (t mod 16) * 2 ^ 40).
  { rewrite Z.shiftl_mul_pow2 by lia. apply u64_small.
    change (2 ^ 40) with 1099511627776. consts. lia. }
  rewrite ES.
  assert (EL : Z.land a (u64 (Z.lnot (u64 (Z.shiftl 15 40)))) = a).
  { apply Z.bits_inj'. intros j Hj.
    pose proof (allocator_space_tag_bits a j Ha) as Hz.
    rewrite (testbit_small a 64 j) by lia.
    change (Z.shiftl 15 40) with (Z.shiftl (Z.ones 4) 40).
    revert Hz. bits. bit_cases.
    all: intros Hz; rewrite ?Hz by lia; reflexivity. }
  rewrite EL.
  assert (E0 : Z.land a ((t mod 16) * 2 ^ 40) = 0).
  { apply Z.bits_inj'. intros j Hj. rewrite Z.land_spec, Z.testbit_0_l.
    rewrite <- Z.shiftl_mul_pow2 by lia.
    rewrite Z.shiftl_spec by lia.
    destruct (Z.ltb_spec j 40);
      [rewrite (Z.testbit_neg_r _ (j - 40)) by lia; apply andb_false_r|].
    destruct (Z.ltb_spec j 44).
    - now rewrite (allocator_space_tag_bits a j Ha) by lia.
    - rewrite (bits_above_small (t mod 16) 4 (j - 40)) by (change (2 ^ 4) with 16; lia).
      apply andb_false_r. }
  pose proof (Z.add_lor_land a ((t mod 16) * 2 ^ 40)) as H.
  rewrite E0 in H. lia.
Qed.

Lemma GetAddressTag_value a k :
  kAllocatorSpace <= a < kAllocatorSpace + kAllocatorSize -> 0 <= k < 16 ->
  GetAddressTag (a + k * 2 ^ 40) = k.
Proof.
  intros Ha Hk. unfold GetAddressTag.
  rewrite Z.shiftr_div_pow2 by lia. change 15 with (Z.ones 4).
  rewrite Z.land_ones by lia.
  replace ((a + k * 2 ^ 40) / 2 ^ 40) with (96 + k)
    by (revert Ha; consts; change (2 ^ 40) with 1099511627776; intros;
        Z.div_mod_to_equations; lia).
  change (2 ^ 4) with 16. replace ((96 + k) mod 16) with k
    by (Z.div_mod_to_equations; lia).
  apply u8_small. change (2 ^ 8) with 256. lia.
Qed.

Lemma GetAddressTag_tagged Config a t :
  UseAliases Config = true ->
  kAllocatorSpace <= a < kAllocatorSpace + kAllocatorSize ->
  GetAddressTag (ApplyAddressTag Config a t) = t mod 16.
Proof.
  intros EA Ha. rewrite (ApplyAddressTag_value Config a t EA Ha).
  apply GetAddressTag_value; [exact Ha|]. apply Z.mod_pos_bound. lia.
Qed.

Lemma GetAddressTag_untagged a :
  kAllocatorSpace <= a < kAllocatorSpace + kAllocatorSize ->
  GetAddressTag a = 0.
Proof.
  intros Ha. replace a with (a + 0 * 2 ^ 40) by lia.
  apply GetAddressTag_value; [exact Ha|lia].
Qed.

Lemma IsMine_tagged Config a t :
  kAllocatorSpace <= a < kAllocatorSpace + kAllocatorSize ->
  Allocator.IsMine Config (ApplyAddressTag Config a t) = true.
Proof.
  intros Ha.
  assert (Ht : 0 <= t mod 16 < 16) by (apply Z.mod_pos_bound; lia).
  unfold Allocator.IsMine. destruct (UseAliases Config) eqn:EA.
  - rewrite (ApplyAddressTag_value Config a t EA Ha).
    apply andb_true_iff. split; [apply Z.leb_le|apply Z.ltb_lt];
      revert Ha; consts; change (2 ^ 40) with 1099511627776; intros; lia.
  - unfold ApplyAddressTag. rewrite EA. cbn [negb].
    apply andb_true_iff. split; [apply Z.leb_le|apply Z.ltb_lt]; lia.
Qed.



(** ** The shadow of a region *)

Lemma Load8_Shadow_fill_in n : forall m pos v x,
  pos <= x < pos + Z.of_nat n ->
  Load8 (Shadow_fill n m pos v) x = u8 v.
Proof.
  induction n as [|n IH]; intros m pos v x Hx; [lia|].
  cbn [Shadow_fill]. destruct (Z.eq_dec x pos) as [-> | Hne].
  - rewrite Load8_Shadow_fill_other by lia. apply Load8_Store8_same.
  - apply IH. lia.
Qed.

Lemma ShadowPtr_value S x :
  GoodShadow S -> kBeg S <= x < kBeg S + kSize S ->
  Shadow_GetShadowPtr S x = kShadowBeg S + (x - kBeg S) / kGranularity S /\
  0 <= (x - kBeg S) / kGranularity S < kSize S / kGranularity S.
Proof.
  intros (HG & HB & HZ & H0 & HS0 & HS & HSB & HSE) Hx.
  unfold Shadow_GetShadowPtr.
  assert (Hq : 0 <= (x - kBeg S) / kGranularity S < kSize S / kGranularity S).
  { split; [apply Z.div_pos; lia|].
    apply Z.div_lt_upper_bound; [lia|].
    rewrite <- Z.div_exact in HZ by lia. lia. }
  rewrite (u64_small (x - kBeg S)) by lia.
  split; [|lia]. apply u64_small. lia.
Qed.

(** What [Get] reads after the loop of [SetRange]. *)
Lemma Shadow_fill_Get S m Beg Size v :
  GoodShadow S ->
  kBeg S <= Beg -> 0 <= Size -> Beg + Size <= kBeg S + kSize S ->
  Beg mod kGranularity S = 0 -> Size mod kGranularity S = 0 ->
  let m' := Shadow_fill (Z.to_nat (Size / kGranularity S)) m
              (Shadow_GetShadowPtr S Beg) v in
  (forall x, Beg <= x < Beg + Size -> Shadow_Get S m' x = u8 v) /\
  (forall x, kBeg S <= x < kBeg S + kSize S ->
     ~ (Beg <= x < Beg + Size) -> Shadow_Get S m' x = Shadow_Get S m x).
Proof.
  intros GS HB HS HE C1 C2 m'. pose proof GS as (HG & HB0 & HZ & _).
  assert (Hn : Z.of_nat (Z.to_nat (Size / kGranularity S))
               = Size / kGranularity S)
    by (apply Z2Nat.id; apply Z.div_pos; lia).
  assert (ED : forall y, y mod kGranularity S = 0 ->
            y = kGranularity S * (y / kGranularity S))
    by (intros y Hy; apply Z.div_exact; lia).
  pose proof (ED _ C1) as EB. pose proof (ED _ C2) as ES.
  pose proof (ED _ HB0) as EK.
  destruct (Z.eq_dec Size 0) as [E0 | HS0].
  { unfold m'. rewrite E0. split; [intros; lia|]. intros x Hx _.
    rewrite Z.div_0_l by lia. reflexivity. }
  destruct (ShadowPtr_value S Beg GS ltac:(lia)) as [PB _].
  assert (EQ : forall x, kBeg S <= x ->
            (x - kBeg S) / kGranularity S
            = x / kGranularity S - kBeg S / kGranularity S).
  { intros x Hx. rewrite EK at 1.
    replace (x - kGranularity S * (kBeg S / kGranularity S))
      with (x + (- (kBeg S / kGranularity S)) * kGranularity S) by lia.
    rewrite Z.div_add by lia. lia. }
  split.
  - intros x Hx. unfold Shadow_Get, m'.
    destruct (ShadowPtr_value S x GS ltac:(lia)) as [PX _].
    rewrite PX, PB. apply Load8_Shadow_fill_in. rewrite Hn.
    rewrite !EQ by lia.
    assert (Beg / kGranularity S <= x / kGranularity S)
      by (apply Z.div_le_mono; lia).
    assert (x / kGranularity S < Beg / kGranularity S + Size / kGranularity S).
    { apply Z.div_lt_upper_bound; [lia|]. lia. }
    lia.
  - intros x Hx Hout. unfold Shadow_Get, m'.
    destruct (ShadowPtr_value S x GS Hx) as [PX _].
    rewrite PX, PB. apply Load8_Shadow_fill_other. rewrite Hn.
    rewrite !EQ by lia.
    destruct (Z_lt_le_dec x Beg) as [Hlt | Hge].
    + left.
      assert (x / kGranularity S < Beg / kGranularity S)
        by (apply Z.div_lt_upper_bound; lia).
      lia.
    + right.
      assert (Beg / kGranularity S + Size / kGranularity S
              <= x / kGranularity S).
      { apply Z.div_le_lower_bound; [lia|]. lia. }
      lia.
Qed.

(** The checks [SetRange] makes before its loop. *)
Lemma Shadow_SetRange_checked S m Beg Size v m' :
  Shadow_SetRange S m Beg Size v = Ret m' ->
  Beg mod kGranularity S = 0 /\ Size mod kGranularity S = 0 /\
  m' = Shadow_fill (Z.to_nat (Size / kGranularity S)) m
         (Shadow_GetShadowPtr S Beg) v.
Proof.
  intros H. unfold Shadow_SetRange in H.
  apply trap_if_Ret in H. destruct H as [C1 H].
  apply trap_if_Ret in H. destruct H as [C2 H].
  apply Ret_inj in H. unfold Shadow_Check in C1, C2.
  apply negb_false_iff, Z.eqb_eq in C1. apply negb_false_iff, Z.eqb_eq in C2.
  now subst m'.
Qed.

(** [SetRange] and [Get]: after [SetRange(Beg, Size, v)] has returned,
    [Beg] and [Size] are multiples of the granularity, [Get] reads [v]
    at every address of [[Beg, Beg + Size)] and what it read before at
    every other address of the region. *)
Theorem Shadow_SetRange_Get S m Beg Size v m' :
  GoodShadow S ->
  kBeg S <= Beg -> 0 <= Size -> Beg + Size <= kBeg S + kSize S ->
  Shadow_SetRange S m Beg Size v = Ret m' ->
  Beg mod kGranularity S = 0 /\ Size mod kGranularity S = 0 /\
  (forall x, Beg <= x < Beg + Size -> Shadow_Get S m' x = u8 v) /\
  (forall x, kBeg S <= x < kBeg S + kSize S ->
     ~ (Beg <= x < Beg + Size) -> Shadow_Get S m' x = Shadow_Get S m x).
Proof.
  intros GS HB HS HE H.
  destruct (Shadow_SetRange_checked S m Beg Size v m' H) as (C1 & C2 & ->).
  split; [exact C1|]. split; [exact C2|].
  exact (Shadow_fill_Get S m Beg Size v GS HB HS HE C1 C2).
Qed.

Lemma GoodShadow_Small : GoodShadow SmallShadow.
Proof.
  repeat split; try (vm_compute; reflexivity); vm_compute; discriminate.
Qed.

Lemma GoodShadow_Large : GoodShadow LargeShadow.
Proof.
  repeat split; try (vm_compute; reflexivity); vm_compute; discriminate.
Qed.

Lemma Shadow_SetRange_Get_witness :
  kAllocatorSpace mod kGranularity SmallShadow = 0 /\
  32 mod kGranularity SmallShadow = 0 /\
  (forall x, kAllocatorSpace <= x < kAllocatorSpace + 32 ->
     Shadow_Get SmallShadow
       (Shadow_fill 2 (fun _ => 0) kSmallMemoryTagSpace 7) x = u8 7) /\
  (forall x, kBeg SmallShadow <= x < kBeg SmallShadow + kSize SmallShadow ->
     ~ (kAllocatorSpace <= x < kAllocatorSpace + 32) ->
     Shadow_Get SmallShadow
       (Shadow_fill 2 (fun _ => 0) kSmallMemoryTagSpace 7) x
     = Shadow_Get SmallShadow (fun _ => 0) x).
Proof.
  apply (Shadow_SetRange_Get SmallShadow (fun _ => 0) kAllocatorSpace 32 7).
  - exact GoodShadow_Small.
  - vm_compute. discriminate.
  - lia.
  - vm_compute. discriminate.
  - reflexivity.
Defined.

(** ** Memory tags *)

(** With the tag shadow on, [GetMemoryTag] reads the small shadow for an
    address of the first half of the allocator space and the large shadow
    for an address of the second half. *)
Lemma GetMemoryTag_small Config x m :
  UseShadow Config = true -> kAllocatorSpace <= x < kFirstSuperPage 1 ->
  GetMemoryTag Config m x = Ret (Shadow_Get SmallShadow m x).
Proof.
  intros ES Hx. unfold GetMemoryTag, Shadow_IsMine. rewrite ES. cbn [negb].
  cbn [kBeg kSize SmallShadow].
  replace (kAllocatorSpace + kAllocatorSize / 2) with (kFirstSuperPage 1)
    by reflexivity.
  destruct (Z.leb_spec kAllocatorSpace x); [|lia].
  destruct (Z.ltb_spec x (kFirstSuperPage 1)); [|lia]. reflexivity.
Qed.

Lemma GetMemoryTag_large Config x m :
  UseShadow Config = true ->
  kFirstSuperPage 1 <= x < kAllocatorSpace + kAllocatorSize ->
  GetMemoryTag Config m x = Ret (Shadow_Get LargeShadow m x).
Proof.
  intros ES Hx. unfold GetMemoryTag, Shadow_IsMine. rewrite ES. cbn [negb].
  cbn [kBeg kSize SmallShadow LargeShadow].
  replace (kAllocatorSpace + kAllocatorSize / 2) with (kFirstSuperPage 1)
    by reflexivity.
  replace (kFirstSuperPage 1 + kAllocatorSize / 2)
    with (kAllocatorSpace + kAllocatorSize) by reflexivity.
  destruct (Z.ltb_spec x (kFirstSuperPage 1)); [lia|].
  rewrite andb_false_r.
  destruct (Z.leb_spec (kFirstSuperPage 1) x); [|lia].
  destruct (Z.ltb_spec x (kAllocatorSpace + kAllocatorSize)); [|lia].
  reflexivity.
Qed.

(** [SetMemoryTag] picks the shadow by the first address of the range. *)
Lemma SetMemoryTag_cases Config m a Size T m' :
  UseShadow Config = true ->
  kAllocatorSpace <= a < kAllocatorSpace + kAllocatorSize ->
  SetMemoryTag Config m a Size T = Ret m' ->
  (a < kFirstSuperPage 1 /\ Shadow_SetRange SmallShadow m a Size T = Ret m') \/
  (kFirstSuperPage 1 <= a /\ Shadow_SetRange LargeShadow m a Size T = Ret m').
Proof.
  intros ES Ha H. unfold SetMemoryTag in H. rewrite ES in H. cbn [negb] in H.
  change (Shadow_IsMine SmallShadow a)
    with ((kAllocatorSpace <=? a) && (a <? kFirstSuperPage 1)) in H.
  change (Shadow_IsMine LargeShadow a)
    with ((kFirstSuperPage 1 <=? a)
          && (a <? kAllocatorSpace + kAllocatorSize)) in H.
  destruct (Z.leb_spec kAllocatorSpace a); [|lia].
  destruct (Z.ltb_spec a (kFirstSuperPage 1)); cbn [andb] in H.
  - left. now split.
  - right. destruct (Z.leb_spec (kFirstSuperPage 1) a); [|lia].
    destruct (Z.ltb_spec a (kAllocatorSpace + kAllocatorSize)); [|lia].
    cbn [andb] in H. now split.
Qed.

(** The tag that [SetMemoryTag] wrote is the one [GetMemoryTag] reads
    in the range. *)
Lemma SetMemoryTag_at Config m a Size T m' x :
  UseShadow Config = true -> 0 < Size ->
  (kAllocatorSpace <= a /\ a + Size <= kFirstSuperPage 1) \/
  (kFirstSuperPage 1 <= a /\ a + Size <= kAllocatorSpace + kAllocatorSize) ->
  SetMemoryTag Config m a Size T = Ret m' ->
  a <= x < a + Size -> GetMemoryTag Config m' x = Ret (u8 T).
Proof.
  intros ES HS Ha H Hx.
  assert (K1 : kFirstSuperPage 1 = kAllocatorSpace + 549755813888)
    by reflexivity.
  assert (K2 : kAllocatorSpace + kAllocatorSize
               = kFirstSuperPage 1 + 549755813888) by reflexivity.
  destruct (SetMemoryTag_cases Config m a Size T m' ES ltac:(lia) H)
    as [[Hlo E] | [Hhi E]];
    destruct (Shadow_SetRange_checked _ m a Size T m' E) as (C1 & C2 & ->).
  - rewrite GetMemoryTag_small by (auto; lia). f_equal.
    apply (Shadow_fill_Get SmallShadow m a Size T GoodShadow_Small);
      try assumption; cbn [kBeg kSize SmallShadow];
      change (kAllocatorSize / 2) with 549755813888; lia.
  - rewrite GetMemoryTag_large by (auto; lia). f_equal.
    apply (Shadow_fill_Get LargeShadow m a Size T GoodShadow_Large);
      try assumption; cbn [kBeg kSize LargeShadow];
      change (kAllocatorSize / 2) with 549755813888; lia.
Qed.

(** With the tag shadow on, after [SetMemoryTag(a, Size, T)] has returned
    for a range that lies in one half of the allocator space,
    [GetMemoryTag] reads [T] at every address of the range and what it
    read before at every other address of the allocator space. *)
Theorem MemoryTag_round_trip Config m a Size T m' :
  UseShadow Config = true -> 0 <= Size ->
  (kAllocatorSpace <= a /\ a + Size <= kFirstSuperPage 1) \/
  (kFirstSuperPage 1 <= a /\ a + Size <= kAllocatorSpace + kAllocatorSize) ->
  SetMemoryTag Config m a Size T = Ret m' ->
  (forall x, a <= x < a + Size -> GetMemoryTag Config m' x = Ret (u8 T)) /\
  (forall x, kAllocatorSpace <= x < kAllocatorSpace + kAllocatorSize ->
     ~ (a <= x < a + Size) ->
     GetMemoryTag Config m' x = GetMemoryTag Config m x).
Proof.
  intros ES HS Ha H. unfold SetMemoryTag in H. rewrite ES in H. cbn [negb] in H.
  assert (IMS : forall x, Shadow_IsMine SmallShadow x
                 = (kAllocatorSpace <=? x) && (x <? kFirstSuperPage 1))
    by reflexivity.
  assert (IML : forall x, Shadow_IsMine LargeShadow x
                 = (kFirstSuperPage 1 <=? x)
                   && (x <? kAllocatorSpace + kAllocatorSize))
    by reflexivity.
  assert (Small : forall x, kAllocatorSpace <= x < kFirstSuperPage 1 ->
            forall mm, GetMemoryTag Config mm x = Ret (Shadow_Get SmallShadow mm x))
    by (intros x Hx mm; now apply GetMemoryTag_small).
  assert (Large : forall x,
            kFirstSuperPage 1 <= x < kAllocatorSpace + kAllocatorSize ->
            forall mm, GetMemoryTag Config mm x = Ret (Shadow_Get LargeShadow mm x))
    by (intros x Hx mm; now apply GetMemoryTag_large).
  assert (PS : forall x, kAllocatorSpace <= x < kFirstSuperPage 1 ->
            kSmallMemoryTagSpace <= Shadow_GetShadowPtr SmallShadow x
              < kSmallMemoryTagSpace + 34359738368).
  { intros x Hx. destruct (ShadowPtr_value SmallShadow x GoodShadow_Small) as [E B].
    - revert Hx. cbn [kBeg kSize SmallShadow].
      change (kAllocatorSize / 2) with 549755813888. consts. lia.
    - rewrite E. revert B. cbn [kShadowBeg kBeg kSize kGranularity SmallShadow].
      change (kAllocatorSize / 2 / 16) with 34359738368. lia. }
  assert (PL : forall x,
            kFirstSuperPage 1 <= x < kAllocatorSpace + kAllocatorSize ->
            kLargeMemoryTagSpace <= Shadow_GetShadowPtr LargeShadow x
              < kLargeMemoryTagSpace + 536870912).
  { intros x Hx. destruct (ShadowPtr_value LargeShadow x GoodShadow_Large) as [E B].
    - revert Hx. cbn [kBeg kSize LargeShadow].
      change (kAllocatorSize / 2) with 549755813888. consts. lia.
    - rewrite E. revert B. cbn [kShadowBeg kBeg kSize kGranularity LargeShadow].
      change (kAllocatorSize / 2 / kSizeAlignmentForSecondRange) with 536870912.
      lia. }
  assert (Fill : forall S0 Beg y,
            GoodShadow S0 -> kBeg S0 <= Beg -> Beg + Size <= kBeg S0 + kSize S0 ->
            Size mod kGranularity S0 = 0 ->
            y < kShadowBeg S0 \/ kShadowBeg S0 + kSize S0 / kGranularity S0 <= y ->
            Load8 (Shadow_fill (Z.to_nat (Size / kGranularity S0)) m
                     (Shadow_GetShadowPtr S0 Beg) T) y = Load8 m y).
  { intros S0 Beg y GS HB HE HZ Hy. pose proof GS as (HG & HB0 & HZ0 & _).
    destruct (Z.eq_dec Size 0) as [-> | HS0].
    { rewrite Z.div_0_l by lia. reflexivity. }
    destruct (ShadowPtr_value S0 Beg GS ltac:(lia)) as [PB Hq].
    apply Load8_Shadow_fill_other.
    rewrite PB, Z2Nat.id by (apply Z.div_pos; lia).
    destruct Hy as [Hy | Hy]; [left; lia|right].
    assert ((Beg - kBeg S0) / kGranularity S0 + Size / kGranularity S0
            <= kSize S0 / kGranularity S0); [|lia].
    rewrite <- Z.div_add by lia.
    apply Z.div_le_mono; [lia|].
    rewrite <- Z.div_exact in HZ by lia. lia. }
  rewrite IMS, IML in H.
  destruct (Z.ltb_spec a (kFirstSuperPage 1)) as [Hlo | Hhi].
  - (* the range is in the first half *)
    assert (Ha1 : kAllocatorSpace <= a /\ a + Size <= kFirstSuperPage 1)
      by (destruct Ha; lia).
    destruct (Z.leb_spec kAllocatorSpace a); [|lia]. cbn [andb] in H.
    destruct (Shadow_SetRange_checked SmallShadow m a Size T m' H)
      as (HZ1 & HZ & Em).
    destruct (Shadow_fill_Get SmallShadow m a Size T GoodShadow_Small)
      as (Hin & Hout); try assumption;
      try (cbn [kBeg kSize SmallShadow];
           change (kAllocatorSize / 2) with 549755813888;
           revert Ha1; consts; lia).
    rewrite <- Em in Hin, Hout.
    split.
    + intros x Hx. rewrite Small by lia. now rewrite Hin.
    + intros x Hx Hne. destruct (Z_lt_le_dec x (kFirstSuperPage 1)).
      * rewrite !Small by lia. rewrite Hout; [reflexivity| |exact Hne].
        cbn [kBeg kSize SmallShadow].
        change (kAllocatorSize / 2) with 549755813888. revert Hx l. consts. lia.
      * rewrite !Large by lia. unfold Shadow_Get.
        unfold Shadow_SetRange in H.
        apply trap_if_Ret in H. destruct H as [_ H].
        apply trap_if_Ret in H. destruct H as [_ H].
        apply Ret_inj in H. subst m'. f_equal.
        apply (Fill SmallShadow a); try exact HZ.
        -- exact GoodShadow_Small.
        -- cbn [kBeg SmallShadow]. lia.
        -- cbn [kBeg kSize SmallShadow].
           change (kAllocatorSize / 2) with 549755813888. revert Ha1. consts. lia.
        -- right. pose proof (PL x ltac:(lia)).
           cbn [kShadowBeg kSize kGranularity SmallShadow].
           change (kAllocatorSize / 2 / 16) with 34359738368.
           revert H. consts. lia.
  - (* the range is in the second half *)
    assert (Ha1 : kFirstSuperPage 1 <= a
                  /\ a + Size <= kAllocatorSpace + kAllocatorSize)
      by (destruct Ha; consts; lia).
    rewrite andb_false_r in H.
    destruct (Z.leb_spec (kFirstSuperPage 1) a); [|lia].
    destruct (Z.ltb_spec a (kAllocatorSpace + kAllocatorSize)) as [Hin0 | Hout0].
    2: { cbn [andb] in H. discriminate. }
    cbn [andb] in H.
    destruct (Shadow_SetRange_checked LargeShadow m a Size T m' H)
      as (HZ1 & HZ & Em).
    destruct (Shadow_fill_Get LargeShadow m a Size T GoodShadow_Large)
      as (Hin & Hout); try assumption;
      try (cbn [kBeg kSize LargeShadow];
           change (kAllocatorSize / 2) with 549755813888;
           revert Ha1; consts; lia).
    rewrite <- Em in Hin, Hout.
    split.
    + intros x Hx. rewrite Large by lia. now rewrite Hin.
    + intros x Hx Hne. destruct (Z_lt_le_dec x (kFirstSuperPage 1)).
      * rewrite !Small by lia. unfold Shadow_Get.
        unfold Shadow_SetRange in H.
        apply trap_if_Ret in H. destruct H as [_ H].
        apply trap_if_Ret in H. destruct H as [_ H].
        apply Ret_inj in H. subst m'. f_equal.
        apply (Fill LargeShadow a); try exact HZ.
        -- exact GoodShadow_Large.
        -- cbn [kBeg LargeShadow]. revert Ha1. consts.
           change (1099511627776 / 2) with 549755813888. lia.
        -- cbn [kBeg kSize LargeShadow].
           change (kAllocatorSize / 2) with 549755813888. revert Ha1. consts. lia.
        -- left. pose proof (PS x ltac:(lia)).
           cbn [kShadowBeg LargeShadow]. revert H. consts. lia.
      * rewrite !Large by lia. rewrite Hout; [reflexivity| |exact Hne].
        cbn [kBeg kSize LargeShadow].
        change (kAllocatorSize / 2) with 549755813888. revert Hx l. consts.
        change (1099511627776 / 2) with 549755813888. lia.
Qed.

Lemma MemoryTag_round_trip_witness :
  (forall x, kAllocatorSpace <= x < kAllocatorSpace + 32 ->
     GetMemoryTag Tag4ShadowConfig
       (Shadow_fill 2 (fun _ => 0) kSmallMemoryTagSpace 7) x = Ret (u8 7)) /\
  (forall x, kAllocatorSpace <= x < kAllocatorSpace + kAllocatorSize ->
     ~ (kAllocatorSpace <= x < kAllocatorSpace + 32) ->
     GetMemoryTag Tag4ShadowConfig
       (Shadow_fill 2 (fun _ => 0) kSmallMemoryTagSpace 7) x
     = GetMemoryTag Tag4ShadowConfig (fun _ => 0) x).
Proof.
  apply (MemoryTag_round_trip Tag4ShadowConfig (fun _ => 0) kAllocatorSpace
           32 7).
  - reflexivity.
  - lia.
  - left. vm_compute. split; discriminate.
  - reflexivity.
Defined.

(** The memory tag of an address depends on the bytes below the
    allocator space only. *)
Lemma GetMemoryTag_ext Config m m' a :
  (forall y, y < kAllocatorSpace -> Load8 m' y = Load8 m y) ->
  GetMemoryTag Config m' a = GetMemoryTag Config m a.
Proof.
  intros H. unfold GetMemoryTag. destruct (UseShadow Config); [|reflexivity].
  cbn [negb].
  destruct (Shadow_IsMine SmallShadow a) eqn:ES.
  - unfold Shadow_IsMine in ES. apply andb_true_iff in ES.
    destruct ES as [E1 E2]. apply Z.leb_le in E1. apply Z.ltb_lt in E2.
    destruct (ShadowPtr_value SmallShadow a GoodShadow_Small ltac:(lia))
      as [E B].
    unfold Shadow_Get. rewrite H; [reflexivity|]. rewrite E. revert B.
    cbn [kShadowBeg kBeg kSize kGranularity SmallShadow].
    change (kAllocatorSize / 2 / 16) with 34359738368. consts. lia.
  - destruct (Shadow_IsMine LargeShadow a) eqn:EL; [|reflexivity].
    unfold Shadow_IsMine in EL. apply andb_true_iff in EL.
    destruct EL as [E1 E2]. apply Z.leb_le in E1. apply Z.ltb_lt in E2.
    destruct (ShadowPtr_value LargeShadow a GoodShadow_Large ltac:(lia))
      as [E B].
    unfold Shadow_Get. rewrite H; [reflexivity|]. rewrite E. revert B.
    cbn [kShadowBeg kBeg kSize kGranularity LargeShadow].
    change (kAllocatorSize / 2 / kSizeAlignmentForSecondRange) with 536870912.
    consts. lia.
Qed.

(** ** The number of chunks of a super page *)

Lemma SizeOfInlineMeta_nonneg N r : 0 <= SizeOfInlineMeta N r.
Proof.
  unfold SizeOfInlineMeta, RoundUpTo. destruct (r =? 1); [lia|].
  apply Z.land_nonneg. left. apply u64_range.
Qed.

Lemma ComputeNumChunks_loop_spec CS r fuel : forall n,
  n = Z.of_nat fuel ->
  match ComputeNumChunks_loop fuel n CS r with
  | Some N => 1 <= N <= n /\ FitsSuperPage CS r N /\
              forall N', N < N' <= n -> ~ FitsSuperPage CS r N'
  | None => forall N', 1 <= N' <= n -> ~ FitsSuperPage CS r N'
  end.
Proof.
  induction fuel as [|fuel IH]; intros n En; cbn [ComputeNumChunks_loop].
  - intros N' HN'. lia.
  - destruct (Z.leb_spec (SizeOfInlineMeta n r + n * CS) kSuperPageSize)
      as [Hle | Hgt].
    + split; [lia|]. split; [exact Hle|]. intros N' HN'. lia.
    + specialize (IH (n - 1) ltac:(lia)).
      destruct (ComputeNumChunks_loop fuel (n - 1) CS r) as [N|].
      * destruct IH as (HN & HF & Hmax). split; [lia|]. split; [exact HF|].
        intros N' HN'. destruct (Z.eq_dec N' n) as [-> | Hne].
        -- unfold FitsSuperPage. lia.
        -- apply Hmax. lia.
      * intros N' HN'. destruct (Z.eq_dec N' n) as [-> | Hne].
        -- unfold FitsSuperPage. lia.
        -- apply IH. lia.
Qed.

(** For a chunk size that leaves room for a chunk and its state byte,
    [ComputeNumChunks] does not trap, and the number it returns is the
    largest number of chunks that fit into a super page together with
    their inline state bytes. *)
Theorem ComputeNumChunks_largest CS r :
  1 <= CS <= kSuperPageSize - 32 ->
  exists N,
    ComputeNumChunks CS r = Some N /\
    1 <= N /\ FitsSuperPage CS r N /\
    forall N', N < N' -> ~ FitsSuperPage CS r N'.
Proof.
  intros HCS. unfold ComputeNumChunks.
  set (Approx := kSuperPageSize / CS).
  assert (HA : 1 <= Approx)
    by (unfold Approx; apply Z.div_le_lower_bound; consts; lia).
  pose proof (ComputeNumChunks_loop_spec CS r (Z.to_nat Approx) Approx
                ltac:(lia)) as H.
  assert (Hbig : forall N', Approx < N' -> ~ FitsSuperPage CS r N').
  { intros N' HN' HF. unfold FitsSuperPage in HF.
    pose proof (SizeOfInlineMeta_nonneg N' r).
    assert (kSuperPageSize < (Approx + 1) * CS).
    { unfold Approx. pose proof (Z.div_mod kSuperPageSize CS ltac:(lia)).
      pose proof (Z.mod_pos_bound kSuperPageSize CS ltac:(lia)). lia. }
    nia. }
  destruct (ComputeNumChunks_loop (Z.to_nat Approx) Approx CS r) as [N|].
  - exists N. destruct H as (HN & HF & Hmax).
    split; [reflexivity|]. split; [lia|]. split; [exact HF|].
    intros N' HN'. destruct (Z_le_gt_dec N' Approx); [apply Hmax|apply Hbig]; lia.
  - exfalso. apply (H 1 ltac:(lia)). unfold FitsSuperPage, SizeOfInlineMeta.
    destruct (r =? 1); [consts; lia|].
    change (RoundUpTo 1 kStateArrayAlignment) with 32. lia.
Qed.

Lemma ComputeNumChunks_largest_witness :
  exists N,
    ComputeNumChunks 16 0 = Some N /\
    1 <= N /\ FitsSuperPage 16 0 N /\
    forall N', N < N' -> ~ FitsSuperPage 16 0 N'.
Proof.
  apply (ComputeNumChunks_largest 16 0). vm_compute. split; discriminate.
Defined.

(** ** Rounding and alignment *)

Lemma land_ones_low x k : 0 <= k < 64 ->
  Z.land x (u64 (2 ^ k - 1)) = x mod 2 ^ k.
Proof.
  intros Hk. rewrite u64_small.
  - replace (2 ^ k - 1) with (Z.ones k) by (rewrite Z.ones_equiv; lia).
    apply Z.land_ones. lia.
  - assert (2 ^ k <= 2 ^ 63) by (apply Z.pow_le_mono_r; lia).
    assert (0 < 2 ^ k) by (apply Z.pow_pos_nonneg; lia).
    change (2 ^ 64) with 18446744073709551616.
    change (2 ^ 63) with 9223372036854775808 in *. lia.
Qed.

(** For a boundary that is a power of two and a size that does not
    overflow: [RoundDownTo] gives the largest multiple of the boundary
    not above [x], [RoundUpTo] the smallest one not below it, both results
    pass [IsAligned], [IsAligned] holds exactly of the multiples of the
    boundary, and an aligned [x] is left as it is. *)
Theorem rounding_pow2 x k :
  0 <= k < 64 -> 0 <= x -> x + 2 ^ k <= 2 ^ 64 ->
  let b := 2 ^ k in
  (RoundDownTo x b <= x < RoundDownTo x b + b /\ RoundDownTo x b mod b = 0) /\
  (x <= RoundUpTo x b < x + b /\ RoundUpTo x b mod b = 0) /\
  IsAligned (RoundDownTo x b) b = true /\
  IsAligned (RoundUpTo x b) b = true /\
  (IsAligned x b = true <-> x mod b = 0) /\
  (x mod b = 0 -> RoundDownTo x b = x /\ RoundUpTo x b = x).
Proof.
  intros Hk Hx Hov b.
  assert (Hb : 0 < b) by (apply Z.pow_pos_nonneg; lia).
  assert (ED : RoundDownTo x b = b * (x / b)) by now apply RoundDownTo_pow2.
  assert (EU : RoundUpTo x b = b * ((x + b - 1) / b)).
  { unfold b. rewrite RoundUpTo_pow2 by exact Hk.
    rewrite u64_small by (fold b; lia). reflexivity. }
  assert (EA : forall y, IsAligned y b = (y mod b =? 0))
    by (intros y; unfold IsAligned, b; now rewrite land_ones_low).
  assert (Mul : forall q, (b * q) mod b = 0)
    by (intros q; rewrite Z.mul_comm; apply Z.mod_mul; lia).
  pose proof (Z.div_mod x b ltac:(lia)) as D1.
  pose proof (Z.mod_pos_bound x b Hb) as D2.
  pose proof (Z.div_mod (x + b - 1) b ltac:(lia)) as D3.
  pose proof (Z.mod_pos_bound (x + b - 1) b Hb) as D4.
  rewrite !EA, ED, EU, !Mul.
  split; [split; [lia|reflexivity]|]. split; [split; [lia|reflexivity]|].
  split; [reflexivity|]. split; [reflexivity|].
  split; [apply Z.eqb_eq|].
  intros E0. split; [lia|].
  assert ((x + b - 1) / b = x / b); [|lia].
  symmetry. apply (Z.div_unique_pos _ _ _ (b - 1)); lia.
Qed.

Lemma rounding_pow2_witness :
  let b := 2 ^ 12 in
  (RoundDownTo 5000 b <= 5000 < RoundDownTo 5000 b + b
   /\ RoundDownTo 5000 b mod b = 0) /\
  (5000 <= RoundUpTo 5000 b < 5000 + b /\ RoundUpTo 5000 b mod b = 0) /\
  IsAligned (RoundDownTo 5000 b) b = true /\
  IsAligned (RoundUpTo 5000 b) b = true /\
  (IsAligned 5000 b = true <-> 5000 mod b = 0) /\
  (5000 mod b = 0 -> RoundDownTo 5000 b = 5000 /\ RoundUpTo 5000 b = 5000).
Proof.
  apply (rounding_pow2 5000 12).
  - lia.
  - lia.
  - vm_compute. discriminate.
Defined.

(** ** Requests beyond the largest size class *)

Lemma SizeToSizeClass_loop_none tbl Size fuel : forall Idx,
  (forall j, ChunkSize (SCDescrAt tbl j) < Size) ->
  SizeToSizeClass_loop tbl fuel Idx Size = None.
Proof.
  induction fuel as [|fuel IH]; intros Idx H; [reflexivity|].
  cbn [SizeToSizeClass_loop]. specialize (H Idx) as HI.
  destruct (Z.leb_spec Size (ChunkSize (SCDescrAt tbl Idx))); [lia|].
  now apply IH.
Qed.

(** [SizeToSizeClass] has no answer for a size above the largest class:
    the search runs off the end of the table and the result is class 0,
    whose chunks have 16 bytes.  (The caller, [malloc], sends such sizes
    to the large allocator.) *)
Theorem SizeToSizeClass_oversize Size :
  kMaxSizeClass < Size ->
  SizeToSizeClass SCDescrTable Size = (0, SCDescrAt SCDescrTable 0) /\
  ChunkSize (snd (SizeToSizeClass SCDescrTable Size)) = 16.
Proof.
  intros HS. change kMaxSizeClass with 262144 in HS.
  assert (E : SizeToSizeClass SCDescrTable Size = (0, SCDescrAt SCDescrTable 0)).
  { unfold SizeToSizeClass.
    destruct (Z.leb_spec Size 256); [lia|].
    rewrite SizeToSizeClass_loop_none; [reflexivity|].
    intros j. pose proof (ChunkSize_bound j). lia. }
  split; [exact E|]. rewrite E. reflexivity.
Qed.

Lemma SizeToSizeClass_oversize_witness :
  SizeToSizeClass SCDescrTable 300000 = (0, SCDescrAt SCDescrTable 0) /\
  ChunkSize (snd (SizeToSizeClass SCDescrTable 300000)) = 16.
Proof.
  apply (SizeToSizeClass_oversize 300000). reflexivity.
Defined.

(** ** The data-only scope *)

(** Entering and leaving a data-only scope are inverse to each other;
    leaving a scope that was never entered traps, and so does every
    [level] other than 1 and -1. *)
Theorem DataOnlyScope_balanced st :
  0 <= DataOnlyScopeLevel st < 2 ^ 64 - 1 ->
  (exists st1,
     Allocator.DataOnlyScope st 1 = Ret st1 /\
     DataOnlyScopeLevel st1 = DataOnlyScopeLevel st + 1 /\
     Memory st1 = Memory st /\
     Allocator.DataOnlyScope st1 (-1) = Ret st) /\
  (DataOnlyScopeLevel st = 0 ->
   Allocator.DataOnlyScope st (-1) = Fatal F_TRAP) /\
  (forall level, level <> 1 -> level <> -1 ->
     Allocator.DataOnlyScope st level = Fatal F_TRAP).
Proof.
  intros Hl. split; [|split].
  - eexists. split; [reflexivity|].
    cbn [DataOnlyScopeLevel set_DataOnlyScopeLevel Memory].
    rewrite u64_small by (consts; lia).
    split; [reflexivity|]. split; [reflexivity|].
    unfold Allocator.DataOnlyScope. cbn [Z.eqb].
    cbn [DataOnlyScopeLevel set_DataOnlyScopeLevel].
    destruct (Z.eqb_spec (DataOnlyScopeLevel st + 1) 0); [lia|].
    cbn [trap_if]. f_equal.
    replace (DataOnlyScopeLevel st + 1 - 1) with (DataOnlyScopeLevel st) by lia.
    rewrite u64_small by (consts; lia).
    destruct st; reflexivity.
  - intros E0. unfold Allocator.DataOnlyScope. cbn [Z.eqb]. now rewrite E0.
  - intros level H1 H2. unfold Allocator.DataOnlyScope.
    destruct (Z.eqb_spec level 1); [contradiction|].
    destruct (Z.eqb_spec level (-1)); [contradiction|reflexivity].
Qed.

Lemma DataOnlyScope_balanced_witness :
  (exists st1,
     Allocator.DataOnlyScope one_allocated 1 = Ret st1 /\
     DataOnlyScopeLevel st1 = DataOnlyScopeLevel one_allocated + 1 /\
     Memory st1 = Memory one_allocated /\
     Allocator.DataOnlyScope st1 (-1) = Ret one_allocated) /\
  (DataOnlyScopeLevel one_allocated = 0 ->
   Allocator.DataOnlyScope one_allocated (-1) = Fatal F_TRAP) /\
  (forall level, level <> 1 -> level <> -1 ->
     Allocator.DataOnlyScope one_allocated level = Fatal F_TRAP).
Proof.
  apply (DataOnlyScope_balanced one_allocated).
  vm_compute. split; [discriminate|reflexivity].
Defined.

Lemma KeepsData_same st st' :
  Memory st' = Memory st -> KeepsData st st'.
Proof. intros E b SP i x _ _. now rewrite E. Qed.

Lemma KeepsData_trans E st1 st2 st3 :
  Preserves E st1 st2 -> KeepsData st1 st2 -> KeepsData st2 st3 ->
  KeepsData st1 st3.
Proof.
  intros P K12 K23 b SP i x IC Hx.
  rewrite <- (K12 b SP i x IC Hx).
  apply (K23 b SP i x).
  - now apply (IsChunk_Preserves E st1).
  - pose proof IC as (V & _).
    now rewrite (DescrOf_eq _ _ _ (pres_class _ _ _ P SP V)).
Qed.

(** A data byte of a chunk: where it lies. *)
Lemma data_place st b SP i x :
  WF st -> IsChunk st b SP i ->
  b <= x < b + ChunkSize (DescrOf (Memory st) SP) ->
  SP <= x < SP + kSuperPageSize /\
  kAllocatorSpace <= x < kAllocatorSpace + kAllocatorSize /\
  ~ IsCell st x.
Proof.
  intros W IC Hx.
  destruct (IsChunk_range st b SP i W IC) as (Hlo & Hhi & _ & Hin & _ & _).
  pose proof IC as (V & Hi & Ea).
  destruct (ValidSP_range st SP W V) as (Hal & Hsp & G & _).
  pose proof (good_size _ G) as Hs.
  split; [lia|].
  split; [revert Hal Hsp Hlo Hhi Hx; consts; intros;
          Z.div_mod_to_equations; lia|].
  exact (data_not_cell st W b SP i x IC Hx).
Qed.

(** Storing into the state byte of a chunk. *)
Lemma KeepsData_store st st' SP i v :
  WF st -> ValidSP st SP -> 0 <= i < NumChunks (DescrOf (Memory st) SP) ->
  Memory st' = Store8 (Memory st) (CellOf (Memory st) SP i) v ->
  KeepsData st st'.
Proof.
  intros W V Hi Em b SP' i' x IC Hx. rewrite Em.
  apply Load8_Store8_other. intros ->.
  apply (data_place st b SP' i' _ W IC Hx). now exists SP, i.
Qed.

Lemma TryAllocate_fresh Config st SP SC D Hint Res Hint' m' :
  WF st -> ValidSP st SP -> ClassOf (Memory st) SP = SC ->
  SuperPage.TryAllocate Config D (SCDescrAt SCDescrTable SC) Hint (Memory st) SP
    = Ret (Res, Hint', m') ->
  Res <> 0 ->
  exists i T,
    IsChunk st (Untag Config Res) SP i /\
    m' = Store8 (Memory st) (CellOf (Memory st) SP i)
           (if D then USED_DATA else USED_MIXED) /\
    GetMemoryTag Config m' (Untag Config Res) = Ret T /\
    Res = ApplyAddressTag Config (Untag Config Res) T.
Proof.
  intros W V EC H HR.
  destruct (ValidSP_range st SP W V) as (Hal & Hsp & G & _).
  assert (ED : DescrOf (Memory st) SP = SCDescrAt SCDescrTable SC)
    by (unfold DescrOf; now rewrite EC).
  rewrite <- ED in H.
  apply TryAllocate_spec in H;
    [|pose proof (good_num _ G); unfold kNotFound; consts; lia].
  cbv zeta in H.
  destruct H as [(-> & _ & ->) | (Pos & Tag & HPos & EA & -> & ET & ->)];
    [contradiction|].
  assert (IC : IsChunk st (SP + Pos * ChunkSize (DescrOf (Memory st) SP)) SP Pos)
    by (now repeat split).
  destruct (IsChunk_range st _ SP Pos W IC) as (_ & _ & _ & Hin & _).
  assert (EAddr : SuperPage.AddressOfChunk SP Pos (DescrOf (Memory st) SP)
                  = SP + Pos * ChunkSize (DescrOf (Memory st) SP)).
  { unfold SuperPage.AddressOfChunk. apply u64_small. consts. lia. }
  rewrite EAddr in *. rewrite Untag_ApplyAddressTag by assumption.
  exists Pos, Tag. split; [exact IC|]. split; [reflexivity|].
  split; [exact ET|reflexivity].
Qed.

(** The state after [TryAllocate] has handed out [p]. *)
Lemma Fresh_store Config st st' p SP i v SC T :
  WF st -> IsChunk st (Untag Config p) SP i ->
  ClassOf (Memory st) SP = SC ->
  Memory st' = Store8 (Memory st) (CellOf (Memory st) SP i) v ->
  u8 v = v ->
  NumSuperPages st' = NumSuperPages st ->
  GetMemoryTag Config (Memory st') (Untag Config p) = Ret T ->
  p = ApplyAddressTag Config (Untag Config p) T ->
  Fresh Config st' p SC v /\ KeepsData st st'.
Proof.
  intros W IC EC Em Ev En ET Ep. pose proof IC as (V & Hi & _).
  destruct (WF_store_cell st SP i v W V Hi) as [_ Hc]. st_simpl.
  assert (Hc' : ClassOf (Memory st') SP = ClassOf (Memory st) SP)
    by (rewrite Em; now apply Hc).
  split; [|now apply (KeepsData_store st st' SP i v)].
  exists SP, i, T. split; [apply (IsChunk_heap st st'); auto|].
  split; [now rewrite Hc'|]. split; [|split; assumption].
  rewrite (CellOf_eq _ _ SP i Hc'), Em, Load8_Store8_same. exact Ev.
Qed.

Lemma NewChunkState_u8 st : u8 (NewChunkState st) = NewChunkState st.
Proof. unfold NewChunkState. now destruct (_ =? 0). Qed.

Lemma NewChunkState_if st :
  (if negb (DataOnlyScopeLevel st =? 0) then USED_DATA else USED_MIXED)
  = NewChunkState st.
Proof. unfold NewChunkState. now destruct (_ =? 0). Qed.

Lemma TrySuperPages_fresh Config SC Offset n : forall I N st Res st',
  WF st -> 0 <= SC < kNumSizeClasses ->
  N = NumSuperPages st (RangeNum (SCDescrAt SCDescrTable SC)) ->
  0 <= I -> I + Z.of_nat n <= N -> 0 <= Offset <= N ->
  Allocator.TrySuperPages Config n I N Offset SC (SCDescrAt SCDescrTable SC) st
    = Ret (Res, st') ->
  Res <> 0 ->
  Fresh Config st' Res SC (NewChunkState st) /\ KeepsData st st'.
Proof.
  induction n as [|n IH]; intros I N st Res st' W HSC EN HI HIn HOff H HR.
  - cbn [Allocator.TrySuperPages] in H. apply Ret_inj in H.
    inversion H; subst. contradiction.
  - cbn [Allocator.TrySuperPages] in H.
    set (SCD := SCDescrAt SCDescrTable SC) in *.
    assert (G : Good SCD) by now apply SCDescrTable_Good.
    pose proof (good_range _ G) as Hr.
    pose proof (wf_num _ W _ Hr) as HN. rewrite <- EN in HN.
    set (Idx0 := u64 (I + Offset)) in *.
    set (Idx := if N <=? Idx0 then u64 (Idx0 - N) else Idx0) in *.
    assert (HIdx : 0 <= Idx < N).
    { unfold Idx, Idx0. rewrite (u64_small (I + Offset)) by (consts; lia).
      destruct (Z.leb_spec N (I + Offset));
        [rewrite u64_small by (consts; lia)|]; lia. }
    assert (V : ValidSP st (SPAddr (RangeNum SCD) Idx))
      by (exists (RangeNum SCD), Idx; rewrite <- EN; now repeat split).
    rewrite <- ClassOf_SPAddr in H by (try assumption; lia).
    destruct (Z.eqb_spec (ClassOf (Memory st) (SPAddr (RangeNum SCD) Idx)) SC)
      as [EC | _].
    + rewrite GetSuperPage_valid in H by (try assumption; lia).
      cbn [bind] in H. set (SP := SPAddr (RangeNum SCD) Idx) in *.
      set (st1 := set_PerSC_SP st (upd (TLS_PerSC_SP st) SC SP)) in *.
      assert (W1 : WF st1) by now apply WF_set_PerSC_SP.
      apply bind_Ret in H. destruct H as ([[R Hint] m] & ET & H).
      change (Memory st1) with (Memory st) in ET.
      pose proof ET as ET'.
      apply (TryAllocate_valid Config st SP SC) in ET; try assumption.
      destruct ET as [[-> ->] | (HR0 & _)].
      * cbn [Z.eqb] in H.
        set (st2 := set_PerSC_LastIdxHint _ _) in H.
        assert (W2 : WF st2)
          by (apply (WF_update st1); try reflexivity; exact W1).
        apply (IH (I + 1) N) in H; try assumption; try lia.
      * destruct (Z.eqb_spec R 0) as [E0|_]; [contradiction|].
        apply Ret_inj in H. inversion H; subst Res st'.
        destruct (TryAllocate_fresh Config st SP SC _ _ _ _ _ W V EC ET' HR0)
          as (i & T & IC & Em & EG & ER).
        rewrite NewChunkState_if in Em.
        eapply (Fresh_store Config st _ R SP i (NewChunkState st) SC T);
          try eassumption; try reflexivity.
        apply NewChunkState_u8.
    + apply (IH (I + 1) N) in H; try assumption; try lia.
Qed.

Lemma TrySuperPages_level Config SC SCD Offset N n : forall I st Res st',
  Allocator.TrySuperPages Config n I N Offset SC SCD st = Ret (Res, st') ->
  DataOnlyScopeLevel st' = DataOnlyScopeLevel st.
Proof.
  induction n as [|n IHn]; intros I st Res st' H;
    cbn [Allocator.TrySuperPages] in H.
  - apply Ret_inj in H. now inversion H.
  - destruct (_ =? SC) in H; [|now apply IHn in H].
    apply bind_Ret in H. destruct H as (SP0 & _ & H).
    apply bind_Ret in H. destruct H as ([[R0 H0] m0] & _ & H).
    destruct (R0 =? 0).
    + apply IHn in H. exact H.
    + apply Ret_inj in H. now inversion H.
Qed.

Lemma AllocateSuperPage_keeps Config st Size SC SCD Res st' :
  WF st -> 1 <= Size ->
  SizeToSizeClass SCDescrTable Size = (SC, SCD) ->
  NumSuperPages st (RangeNum SCD) < kMaxSuperPages ->
  Allocator.AllocateSuperPage Config st Size = Ret (Res, st') ->
  KeepsData st st'.
Proof.
  intros W HS HSC Hcap H.
  destruct (SizeToSizeClass_class _ _ _ HS HSC) as [HSCr ESCD].
  assert (G : Good SCD) by (subst SCD; now apply SCDescrTable_Good).
  pose proof (good_range _ G) as Hr. pose proof (good_size _ G) as Hsz.
  set (r := RangeNum SCD) in *. pose proof (wf_num _ W r Hr) as HN.
  unfold Allocator.AllocateSuperPage, Allocator.GetNumSuperPages in H.
  rewrite (wf_tbl _ W), HSC in H. fold r in H.
  rewrite GetSuperPage_valid in H by (try assumption; lia).
  cbn [bind] in H. unfold SetSizeClass, Shadow_Set in H.
  rewrite MetaPtr_SPAddr in H by (try assumption; lia).
  apply bind_Ret in H. destruct H as (m0 & E0 & H).
  apply trap_if_Ret in E0. destruct E0 as [_ E0].
  apply trap_if_Ret in E0. destruct E0 as [_ E0].
  apply Ret_inj in E0. subst m0.
  apply bind_Ret in H. destruct H as ([Rand m2] & E1 & H).
  apply Ret_inj in H. inversion H; subst Res st'; clear H.
  intros b SP' i' x IC Hx. st_simpl.
  destruct (data_place st b SP' i' x W IC Hx) as (HSP & Hin & _).
  pose proof IC as (V & _).
  destruct (ValidSP_range st SP' W V)
    as (_ & _ & _ & r' & idx' & Hr' & Hidx' & Hk' & ESP' & _).
  pose proof (wf_num _ W r' Hr') as HN'.
  rewrite (SeedMemoryTags_frame _ _ _ _ _ _ _ _ x E1) by
    (try (change (2 ^ 30) with 1073741824; lia); lia).
  rewrite Load8_Store8_other by (destruct Hr as [-> | ->]; consts; lia).
  apply Load8_mmap_fixed_other.
  rewrite ESP' in HSP. unfold SPAddr in *.
  destruct Hr as [-> | ->], Hr' as [-> | ->]; consts; lia.
Qed.

Lemma AllocateSlower_loop_fresh Config Size SC SCD fuel : forall st p st',
  WF st -> 1 <= Size -> SizeToSizeClass SCDescrTable Size = (SC, SCD) ->
  Allocator.AllocateSlower_loop Config fuel Size SC SCD st = Ret (p, st') ->
  NumSuperPages st' 0 <= kMaxSuperPages ->
  Fresh Config st' p SC (NewChunkState st) /\ KeepsData st st'.
Proof.
  induction fuel as [|fuel IH]; intros st p st' W HS HSC H Hcap;
    cbn [Allocator.AllocateSlower_loop] in H; [discriminate|].
  destruct (SizeToSizeClass_class _ _ _ HS HSC) as [HSCr ESCD].
  assert (G : Good SCD) by (subst SCD; now apply SCDescrTable_Good).
  pose proof (good_range _ G) as Hr.
  unfold Allocator.GetNumSuperPages in H.
  pose proof (wf_num _ W _ Hr) as HN.
  set (N := NumSuperPages st (RangeNum SCD)) in *.
  destruct (if N =? 0 then (TLS_Rand st, 0)
            else let '(Rand, r) := RandR (TLS_Rand st) in (Rand, r mod N))
    as [Rand Offset] eqn:EO.
  assert (HOff : 0 <= Offset <= N).
  { destruct (Z.eqb_spec N 0).
    - inversion EO; subst. lia.
    - destruct (RandR (TLS_Rand st)) as [R1 r]. inversion EO; subst.
      pose proof (Z.mod_pos_bound r N ltac:(lia)). lia. }
  set (st0 := set_Rand st Rand) in *.
  assert (W0 : WF st0) by (apply (WF_update st); try reflexivity; exact W).
  apply bind_Ret in H. destruct H as ([Res st1] & ET & H).
  rewrite ESCD in ET. pose proof ET as ET'.
  apply TrySuperPages_spec in ET; try assumption; try lia;
    [|now rewrite <- ESCD].
  destruct ET as [(-> & W1 & Em & En) | (HR & Post)].
  - cbn [Z.eqb] in H.
    apply bind_Ret in H. destruct H as ([R2 st2] & EA & H).
    set (st3 := set_PerSC_LastIdxHint st2 _) in H.
    destruct (AllocateSuperPage_lite _ _ _ _ _ (WF_Lite _ W1) EA) as [L2 E2].
    assert (L3 : Lite st3)
      by (destruct L2 as (A & B & C); unfold Lite; st_simpl; tauto).
    destruct (AllocateSlower_loop_lite _ _ _ _ _ _ _ _ L3 H) as [_ Hmono].
    change (NumSuperPages st3 0) with (NumSuperPages st2 0) in Hmono.
    rewrite HSC in E2. cbn [snd] in E2.
    assert (Hc1 : NumSuperPages st1 (RangeNum SCD) < kMaxSuperPages).
    { destruct Hr as [E | E]; rewrite E in *; cbn [Z.eqb] in E2.
      - lia.
      - eapply AllocateSuperPage_cap1; [exact W1| |exact EA].
        now rewrite HSC. }
    destruct (AllocateSuperPage_spec _ _ _ _ _ _ _ W1 HS HSC Hc1 EA)
      as (W2 & P12 & EL & _).
    pose proof (AllocateSuperPage_keeps _ _ _ _ _ _ _ W1 HS HSC Hc1 EA) as K12.
    assert (W3 : WF st3) by (apply (WF_update st2); try reflexivity; exact W2).
    apply IH in H; try assumption.
    destruct H as [F K].
    assert (EN : NewChunkState st3 = NewChunkState st).
    { unfold NewChunkState. change (DataOnlyScopeLevel st3)
        with (DataOnlyScopeLevel st2). rewrite EL.
      pose proof (TrySuperPages_level _ _ _ _ _ _ _ _ _ _ ET') as H.
      now rewrite H. }
    rewrite EN in F. split; [exact F|].
    apply (KeepsData_trans (fun _ => False) st st2 st').
    + apply Preserves_trans with (st2 := st1);
        [apply Preserves_same; [rewrite Em|rewrite En]; reflexivity|exact P12].
    + apply (KeepsData_trans (fun _ => False) st st1 st2).
      * apply Preserves_same; [rewrite Em|rewrite En]; reflexivity.
      * apply KeepsData_same. now rewrite Em.
      * exact K12.
    + intros b SP' i' x IC Hx. apply (K b SP' i' x IC Hx).
  - destruct (Z.eqb_spec Res 0) as [E0|_]; [contradiction|].
    apply Ret_inj in H. inversion H; subst p st'.
    apply TrySuperPages_fresh in ET'; try assumption; try lia.
    now rewrite <- ESCD.
Qed.

Lemma AllocateSlower_fresh Config self fuel st Size p st' :
  WF st -> 1 <= Size ->
  Allocator.AllocateSlower Config self fuel st Size = Ret (p, st') ->
  NumSuperPages st' 0 <= kMaxSuperPages ->
  Fresh Config st' p (fst (SizeToSizeClass SCDescrTable Size))
    (NewChunkState st) /\
  KeepsData st st'.
Proof.
  intros W HS H Hcap. unfold Allocator.AllocateSlower in H.
  rewrite (wf_once _ W) in H.
  destruct (TLS_Rand st =? 0); cbn [bind] in H.
  - st_simpl. rewrite (wf_tbl _ W) in H.
    destruct (SizeToSizeClass SCDescrTable Size) as [SC SCD] eqn:HSC.
    apply AllocateSlower_loop_fresh in H; try assumption.
    apply (WF_update st); try reflexivity; exact W.
  - rewrite (wf_tbl _ W) in H.
    destruct (SizeToSizeClass SCDescrTable Size) as [SC SCD] eqn:HSC.
    now apply AllocateSlower_loop_fresh in H.
Qed.

Lemma Allocate_fresh Config self fuel st Size p st' :
  WF st -> 1 <= Size ->
  Allocator.Allocate Config self fuel st Size = Ret (p, st') ->
  NumSuperPages st' 0 <= kMaxSuperPages ->
  Fresh Config st' p (fst (SizeToSizeClass SCDescrTable Size))
    (NewChunkState st) /\
  KeepsData st st'.
Proof.
  intros W HS H Hcap. unfold Allocator.Allocate in H.
  rewrite (wf_tbl _ W) in H.
  destruct (SizeToSizeClass SCDescrTable Size) as [SC SCD] eqn:HSC.
  destruct (SizeToSizeClass_class _ _ _ HS HSC) as [HSCr ESCD].
  cbn [fst].
  assert (HSC' : fst (SizeToSizeClass SCDescrTable Size) = SC)
    by now rewrite HSC.
  destruct (Z.eqb_spec (TLS_PerSC_SP st SC) 0) as [E0 | Hne]; cbn [negb] in H.
  - apply AllocateSlower_fresh in H; try assumption. now rewrite HSC' in H.
  - destruct (wf_persc _ W SC HSCr) as [E | [V EC]]; [contradiction|].
    apply bind_Ret in H. destruct H as ([[R Hint] m] & ET & H).
    rewrite ESCD in ET. pose proof ET as ET'.
    apply (TryAllocate_valid Config st _ SC) in ET; try assumption.
    destruct ET as [[-> ->] | (HR & _)].
    + cbn [Z.eqb negb] in H.
      set (st1 := set_PerSC_LastIdxHint _ _) in H.
      apply AllocateSlower_fresh in H; try assumption.
      * now rewrite HSC' in H.
      * apply (WF_update st); try reflexivity; exact W.
    + destruct (Z.eqb_spec R 0) as [E0|_]; [contradiction|]. cbn [negb] in H.
      apply Ret_inj in H. inversion H; subst p st'.
      destruct (TryAllocate_fresh Config st _ SC _ _ _ _ _ W V EC ET' HR)
        as (i & T & IC & Em & EG & ER).
      rewrite NewChunkState_if in Em.
      eapply (Fresh_store Config st _ R _ i (NewChunkState st) SC T);
        try eassumption; try reflexivity.
      apply NewChunkState_u8.
Qed.

Lemma KeepsData_ZeroState st : KeepsData ZeroState st.
Proof. intros b SP i x (V & _). now apply not_ValidSP_ZeroState in V. Qed.

Lemma Allocate_fresh_Callable Config self fuel st Size p st' :
  Callable st -> 1 <= Size ->
  Allocator.Allocate Config self fuel st Size = Ret (p, st') ->
  NumSuperPages st' 0 <= kMaxSuperPages ->
  Fresh Config st' p (fst (SizeToSizeClass SCDescrTable Size))
    (NewChunkState st) /\
  KeepsData st st' /\ WF st'.
Proof.
  intros [W | ->] HS H Hcap.
  - destruct (Allocate_fresh _ _ _ _ _ _ _ W HS H Hcap) as [F K].
    split; [exact F|]. split; [exact K|].
    apply (Allocate_WF _ _ _ _ _ _ _ W HS H Hcap).
  - split; [|split; [apply KeepsData_ZeroState|]].
    + destruct fuel as [|fuel];
        [rewrite Allocate_ZeroState_no_fuel in H; discriminate|].
      rewrite Allocate_ZeroState_loop in H.
      destruct (SizeToSizeClass SCDescrTable Size) as [SC SCD] eqn:HSC.
      apply AllocateSlower_loop_fresh in H; try assumption.
      * apply H.
      * apply WF_InitializedState.
    + apply (Allocate_Callable _ _ _ _ _ _ _ (or_intror eq_refl) HS H Hcap).
Qed.

(** ** The chunk an allocation returns *)

Lemma size_fits Size :
  1 <= Size <= kMaxSizeClass ->
  Size <= ChunkSize (SCDescrAt SCDescrTable
                       (fst (SizeToSizeClass SCDescrTable Size))).
Proof.
  intros Hn. change kMaxSizeClass with 262144 in Hn. unfold SizeToSizeClass.
  destruct (Z.leb_spec Size 256) as [Hs|Hl]; cbn [fst].
  - assert (Hq : 1 <= (Size + 15) / 16 <= 16) by (Z.div_mod_to_equations; lia).
    rewrite (u64_small (Size + 15)) by (consts; lia).
    rewrite (u64_small ((Size + 15) / 16 - 1)) by (consts; lia).
    rewrite u8_small by (consts; lia).
    rewrite SCDescrTable_first16 by lia.
    Z.div_mod_to_equations. lia.
  - destruct (SizeToSizeClass_loop_finds SCDescrTable
                (Z.to_nat kNumSizeClasses) 0 Size 66) as [r Hr];
      try (consts; lia).
    { change (ChunkSize (SCDescrAt SCDescrTable 66)) with 262144. lia. }
    rewrite Hr. cbn [fst].
    apply (SizeToSizeClass_loop_first SCDescrTable
             (Z.to_nat kNumSizeClasses) 0 Size r); try (consts; lia).
    exact Hr.
Qed.

Lemma Fresh_TagsAgree Config st p SC v :
  WF st -> Fresh Config st p SC v -> TagsAgree Config (Memory st) p.
Proof.
  intros W (SP & i & T & IC & _ & _ & ET & Ep) t Et HC.
  rewrite ET in Et. apply Ret_inj in Et. subst t.
  apply andb_true_iff in HC. destruct HC as [_ EA].
  destruct (IsChunk_range st _ SP i W IC) as (_ & _ & _ & Hin & _).
  rewrite Ep at 1. rewrite (GetAddressTag_tagged Config _ T EA Hin).
  change 15 with (Z.ones 4). rewrite Z.land_ones by lia. reflexivity.
Qed.

Lemma Fresh_pointer Config st p SC v :
  WF st -> Fresh Config st p SC v ->
  p <> 0 /\ p mod 16 = 0 /\ Allocator.IsMine Config p = true /\
  Allocator.GetPtrChunkSize Config st p
  = Ret (ChunkSize (SCDescrAt SCDescrTable SC)).
Proof.
  intros W (SP & i & T & IC & EC & _ & ET & Ep).
  destruct (IsChunk_range st _ SP i W IC) as (_ & _ & H16 & Hin & ERD & _).
  pose proof IC as (V & _).
  destruct (ValidSP_range st SP W V) as (Hal & Hsp & _).
  split; [|split; [|split]].
  - intros ->. rewrite Untag_0 in Hin. revert Hin. consts. lia.
  - rewrite <- H16. rewrite Ep at 1. apply mod_16_of_mod_pow40.
    apply ApplyAddressTag_low_bits. revert Hin. consts. lia.
  - rewrite Ep. now apply IsMine_tagged.
  - unfold Allocator.GetPtrChunkSize. fold (Untag Config p).
    rewrite ERD.
    replace (SP <? kAllocatorSpace) with false
      by (symmetry; apply Z.ltb_ge; lia).
    replace (kAllocatorSpace + kAllocatorSize <=? SP) with false
      by (symmetry; apply Z.leb_gt; lia).
    cbn [trap_if]. rewrite (A2SP_ok SP Hal Hsp). cbn [bind].
    rewrite (wf_tbl _ W), GetSCD_ok by assumption. cbn [bind].
    now rewrite EC.
Qed.


(** A run of one request is the call of [Allocate]. *)
Lemma RunCalls_single Config self fuel st Size :
  returns (RunCalls Config self fuel st [CallAllocate Size]) = true ->
  Allocator.Allocate Config self fuel st Size
  = Ret (hd 0 (returned (RunCalls Config self fuel st [CallAllocate Size])),
         final_state (RunCalls Config self fuel st [CallAllocate Size])).
Proof.
  cbn [RunCalls RunCall].
  destruct (Allocator.Allocate Config self fuel st Size) as [[p s]| |];
    cbn; intros H; try discriminate. reflexivity.
Qed.


(** ** The calls leave the contents of chunks alone *)

(** Where the state byte of chunk [Idx] of a super page lies. *)
Lemma State_place This d Idx :
  This mod kSuperPageSize = 0 ->
  kAllocatorSpace <= This < kAllocatorSpace + kAllocatorSize ->
  Good d -> 0 <= Idx < NumChunks d ->
  let S := SuperPage.State (NumChunks d) (RangeNum d) This + Idx in
  This <= S < This + kSuperPageSize \/
  kAllocatorSpace + kAllocatorSize <= S.
Proof.
  intros Hal Hsp G HIdx S.
  pose proof (good_meta d G) as Hmeta. pose proof (good_num d G) as Hnum.
  destruct (good_range d G) as [E | E].
  - left. unfold S. rewrite State_range0 by assumption. consts. lia.
  - right. destruct (good_range1 d G E) as [H512 _].
    destruct (Z_lt_le_dec This (kFirstSuperPage 1)) as [Hlo | Hhi].
    + unfold S, SuperPage.State, Shadow_GetShadowPtr. rewrite E.
      change (1 =? 1) with true. cbv iota.
      cbn [kShadowBeg kBeg kGranularity SecondRangeMeta]. consts.
      assert (E64 : u64 (This - 106102872080384)
                    = This - 106102872080384 + 18446744073709551616).
      { unfold u64. change (2 ^ 64) with 18446744073709551616.
        symmetry. apply Z.mod_unique with (q := -1); lia. }
      rewrite E64.
      assert (18014398509481984 - 536870912 <=
              (This - 106102872080384 + 18446744073709551616) / 1024
              < 18014398509481984) by (Z.div_mod_to_equations; lia).
      rewrite u64_small by (consts; lia). lia.
    + assert (Hj : 0 <= (This - kFirstSuperPage 1) / kSuperPageSize
                   < kMaxSuperPages)
        by (consts; Z.div_mod_to_equations; lia).
      assert (EThis : This = SPAddr 1 ((This - kFirstSuperPage 1) / kSuperPageSize))
        by (unfold SPAddr; consts; Z.div_mod_to_equations; lia).
      unfold S. rewrite EThis at 1. rewrite State_range1 by assumption.
      consts. lia.
Qed.

Lemma free_core_keeps Config st P SCD S T m1 NV m2 st' :
  WF st ->
  let This := RoundDownTo P kSuperPageSize in
  SuperPage.GetSCD (SCDescr st) (Memory st) This = Ret SCD ->
  SuperPage.ComputeStatePtr P SCD This = Ret S ->
  SuperPage.UpdateMemoryTagOnFree Config (Memory st) P (ChunkSize SCD)
    = Ret (T, m1) ->
  SuperPage.ExchangeAndCheckForDoubleFree m1 S NV = Ret m2 ->
  Memory st' = m2 ->
  KeepsData st st'.
Proof.
  intros W This EG EC EU EX Em.
  rewrite (wf_tbl _ W) in EG. apply GetSCD_inv in EG. destruct EG as [Hsp ->].
  fold (DescrOf (Memory st) This) in *.
  apply ComputeStatePtr_inv in EC. cbv zeta in EC.
  fold (DescrOf (Memory st) This) in EC.
  destruct EC as (Idx & G & HIdx & Hoff & ES).
  apply Exchange_inv in EX. destruct EX as [HU ->].
  assert (Hal : This mod kSuperPageSize = 0).
  { unfold This. change kSuperPageSize with (2 ^ 19).
    rewrite RoundDownTo_pow2 by lia. rewrite Z.mul_comm. apply Z.mod_mul. lia. }
  assert (Hframe : forall x, kAllocatorSpace <= x -> Load8 m1 x = Load8 (Memory st) x).
  { intros x Hx. eapply UpdateMemoryTagOnFree_frame; [exact EU| |exact Hx].
    pose proof (good_size _ G). change (2 ^ 30) with 1073741824. lia. }
  intros b SP i x IC Hx. rewrite Em.
  destruct (data_place st b SP i x W IC Hx) as (HSP & Hin & Hnc).
  rewrite Load8_Store8_other; [apply Hframe; lia|].
  intros ->.
  destruct (ValidSP_dec st This W Hal Hsp) as [V | NoV].
  - apply Hnc. exists This, Idx. now repeat split.
  - destruct (State_place This _ Idx Hal Hsp G HIdx) as [HS | HS];
      cbv zeta in HS; rewrite <- ES in HS; [|lia].
    pose proof IC as (VSP & _).
    destruct (ValidSP_range st SP W VSP) as (HalSP & _).
    assert (SP = This); [|subst SP; contradiction].
    revert Hal HalSP HSP HS. consts. intros. Z.div_mod_to_equations. lia.
Qed.

Lemma Deallocate_keeps Config st Ptr st' :
  WF st -> Allocator.Deallocate Config st Ptr = Ret st' -> KeepsData st st'.
Proof.
  intros W H. unfold Allocator.Deallocate in H.
  apply bind_Ret in H. destruct H as (P & ER & H).
  apply trap_if_Ret in H. destruct H as [_ H].
  apply trap_if_Ret in H. destruct H as [_ H].
  apply bind_Ret in H. destruct H as (m & ED & H).
  apply Ret_inj in H. subst st'.
  unfold SuperPage.Deallocate in ED.
  apply bind_Ret in ED. destruct ED as (SCD & EG & ED).
  apply bind_Ret in ED. destruct ED as (S & EC & ED).
  apply bind_Ret in ED. destruct ED as ([T m1] & EU & EX).
  eapply (free_core_keeps Config st); try eassumption; reflexivity.
Qed.

Lemma Quarantine_keeps Config st Ptr st' :
  WF st -> Allocator.Quarantine Config st Ptr = Ret st' -> KeepsData st st'.
Proof.
  intros W H. unfold Allocator.Quarantine in H.
  apply bind_Ret in H. destruct H as (P & ER & H).
  apply trap_if_Ret in H. destruct H as [_ H].
  apply trap_if_Ret in H. destruct H as [_ H].
  apply bind_Ret in H. destruct H as (SP & EA & H).
  apply A2SP_inv in EA. subst SP.
  apply bind_Ret in H. destruct H as ([Sz m] & EQ & H).
  apply Ret_inj in H. subst st'.
  unfold SuperPage.Quarantine in EQ.
  apply bind_Ret in EQ. destruct EQ as (SCD & EG & EQ).
  apply bind_Ret in EQ. destruct EQ as (S & EC & EQ).
  apply bind_Ret in EQ. destruct EQ as ([T m1] & EU & EQ).
  apply bind_Ret in EQ. destruct EQ as (m2 & EX & EQ).
  assert (m = m2)
    by (destruct (_ =? AVAILABLE) in EQ; apply Ret_inj in EQ; now inversion EQ).
  subst m2.
  eapply (free_core_keeps Config st); try eassumption; reflexivity.
Qed.

Lemma Scan_keeps st st' :
  WF st -> Allocator.Scan st = Ret st' -> KeepsData st st'.
Proof.
  intros W H.
  destruct (Scan_spec st W) as (m1 & s & E & _ & _ & _ & _ & _ & Hout & _).
  rewrite E in H. apply Ret_inj in H. subst s.
  intros b SP i x IC Hx. apply Hout.
  apply (data_place st b SP i x W IC Hx).
Qed.

Lemma ChunksStay_Preserves E st st' : Preserves E st st' -> ChunksStay st st'.
Proof.
  intros P b SP i IC. split; [now apply (IsChunk_Preserves E st)|].
  destruct IC as (V & _). apply DescrOf_eq. now apply (pres_class _ _ _ P).
Qed.

Lemma KeepsData_step st1 st2 st3 :
  ChunksStay st1 st2 -> KeepsData st1 st2 -> KeepsData st2 st3 ->
  KeepsData st1 st3.
Proof.
  intros C K12 K23 b SP i x IC Hx.
  rewrite <- (K12 b SP i x IC Hx). destruct (C b SP i IC) as [IC2 ED].
  apply (K23 b SP i x IC2). now rewrite ED.
Qed.

Lemma RunCall_keeps Config self fuel st c r st' :
  WF st -> ValidCall c ->
  RunCall Config self fuel st c = Ret (r, st') ->
  NumSuperPages st' 0 <= kMaxSuperPages ->
  WF st' /\ KeepsData st st' /\ ChunksStay st st'.
Proof.
  intros W Hv H Hcap.
  destruct c as [Size | Ptr | Ptr |].
  1-3: destruct (RunCall_touch _ _ _ _ _ _ _ W Hv (fun x => x) H Hcap)
         as (e & W1 & P & _ & _).
  1-3: split; [exact W1|]; split; [|exact (ChunksStay_Preserves _ _ _ P)].
  - cbn [RunCall] in H. apply bind_Ret in H. destruct H as ([p s] & E & H).
    apply Ret_inj in H. inversion H; subst r s. cbn [ValidCall] in Hv.
    destruct (Allocate_fresh _ _ _ _ _ _ _ W (proj1 Hv) E Hcap) as [_ K].
    exact K.
  - cbn [RunCall] in H. apply bind_Ret in H. destruct H as (s & E & H).
    apply Ret_inj in H. inversion H; subst r s.
    now apply (Deallocate_keeps Config st Ptr).
  - cbn [RunCall] in H. apply bind_Ret in H. destruct H as (s & E & H).
    apply Ret_inj in H. inversion H; subst r s.
    now apply (Quarantine_keeps Config st Ptr).
  - cbn [RunCall] in H. apply bind_Ret in H. destruct H as (s & E & H).
    apply Ret_inj in H. inversion H; subst r s.
    destruct (Scan_spec st W) as (m1 & s & E' & _ & W1 & En & HC & _).
    rewrite E in E'. apply Ret_inj in E'. subst s.
    split; [exact W1|]. split; [now apply Scan_keeps|].
    intros b SP i IC. pose proof IC as (V & _).
    split; [apply (IsChunk_heap st st'); auto|]. apply DescrOf_eq. auto.
Qed.



(** ** Use after free *)

Lemma GetMemoryTag_range Config m a T :
  GetMemoryTag Config m a = Ret T -> 0 <= T < 256.
Proof.
  unfold GetMemoryTag. destruct (negb _).
  - intros H. apply Ret_inj in H. subst. lia.
  - destruct (Shadow_IsMine SmallShadow a);
      [|destruct (Shadow_IsMine LargeShadow a); [|discriminate]];
      intros H; apply Ret_inj in H; subst; apply Load8_range.
Qed.

(** A free that returns leaves a chunk in a used state behind it. *)
Lemma free_was_used Config st p SP i st' :
  WF st -> IsChunk st (Untag Config p) SP i ->
  Allocator.Deallocate Config st p = Ret st' \/
  Allocator.Quarantine Config st p = Ret st' ->
  IsUsed (Load8 (Memory st) (CellOf (Memory st) SP i)).
Proof.
  intros W IC [E | E].
  - apply Deallocate_spec in E; [|exact W].
    destruct E as (_ & _ & _ & HU). now apply HU.
  - apply Quarantine_spec in E; [|exact W].
    destruct E as (T & (_ & _ & _ & HU) & _). now apply HU.
Qed.

(** With the tag shadow on, a free increments the memory tag of the
    chunk. *)
Lemma free_bumps_tag Config st p SP i T st' :
  WF st -> UseShadow Config = true ->
  IsChunk st (Untag Config p) SP i ->
  GetMemoryTag Config (Memory st) (Untag Config p) = Ret T ->
  TagsAgree Config (Memory st) p ->
  Allocator.Deallocate Config st p = Ret st' \/
  Allocator.Quarantine Config st p = Ret st' ->
  GetMemoryTag Config (Memory st') (Untag Config p) = Ret (u8 (T + 1)).
Proof.
  intros W ES IC ET HT EF.
  pose proof (free_was_used Config st p SP i st' W IC EF) as HU.
  destruct (free_explicit Config st p SP i W IC HU HT)
    as (T' & m1 & EU & ED & EQ).
  destruct (IsChunk_range st _ SP i W IC) as (Hlo & Hhi & _ & Hin & _ & _).
  pose proof IC as (V & Hi & _).
  destruct (ValidSP_range st SP W V) as (Hal & Hsp & G & _).
  pose proof (good_size _ G) as Hs.
  assert (Hcell : kAllocatorSpace <= CellOf (Memory st) SP i)
    by (apply (CellOf_not_meta st SP i 0 0 W V Hi); [now left|consts; lia]).
  assert (Em : exists v, Memory st'
                         = Store8 m1 (CellOf (Memory st) SP i) v).
  { destruct EF as [E | E].
    - rewrite ED in E. apply Ret_inj in E. subst st'. now eexists.
    - rewrite EQ in E. apply Ret_inj in E. subst st'. now eexists. }
  destruct Em as (v & Em). rewrite Em.
  rewrite (GetMemoryTag_ext Config m1)
    by (intros y Hy; apply Load8_Store8_other; lia).
  unfold SuperPage.UpdateMemoryTagOnFree in EU. rewrite ES in EU.
  cbn [negb] in EU. rewrite ET in EU. cbn [bind] in EU.
  apply bind_Ret in EU. destruct EU as (m1' & ESet & EU).
  apply Ret_inj in EU. inversion EU; subst T' m1'.
  rewrite (SetMemoryTag_at Config (Memory st) (Untag Config p)
             (ChunkSize (DescrOf (Memory st) SP)) (u8 (T + 1)) m1 _ ES)
    ; [| lia | | exact ESet | lia].
  - f_equal. unfold u8. apply Z.mod_mod. lia.
  - revert Hal Hsp Hlo Hhi. consts. intros. Z.div_mod_to_equations. lia.
Qed.

(** With the tag shadow and the aliases on, for a pointer that carries
    the memory tag of its chunk, as the pointers [Allocate] returns do:
    an access through it passes the check of [__mtm_access]; after a
    [Deallocate] or [Quarantine] of it has returned, an access through it
    stops the process, and so does a second [Deallocate] or [Quarantine],
    with the double-free report of the tag check. *)
Theorem use_after_free_detected Config st p SC v st' :
  WF st -> Fresh Config st p SC v ->
  UseShadow Config = true -> UseAliases Config = true ->
  Allocator.Deallocate Config st p = Ret st' \/
  Allocator.Quarantine Config st p = Ret st' ->
  Allocator.__mtm_access Config st p = Ret tt /\
  Allocator.__mtm_access Config st' p = Fatal F_builtin_trap /\
  Allocator.Deallocate Config st' p = Fatal F_TagDoubleFree /\
  Allocator.Quarantine Config st' p = Fatal F_TagDoubleFree.
Proof.
  intros W F ES EA EF.
  pose proof (Fresh_TagsAgree _ _ _ _ _ W F) as HT.
  destruct (Fresh_pointer _ _ _ _ _ W F) as (_ & _ & HM & _).
  destruct F as (SP & i & T & IC & _ & _ & ET & Ep).
  pose proof (free_bumps_tag Config st p SP i T st' W ES IC ET HT EF) as ET'.
  pose proof (GetMemoryTag_range _ _ _ _ ET) as HTr.
  assert (EAT : GetAddressTag p = Z.land T 15)
    by (apply (HT T ET); now rewrite ES, EA).
  assert (Hne : (GetAddressTag p =? Z.land (u8 (T + 1)) 15) = false).
  { apply Z.eqb_neq. rewrite EAT. change 15 with (Z.ones 4).
    rewrite !Z.land_ones by lia. unfold u8.
    change (2 ^ 8) with 256. change (2 ^ 4) with 16.
    Z.div_mod_to_equations. lia. }
  split; [|split; [|split]].
  - unfold Allocator.__mtm_access. rewrite HM. fold (Untag Config p).
    rewrite ET. cbn [bind]. now rewrite EAT, Z.eqb_refl.
  - unfold Allocator.__mtm_access. rewrite HM. fold (Untag Config p).
    rewrite ET'. cbn [bind]. now rewrite Hne.
  - unfold Allocator.Deallocate,
      Allocator.RemoveAddressTagAndCheckForDoubleFree.
    fold (Untag Config p). rewrite ET'. cbn [bind].
    now rewrite ES, EA, Hne.
  - unfold Allocator.Quarantine,
      Allocator.RemoveAddressTagAndCheckForDoubleFree.
    fold (Untag Config p). rewrite ET'. cbn [bind].
    now rewrite ES, EA, Hne.
Qed.

Lemma WF_one_tagged : WF one_tagged.
Proof.
  apply (RunCalls_noscan_WF TagAliasConfig 1 2 [CallAllocate 262144]
           (InitializedState 1)
           (returned (RunCalls TagAliasConfig 1 2 (InitializedState 1)
                        [CallAllocate 262144]))).
  - apply WF_InitializedState.
  - repeat constructor. intros [].
  - repeat constructor; unfold ValidCall;
      change (2 ^ 64) with 18446744073709551616; lia.
  - apply returns_Ret. vm_compute. reflexivity.
  - apply Z.leb_le. vm_compute. reflexivity.
Qed.

Lemma Fresh_tagged_pointer :
  Fresh TagAliasConfig one_tagged tagged_pointer
    (fst (SizeToSizeClass SCDescrTable 262144))
    (NewChunkState (InitializedState 1)).
Proof.
  apply (Allocate_fresh_Callable TagAliasConfig 1 2 (InitializedState 1)
           262144 tagged_pointer one_tagged).
  - left. apply WF_InitializedState.
  - lia.
  - apply RunCalls_single. vm_compute. reflexivity.
  - apply Z.leb_le. vm_compute. reflexivity.
Qed.

Lemma use_after_free_detected_witness :
  Allocator.__mtm_access TagAliasConfig one_tagged tagged_pointer = Ret tt /\
  Allocator.__mtm_access TagAliasConfig
    (state_of (Allocator.Deallocate TagAliasConfig one_tagged tagged_pointer))
    tagged_pointer = Fatal F_builtin_trap /\
  Allocator.Deallocate TagAliasConfig
    (state_of (Allocator.Deallocate TagAliasConfig one_tagged tagged_pointer))
    tagged_pointer = Fatal F_TagDoubleFree /\
  Allocator.Quarantine TagAliasConfig
    (state_of (Allocator.Deallocate TagAliasConfig one_tagged tagged_pointer))
    tagged_pointer = Fatal F_TagDoubleFree.
Proof.
  apply (use_after_free_detected TagAliasConfig one_tagged tagged_pointer
           (fst (SizeToSizeClass SCDescrTable 262144))
           (NewChunkState (InitializedState 1))).
  - exact WF_one_tagged.
  - exact Fresh_tagged_pointer.
  - reflexivity.
  - reflexivity.
  - left. apply returns_state. vm_compute. reflexivity.
Defined.

(** ** Freeing what was allocated *)

Lemma Freed_not_Live st st' a SP i v :
  Freed st st' a SP i v -> ~ IsUsed v -> ~ Live st' a.
Proof.
  intros (W' & _ & IC & Hv & _) Hn (SP' & i' & IC' & HU).
  destruct (IsChunk_inj st' a SP i SP' i' W' IC IC') as [<- <-].
  rewrite Hv in HU. contradiction.
Qed.

Lemma Freed_Live_other st st' a SP i v b :
  Freed st st' a SP i v -> b <> a -> Live st b -> Live st' b.
Proof.
  intros (_ & _ & _ & _ & Ho) Hne (SP' & i' & IC' & HU).
  destruct (Ho b SP' i' IC' Hne) as [IC2 E]. exists SP', i'.
  split; [exact IC2|]. now rewrite E.
Qed.

Lemma NewChunkState_used st : IsUsed (NewChunkState st).
Proof. unfold NewChunkState. destruct (_ =? 0); [left|right]; reflexivity. Qed.



(** ** QuarantineAndMaybeScan and free *)

Lemma Freed_Released st st' a SP i v :
  Freed st st' a SP i v -> ~ IsUsed v -> KeepsData st st' ->
  Released st st' a.
Proof.
  intros Fr Hn K. split; [apply Fr|].
  split; [now apply (Freed_not_Live _ _ _ _ _ _ Fr)|]. split; [|exact K].
  intros b SP' i' IC Hne _. destruct Fr as (_ & _ & _ & _ & Ho). now apply Ho.
Qed.

(** The heap of a state does not depend on the quarantine counters. *)
Lemma Released_counters st st1 st2 a :
  Released st st1 a ->
  Memory st2 = Memory st1 -> SCDescr st2 = SCDescr st1 ->
  InitAllOnce st2 = InitAllOnce st1 ->
  NumSuperPages st2 = NumSuperPages st1 ->
  TLS_PerSC_SP st2 = TLS_PerSC_SP st1 ->
  Released st st2 a.
Proof.
  intros (W1 & NL & Ho & K) Em Et Eo En Ep.
  assert (IC12 : forall b SP i, IsChunk st1 b SP i <-> IsChunk st2 b SP i).
  { intros b SP i. split; intros IC.
    - apply (IsChunk_heap st1 st2); auto. now rewrite Em.
    - apply (IsChunk_heap st2 st1); auto. now rewrite Em. }
  split; [apply (WF_update st1 st2 W1); auto; intros; now rewrite Em|].
  split; [|split].
  - intros (SP & i & IC & HU). apply NL. exists SP, i.
    split; [now apply IC12|]. now rewrite <- Em.
  - intros b SP i IC Hne HU. destruct (Ho b SP i IC Hne HU) as [IC1 E].
    split; [now apply IC12|]. now rewrite Em.
  - intros b SP i x IC Hx. rewrite Em. now apply (K b SP i x).
Qed.

Lemma Released_Scan st st1 st2 a :
  WF st -> Released st st1 a -> ChunksStay st st1 ->
  Allocator.Scan st1 = Ret st2 -> Released st st2 a.
Proof.
  intros W (W1 & NL & Ho & K) CS ES.
  destruct (Scan_spec st1 W1) as (m1 & s & E & _ & W2 & En & HC & _).
  rewrite ES in E. apply Ret_inj in E. subst s.
  split; [exact W2|]. split; [|split].
  - intros (SP & i & IC & HU). apply NL. exists SP, i.
    assert (IC1 : IsChunk st1 a SP i).
    { apply (IsChunk_heap st2 st1); auto.
      destruct IC as ((r & idx & Hr & Hidx & ->) & _). symmetry. apply HC.
      exists r, idx. rewrite En in Hidx. now repeat split. }
    split; [exact IC1|].
    destruct (Scan_cell st1 st2 a SP i W1 ES IC1) as (_ & _ & _ & H5 & H7 & Hx).
    cbv zeta in *.
    destruct (Z.eq_dec (Load8 (Memory st1) (CellOf (Memory st1) SP i))
                QUARANTINED) as [E5 | N5].
    { destruct (H5 E5) as [X|X]; rewrite X in HU; destruct HU; discriminate. }
    destruct (Z.eq_dec (Load8 (Memory st1) (CellOf (Memory st1) SP i))
                MARKED) as [E7 | N7].
    { rewrite (H7 E7) in HU. destruct HU; discriminate. }
    now rewrite <- (Hx N5 N7).
  - intros b SP i IC Hne HU. destruct (Ho b SP i IC Hne HU) as [IC1 E1].
    destruct (Scan_cell st1 st2 b SP i W1 ES IC1) as (_ & _ & IC2 & _ & _ & Hx).
    split; [exact IC2|]. cbv zeta in Hx. rewrite Hx; [exact E1| |];
      rewrite E1; destruct HU as [-> | ->]; discriminate.
  - apply (KeepsData_step st st1 st2 CS K). now apply Scan_keeps.
Qed.

(** The part of [QuarantineAndMaybeScan] that follows [Quarantine]
    returns, with or without a scan, and it keeps a chunk released that
    [Quarantine] released. *)
Lemma MaybeScan_ok Config st p Max st1 a :
  WF st -> Allocator.Quarantine Config st p = Ret st1 ->
  Released st st1 a ->
  exists st',
    Allocator.QuarantineAndMaybeScan Config st p Max = Ret st' /\
    Released st st' a.
Proof.
  intros W E R1.
  destruct (Quarantine_spec Config st p st1 W E) as (T & (_ & P & _) & _).
  pose proof (ChunksStay_Preserves _ _ _ P) as CS.
  unfold Allocator.QuarantineAndMaybeScan. rewrite E. cbn [bind].
  destruct (kSizeOfLocalQuarantine <=? TLS_LocalQuarantineSize st1);
    [|exists st1; now split].
  set (stX := set_LocalQuarantineSize _ 0).
  assert (RX : Released st stX a)
    by (apply (Released_counters st st1 stX); auto).
  destruct (_ <? _); [|exists stX; now split].
  destruct (_ <? _); [exists stX; now split|].
  destruct (Scan_spec stX (proj1 RX)) as (m1 & st2 & ES & _).
  exists st2. split; [exact ES|].
  apply (Released_Scan st stX st2 _ W RX); [|exact ES].
  intros b SP' i' ICb. destruct (CS b SP' i' ICb) as [IC1 ED].
  split; [|exact ED]. apply (IsChunk_heap st1 stX); auto.
Qed.

(** [QuarantineAndMaybeScan] of a pointer to a chunk in a used state,
    with a tag that passes the check, returns, whether it runs a scan or
    not: the invariant holds, the chunk is not allocated any more, every
    other allocated chunk keeps its state, and the contents of all chunks
    are what they were. *)
Theorem QuarantineAndMaybeScan_live Config st p SP i Max :
  WF st -> IsChunk st (Untag Config p) SP i ->
  IsUsed (Load8 (Memory st) (CellOf (Memory st) SP i)) ->
  TagsAgree Config (Memory st) p ->
  exists st',
    Allocator.QuarantineAndMaybeScan Config st p Max = Ret st' /\
    Released st st' (Untag Config p).
Proof.
  intros W IC HU HT.
  destruct (Quarantine_ok Config st p SP i W IC HU HT)
    as (st1 & v & E & Fr & Hv).
  apply (MaybeScan_ok Config st p Max st1 _ W E).
  apply (Freed_Released _ _ _ _ _ _ Fr Hv).
  now apply (Quarantine_keeps Config st p).
Qed.

Lemma QuarantineAndMaybeScan_live_witness :
  exists st',
    Allocator.QuarantineAndMaybeScan DefaultConfig one_allocated
      first_large_chunk 0 = Ret st' /\
    Released one_allocated st' (Untag DefaultConfig first_large_chunk).
Proof.
  apply (QuarantineAndMaybeScan_live DefaultConfig one_allocated
           first_large_chunk first_large_chunk 0 0).
  - exact WF_one_allocated.
  - exact IsChunk_first_large_chunk.
  - left. vm_compute. reflexivity.
  - apply TagsAgree_DefaultConfig.
Defined.



(** ** Powers of two *)

Lemma clz_from_log2 x : forall fuel i,
  Z.of_nat fuel = i + 1 -> 0 < x ->
  (forall j, i < j -> Z.testbit x j = false) ->
  clz_from fuel i x = 63 - Z.log2 x.
Proof.
  induction fuel as [|fuel IH]; intros i Hf Hx Hhi.
  - exfalso. pose proof (Z.bit_log2 x Hx) as B.
    rewrite Hhi in B; [discriminate|].
    pose proof (Z.log2_nonneg x). lia.
  - cbn [clz_from]. destruct (Z.testbit x i) eqn:Bi.
    + f_equal. pose proof (Z.bit_log2 x Hx) as B.
      destruct (Z.lt_trichotomy i (Z.log2 x)) as [L | [E | G]].
      * rewrite Hhi in B by assumption. discriminate.
      * exact E.
      * rewrite Z.bits_above_log2 in Bi by lia. discriminate.
    + apply IH; [lia|assumption|].
      intros j Hj. destruct (Z.eq_dec j i) as [-> | Hne]; [exact Bi|].
      apply Hhi. lia.
Qed.

Lemma MostSignificantSetBitIndex_log2 x :
  0 < x < 2 ^ 64 -> MostSignificantSetBitIndex x = Z.log2 x.
Proof.
  intros Hx. unfold MostSignificantSetBitIndex, builtin_clzl.
  assert (H64 : Z.log2 x < 64) by (apply Z.log2_lt_pow2; lia).
  pose proof (Z.log2_nonneg x) as H0.
  replace (u64 x) with x by (symmetry; apply u64_small; lia).
  rewrite (clz_from_log2 x 64 63); [| reflexivity | lia |].
  - replace (8 * 8 - 1 - (63 - Z.log2 x)) with (Z.log2 x) by lia.
    apply u64_small. change (2 ^ 64) with 18446744073709551616. lia.
  - intros j Hj. apply Z.bits_above_log2; lia.
Qed.

Lemma IsPowerOfTwo_pow2 k : 0 <= k < 64 -> IsPowerOfTwo (2 ^ k) = true.
Proof.
  intros Hk. unfold IsPowerOfTwo.
  assert (0 < 2 ^ k) by (apply Z.pow_pos_nonneg; lia).
  assert (2 ^ k < 2 ^ 64) by (apply Z.pow_lt_mono_r; lia).
  rewrite u64_small by lia.
  replace (2 ^ k - 1) with (Z.ones k) by (rewrite Z.ones_equiv; lia).
  rewrite Z.land_ones by lia. rewrite Z.mod_same by lia. reflexivity.
Qed.

Lemma IsPowerOfTwo_inv x :
  0 < x < 2 ^ 64 -> IsPowerOfTwo x = true -> x = 2 ^ Z.log2 x.
Proof.
  intros Hx H. unfold IsPowerOfTwo in H. apply Z.eqb_eq in H.
  rewrite u64_small in H by lia.
  destruct (Z.log2_spec x ltac:(lia)) as [Hlo Hhi].
  destruct (Z.eq_dec x (2 ^ Z.log2 x)) as [E | Hne]; [exact E|exfalso].
  assert (B1 : Z.testbit x (Z.log2 x) = true) by (apply Z.bit_log2; lia).
  assert (E1 : Z.log2 (x - 1) = Z.log2 x).
  { apply Z.log2_unique; [apply Z.log2_nonneg|]. lia. }
  assert (B2 : Z.testbit (x - 1) (Z.log2 x) = true).
  { rewrite <- E1. apply Z.bit_log2.
    assert (0 < 2 ^ Z.log2 x)
      by (apply Z.pow_pos_nonneg; [lia|apply Z.log2_nonneg]).
    lia. }
  assert (B : Z.testbit (Z.land x (x - 1)) (Z.log2 x) = true)
    by (rewrite Z.land_spec, B1, B2; reflexivity).
  rewrite H in B. rewrite Z.bits_0 in B. discriminate.
Qed.

(** [IsPowerOfTwo] holds of zero and of the powers of two, and of nothing
    else. *)
Theorem IsPowerOfTwo_spec x :
  0 <= x < 2 ^ 64 ->
  (IsPowerOfTwo x = true <-> x = 0 \/ exists k, 0 <= k < 64 /\ x = 2 ^ k).
Proof.
  intros Hx. split.
  - intros H. destruct (Z.eq_dec x 0) as [E | Hne]; [now left|right].
    exists (Z.log2 x). split.
    + split; [apply Z.log2_nonneg|apply Z.log2_lt_pow2; lia].
    + apply IsPowerOfTwo_inv; [lia|exact H].
  - intros [-> | (k & Hk & ->)]; [reflexivity|now apply IsPowerOfTwo_pow2].
Qed.

Lemma IsPowerOfTwo_spec_witness :
  IsPowerOfTwo 4096 = true <-> 4096 = 0 \/ exists k, 0 <= k < 64 /\ 4096 = 2 ^ k.
Proof.
  apply (IsPowerOfTwo_spec 4096). vm_compute. split; [discriminate|reflexivity].
Defined.

(** For a size from 1 to 2^63, [RoundUpToPowerOfTwo] gives the least power
    of two that is not below the size.  Above 2^63 the shift it would make
    is by 64 bits, which has no defined value. *)
Theorem RoundUpToPowerOfTwo_spec size :
  0 < size < 2 ^ 64 ->
  (size <= 2 ^ 63 ->
   exists k, 0 <= k < 64 /\ RoundUpToPowerOfTwo size = Some (2 ^ k) /\
             size <= 2 ^ k < 2 * size) /\
  (2 ^ 63 < size -> RoundUpToPowerOfTwo size = None).
Proof.
  intros Hs. unfold RoundUpToPowerOfTwo.
  destruct (Z.log2_spec size ltac:(lia)) as [Hlo Hhi].
  pose proof (Z.log2_nonneg size) as H0.
  assert (H64 : Z.log2 size < 64) by (apply Z.log2_lt_pow2; lia).
  rewrite Z.pow_succ_r in Hhi by assumption.
  destruct (IsPowerOfTwo size) eqn:EP.
  - pose proof (IsPowerOfTwo_inv size Hs EP) as E. split.
    + intros _. exists (Z.log2 size). split; [lia|]. split; [now rewrite <- E|lia].
    + intros Hbig. exfalso.
      assert (2 ^ Z.log2 size <= 2 ^ 63) by (apply Z.pow_le_mono_r; lia). lia.
  - rewrite MostSignificantSetBitIndex_log2 by assumption.
    assert (Hne : size <> 2 ^ Z.log2 size).
    { intros E. rewrite E, IsPowerOfTwo_pow2 in EP by lia. discriminate. }
    split.
    + intros Hle.
      assert (Z.log2 size < 63).
      { destruct (Z_lt_le_dec (Z.log2 size) 63) as [L | G]; [exact L|exfalso].
        assert (2 ^ 63 <= 2 ^ Z.log2 size) by (apply Z.pow_le_mono_r; lia).
        lia. }
      destruct (Z.ltb_spec (Z.log2 size + 1) 64); [|lia].
      exists (Z.log2 size + 1). split; [lia|].
      rewrite Z.shiftl_1_l.
      assert (2 ^ (Z.log2 size + 1) < 2 ^ 64) by (apply Z.pow_lt_mono_r; lia).
      assert (0 < 2 ^ (Z.log2 size + 1)) by (apply Z.pow_pos_nonneg; lia).
      rewrite u64_small by lia. split; [reflexivity|].
      replace (Z.log2 size + 1) with (Z.succ (Z.log2 size)) by lia.
      rewrite Z.pow_succ_r by assumption. lia.
    + intros Hbig.
      assert (63 <= Z.log2 size).
      { apply Z.log2_le_pow2; lia. }
      destruct (Z.ltb_spec (Z.log2 size + 1) 64); [lia|reflexivity].
Qed.

Lemma RoundUpToPowerOfTwo_spec_witness :
  (5 <= 2 ^ 63 ->
   exists k, 0 <= k < 64 /\ RoundUpToPowerOfTwo 5 = Some (2 ^ k) /\
             5 <= 2 ^ k < 2 * 5) /\
  (2 ^ 63 < 5 -> RoundUpToPowerOfTwo 5 = None).
Proof.
  apply (RoundUpToPowerOfTwo_spec 5). vm_compute. split; reflexivity.
Defined.

(** ** The configuration *)

Lemma EnvToLong_range env n d lo hi :
  lo <= hi -> lo <= d <= hi -> lo <= EnvToLong env n d lo hi <= hi.
Proof.
  intros H Hd. unfold EnvToLong. destruct (env n) as [v|]; [|exact Hd].
  destruct (Z.ltb_spec v lo); [lia|]. destruct (Z.ltb_spec hi v); lia.
Qed.

Lemma EnvToLong_id env n d lo hi v :
  env n = Some v -> lo <= v <= hi -> EnvToLong env n d lo hi = v.
Proof.
  intros E Hv. unfold EnvToLong. rewrite E.
  destruct (Z.ltb_spec v lo); [lia|]. destruct (Z.ltb_spec hi v); lia.
Qed.

(** Whatever the environment holds, [Init] leaves [UseTag] between 0 and
    2 and [QuarantineSize] and [ReleaseFreq] between 0 and 255: a value
    outside the range of a variable is replaced by the nearest bound, not
    cut to the width of the field.  With no variable set the
    configuration is [DefaultConfig]. *)
Theorem Init_clamps env c :
  let c' := MallocConfig_Init env false c in
  0 <= UseTag c' <= 2 /\
  0 <= QuarantineSize c' <= 255 /\
  0 <= ReleaseFreq c' <= 255 /\
  (forall v, env EnvNames.MTM_USE_TAG = Some v ->
     UseTag c' = Z.max 0 (Z.min 2 v)) /\
  (forall v, env EnvNames.MTM_QUARANTINE_SIZE = Some v ->
     QuarantineSize c' = Z.max 0 (Z.min 255 v)) /\
  ((forall n, env n = None) -> c' = DefaultConfig).
Proof.
  cbv zeta. unfold MallocConfig_Init.
  cbn [UseTag QuarantineSize ReleaseFreq].
  pose proof (EnvToLong_range env EnvNames.MTM_USE_TAG 0 0 2) as R1.
  pose proof (EnvToLong_range env EnvNames.MTM_QUARANTINE_SIZE 0 0 255) as R2.
  pose proof (EnvToLong_range env EnvNames.MTM_RELEASE_FREQ 0 0 255) as R3.
  change (2 ^ 2) with 4. change (2 ^ 8) with 256.
  rewrite !Z.mod_small by lia.
  split; [lia|]. split; [lia|]. split; [lia|]. split; [|split].
  - intros v E. unfold EnvToLong. rewrite E.
    destruct (Z.ltb_spec v 0); [lia|]. destruct (Z.ltb_spec 2 v); lia.
  - intros v E. unfold EnvToLong. rewrite E.
    destruct (Z.ltb_spec v 0); [lia|]. destruct (Z.ltb_spec 255 v); lia.
  - intros E. unfold EnvToBool, EnvToLong. rewrite !E. reflexivity.
Qed.

(** ** The large allocator *)

Lemma Load8_Store64_other m a v x :
  x < a \/ a + 8 <= x -> Load8 (Store64 m a v) x = Load8 m x.
Proof.
  intros H. unfold Store64. cbn [fold_left].
  rewrite !Load8_Store8_other by lia. reflexivity.
Qed.

Lemma Load64_Store64_other m a v b :
  b + 8 <= a \/ a + 8 <= b -> Load64 (Store64 m a v) b = Load64 m b.
Proof.
  intros H. unfold Load64. cbn [fold_right].
  rewrite !Load8_Store64_other by lia. reflexivity.
Qed.

Lemma Load64_Store64_same m a v :
  0 <= v < 2 ^ 64 -> Load64 (Store64 m a v) a = v.
Proof.
  intros Hv. unfold Load64, Store64. cbn [fold_right fold_left].
  repeat (rewrite ?Load8_Store8_same;
          rewrite ?Load8_Store8_other by lia).
  unfold u8. rewrite !Z.shiftr_div_pow2 by lia.
  change (2 ^ 64) with 18446744073709551616 in Hv.
  change (2 ^ 8) with 256.
  change (2 ^ (8 * 0)) with 1. change (2 ^ (8 * 1)) with 256.
  change (2 ^ (8 * 2)) with 65536. change (2 ^ (8 * 3)) with 16777216.
  change (2 ^ (8 * 4)) with 4294967296.
  change (2 ^ (8 * 5)) with 1099511627776.
  change (2 ^ (8 * 6)) with 281474976710656.
  change (2 ^ (8 * 7)) with 72057594037927936.
  Z.div_mod_to_equations. lia.
Qed.

Lemma RoundUpTo_page Size :
  0 <= Size -> Size + 4096 <= 2 ^ 64 ->
  RoundUpTo Size LargeAllocator.kCpuPageSize = 4096 * ((Size + 4095) / 4096).
Proof.
  intros H0 H. change LargeAllocator.kCpuPageSize with (2 ^ 12).
  rewrite RoundUpTo_pow2 by lia. change (2 ^ 12) with 4096.
  rewrite u64_small by lia. f_equal. f_equal. lia.
Qed.

(** The memory [Allocate] leaves, with the address it returns. *)
Lemma LargeAllocator_Allocate_ok m Header Size :
  0 <= Size -> 0 <= Header -> Header + Size + 2 * 4096 <= 2 ^ 64 ->
  let R := RoundUpTo Size LargeAllocator.kCpuPageSize in
  Size <= R < Size + 4096 /\ R mod 4096 = 0 /\
  LargeAllocator.Allocate Header m Size
  = Ret (Header + 4096,
         Store64 (Store64 (Store64 (mmap_fixed m Header (R + 4096))
                             Header LargeAllocator.kLeftHeaderMagic)
                    (Header + 8) (R + 4096))
           (Header + 16) LargeAllocator.kRightHeaderMagic).
Proof.
  intros HS HH Hfit R.
  assert (ER : R = 4096 * ((Size + 4095) / 4096))
    by (apply RoundUpTo_page; lia).
  assert (HR : Size <= R < Size + 4096 /\ R mod 4096 = 0).
  { rewrite ER. split; [Z.div_mod_to_equations; lia|].
    rewrite Z.mul_comm. apply Z.mod_mul. lia. }
  split; [apply HR|]. split; [apply HR|].
  unfold LargeAllocator.Allocate. fold R.
  change LargeAllocator.kCpuPageSize with 4096.
  change (8 * (4096 / 8)) with 4096. change (8 * 1) with 8.
  change (8 * 2) with 16.
  destruct (Z.eqb_spec Header (2 ^ 64 - 1)) as [E | _]; [lia|].
  cbn [trap_if]. rewrite !u64_small by lia. reflexivity.
Qed.

(** [Allocate] of the large allocator, when the mapping succeeds and lies
    in the address space: the pointer is one page above the mapping,
    [GetPtrChunkSize] gives for it the size rounded up to whole pages,
    which is not below the size asked for, the bytes of the block read as
    zero, and nothing outside the mapping has changed. *)
Theorem LargeAllocator_round_trip m Header Size :
  0 <= Size -> 0 <= Header -> Header + Size + 2 * 4096 <= 2 ^ 64 ->
  let R := RoundUpTo Size LargeAllocator.kCpuPageSize in
  exists m',
    LargeAllocator.Allocate Header m Size = Ret (Header + 4096, m') /\
    LargeAllocator.GetPtrChunkSize m' (Header + 4096) = Ret R /\
    Size <= R < Size + 4096 /\ R mod 4096 = 0 /\
    (forall x, Header + 4096 <= x < Header + 4096 + R -> Load8 m' x = 0) /\
    (forall x, x < Header \/ Header + 4096 + R <= x -> Load8 m' x = Load8 m x).
Proof.
  intros HS HH Hfit R.
  destruct (LargeAllocator_Allocate_ok m Header Size HS HH Hfit)
    as (HR & HR0 & E).
  fold R in HR, HR0, E. eexists. split; [exact E|].
  split; [|split; [exact HR|split; [exact HR0|split]]].
  - unfold LargeAllocator.GetPtrChunkSize, LargeAllocator.GetHeader.
    change LargeAllocator.kCpuPageSize with 4096.
    change (8 * (4096 / 8)) with 4096. change (8 * 1) with 8.
    change (8 * 2) with 16.
    replace (Header + 4096 - 4096) with Header by lia.
    rewrite !u64_small by lia.
    rewrite !Load64_Store64_other by lia.
    rewrite Load64_Store64_same by (vm_compute; split; [discriminate|reflexivity]).
    rewrite Z.eqb_refl. cbn [negb andb trap_if bind].
    rewrite (u64_small (Header + 8)) by lia.
    rewrite Load64_Store64_other by lia.
    rewrite Load64_Store64_same by lia.
    f_equal. replace (R + 4096 - 4096) with R by lia. apply u64_small. lia.
  - intros x Hx. rewrite !Load8_Store64_other by lia.
    apply Load8_mmap_fixed_in. lia.
  - intros x Hx. rewrite !Load8_Store64_other by lia.
    apply Load8_mmap_fixed_other. lia.
Qed.

Lemma LargeAllocator_round_trip_witness :
  exists m',
    LargeAllocator.Allocate 0x7f0000000000 (fun _ => 0) 300000
    = Ret (0x7f0000000000 + 4096, m') /\
    LargeAllocator.GetPtrChunkSize m' (0x7f0000000000 + 4096)
    = Ret (RoundUpTo 300000 LargeAllocator.kCpuPageSize) /\
    300000 <= RoundUpTo 300000 LargeAllocator.kCpuPageSize < 300000 + 4096 /\
    RoundUpTo 300000 LargeAllocator.kCpuPageSize mod 4096 = 0 /\
    (forall x, 0x7f0000000000 + 4096 <= x
               < 0x7f0000000000 + 4096
                 + RoundUpTo 300000 LargeAllocator.kCpuPageSize ->
       Load8 m' x = 0) /\
    (forall x, x < 0x7f0000000000 \/
               0x7f0000000000 + 4096
               + RoundUpTo 300000 LargeAllocator.kCpuPageSize <= x ->
       Load8 m' x = Load8 (fun _ => 0) x).
Proof.
  apply (LargeAllocator_round_trip (fun _ => 0) 0x7f0000000000 300000).
  - lia.
  - lia.
  - vm_compute. discriminate.
Defined.

(** [GetHeader] stops the process only when both magic words of the
    header are wrong.  After [Allocate], a header whose left or whose
    right magic word has been overwritten is still accepted, and
    [GetPtrChunkSize] reads the size from it; with both overwritten by
    other values the check traps. *)
Theorem LargeAllocator_header_check m Header Size v w :
  0 <= Size -> 0 <= Header -> Header + Size + 2 * 4096 <= 2 ^ 64 ->
  0 <= v < 2 ^ 64 -> 0 <= w < 2 ^ 64 ->
  v <> LargeAllocator.kLeftHeaderMagic ->
  w <> LargeAllocator.kRightHeaderMagic ->
  let R := RoundUpTo Size LargeAllocator.kCpuPageSize in
  exists m',
    LargeAllocator.Allocate Header m Size = Ret (Header + 4096, m') /\
    LargeAllocator.GetPtrChunkSize (Store64 m' Header v) (Header + 4096)
    = Ret R /\
    LargeAllocator.GetPtrChunkSize (Store64 m' (Header + 16) w) (Header + 4096)
    = Ret R /\
    LargeAllocator.GetPtrChunkSize
      (Store64 (Store64 m' Header v) (Header + 16) w) (Header + 4096)
    = Fatal F_TRAP.
Proof.
  intros HS HH Hfit Hv Hw Nv Nw R.
  destruct (LargeAllocator_Allocate_ok m Header Size HS HH Hfit)
    as (HR & HR0 & E).
  fold R in HR, HR0, E. eexists. split; [exact E|].
  assert (ML : 0 <= LargeAllocator.kLeftHeaderMagic < 2 ^ 64)
    by (vm_compute; split; [discriminate|reflexivity]).
  assert (MR : 0 <= LargeAllocator.kRightHeaderMagic < 2 ^ 64)
    by (vm_compute; split; [discriminate|reflexivity]).
  unfold LargeAllocator.GetPtrChunkSize, LargeAllocator.GetHeader.
  change LargeAllocator.kCpuPageSize with 4096.
  change (8 * (4096 / 8)) with 4096. change (8 * 1) with 8.
  change (8 * 2) with 16.
  replace (Header + 4096 - 4096) with Header by lia.
  rewrite !u64_small by lia.
  split; [|split].
  - rewrite Load64_Store64_same by assumption.
    rewrite !(Load64_Store64_other _ Header) by lia.
    rewrite !Load64_Store64_same by lia.
    rewrite (Z.eqb_refl LargeAllocator.kRightHeaderMagic).
    rewrite andb_false_r. cbn [negb trap_if bind].
    rewrite (u64_small (Header + 8)) by lia.
    rewrite !Load64_Store64_other by lia.
    rewrite Load64_Store64_same by lia.
    f_equal. replace (R + 4096 - 4096) with R by lia. apply u64_small. lia.
  - rewrite Load64_Store64_same by assumption.
    rewrite !(Load64_Store64_other _ (Header + 16)) by lia.
    rewrite (Load64_Store64_other _ (Header + 8)) by lia.
    rewrite !Load64_Store64_same by lia.
    rewrite (Z.eqb_refl LargeAllocator.kLeftHeaderMagic).
    cbn [negb andb trap_if bind].
    rewrite (u64_small (Header + 8)) by lia.
    rewrite !Load64_Store64_other by lia.
    rewrite Load64_Store64_same by lia.
    f_equal. replace (R + 4096 - 4096) with R by lia. apply u64_small. lia.
  - rewrite Load64_Store64_same by assumption.
    rewrite (Load64_Store64_other _ (Header + 16)) by lia.
    rewrite Load64_Store64_same by assumption.
    destruct (Z.eqb_spec v LargeAllocator.kLeftHeaderMagic); [contradiction|].
    destruct (Z.eqb_spec w LargeAllocator.kRightHeaderMagic); [contradiction|].
    reflexivity.
Qed.

Lemma LargeAllocator_header_check_witness :
  exists m',
    LargeAllocator.Allocate 0x7f0000000000 (fun _ => 0) 300000
    = Ret (0x7f0000000000 + 4096, m') /\
    LargeAllocator.GetPtrChunkSize (Store64 m' 0x7f0000000000 0)
      (0x7f0000000000 + 4096)
    = Ret (RoundUpTo 300000 LargeAllocator.kCpuPageSize) /\
    LargeAllocator.GetPtrChunkSize (Store64 m' (0x7f0000000000 + 16) 0)
      (0x7f0000000000 + 4096)
    = Ret (RoundUpTo 300000 LargeAllocator.kCpuPageSize) /\
    LargeAllocator.GetPtrChunkSize
      (Store64 (Store64 m' 0x7f0000000000 0) (0x7f0000000000 + 16) 0)
      (0x7f0000000000 + 4096)
    = Fatal F_TRAP.
Proof.
  apply (LargeAllocator_header_check (fun _ => 0) 0x7f0000000000 300000 0 0).
  - lia.
  - lia.
  - vm_compute. discriminate.
  - vm_compute. split; [discriminate|reflexivity].
  - vm_compute. split; [discriminate|reflexivity].
  - vm_compute. discriminate.
  - vm_compute. discriminate.
Defined.

(** ** The size class of a super page *)

Lemma GoodShadow_SuperPageMetadata : GoodShadow SuperPageMetadata.
Proof.
  repeat split; try (vm_compute; reflexivity); vm_compute; discriminate.
Qed.

Lemma MetaPtr_inside SP p :
  kAllocatorSpace <= SP -> SP mod kSuperPageSize = 0 ->
  SP <= p < SP + kSuperPageSize -> p < kAllocatorSpace + kAllocatorSize ->
  Shadow_GetShadowPtr SuperPageMetadata p
  = Shadow_GetShadowPtr SuperPageMetadata SP.
Proof.
  intros HS Hal Hp Hend.
  destruct (ShadowPtr_value SuperPageMetadata p GoodShadow_SuperPageMetadata)
    as [-> _]; [cbn [kBeg kSize SuperPageMetadata]; lia|].
  destruct (ShadowPtr_value SuperPageMetadata SP GoodShadow_SuperPageMetadata)
    as [-> _]; [cbn [kBeg kSize SuperPageMetadata]; lia|].
  f_equal. cbn [kBeg kGranularity SuperPageMetadata].
  revert HS Hal Hp. consts. intros. Z.div_mod_to_equations. lia.
Qed.

Lemma MetaPtr_outside SP p :
  kAllocatorSpace <= SP < kAllocatorSpace + kAllocatorSize ->
  SP mod kSuperPageSize = 0 ->
  kAllocatorSpace <= p < kAllocatorSpace + kAllocatorSize ->
  ~ (SP <= p < SP + kSuperPageSize) ->
  Shadow_GetShadowPtr SuperPageMetadata p
  <> Shadow_GetShadowPtr SuperPageMetadata SP.
Proof.
  intros HS Hal Hp Hout.
  destruct (ShadowPtr_value SuperPageMetadata p GoodShadow_SuperPageMetadata)
    as [-> _]; [cbn [kBeg kSize SuperPageMetadata]; lia|].
  destruct (ShadowPtr_value SuperPageMetadata SP GoodShadow_SuperPageMetadata)
    as [-> _]; [cbn [kBeg kSize SuperPageMetadata]; lia|].
  cbn [kShadowBeg kBeg kGranularity SuperPageMetadata].
  revert HS Hal Hp Hout. consts. intros. Z.div_mod_to_equations. lia.
Qed.

(** [SetSizeClass] and [GetSizeClass]: when [SetSizeClass(SP, SC)]
    returns, [SP] is the address of a super page of the allocator space,
    [GetSizeClass] gives the low byte of [SC] for every address of that
    super page, and what it gave before for every address of the other
    super pages.  Outside the allocator space both stop the process. *)
Theorem SizeClass_round_trip m SP SC m' :
  SetSizeClass m SP SC = Ret m' ->
  (kAllocatorSpace <= SP < kAllocatorSpace + kAllocatorSize /\
   SP mod kSuperPageSize = 0) /\
  (forall p, SP <= p < SP + kSuperPageSize ->
     GetSizeClass m' p = Ret (u8 SC)) /\
  (forall p, kAllocatorSpace <= p < kAllocatorSpace + kAllocatorSize ->
     ~ (SP <= p < SP + kSuperPageSize) ->
     GetSizeClass m' p = GetSizeClass m p) /\
  (forall p, p < kAllocatorSpace \/ kAllocatorSpace + kAllocatorSize <= p ->
     GetSizeClass m' p = Fatal F_TRAP /\
     SetSizeClass m' p SC = Fatal F_TRAP).
Proof.
  intros H. unfold SetSizeClass in H.
  apply trap_if_Ret in H. destruct H as [HM H].
  unfold Shadow_Set in H. apply trap_if_Ret in H. destruct H as [HC H].
  apply Ret_inj in H. subst m'.
  apply negb_false_iff in HM. unfold Shadow_IsMine in HM.
  cbn [kBeg kSize SuperPageMetadata] in HM.
  apply andb_true_iff in HM. destruct HM as [H1 H2].
  apply Z.leb_le in H1. apply Z.ltb_lt in H2.
  apply negb_false_iff, Z.eqb_eq in HC.
  cbn [kGranularity SuperPageMetadata] in HC.
  assert (Hend : SP + kSuperPageSize <= kAllocatorSpace + kAllocatorSize).
  { revert H1 H2 HC. consts. intros. Z.div_mod_to_equations. lia. }
  assert (Mine : forall p mm,
            kAllocatorSpace <= p < kAllocatorSpace + kAllocatorSize ->
            GetSizeClass mm p = Ret (Shadow_Get SuperPageMetadata mm p)).
  { intros p mm Hp. unfold GetSizeClass, Shadow_IsMine.
    cbn [kBeg kSize SuperPageMetadata].
    destruct (Z.leb_spec kAllocatorSpace p); [|lia].
    destruct (Z.ltb_spec p (kAllocatorSpace + kAllocatorSize)); [|lia].
    reflexivity. }
  split; [split; [lia|exact HC]|]. split; [|split].
  - intros p Hp. rewrite Mine by lia. f_equal. unfold Shadow_Get.
    rewrite (MetaPtr_inside SP p) by lia. apply Load8_Store8_same.
  - intros p Hp Hout. rewrite !Mine by lia. f_equal. unfold Shadow_Get.
    apply Load8_Store8_other. apply MetaPtr_outside; try assumption. lia.
  - intros p Hp. unfold GetSizeClass, SetSizeClass, Shadow_IsMine.
    cbn [kBeg kSize SuperPageMetadata].
    destruct (Z.leb_spec kAllocatorSpace p);
      destruct (Z.ltb_spec p (kAllocatorSpace + kAllocatorSize));
      cbn [andb negb trap_if]; try lia; split; reflexivity.
Qed.

Lemma SizeClass_round_trip_witness :
  (kAllocatorSpace <= kFirstSuperPage 1 < kAllocatorSpace + kAllocatorSize /\
   kFirstSuperPage 1 mod kSuperPageSize = 0) /\
  (forall p, kFirstSuperPage 1 <= p < kFirstSuperPage 1 + kSuperPageSize ->
     GetSizeClass (Store8 (fun _ => 0) (kMeta 1) 300) p = Ret (u8 300)) /\
  (forall p, kAllocatorSpace <= p < kAllocatorSpace + kAllocatorSize ->
     ~ (kFirstSuperPage 1 <= p < kFirstSuperPage 1 + kSuperPageSize) ->
     GetSizeClass (Store8 (fun _ => 0) (kMeta 1) 300) p
     = GetSizeClass (fun _ => 0) p) /\
  (forall p, p < kAllocatorSpace \/ kAllocatorSpace + kAllocatorSize <= p ->
     GetSizeClass (Store8 (fun _ => 0) (kMeta 1) 300) p = Fatal F_TRAP /\
     SetSizeClass (Store8 (fun _ => 0) (kMeta 1) 300) p 300 = Fatal F_TRAP).
Proof.
  apply (SizeClass_round_trip (fun _ => 0) (kFirstSuperPage 1) 300).
  reflexivity.
Defined.

(** ** Counting states *)

Lemma CountStates_from_Move S m m' : forall n i,
  (forall j, i <= j < i + Z.of_nat n ->
     Load8 m' (S + j)
     = u8 (SuperPage.MoveFromQuarantineToAvailable_CB (Load8 m (S + j)))) ->
  let C St mm := SuperPage.CountStates_from n i S St mm in
  C QUARANTINED m' = C MARKED m /\
  C MARKED m' = 0 /\
  C AVAILABLE m' = C AVAILABLE m + C QUARANTINED m /\
  0 <= C AVAILABLE m /\ 0 <= C QUARANTINED m /\ 0 <= C MARKED m /\
  C AVAILABLE m + C QUARANTINED m + C MARKED m <= Z.of_nat n.
Proof.
  induction n as [|n IH]; intros i H; cbv zeta;
    cbn [SuperPage.CountStates_from]; [lia|].
  destruct (IH (i + 1)) as (I1 & I2 & I3 & I4 & I5 & I6 & I7).
  { intros j Hj. apply H. lia. }
  cbv zeta in I1, I2, I3, I4, I5, I6, I7.
  pose proof (H i ltac:(lia)) as Hi.
  pose proof (Load8_range m (S + i)) as Hv.
  destruct (Move_CB_cases (Load8 m (S + i)) Hv) as (M5 & M7 & Mx).
  rewrite Hi.
  assert (K : AVAILABLE = 0 /\ QUARANTINED = 5 /\ MARKED = 7)
    by (repeat split; reflexivity).
  destruct (Z.eq_dec (Load8 m (S + i)) QUARANTINED) as [E5 | N5];
    [rewrite (M5 E5), E5
    |destruct (Z.eq_dec (Load8 m (S + i)) MARKED) as [E7 | N7];
     [rewrite (M7 E7), E7|rewrite (Mx N5 N7)]];
    repeat match goal with
      | |- context [?a =? ?b] => destruct (Z.eqb_spec a b)
      end; lia.
Qed.

(** [MoveFromQuarantineToAvailable] on a created super page, in numbers:
    afterwards [CountMarked] is zero, [CountQuarantined] is what
    [CountMarked] was, and [CountAvailable] has grown by what
    [CountQuarantined] was.  The three counts together never exceed the
    number of chunks of the super page. *)
Theorem MoveFromQuarantineToAvailable_counts st SP :
  WF st -> ValidSP st SP ->
  let tbl := SCDescr st in
  exists m' a q k,
    SuperPage.CountAvailable tbl (Memory st) SP = Ret a /\
    SuperPage.CountQuarantined tbl (Memory st) SP = Ret q /\
    SuperPage.CountMarked tbl (Memory st) SP = Ret k /\
    SuperPage.MoveFromQuarantineToAvailable tbl (Memory st) SP = Ret m' /\
    SuperPage.CountAvailable tbl m' SP = Ret (a + q) /\
    SuperPage.CountQuarantined tbl m' SP = Ret k /\
    SuperPage.CountMarked tbl m' SP = Ret 0 /\
    0 <= a /\ 0 <= q /\ 0 <= k /\
    a + q + k <= NumChunks (DescrOf (Memory st) SP).
Proof.
  intros W V tbl.
  destruct (ValidSP_range st SP W V)
    as (_ & Hsp & G & r & idx & Hr & Hidx & Hk & ESP & _).
  destruct (Move_valid st W (Memory st) SP V ltac:(reflexivity))
    as (m' & EM & Hin & Hout).
  assert (EC : ClassOf m' SP = ClassOf (Memory st) SP).
  { rewrite ESP, !ClassOf_SPAddr by (try assumption; lia).
    apply Hout. intros i Hi E. symmetry in E. revert E.
    apply (CellOf_not_meta st SP i r idx W V Hi Hr). lia. }
  pose proof (good_num _ G) as Hn.
  set (d := DescrOf (Memory st) SP) in *.
  destruct (CountStates_from_Move
              (SuperPage.State (NumChunks d) (RangeNum d) SP)
              (Memory st) m' (Z.to_nat (NumChunks d)) 0)
    as (C1 & C2 & C3 & C4 & C5 & C6 & C7).
  { intros j Hj. rewrite Z2Nat.id in Hj by lia. apply (Hin j). lia. }
  cbv zeta in C1, C2, C3, C4, C5, C6, C7. rewrite Z2Nat.id in C7 by lia.
  assert (EG : forall St mm, ClassOf mm SP = ClassOf (Memory st) SP ->
            SuperPage.CountStates tbl St mm SP
            = Ret (SuperPage.CountStates_from (Z.to_nat (NumChunks d)) 0
                     (SuperPage.State (NumChunks d) (RangeNum d) SP) St mm)).
  { intros St mm E. unfold SuperPage.CountStates.
    rewrite GetSCD_ok by assumption. cbn [bind]. rewrite E.
    unfold tbl. rewrite (wf_tbl _ W). reflexivity. }
  unfold SuperPage.CountAvailable, SuperPage.CountQuarantined,
    SuperPage.CountMarked.
  exists m'. eexists. eexists. eexists.
  rewrite !(EG _ (Memory st)) by reflexivity. rewrite !(EG _ m') by exact EC.
  split; [reflexivity|]. split; [reflexivity|]. split; [reflexivity|].
  split; [exact EM|].
  split; [now rewrite C3|]. split; [now rewrite C1|]. split; [now rewrite C2|].
  repeat split; assumption.
Qed.

Lemma MoveFromQuarantineToAvailable_counts_witness :
  let tbl := SCDescr one_allocated in
  exists m' a q k,
    SuperPage.CountAvailable tbl (Memory one_allocated) first_large_chunk
    = Ret a /\
    SuperPage.CountQuarantined tbl (Memory one_allocated) first_large_chunk
    = Ret q /\
    SuperPage.CountMarked tbl (Memory one_allocated) first_large_chunk
    = Ret k /\
    SuperPage.MoveFromQuarantineToAvailable tbl (Memory one_allocated)
      first_large_chunk = Ret m' /\
    SuperPage.CountAvailable tbl m' first_large_chunk = Ret (a + q) /\
    SuperPage.CountQuarantined tbl m' first_large_chunk = Ret k /\
    SuperPage.CountMarked tbl m' first_large_chunk = Ret 0 /\
    0 <= a /\ 0 <= q /\ 0 <= k /\
    a + q + k
    <= NumChunks (DescrOf (Memory one_allocated) first_large_chunk).
Proof.
  exact (MoveFromQuarantineToAvailable_counts one_allocated first_large_chunk
           WF_one_allocated (proj1 IsChunk_first_large_chunk)).
Defined.

(** ** The quarantine counter after a scan *)

Lemma CountStates_from_ext S St m m' : forall n i,
  (forall j, i <= j < i + Z.of_nat n -> Load8 m' (S + j) = Load8 m (S + j)) ->
  SuperPage.CountStates_from n i S St m' = SuperPage.CountStates_from n i S St m.
Proof.
  induction n as [|n IH]; intros i H; cbn [SuperPage.CountStates_from];
    [reflexivity|].
  rewrite (H i) by lia. f_equal. apply IH. intros j Hj. apply H. lia.
Qed.

Lemma CountStates_from_bounds S St m : forall n i,
  0 <= SuperPage.CountStates_from n i S St m <= Z.of_nat n.
Proof.
  induction n as [|n IH]; intros i; cbn [SuperPage.CountStates_from]; [lia|].
  specialize (IH (i + 1)). destruct (_ =? _); lia.
Qed.

Lemma u64_add_l a b : u64 (u64 a + b) = u64 (a + b).
Proof. unfold u64. apply Zplus_mod_idemp_l. Qed.

Section Accounting.
Variable st : AllocatorState.
Hypothesis W : WF st.

Lemma SameClasses_frame m m' :
  SameClasses st m -> (forall x, ~ IsCell st x -> Load8 m' x = Load8 m x) ->
  SameClasses st m'.
Proof.
  intros HC H SP V. rewrite <- (HC SP V).
  destruct (ValidSP_range st SP W V)
    as (_ & _ & _ & r & idx & Hr & Hidx & Hk & -> & _).
  rewrite !ClassOf_SPAddr by (try assumption; lia).
  apply H. intros C.
  apply (IsCell_place st _ W C) with (r := r) (idx := idx);
    try assumption; lia.
Qed.

Lemma QuarantinedIn_value m SP :
  ValidSP st SP -> SameClasses st m ->
  let d := DescrOf (Memory st) SP in
  QuarantinedIn m SP
  = ChunkSize d
    * SuperPage.CountStates_from (Z.to_nat (NumChunks d)) 0
        (SuperPage.State (NumChunks d) (RangeNum d) SP) QUARANTINED m.
Proof.
  intros V HC d. unfold QuarantinedIn, DescrOf. rewrite (HC SP V). reflexivity.
Qed.

Lemma QuarantinedIn_ext m m' SP :
  ValidSP st SP -> SameClasses st m -> SameClasses st m' ->
  (forall i, 0 <= i < NumChunks (DescrOf (Memory st) SP) ->
     Load8 m' (CellOf (Memory st) SP i) = Load8 m (CellOf (Memory st) SP i)) ->
  QuarantinedIn m' SP = QuarantinedIn m SP.
Proof.
  intros V HC HC' H. rewrite !QuarantinedIn_value by assumption. cbv zeta.
  destruct (ValidSP_range st SP W V) as (_ & _ & G & _).
  pose proof (good_num _ G) as Hn.
  f_equal. apply CountStates_from_ext. intros j Hj.
  rewrite Z2Nat.id in Hj by lia. apply (H j). lia.
Qed.

Lemma QuarantinedIn_bounds m SP :
  ValidSP st SP -> SameClasses st m -> 0 <= QuarantinedIn m SP <= kSuperPageSize.
Proof.
  intros V HC. rewrite QuarantinedIn_value by assumption. cbv zeta.
  destruct (ValidSP_range st SP W V) as (_ & _ & G & _).
  set (d := DescrOf (Memory st) SP) in *.
  pose proof (good_num _ G) as Hn. pose proof (good_size _ G) as Hs.
  pose proof (good_fit _ G) as Hf.
  pose proof (SizeOfInlineMeta_nonneg (NumChunks d) (RangeNum d)) as H0.
  pose proof (CountStates_from_bounds
                (SuperPage.State (NumChunks d) (RangeNum d) SP) QUARANTINED m
                (Z.to_nat (NumChunks d)) 0) as Hc.
  rewrite Z2Nat.id in Hc by lia.
  set (c := SuperPage.CountStates_from _ _ _ _ _) in *.
  assert (ChunkSize d * c <= ChunkSize d * NumChunks d)
    by (apply Z.mul_le_mono_nonneg_l; lia).
  assert (0 <= ChunkSize d * c) by (apply Z.mul_nonneg_nonneg; lia).
  consts. lia.
Qed.

Lemma QuarantinedBytes_ext r m m' : forall n k,
  IsRange r -> 0 <= k -> k + Z.of_nat n <= NumSuperPages st r ->
  SameClasses st m -> SameClasses st m' ->
  (forall x, CellsOfRange st r k (k + Z.of_nat n) x -> Load8 m' x = Load8 m x) ->
  QuarantinedBytes n r k m' = QuarantinedBytes n r k m.
Proof.
  induction n as [|n IH]; intros k Hr Hk Hn HC HC' H;
    cbn [QuarantinedBytes]; [reflexivity|].
  assert (V : ValidSP st (SPAddr r k))
    by (exists r, k; repeat split; try assumption; lia).
  f_equal.
  - apply QuarantinedIn_ext; try assumption.
    intros i Hi. apply H. exists k, i. repeat split; try assumption; lia.
  - apply IH; try assumption; try lia.
    intros x (idx & i & Hidx & Hi & ->). apply H. exists idx, i.
    repeat split; try assumption; lia.
Qed.

Lemma QuarantinedBytes_bounds r m : forall n k,
  IsRange r -> 0 <= k -> k + Z.of_nat n <= NumSuperPages st r ->
  SameClasses st m ->
  0 <= QuarantinedBytes n r k m <= Z.of_nat n * kSuperPageSize.
Proof.
  induction n as [|n IH]; intros k Hr Hk Hn HC; cbn [QuarantinedBytes]; [lia|].
  assert (V : ValidSP st (SPAddr r k))
    by (exists r, k; repeat split; try assumption; lia).
  pose proof (QuarantinedIn_bounds m _ V HC).
  specialize (IH (k + 1) Hr ltac:(lia) ltac:(lia) HC). lia.
Qed.

(** The sum the inner loop of [PostScan] has accumulated is the number
    of quarantined bytes in the memory it leaves. *)
Lemma PostScanRange_bytes r n : forall k B m B' m',
  IsRange r -> 0 <= k -> k + Z.of_nat n <= NumSuperPages st r ->
  SameClasses st m -> 0 <= B < 2 ^ 64 ->
  Allocator.PostScanRange n r k (SCDescr st) B m = Ret (B', m') ->
  B' = u64 (B + QuarantinedBytes n r k m') /\
  SameClasses st m' /\
  (forall x, ~ CellsOfRange st r k (k + Z.of_nat n) x ->
     Load8 m' x = Load8 m x).
Proof.
  induction n as [|n IH]; intros k B m B' m' Hr Hk Hn HC HB H.
  - cbn in H. apply Ret_inj in H. inversion H; subst.
    cbn [QuarantinedBytes]. rewrite Z.add_0_r.
    split; [now rewrite u64_small|]. split; [exact HC|reflexivity].
  - pose proof (wf_num _ W r Hr) as HN.
    assert (V : ValidSP st (SPAddr r k))
      by (exists r, k; repeat split; try assumption; lia).
    destruct (ValidSP_range st _ W V) as (_ & Hsp & G & _).
    pose proof (good_num _ G) as Hnum.
    (* the frame of the whole run *)
    destruct (PostScanRange_spec st W r (S n) k B m Hr Hk Hn HC)
      as (B0 & m0 & E0 & _ & Hout0).
    rewrite H in E0. apply Ret_inj in E0. inversion E0; subst B0 m0.
    assert (HC' : SameClasses st m').
    { apply (SameClasses_frame m); [exact HC|].
      intros x Hx. apply Hout0. intros C. apply Hx.
      eapply CellsOfRange_IsCell; try exact C; try assumption; lia. }
    split; [|split; [exact HC'|exact Hout0]].
    (* one step *)
    cbn [Allocator.PostScanRange] in H.
    rewrite GetSuperPage_valid in H by (try assumption; lia).
    cbn [bind] in H.
    unfold SuperPage.CountQuarantined, SuperPage.CountAvailable in H.
    destruct (CountStates_ok (SCDescr st) QUARANTINED m _ Hsp) as (c1 & E1).
    destruct (CountStates_ok (SCDescr st) AVAILABLE m _ Hsp) as (c2 & E2).
    rewrite E1, E2 in H. cbn [bind] in H.
    rewrite GetSCD_ok in H by assumption. cbn [bind] in H.
    destruct (Move_valid st W m _ V HC) as (m1 & EM & Hin & Hout).
    rewrite EM in H. cbn [bind] in H.
    assert (HC1 : SameClasses st m1).
    { apply (SameClasses_frame m); [exact HC|].
      intros x Hx. apply Hout. intros i Hi ->. apply Hx.
      exists (SPAddr r k), i. now repeat split. }
    unfold SuperPage.CountStates in H.
    rewrite GetSCD_ok in H by assumption. cbn [bind] in H.
    rewrite (HC _ V), (HC1 _ V), (wf_tbl _ W) in H.
    fold (DescrOf (Memory st) (SPAddr r k)) in H.
    set (d := DescrOf (Memory st) (SPAddr r k)) in *.
    set (c3 := SuperPage.CountStates_from _ _ _ _ m1) in H.
    rewrite <- (wf_tbl _ W) in H.
    destruct (IH (k + 1) _ m1 B' m' Hr ltac:(lia) ltac:(lia) HC1
                (u64_range _) H) as (EB & _ & Hout').
    rewrite EB. cbn [QuarantinedBytes]. rewrite u64_add_l.
    f_equal. rewrite Z.add_assoc. f_equal. f_equal.
    rewrite (QuarantinedIn_ext m1 m' _ V HC1 HC').
    + rewrite QuarantinedIn_value by assumption. reflexivity.
    + intros i Hi. apply Hout'.
      intros (idx' & i' & Hidx' & Hi' & E).
      assert (V' : ValidSP st (SPAddr r idx'))
        by (exists r, idx'; repeat split; try assumption; lia).
      destruct (CellOf_inj st _ i _ i' W V V' Hi Hi' E) as [ESP _].
      apply SPAddr_inj in ESP; try assumption; lia.
Qed.

(** [PostScan] returns the number of quarantined bytes in the memory it
    leaves. *)
Lemma PostScan_bytes s B s' :
  SCDescr s = SCDescr st -> NumSuperPages s = NumSuperPages st ->
  SameClasses st (Memory s) ->
  Allocator.PostScan s = Ret (B, s') ->
  SameClasses st (Memory s') /\
  B = QuarantinedBytes (Z.to_nat (NumSuperPages st 0)) 0 0 (Memory s')
      + QuarantinedBytes (Z.to_nat (NumSuperPages st 1)) 1 0 (Memory s').
Proof.
  intros Et En HC H. unfold Allocator.PostScan, Allocator.GetNumSuperPages in H.
  rewrite Et, En in H.
  pose proof (wf_num _ W 0 ltac:(now left)) as HN0.
  pose proof (wf_num _ W 1 ltac:(now right)) as HN1.
  apply bind_Ret in H. destruct H as ([B1 m1] & E1 & H).
  apply bind_Ret in H. destruct H as ([B2 m2] & E2 & H).
  apply Ret_inj in H. inversion H; subst B s'. st_simpl.
  destruct (PostScanRange_bytes 0 (Z.to_nat (NumSuperPages st 0)) 0 0
              (Memory s) B1 m1 ltac:(now left)
              ltac:(lia) ltac:(lia) HC ltac:(consts; lia) E1)
    as (EB1 & HC1 & Hout1).
  destruct (PostScanRange_bytes 1 (Z.to_nat (NumSuperPages st 1)) 0 B1 m1
              B2 m2 ltac:(now right)
              ltac:(lia) ltac:(lia) HC1
              ltac:(rewrite EB1; apply u64_range) E2)
    as (EB2 & HC2 & Hout2).
  split; [exact HC2|].
  rewrite Z2Nat.id in Hout1, Hout2 by lia.
  assert (EQ : QuarantinedBytes (Z.to_nat (NumSuperPages st 0)) 0 0 m2
               = QuarantinedBytes (Z.to_nat (NumSuperPages st 0)) 0 0 m1).
  { apply QuarantinedBytes_ext; try assumption; try lia; [now left|].
    rewrite Z2Nat.id by lia.
    intros x (idx & i & Hidx & Hi & ->). apply Hout2.
    intros (idx' & i' & Hidx' & Hi' & E).
    assert (V : ValidSP st (SPAddr 0 idx))
      by (exists 0, idx; split; [now left|split; [lia|reflexivity]]).
    assert (V' : ValidSP st (SPAddr 1 idx'))
      by (exists 1, idx'; split; [now right|split; [lia|reflexivity]]).
    destruct (CellOf_inj st _ i _ i' W V V' Hi Hi' E) as [ESP _].
    apply SPAddr_inj in ESP; try lia; [now left|now right]. }
  pose proof (QuarantinedBytes_bounds 0 m2 (Z.to_nat (NumSuperPages st 0)) 0
                ltac:(now left) ltac:(lia) ltac:(lia) HC2) as Q0.
  pose proof (QuarantinedBytes_bounds 1 m2 (Z.to_nat (NumSuperPages st 1)) 0
                ltac:(now right) ltac:(lia) ltac:(lia) HC2) as Q1.
  rewrite Z2Nat.id in Q0, Q1 by lia.
  rewrite EB2, EB1, Z.add_0_l, u64_add_l, <- EQ.
  apply u64_small. revert HN0 HN1 Q0 Q1. consts. nia.
Qed.
End Accounting.



(** ** Releasing a super page to the system *)

Lemma CountStates_from_all S St m : forall n i,
  SuperPage.CountStates_from n i S St m = Z.of_nat n ->
  forall j, i <= j < i + Z.of_nat n -> Load8 m (S + j) = St.
Proof.
  induction n as [|n IH]; intros i H j Hj; [lia|].
  cbn [SuperPage.CountStates_from] in H.
  pose proof (CountStates_from_bounds S St m n (i + 1)) as Hb.
  destruct (Z.eqb_spec (Load8 m (S + i)) St) as [E | _]; [|lia].
  destruct (Z.eq_dec j i) as [-> | Hne]; [exact E|].
  apply (IH (i + 1)); lia.
Qed.

Lemma Load8_madvise m addr len x :
  Load8 (madvise_dontneed m addr len) x
  = if (addr <=? x) && (x <? addr + len) then 0 else Load8 m x.
Proof.
  unfold Load8, madvise_dontneed. now destruct (_ && _).
Qed.

Lemma ReleasePass_spec S f : forall n i m c,
  (forall j, i <= j < i + Z.of_nat n -> Load8 m (S + j) = AVAILABLE) ->
  (forall x, ~ (S + i <= x < S + i + Z.of_nat n) ->
     Load8 (snd (ReleasePass n i S f m c)) x = Load8 m x) /\
  (forall x, S + i <= x < S + i + Z.of_nat n ->
     Load8 (snd (ReleasePass n i S f m c)) x = RELEASING \/
     Load8 (snd (ReleasePass n i S f m c)) x = AVAILABLE).
Proof.
  induction n as [|n IH]; intros i m c H; cbn [ReleasePass].
  - split; [reflexivity|]. intros x Hx. lia.
  - destruct ((Load8 m (S + i) =? AVAILABLE) && negb (f (S + i))).
    + destruct (IH (i + 1) (Store8 m (S + i) RELEASING) (c + 1))
        as (Hout & Hin).
      { intros j Hj. rewrite Load8_Store8_other by lia. apply H. lia. }
      split.
      * intros x Hx. rewrite Hout by lia. apply Load8_Store8_other. lia.
      * intros x Hx. destruct (Z.eq_dec x (S + i)) as [-> | Hne].
        -- left. rewrite Hout by lia. apply Load8_Store8_same.
        -- apply Hin. lia.
    + destruct (IH (i + 1) m c) as (Hout & Hin).
      { intros j Hj. apply H. lia. }
      split.
      * intros x Hx. apply Hout. lia.
      * intros x Hx. destruct (Z.eq_dec x (S + i)) as [-> | Hne].
        -- right. rewrite Hout by lia. apply H. lia.
        -- apply Hin. lia.
Qed.


